(* ===== verification/_CoqProject ===== *)
-Q . S2P
Prelude.v
JsNumber.v
Async.v
JsMap.v
HashChain.v
Domain.v
Canonical.v
Pricing.v
HoldFee.v
Cancellation.v
BookingRepo.v
SlotRepo.v
Scheduling.v
Reschedule.v
Checkout.v
BookingService.v
BookingLifecycle.v
Recurring.v
EscrowEvents.v
BookingParse.v
EscrowProjector.v
EscrowListener.v
EscrowHoldings.v
PartialRelease.v
DualControl.v
Slashing.v
RefundApproval.v
Refunds.v
TaxRefund.v
Strikes.v
RefundLedger.v
Reversal.v
Redemption.v
Idempotency.v
Arbitration.v
Disputes.v
DisputeDesk.v
PayoutRetry.v
Settlement.v
RefundSettlement.v
Merkle.v
PartnerQuota.v
Roles.v
JsonText.v
KeyWrap.v
Transcripts.v
PayoutFees.v
AccessReview.v
Timezones.v
Recurrence.v
Subscriptions.v
Sweepers.v
EscrowDrift.v
