(* ===== verification/Prelude.v ===== *)
(** * ChronoPay backend: verification development

    The program is a TypeScript/Express service that sells time slots: buyers
    create booking intents for supplier slots, pay through checkout sessions, and
    the money is held in an escrow contract whose events are projected back onto the
    intents.  Sources are under [src/src/].  This library models the services that
    decide over bookings and money, and proves what makes them correct; where the
    code does not do what it means to, the theorem states what it does.

    ** How the program is modelled

    - A function that may throw is a function into [result] (this file); code that
      mutates an object and may throw half way is a state-and-error monad [M].
    - An asynchronous handler is a program ([Async.v]) whose events are its awaits
      and its calls to stores, clocks and outside services.  [run] executes one
      handler alone; [step] interleaves any number of handlers at their events.
      Programs are finite trees, so every handler terminates by construction.
    - JavaScript numbers are IEEE doubles ([JsNumber.v]), computed exactly and
      executable.  Epoch-millisecond times, counts and ledger sequences are
      integers; they are converted with [of_Z] where the code mixes them with
      numbers that may be fractional.
    - Strings are over the first 256 code points; [toLowerCase] and [toUpperCase]
      act on ASCII.  Maps and
      sets are [gmap] and [gset]; arrays are lists, searched and updated with
      [find_first] and [update_first].
    - Repositories are classes of operations with laws; the in-memory
      implementations are instances that discharge the laws, and the services are
      proved against the laws.
    - SHA-256, UUIDs, [toISOString], [Date.parse], JWT verification, the payment
      provider, Horizon, the exchange-rate provider and the contract client are parameters or answers
      of events, unconstrained unless a theorem says so.

    ** Files

    - [Prelude]: results, the monad [M], list, option and string lemmas, tactics.
    - [JsNumber]: doubles, rounding, [Math.round], [Math.max], comparison.
    - [Async]: programs, [run], weakest preconditions, interleavings, schedules.
    - [JsMap]: the insertion-ordered [Map].
    - [HashChain]: what the hash-chained ledgers share, and their verifier.
    - [Canonical]: the text of JSON values and the request hash of [utils/hash.ts].
    - [Domain]: records of [modules/booking-intents/booking-intent-repository.ts],
      [modules/slots/slot-repository.ts], [services/pricingStrategy.ts].
    - [Pricing]: [services/pricingStrategy.ts],
      [modules/booking-intents/pricing-snapshot.ts].
    - [HoldFee]: [services/holdFeePolicy.ts].
    - [Cancellation]: [services/cancellationPolicy.ts],
      [services/supplierCancellationOverrideStore.ts].
    - [BookingRepo], [SlotRepo]: the two repositories.
    - [Scheduling]: reservations and bundles of [services/schedulingService.ts];
      [Reschedule]: its planning and confirmation of reschedules of several legs.
    - [Checkout]: [services/checkout.ts],
      [modules/checkout/pg-checkout-session-repository.ts].
    - [BookingService]: [modules/booking-intents/booking-intent-service.ts] and its
      concurrent safety; [BookingLifecycle]: its requests one at a time;
      [Recurring]: recurring bookings and the rules engine of
      [services/schedulingService.ts]; [BookingParse]: the request parser.
    - [EscrowEvents], [EscrowProjector], [EscrowListener]: the [scheduler/escrow*.ts]
      pipeline from raw contract events to intent statuses.
    - [EscrowHoldings]: [services/escrowHoldingsService.ts], with its scheduled
      release; [PartialRelease]: [services/escrowPartialRelease.ts].
    - [DualControl]: the four-eyes rule as a transition system and an interface, which
      [Slashing] ([services/escrowSlashing.ts]) and [RefundApproval]
      ([services/partialRefundApprovalService.ts]) implement.
    - [Refunds]: [services/refund.ts] and its repository; [TaxRefund]:
      [services/taxRefundCalculator.ts].
    - [Strikes]: [services/strikeService.ts].
    - [Idempotency]: [middleware/idempotency.ts] with its storage keys
      ([middleware/idempotencyStorageKey.ts]) over an expiring store that may fail.
    - [Arbitration]: [services/disputeArbitrationQueue.ts] and
      [services/arbitratorAssignment.ts]; [Disputes]: [types/dispute.ts],
      [services/disputeAppeals.ts], [services/disputeDeadlineService.ts];
      [DisputeDesk]: the dispute handlers of [routes/admin.ts] over them.
    - [PayoutRetry]: [scheduler/payoutRetryPolicy.ts] and
      [services/quarantineStore.ts]; [Settlement]: the payout half of
      [services/settlementReconciler.ts] with the webhook of [routes/webhooks.ts]
      and the replays of [routes/admin.ts], as a machine whose inputs are what the
      event loop delivers; [RefundSettlement]: its refund half.
    - [RefundLedger]: supplier cancellations and the refund ledger of
      [services/schedulingService.ts].
    - [Reversal]: [modules/cancellation/cancellation-reversal-service.ts] over the
      in-memory and the PostgreSQL repository beside it; [Redemption]:
      [services/redemptionLedger.ts].
    - [Merkle]: [services/merkleTree.service.ts] and the anchoring of evidence in
      [services/disputeEvidenceAnchor.service.ts].
    - [PartnerQuota]: [services/partnerQuotaService.ts] against the interface of its
      two stores, the one in memory and the PostgreSQL one.
    - [Roles]: who may do what: [utils/jwt.ts], [middleware/jwtIdentity.ts],
      [middleware/rbac.ts], [services/permissionCatalog.ts]; [AccessReview]: the quarterly
      review of those grants, [services/accessReviewService.ts].
    - [JsonText]: the parser of JSON texts, inverse to [Canonical]; [KeyWrap]: the AES key
      wrap of the in-memory key service; [Transcripts]: the store of encrypted mediation
      transcripts, [services/disputeMediationTranscriptStore.ts], over the interface of
      key services.
    - [PayoutFees]: [services/instantPayoutFeeSchedule.ts] and
      [services/partialRefundCalculator.ts].
    - [Timezones]: [services/timezoneResolverService.ts]; [Recurrence]:
      [services/recurrenceService.ts], whose holiday analysis calls it.
    - [Subscriptions]: [services/subscriptionService.ts], its repositories and the batch that
      [scheduler/subscriptionSlotGenerator.ts] runs.
    - [Sweepers]: [scheduler/refundableHoldSweeper.ts] over the slots of [Scheduling], and
      [scheduler/holdAutoRefundWorker.ts] over [BookingService].
    - [EscrowDrift]: [services/escrowReader.ts], the quorum of readers
      ([services/escrowReaderPool.ts]) and the comparison of its vote with the local
      view ([services/escrowDriftReconciler.ts]), whose repository is a parameter.

    ** What is proved

    - Safety under concurrency: no double booking, also with recurring bookings and
      escrow events in between; agreed terms never change; a checkout session settles once; a
      booking has one open escrow hold, whose money leaves once; a stake is swept and
      a large refund paid only with two people's consent; a request with an idempotency key
      runs once; a settlement moves only on answers about its own transaction, and back from
      failed only with two admins.  Races are exhibited as schedules: a charge for
      a cancelled session, two successful refunds of an intent, refunds beyond the captured
      amount, two reversals of one booking, a scheduled release cut short, an overturned
      ruling reversed twice, a refund submitted to the chain twice.
    - Money: refunds are bounded and monotone in the notice, the tier selected is the one whose
      window contains the notice, preview and refund agree, duration refunds are
      proportional, prices are monotone in time and demand; milestone releases and refunds
      made in turn conserve money and stay within hold and captured amount; tax refunds are
      exact floors of the refunded share; the dispute ledgers follow the rulings, and take
      back what an overturned ruling moved if one was given; a refund is on chain at most once
      more than its answer was lost or a finality check did not report it as successful.
    - Contracts: creation, every request's effect, the life cycle, authorisation,
      bundle atomicity, the settlement rule of checkout, the projector's decision
      table, the listener's tick, strikes and suspensions, recurring series,
      reschedules (planned options are feasible and least disruptive, confirmation
      is atomic unless the escrow is paused).
    - Disputes: life cycles, finality chains, independent panels, deadline scans and
      their reversal, arbitrators assigned in turn and without conflicts of interest.
    - Payouts: the backoff stays inside its window, the quarantine counts failures since
      the last release, retries stay within their budget, fork alerts are exact.
    - Access: a request passes the role guard exactly with a valid token whose role reaches
      a required one; role hierarchies are exactly the closure of the roles file, cycles
      and undeclared roles refused; permissions are decided by the grants of the role; a
      review snapshot records those grants; a partner gets exactly its quota in memory
      and no limit at all on PostgreSQL.
    - Evidence and transcripts: no Merkle proof can be forged without a hash collision; a
      transcript segment reads back unchanged until its retention window closes, and
      the sweep wipes exactly the segments whose window has closed.  The in-memory key
      wrap is not inverted by its unwrap.
    - Fees and calendars: monthly fee caps hold over any sequence of payouts, in whole units; the expansion of a
      recurrence rule partitions its occurrences; the two holiday analyses and the
      two time-zone resolvers agree.
    - Workers: the sweeper of holds selects a fair batch over the tenants and gives up
      exactly that; a turn of the refund worker, alone and with a clock not behind its listing,
      refunds exactly the first batch of the expired holds, never one twice; a subscriber has one live subscription to a product
      whatever is served, and a minted slot is followed back to back by the next.
    - Escrow drift, with the default threshold and distinct readers: with an odd number of healthy readers the majority is exactly what more
      than half of them report, with an even number half of them is enough; a tick reports
      exactly the slots whose local view disagrees with it; with the readers as they are
      written it reports every slot with a known transaction.
    - Termination: between bounds within 2^51 ms of 1970 the planner's search ends when its
      step is at least a millisecond and never when it is zero or negative (a step below one
      can be absorbed by rounding); the expansion of a subscription rule runs forever exactly when its interval is 0 and its
      count does not stop it.
    - Round trips: create and cancel, reserve and release, validation of rendered
      pages, encrypted segments, CSV fields, JSON texts.
    - Integrity: the refund, reversal and redemption ledgers verify after any
      history; the refund ledger's tail hash commits to it; the reversal ledger
      balances: over the in-memory repository, with serial appends.  On PostgreSQL the reversal chain neither verifies nor extends to a second
      payment.

    ** Bounds

    Theorems about amounts assume integers of cents up to [2^50] (so that sums of a few of
    them stay below [2^53], where doubles are exact), times up to [2^52] milliseconds, ratios in [[0, 1]];
    outside of these the definitions still compute, but no closed form is claimed.
    Backoff ceilings are at most [2^52] ms, random draws at most [1 - 2^-53].
    Quotients of tax refunds are exact for products up to [2^52]; holds of milestones are below [2^53].
    Fuel: the search loop of the planner need not end; where its termination is proved,
    [2^53 + 2] units are enough.  Role resolution has one unit for each declared role and one
    more: a path of implied roles without repetition is no longer, and a repetition is an error
    (proved).  Merkle levels have the length of the batch, which halves at every level; the
    JSON parser and the search for EXDATE lines the length of the text, of which every
    round consumes a character.  The fair selection has one unit for each candidate and one
    more, since every pass but the last selects one; the expansion of a subscription rule
    the number of steps to its horizon plus its count, proved to be enough whenever the
    code returns.

    ** Not modelled

    Audit events, metrics, logging, tracing and emitted events; routes; SQL
    repositories other than those of checkout sessions, refunds and reversals; the RRULE library, AES and GCM, HMAC and [Intl], which are parameters; the per-buyer lock of the strike service
    (its critical sections contain no await, so operations are atomic); the services listed as not
    modelled in the manifest (fraud, search, second factors and OAuth, privacy, the outbox,
    reminders), which do not take part in the booking, escrow, dispute and payout core. *)
From stdpp Require Import base list strings gmap.
From Stdlib Require Import ZArith Lia.

(** ** Results

    A handler that may throw is a function into [result E A]: [Err] carries
    the thrown error value. *)
Inductive result (E A : Type) : Type :=
| Ok (a : A)
| Err (e : E).

Arguments Ok {E A} a.
Arguments Err {E A} e.

#[export] Instance result_ret {E} : MRet (result E) := fun A a => Ok a.
#[export] Instance result_bind {E} : MBind (result E) :=
  fun A B f m => match m with Ok a => f a | Err e => Err e end.

Definition is_ok {E A} (r : result E A) : bool :=
  match r with Ok _ => true | Err _ => false end.

(** [throw_if c e] is the guard [if (c) throw e]. *)
Definition throw_if {E} (c : bool) (e : E) : result E unit :=
  if c then Err e else Ok tt.

Definition from_option_or {E A} (o : option A) (e : E) : result E A :=
  match o with Some a => Ok a | None => Err e end.

(** [catch r h] is [try { r } catch (e) { h(e) }]. *)
Definition catch {E F A} (r : result E A) (h : E -> result F A) : result F A :=
  match r with Ok a => Ok a | Err e => h e end.

Lemma bind_ok {E A B} (m : result E A) (f : A -> result E B) b :
  m ≫= f = Ok b <-> exists a, m = Ok a /\ f a = Ok b.
Proof. destruct m; simpl; split; [eauto | intros (?&?&?); congruence | discriminate | intros (?&?&?); congruence]. Qed.

Lemma throw_if_ok {E} c (e : E) : throw_if c e = Ok tt <-> c = false.
Proof. destruct c; simpl; split; congruence. Qed.

Lemma from_option_or_ok {E A} (o : option A) (e : E) a :
  from_option_or o e = Ok a <-> o = Some a.
Proof. destruct o; simpl; split; congruence. Qed.

Lemma if_mret {E A} (c : bool) (x y z : A) :
  (if c then mret x else mret y : result E A) = Ok z -> z = if c then x else y.
Proof. destruct c; injection 1; auto. Qed.

(** [inv_ok] turns every hypothesis "this handler returned normally" into the
    facts its guards checked. *)
Ltac inv_ok :=
  repeat match goal with
  | H : mret _ = Ok _ |- _ => injection H as H
  | H : Ok _ = Ok _ |- _ => injection H as H
  | H : Err _ = Ok _ |- _ => discriminate H
  | H : throw_if _ _ = Ok ?u |- _ => destruct u; apply throw_if_ok in H
  | H : from_option_or _ _ = Ok _ |- _ => apply from_option_or_ok in H
  | H : mbind _ _ = Ok _ |- _ => apply bind_ok in H as (? & ? & ?)
  end.

(** ** Searching and updating arrays

    [Array.prototype.find], and the update in place of the element
    [Array.prototype.findIndex] designates. *)
Section FindUpdate.
Context {A : Type}.
Implicit Types (p : A -> bool) (f : A -> A) (l : list A).

Fixpoint find_first (p : A -> bool) (l : list A) : option A :=
  match l with
  | [] => None
  | x :: l' => if p x then Some x else find_first p l'
  end.

Fixpoint update_first (p : A -> bool) (f : A -> A) (l : list A) : list A :=
  match l with
  | [] => []
  | x :: l' => if p x then f x :: l' else x :: update_first p f l'
  end.

Lemma find_first_Some p l x : find_first p l = Some x -> p x = true /\ x ∈ l.
Proof.
  induction l as [|y l IH]; simpl; [done|]. destruct (p y) eqn:E.
  - intros [= ->]. split; [done|]. constructor.
  - intros [? ?]%IH. split; [done|]. by constructor.
Qed.

Lemma find_first_None p l : find_first p l = None <-> (forall x, x ∈ l -> p x = false).
Proof.
  induction l as [|y l IH]; simpl; [set_solver|]. destruct (p y) eqn:E.
  - split; [done|]. intros H. specialize (H y ltac:(constructor)). congruence.
  - rewrite IH. set_solver.
Qed.

Lemma find_first_app p l1 l2 :
  find_first p (l1 ++ l2) =
  match find_first p l1 with Some x => Some x | None => find_first p l2 end.
Proof. induction l1 as [|x l1 IH]; simpl; [done|]. by destruct (p x). Qed.

Lemma find_update_first_eq p f l x :
  find_first p l = Some x -> p (f x) = true ->
  find_first p (update_first p f l) = Some (f x).
Proof.
  intros H Hf. induction l as [|y l IH]; simpl in *; [done|].
  destruct (p y) eqn:E; simpl.
  - simplify_eq. by rewrite Hf.
  - rewrite E. auto.
Qed.

(** Updating the element [p] finds does not disturb a search for elements [p]
    never matches. *)
Lemma find_update_first_ne p q f l :
  (forall x, p x = true -> q x = false /\ q (f x) = false) ->
  find_first q (update_first p f l) = find_first q l.
Proof.
  intros Hpq. induction l as [|y l IH]; simpl; [done|].
  destruct (p y) eqn:E; simpl.
  - destruct (Hpq y E) as [-> ->]. done.
  - by rewrite IH.
Qed.

Lemma update_first_None p f l : find_first p l = None -> update_first p f l = l.
Proof.
  induction l as [|y l IH]; simpl; [done|]. destruct (p y); [done|].
  intros. by rewrite IH.
Qed.

Lemma length_update_first p f l : length (update_first p f l) = length l.
Proof. induction l as [|y l IH]; simpl; [done|]. destruct (p y); simpl; lia. Qed.

Lemma map_update_first {B} (g : A -> B) p f l :
  (forall x, p x = true -> g (f x) = g x) -> map g (update_first p f l) = map g l.
Proof.
  intros Hg. induction l as [|y l IH]; simpl; [done|].
  destruct (p y) eqn:E; simpl; [by rewrite Hg|by rewrite IH].
Qed.

Lemma elem_of_update_first p f l y :
  y ∈ update_first p f l ->
  y ∈ l \/ exists x, find_first p l = Some x /\ y = f x.
Proof.
  induction l as [|x l IH]; simpl; [by left|]. destruct (p x) eqn:E.
  - rewrite !elem_of_cons. intros [->|?]; [right; eauto|left; by right].
  - rewrite !elem_of_cons. intros [->|[?|?]%IH]; auto.
Qed.

Lemma update_first_comm p q f g l :
  (forall x, p x = true -> q x = false) ->
  (forall x, p (g x) = p x) -> (forall x, q (f x) = q x) ->
  update_first p f (update_first q g l) = update_first q g (update_first p f l).
Proof.
  intros Hpq Hp Hq. induction l as [|x l IH]; simpl; [done|].
  destruct (q x) eqn:Eq, (p x) eqn:Ep; simpl; rewrite ?Hp, ?Hq, ?Ep, ?Eq; try done.
  - rewrite (Hpq x Ep) in Eq. done.
  - by rewrite IH.
Qed.

(** Filtering after an update that removes the updated element from the filter. *)
Lemma filter_update_first_out p q f l :
  (forall x, p x = true -> q (f x) = false) ->
  List.filter q (update_first p f l) `sublist_of` List.filter q l.
Proof.
  intros H. induction l as [|x l IH]; simpl; [done|]. destruct (p x) eqn:E; simpl.
  - rewrite (H x E). destruct (q x); [by constructor|done].
  - destruct (q x); [by constructor|done].
Qed.

End FindUpdate.

Create HintDb jsnum.

(** ** Strings *)

Section Strings.
Local Open Scope string_scope.

Definition is_js_space (c : Ascii.ascii) : bool :=
  let n := Ascii.nat_of_ascii c in
  (Nat.leb 9 n && Nat.leb n 13) || Nat.eqb n 32 || Nat.eqb n 160.

Fixpoint trim_start (s : string) : string :=
  match s with
  | EmptyString => EmptyString
  | String c s' => if is_js_space c then trim_start s' else s
  end.

Fixpoint all_space (s : string) : bool :=
  match s with
  | EmptyString => true
  | String c s' => is_js_space c && all_space s'
  end.

Fixpoint trim_end (s : string) : string :=
  match s with
  | EmptyString => EmptyString
  | String c s' => if all_space s then EmptyString else String c (trim_end s')
  end.

(** [String.prototype.trim]; beyond ASCII, of the first 256 code points only the
    no-break space is white space. *)
Definition js_trim (s : string) : string := trim_end (trim_start s).

Lemma trim_start_head s : trim_start s = EmptyString \/
  exists c s', trim_start s = String c s' /\ is_js_space c = false.
Proof.
  induction s as [|c s IH]; simpl; [by left|]. destruct (is_js_space c) eqn:E; [done|]. right. by exists c, s.
Qed.

Lemma trim_end_idem s : trim_end (trim_end s) = trim_end s.
Proof.
  induction s as [|c s IH]; [done|]. simpl. destruct (is_js_space c && all_space s) eqn:E; [done|].
  simpl. rewrite IH. destruct (is_js_space c && all_space (trim_end s)) eqn:E'; [|done].
  exfalso. apply andb_true_iff in E' as [Hc Hs]. rewrite Hc in E. simpl in E.
  assert (all_space s = all_space (trim_end s)) as Heq; [|congruence].
  clear. induction s as [|d s IH]; [done|]. simpl. destruct (is_js_space d && all_space s) eqn:E; [done|].
  simpl. by rewrite <- IH, E.
Qed.

Lemma js_trim_idem s : js_trim (js_trim s) = js_trim s.
Proof.
  unfold js_trim. destruct (trim_start_head s) as [->|(c & s' & -> & Hc)]; [done|].
  assert (trim_end (String c s') = String c (trim_end s')) as -> by (simpl; by rewrite Hc).
  simpl. rewrite Hc. simpl. rewrite Hc. simpl. by rewrite trim_end_idem.
Qed.

Definition is_empty_string (s : string) : bool :=
  match s with EmptyString => true | _ => false end.

(** [!s || s.trim() === ""]: the empty string trims to itself. *)
Definition blank (s : string) : bool := is_empty_string (js_trim s).

(** A string is truthy when it is not empty. *)
Definition str_truthy (s : string) : bool := negb (is_empty_string s).

(** [String.prototype.toLowerCase] on ASCII. *)
Definition lower_ascii (c : Ascii.ascii) : Ascii.ascii :=
  let n := Ascii.nat_of_ascii c in
  if Nat.leb 65 n && Nat.leb n 90 then Ascii.ascii_of_nat (n + 32) else c.

Fixpoint to_lower (s : string) : string :=
  match s with
  | EmptyString => EmptyString
  | String c s' => String (lower_ascii c) (to_lower s')
  end.

(** [String.prototype.toUpperCase] on ASCII. *)
Definition upper_ascii (c : Ascii.ascii) : Ascii.ascii :=
  let n := Ascii.nat_of_ascii c in
  if (Nat.leb 97 n && Nat.leb n 122)%bool then Ascii.ascii_of_nat (n - 32) else c.

Fixpoint to_upper (s : string) : string :=
  match s with EmptyString => EmptyString | String c s' => String (upper_ascii c) (to_upper s') end.

End Strings.

Lemma string_app_inj (a b c d : string) :
  String.length a = String.length b -> (a +:+ c = b +:+ d)%string -> a = b /\ c = d.
Proof.
  revert b. induction a as [|x a IH]; intros [|y b] Hl; simpl in Hl; try done.
  intros Heq. injection Heq as -> Heq. destruct (IH b) as [-> ->]; [lia|done|done].
Qed.

Lemma str_length_app (a b : string) : String.length (a +:+ b) = (String.length a + String.length b)%nat.
Proof. induction a as [|x a IH]; [done|]. simpl. by f_equal. Qed.

Lemma string_app_inj_r (a b c d : string) :
  String.length c = String.length d -> (a +:+ c = b +:+ d)%string -> a = b /\ c = d.
Proof.
  intros Hl Heq. apply string_app_inj; [|done]. apply (f_equal String.length) in Heq. rewrite !str_length_app in Heq. lia.
Qed.

Lemma str_app_assoc (a b c : string) : ((a +:+ b) +:+ c = a +:+ b +:+ c)%string.
Proof. unfold String.append. induction a as [|x a IH]; [done|]. by f_equal. Qed.

(** ** Stable sorting: [Array.prototype.sort] with a comparator.

    [gt x y] is the sign test [compare(x, y) > 0].  Insertion from the right
    keeps the order of elements that compare equal, as the language demands. *)
Section Sorting.
Context {A : Type} (gt : A -> A -> bool).

Fixpoint insert_sorted (x : A) (l : list A) : list A :=
  match l with
  | [] => [x]
  | y :: l' => if gt x y then y :: insert_sorted x l' else x :: l
  end.

Fixpoint js_sort (l : list A) : list A :=
  match l with
  | [] => []
  | x :: l' => insert_sorted x (js_sort l')
  end.

Lemma insert_sorted_perm x l : insert_sorted x l ≡ₚ x :: l.
Proof.
  induction l as [|y l IH]; simpl; [done|]. destruct (gt x y); [|done].
  rewrite IH. apply Permutation_swap.
Qed.

Lemma js_sort_perm l : js_sort l ≡ₚ l.
Proof. induction l as [|x l IH]; simpl; [done|]. by rewrite insert_sorted_perm, IH. Qed.

Lemma js_sort_elem l x : x ∈ js_sort l <-> x ∈ l.
Proof. by rewrite js_sort_perm. Qed.

(** When [gt] is the strict part of a total preorder on the elements, the
    output is ordered: no element compares greater than a later one. *)
Context (P : A -> Prop).
Hypothesis gt_asym : forall x y, P x -> P y -> gt x y = true -> gt y x = false.
Hypothesis gt_trans : forall x y z, P x -> P y -> P z ->
  gt x y = false -> gt y z = false -> gt x z = false.

Fixpoint ordered (l : list A) : Prop :=
  match l with
  | [] => True
  | x :: l' => (forall y, y ∈ l' -> gt x y = false) /\ ordered l'
  end.

Lemma insert_sorted_ordered x l :
  P x -> (forall y, y ∈ l -> P y) -> ordered l -> ordered (insert_sorted x l).
Proof.
  intros Px. induction l as [|y l IH]; simpl.
  { intros _ _. split; [|done]. intros ? Hin. inversion Hin. }
  intros Pl [Hy Hl]. destruct (gt x y) eqn:E; simpl.
  - split; [|apply IH; [|done]; intros; apply Pl; by constructor].
    intros z. rewrite insert_sorted_perm, elem_of_cons. intros [->|Hz]; [|by apply Hy].
    apply gt_asym; [done| |done]. apply Pl. constructor.
  - split; [|done]. intros z. rewrite elem_of_cons. intros [->|Hz]; [done|].
    apply gt_trans with y; [done|apply Pl; constructor|apply Pl; by constructor|done|by apply Hy].
Qed.

Lemma js_sort_ordered l : (forall y, y ∈ l -> P y) -> ordered (js_sort l).
Proof.
  induction l as [|x l IH]; simpl; intros Pl; [done|].
  apply insert_sorted_ordered.
  - apply Pl. constructor.
  - intros y. rewrite js_sort_elem. intros. apply Pl. by constructor.
  - apply IH. intros. apply Pl. by constructor.
Qed.

Lemma ordered_lookup l i j x y :
  ordered l -> (i < j)%nat -> l !! i = Some x -> l !! j = Some y -> gt x y = false.
Proof.
  revert i j. induction l as [|z l IH]; intros i j; [done|]. intros [Hz Ho] Hij Hx Hy.
  destruct j as [|j]; [lia|]. destruct i as [|i]; simpl in *; [|by apply (IH i j); [|lia|..]].
  simplify_eq. apply Hz. by eapply list_elem_of_lookup_2.
Qed.

(** A prefix of an ordered list is ordered, and nothing after it is smaller. *)
Lemma ordered_app l1 l2 :
  ordered (l1 ++ l2) -> ordered l1 /\ forall x y, x ∈ l1 -> y ∈ l2 -> gt x y = false.
Proof.
  induction l1 as [|z l1 IH]; simpl; [split; [done|]; by intros ? ? ?%elem_of_nil|].
  intros [Hz [Ho Hlt]%IH]. split; [split; [|done]|].
  - intros y Hy. apply Hz. apply elem_of_app. by left.
  - intros x y [->|Hx]%elem_of_cons Hy; [|by apply Hlt]. apply Hz. apply elem_of_app. by right.
Qed.

End Sorting.

(** ** Stateful handlers that may throw

    [M S E A]: run from a state, give the returned value or the thrown error,
    and the state left behind in either case (mutations made before a throw
    persist). *)
Definition M (S E A : Type) : Type := S -> result E A * S.

#[export] Instance M_ret {S E} : MRet (M S E) := fun A a s => (Ok a, s).
#[export] Instance M_bind {S E} : MBind (M S E) :=
  fun A B f m s =>
    match m s with
    | (Ok a, s') => f a s'
    | (Err e, s') => (Err e, s')
    end.

Section StateOps.
Context {S E : Type}.

Definition get : M S E S := fun s => (Ok s, s).
Definition put (s : S) : M S E unit := fun _ => (Ok tt, s).
Definition run_with {A} (f : S -> result E A * S) : M S E A := f.
Definition modify (f : S -> S) : M S E unit := fun s => (Ok tt, f s).
Definition raise {A} (e : E) : M S E A := fun s => (Err e, s).
Definition guard (c : bool) (e : E) : M S E unit := if c then raise e else mret tt.
Definition of_result {A} (r : result E A) : M S E A := fun s => (r, s).
Definition of_option {A} (o : option A) (e : E) : M S E A :=
  fun s => (from_option_or o e, s).

(** [try { m } catch (e) { h(e) }]: the handler runs in the state of the throw. *)
Definition try_catch {A} (m : M S E A) (h : E -> M S E A) : M S E A :=
  fun s => match m s with (Ok a, s') => (Ok a, s') | (Err e, s') => h e s' end.

(** [for (const x of l) { f(x) }]. *)
Fixpoint for_each {A} (f : A -> M S E unit) (l : list A) : M S E unit :=
  match l with
  | [] => mret tt
  | x :: l' => f x ≫= fun _ => for_each f l'
  end.

Lemma M_bind_ok {A B} (m : M S E A) (f : A -> M S E B) s b s' :
  (m ≫= f) s = (Ok b, s') <-> exists a s1, m s = (Ok a, s1) /\ f a s1 = (Ok b, s').
Proof.
  unfold mbind, M_bind. destruct (m s) as [[a|e] s1]; split.
  - eauto.
  - intros (?&?&?&?). by simplify_eq.
  - discriminate.
  - intros (?&?&?&?). by simplify_eq.
Qed.

Lemma M_bind_err {A B} (m : M S E A) (f : A -> M S E B) s e s' :
  (m ≫= f) s = (Err e, s') <->
  m s = (Err e, s') \/ exists a s1, m s = (Ok a, s1) /\ f a s1 = (Err e, s').
Proof.
  unfold mbind, M_bind. destruct (m s) as [[a|e'] s1]; split.
  - right; eauto.
  - intros [?|(?&?&?&?)]; by simplify_eq.
  - left. by simplify_eq.
  - intros [?|(?&?&?&?)]; by simplify_eq.
Qed.

Lemma guard_ok c e s u s' : guard c e s = (Ok u, s') <-> c = false /\ s' = s /\ u = tt.
Proof. destruct c, u; unfold guard, raise, mret, M_ret; split; naive_solver. Qed.

Lemma guard_err c e s e' s' : guard c e s = (Err e', s') <-> c = true /\ e' = e /\ s' = s.
Proof. destruct c; unfold guard, raise, mret, M_ret; split; naive_solver. Qed.

Lemma for_each_app {A} (f : A -> M S E unit) l1 l2 s s' :
  for_each f (l1 ++ l2) s = (Ok tt, s') <->
  exists s1, for_each f l1 s = (Ok tt, s1) /\ for_each f l2 s1 = (Ok tt, s').
Proof.
  revert s. induction l1 as [|x l1 IH]; intros s; simpl.
  - split; [eauto|]. by intros (? & [= <-] & ?).
  - rewrite M_bind_ok. split.
    + intros ([] & s1 & H1 & (s2 & H2 & H3)%IH). exists s2. split; [|done].
      apply M_bind_ok. eauto.
    + intros (s2 & ([] & s1 & H1 & H2)%M_bind_ok & H3). exists tt, s1. split; [done|].
      apply IH. eauto.
Qed.

End StateOps.

Lemma filter_update_first_le {A} (p q : A -> bool) f l :
  (forall x, p x = true -> q (f x) = true -> q x = true) ->
  (length (List.filter q (update_first p f l)) <= length (List.filter q l))%nat.
Proof.
  intros H. induction l as [|x l IH]; simpl; [done|]. destruct (p x) eqn:Ep; simpl.
  - specialize (H x Ep). destruct (q (f x)), (q x); simpl; lia.
  - destruct (q x); simpl; lia.
Qed.

Lemma find_first_filter {A} (q : A -> bool) l :
  find_first q l = None <-> List.filter q l = [].
Proof.
  induction l as [|x l IH]; simpl; [done|]. destruct (q x); [done|]. apply IH.
Qed.
