(* ===== verification/JsNumber.v ===== *)
(** * JsNumber: the JavaScript number type

    JavaScript numbers are IEEE-754 binary64 values.  Every finite double is an
    integer multiple of [2^-1074], so a finite double [v] is represented by the
    integer [v * 2^1074]; Leibniz equality and the order of [Z] are then the
    equality and order of the doubles.  Arithmetic is exact rational arithmetic
    followed by [rnd], rounding to nearest, ties to even, at 53 significant bits
    (and at the unit [2^-1074] in the subnormal range); results of magnitude
    [2^1024] and above become infinities.  The two zeros are identified: they
    differ only under division by zero, which no modelled code performs. *)
From stdpp Require Import base decidable numbers.
From Stdlib Require Import ZArith Lia Zquot.
From S2P Require Import Prelude.
Local Open Scope Z_scope.

(** ** Rounding *)

(** Euclidean division that first strips the factors of two of the divisor: all
    divisors here are multiples of large powers of two, so that the definitions
    below evaluate quickly.  [zdiv] and [zmod] are [Z.div] and [Z.modulo]. *)
Fixpoint div_eucl_pos (n : Z) (d : positive) : Z * Z :=
  match d with
  | xO d' =>
      let '(q, r) := div_eucl_pos (Z.div2 n) d' in
      (q, Z.double r + (if Z.odd n then 1 else 0))
  | xH => (n, 0)
  | xI _ => Z.div_eucl n (Zpos d)
  end.

Definition zdiv (n d : Z) : Z := match d with Zpos p => fst (div_eucl_pos n p) | _ => n / d end.
Definition zmod (n d : Z) : Z := match d with Zpos p => snd (div_eucl_pos n p) | _ => n mod d end.

Lemma div_eucl_pos_spec n d :
  n = Zpos d * fst (div_eucl_pos n d) + snd (div_eucl_pos n d) /\ 0 <= snd (div_eucl_pos n d) < Zpos d.
Proof.
  revert n. induction d as [d _|d IH|]; intros n.
  - change (div_eucl_pos n (xI d)) with (Z.div_eucl n (Zpos (xI d))).
    pose proof (Z_div_mod n (Zpos (xI d)) ltac:(lia)). destruct (Z.div_eucl _ _). done.
  - simpl. destruct (IH (Z.div2 n)) as [Hq Hr]. destruct (div_eucl_pos (Z.div2 n) d) as [q r]. simpl in *.
    pose proof (Z.div2_odd n) as Hn. unfold Z.b2z in Hn. rewrite Z.double_spec. destruct (Z.odd n); lia.
  - simpl. lia.
Qed.

Lemma zdiv_eq n d : zdiv n d = n / d.
Proof.
  destruct d as [|d|d]; [done| |done]. unfold zdiv.
  destruct (div_eucl_pos_spec n d) as [Hn Hr]. by eapply Z.div_unique_pos.
Qed.

Lemma zmod_eq n d : zmod n d = n mod d.
Proof.
  destruct d as [|d|d]; [done| |done]. unfold zmod.
  destruct (div_eucl_pos_spec n d) as [Hn Hr]. by eapply Z.mod_unique_pos.
Qed.

(** [rne n d]: [n / d] rounded to the nearest integer, ties to even ([d > 0]). *)
Definition rne (n d : Z) : Z :=
  let m := zdiv n d in
  let r := zmod n d in
  if 2 * r <? d then m
  else if d <? 2 * r then m + 1
  else if Z.even m then m else m + 1.

(** Exponent (above the unit) of the last of the 53 significant bits of [n/d]. *)
Definition lsb (n d : Z) : Z := Z.max 0 (Z.log2 (zdiv n d) - 52).

Definition rnd_pos (n d : Z) : Z :=
  rne n (d * 2 ^ lsb n d) * 2 ^ lsb n d.

Definition rnd (n d : Z) : Z :=
  if n <? 0 then - rnd_pos (- n) d else rnd_pos n d.

Definition U : Z := 2 ^ 1074.
Definition HUGE : Z := 2 ^ 2098.

(** ** Numbers *)

Inductive num : Type :=
| Fin (z : Z)
| PInf
| NInf
| NaN.

Definition norm (z : Z) : num :=
  if HUGE <=? z then PInf else if z <=? - HUGE then NInf else Fin z.

(** An integer literal or an integer-valued quantity as a number. *)
Definition of_Z (n : Z) : num := norm (rnd (n * U) 1).

(** The decimal literal [n/d], e.g. [0.05] is [lit 5 100]. *)
Definition lit (n d : Z) : num := norm (rnd (n * U) d).

Definition neg (a : num) : num :=
  match a with Fin x => Fin (- x) | PInf => NInf | NInf => PInf | NaN => NaN end.

Definition add (a b : num) : num :=
  match a, b with
  | Fin x, Fin y => norm (rnd (x + y) 1)
  | NaN, _ | _, NaN => NaN
  | PInf, NInf | NInf, PInf => NaN
  | PInf, _ | _, PInf => PInf
  | NInf, _ | _, NInf => NInf
  end.

Definition sub (a b : num) : num := add a (neg b).

Definition inf_of_sign (s : Z) : num :=
  if s =? 0 then NaN else if 0 <? s then PInf else NInf.

Definition sgn (a : num) : Z :=
  match a with Fin x => Z.sgn x | PInf => 1 | NInf => -1 | NaN => 0 end.

Definition mul (a b : num) : num :=
  match a, b with
  | Fin x, Fin y => norm (rnd (x * y) U)
  | NaN, _ | _, NaN => NaN
  | _, _ => inf_of_sign (sgn a * sgn b)
  end.

Definition div (a b : num) : num :=
  match a, b with
  | Fin x, Fin y =>
      if y =? 0 then inf_of_sign (sgn a)
      else if 0 <? y then norm (rnd (x * U) y) else norm (rnd (- x * U) (- y))
  | NaN, _ | _, NaN => NaN
  | Fin _, _ => Fin 0
  | _, Fin y => if y <? 0 then neg a else a
  | _, _ => NaN
  end.

(** Comparisons are false on [NaN]. *)
Definition ltb (a b : num) : bool :=
  match a, b with
  | NaN, _ | _, NaN => false
  | Fin x, Fin y => x <? y
  | PInf, _ => false
  | _, PInf => true
  | _, NInf => false
  | NInf, _ => true
  end.

Definition eqb (a b : num) : bool :=
  match a, b with
  | Fin x, Fin y => x =? y
  | PInf, PInf | NInf, NInf => true
  | _, _ => false
  end.

Definition leb (a b : num) : bool := ltb a b || eqb a b.
Definition gtb (a b : num) : bool := ltb b a.
Definition geb (a b : num) : bool := leb b a.

(** JavaScript truthiness of a number: everything but [0] and [NaN]. *)
Definition truthy (a : num) : bool :=
  match a with Fin x => negb (x =? 0) | NaN => false | _ => true end.

Definition is_finite (a : num) : bool :=
  match a with Fin _ => true | _ => false end.

Definition is_integer (a : num) : bool :=
  match a with Fin x => zmod x U =? 0 | _ => false end.

(** [Math.floor] and [Math.round] (ties towards positive infinity). *)
Definition math_floor (a : num) : num :=
  match a with Fin x => Fin (zdiv x U * U) | _ => a end.

Definition math_round (a : num) : num :=
  match a with Fin x => Fin (zdiv (2 * x + U) (2 * U) * U) | _ => a end.

Definition math_max (a b : num) : num :=
  match a, b with
  | NaN, _ | _, NaN => NaN
  | _, _ => if ltb a b then b else a
  end.

Definition math_min (a b : num) : num :=
  match a, b with
  | NaN, _ | _, NaN => NaN
  | _, _ => if ltb b a then b else a
  end.

Definition zero : num := Fin 0.
Definition one : num := Fin U.

#[export] Instance num_eq_dec : EqDecision num.
Proof. solve_decision. Defined.

(** ** Facts about rounding *)

Lemma U_pow : U = 2 ^ 1074.
Proof. reflexivity. Qed.

Lemma U_pos : 0 < U.
Proof. reflexivity. Qed.

Lemma HUGE_pos : 0 < HUGE.
Proof. reflexivity. Qed.

Lemma pow2_pos k : 0 <= k -> 0 < 2 ^ k.
Proof. intros. apply Z.pow_pos_nonneg; lia. Qed.

Lemma lsb_nonneg n d : 0 <= lsb n d.
Proof. unfold lsb; rewrite ?zdiv_eq; lia. Qed.

Lemma div_le_cross n1 d1 n2 d2 :
  0 < d1 -> 0 < d2 -> n1 * d2 <= n2 * d1 -> n1 / d1 <= n2 / d2.
Proof.
  intros Hd1 Hd2 Hle. apply Z.div_le_lower_bound; [lia|].
  pose proof (Z.mul_div_le n1 d1 Hd1).
  apply (Zmult_le_reg_r _ _ d1); [lia|]. nia.
Qed.

Lemma rne_bounds n d : 0 < d -> n / d <= rne n d <= n / d + 1.
Proof. intros. unfold rne; rewrite ?zdiv_eq, ?zmod_eq. repeat case_match; lia. Qed.

Lemma rne_mono n1 d1 n2 d2 :
  0 < d1 -> 0 < d2 -> n1 * d2 <= n2 * d1 -> rne n1 d1 <= rne n2 d2.
Proof.
  intros Hd1 Hd2 Hle.
  pose proof (Z.div_mod n1 d1 ltac:(lia)) as E1.
  pose proof (Z.div_mod n2 d2 ltac:(lia)) as E2.
  pose proof (Z.mod_pos_bound n1 d1 Hd1) as B1.
  pose proof (Z.mod_pos_bound n2 d2 Hd2) as B2.
  pose proof (rne_bounds n1 d1 Hd1) as R1.
  pose proof (rne_bounds n2 d2 Hd2) as R2.
  pose proof (div_le_cross n1 d1 n2 d2 Hd1 Hd2 Hle) as Hq.
  destruct (Z.eq_dec (n1 / d1) (n2 / d2)) as [Heq|]; [|lia].
  assert (n1 mod d1 * d2 <= n2 mod d2 * d1) as Hr by nia.
  unfold rne; rewrite ?zdiv_eq, ?zmod_eq. rewrite Heq.
  destruct (Z.ltb_spec (2 * (n1 mod d1)) d1), (Z.ltb_spec (2 * (n2 mod d2)) d2),
    (Z.ltb_spec d1 (2 * (n1 mod d1))), (Z.ltb_spec d2 (2 * (n2 mod d2)));
    try (destruct (Z.even _)); try lia; nia.
Qed.

Lemma rne_int m d : 0 < d -> rne (m * d) d = m.
Proof.
  intros. unfold rne; rewrite ?zdiv_eq, ?zmod_eq. rewrite Z.div_mul, Z.mod_mul by lia.
  destruct (Z.ltb_spec (2 * 0) d); lia.
Qed.

Lemma lsb_upper n d : 0 <= n -> 0 < d -> n < d * 2 ^ (lsb n d + 53).
Proof.
  intros Hn Hd.
  assert (0 <= n / d) by (apply Z.div_pos; lia).
  assert (n / d < 2 ^ (lsb n d + 53)) as Hq.
  { destruct (Z.eq_dec (n / d) 0) as [->|].
    - apply pow2_pos. pose proof (lsb_nonneg n d). lia.
    - pose proof (Z.log2_spec (n / d) ltac:(lia)) as [_ Hl].
      eapply Z.lt_le_trans; [exact Hl|].
      apply Z.pow_le_mono_r; unfold lsb; rewrite ?zdiv_eq; lia. }
  pose proof (Z.div_mod n d ltac:(lia)).
  pose proof (Z.mod_pos_bound n d Hd). nia.
Qed.

Lemma lsb_lower n d :
  0 <= n -> 0 < d -> 0 < lsb n d -> d * 2 ^ (lsb n d + 52) <= n.
Proof.
  intros Hn Hd Hl.
  assert (0 <= n / d) by (apply Z.div_pos; lia).
  assert (0 < n / d).
  { destruct (Z.eq_dec (n / d) 0) as [E|]; [|lia].
    unfold lsb in Hl; rewrite ?zdiv_eq in Hl. rewrite E in Hl. simpl in Hl. lia. }
  pose proof (Z.log2_spec (n / d) ltac:(lia)) as [Hlo _].
  replace (lsb n d + 52) with (Z.log2 (n / d)) by (unfold lsb in *; rewrite ?zdiv_eq in *; lia).
  pose proof (Z.div_mod n d ltac:(lia)).
  pose proof (Z.mod_pos_bound n d Hd). nia.
Qed.

Lemma rnd_pos_le_binade n d :
  0 <= n -> 0 < d -> rnd_pos n d <= 2 ^ (lsb n d + 53).
Proof.
  intros Hn Hd. unfold rnd_pos.
  pose proof (lsb_nonneg n d) as Hs. pose proof (pow2_pos _ Hs) as Hp.
  pose proof (lsb_upper n d Hn Hd) as Hu.
  rewrite Z.pow_add_r in Hu |- * by lia.
  rewrite (Z.mul_comm (2 ^ lsb n d) (2 ^ 53)).
  apply Z.mul_le_mono_nonneg_r; [lia|].
  rewrite <- (rne_int (2 ^ 53) (d * 2 ^ lsb n d)) by nia.
  apply rne_mono; nia.
Qed.

Lemma rnd_pos_ge_binade n d :
  0 <= n -> 0 < d -> 0 < lsb n d -> 2 ^ (lsb n d + 52) <= rnd_pos n d.
Proof.
  intros Hn Hd Hl. unfold rnd_pos.
  pose proof (lsb_nonneg n d) as Hs. pose proof (pow2_pos _ Hs) as Hp.
  pose proof (lsb_lower n d Hn Hd Hl) as Hu.
  rewrite Z.pow_add_r in Hu |- * by lia.
  rewrite (Z.mul_comm (2 ^ lsb n d) (2 ^ 52)).
  apply Z.mul_le_mono_nonneg_r; [lia|].
  rewrite <- (rne_int (2 ^ 52) (d * 2 ^ lsb n d)) by nia.
  apply rne_mono; nia.
Qed.

Lemma lsb_mono n1 d1 n2 d2 :
  0 <= n1 -> 0 < d1 -> 0 < d2 -> n1 * d2 <= n2 * d1 -> lsb n1 d1 <= lsb n2 d2.
Proof.
  intros Hn Hd1 Hd2 Hle. unfold lsb; rewrite ?zdiv_eq.
  pose proof (Z.log2_le_mono _ _ (div_le_cross n1 d1 n2 d2 Hd1 Hd2 Hle)). lia.
Qed.

Lemma rnd_pos_mono n1 d1 n2 d2 :
  0 <= n1 -> 0 < d1 -> 0 < d2 -> n1 * d2 <= n2 * d1 ->
  rnd_pos n1 d1 <= rnd_pos n2 d2.
Proof.
  intros Hn1 Hd1 Hd2 Hle.
  assert (0 <= n2) as Hn2 by nia.
  pose proof (lsb_mono n1 d1 n2 d2 Hn1 Hd1 Hd2 Hle) as Hl.
  pose proof (lsb_nonneg n1 d1) as Hs.
  destruct (Z.eq_dec (lsb n1 d1) (lsb n2 d2)) as [Heq|Hne].
  - unfold rnd_pos. rewrite <- Heq. pose proof (pow2_pos _ Hs).
    apply Z.mul_le_mono_nonneg_r; [lia|]. apply rne_mono; nia.
  - etransitivity; [apply rnd_pos_le_binade; done|].
    etransitivity; [|apply rnd_pos_ge_binade; lia].
    apply Z.pow_le_mono_r; lia.
Qed.

Lemma rnd_pos_nonneg n d : 0 <= n -> 0 < d -> 0 <= rnd_pos n d.
Proof.
  intros. unfold rnd_pos. pose proof (lsb_nonneg n d) as Hs.
  pose proof (pow2_pos _ Hs) as Hp.
  pose proof (rne_bounds n (d * 2 ^ lsb n d) ltac:(nia)).
  assert (0 <= n / (d * 2 ^ lsb n d)) by (apply Z.div_pos; nia). nia.
Qed.

(** Rounding is monotone in the exact quotient. *)
Lemma rnd_mono n1 d1 n2 d2 :
  0 < d1 -> 0 < d2 -> n1 * d2 <= n2 * d1 -> rnd n1 d1 <= rnd n2 d2.
Proof.
  intros Hd1 Hd2 Hle. unfold rnd.
  destruct (Z.ltb_spec n1 0), (Z.ltb_spec n2 0).
  - pose proof (rnd_pos_mono (- n2) d2 (- n1) d1). lia.
  - pose proof (rnd_pos_nonneg (- n1) d1). pose proof (rnd_pos_nonneg n2 d2). lia.
  - nia.
  - apply rnd_pos_mono; lia.
Qed.

(** [z] (in units of [2^-1074]) is a double: at most 53 significant bits. *)
Definition representable (z : Z) : Prop :=
  exists m e, 0 <= e /\ Z.abs m <= 2 ^ 53 /\ z = m * 2 ^ e.

Lemma rnd_pos_exact z d :
  0 <= z -> 0 < d -> representable z -> rnd_pos (z * d) d = z.
Proof.
  intros Hz Hd (m & e & He & Hm & ->).
  pose proof (pow2_pos e He) as Hp.
  assert (0 <= m) by nia.
  set (z := m * 2 ^ e) in *.
  assert (z <= 2 ^ (53 + e)) as Hub by (unfold z; rewrite Z.pow_add_r by lia; nia).
  assert ((2 ^ lsb (z * d) d | z)) as [q Hq].
  { unfold lsb; rewrite ?zdiv_eq. rewrite Z.div_mul by lia.
    destruct (Z.le_gt_cases (Z.log2 z - 52) 0).
    - rewrite Z.max_l by lia. exists z. simpl. lia.
    - rewrite Z.max_r by lia.
      assert (Z.log2 z <= 53 + e).
      { pose proof (Z.log2_le_mono _ _ Hub). rewrite Z.log2_pow2 in H1; lia. }
      destruct (Z.eq_dec (Z.log2 z) (53 + e)) as [E|].
      + pose proof (Z.log2_spec z ltac:(destruct (Z.eq_dec z 0) as [E0|]; [rewrite E0 in *; simpl in *; lia|lia])) as [Hlo _].
        rewrite E in Hlo. assert (z = 2 ^ (53 + e)) as -> by lia.
        rewrite Z.log2_pow2 by lia.
        exists (2 ^ 52). rewrite <- Z.pow_add_r by lia. f_equal. lia.
      + exists (m * 2 ^ (e - (Z.log2 z - 52))). unfold z at 1.
        rewrite <- Z.mul_assoc, <- Z.pow_add_r by lia. f_equal. f_equal. lia. }
  unfold rnd_pos. pose proof (lsb_nonneg (z * d) d) as Hs.
  pose proof (pow2_pos _ Hs).
  replace (rne (z * d) (d * 2 ^ lsb (z * d) d)) with q; [lia|].
  rewrite Hq at 1. symmetry.
  replace (q * 2 ^ lsb (z * d) d * d) with (q * (d * 2 ^ lsb (z * d) d)) by ring.
  apply rne_int. nia.
Qed.

Lemma representable_opp z : representable z -> representable (- z).
Proof.
  intros (m & e & ? & ? & ->). exists (- m), e. rewrite Z.abs_opp.
  repeat split; [done..|ring].
Qed.

(** Rounding leaves doubles alone. *)
Lemma rnd_exact z d : 0 < d -> representable z -> rnd (z * d) d = z.
Proof.
  intros Hd Hr. unfold rnd. destruct (Z.ltb_spec (z * d) 0).
  - replace (- (z * d)) with ((- z) * d) by ring.
    rewrite rnd_pos_exact; [lia|nia|done|by apply representable_opp].
  - apply rnd_pos_exact; [nia|done..].
Qed.

Lemma representable_int n : Z.abs n <= 2 ^ 53 -> representable (n * U).
Proof. intros. exists n, 1074. unfold U. repeat split; [lia|done]. Qed.

Lemma representable_0 : representable 0.
Proof. exists 0, 0. repeat split; simpl; lia. Qed.

Lemma representable_1 : representable 1.
Proof. exists 1, 0. repeat split; simpl; lia. Qed.

Lemma rnd_0 d : 0 < d -> rnd 0 d = 0.
Proof. intros. apply (rnd_exact 0 d); [done|apply representable_0]. Qed.

(** Rounding never crosses a double. *)
Lemma rnd_le z n d : 0 < d -> representable z -> n <= z * d -> rnd n d <= z.
Proof.
  intros Hd Hz Hn. rewrite <- (rnd_exact z d) by done. by apply rnd_mono; nia.
Qed.

Lemma rnd_ge z n d : 0 < d -> representable z -> z * d <= n -> z <= rnd n d.
Proof.
  intros Hd Hz Hn. rewrite <- (rnd_exact z d) by done. by apply rnd_mono; nia.
Qed.

Lemma rnd_representable n d : 0 < d -> representable (rnd n d).
Proof.
  assert (forall n, 0 <= n -> 0 < d -> representable (rnd_pos n d)) as Hp.
  { intros n' Hn Hd. pose proof (lsb_nonneg n' d) as Hs. pose proof (pow2_pos _ Hs).
    exists (rne n' (d * 2 ^ lsb n' d)), (lsb n' d). repeat split; [done|].
    pose proof (rnd_pos_le_binade n' d Hn Hd) as Hb.
    pose proof (rnd_pos_nonneg n' d Hn Hd) as Hb0. unfold rnd_pos in *.
    rewrite Z.pow_add_r in Hb by lia. nia. }
  intros Hd. unfold rnd. destruct (Z.ltb_spec n 0).
  - apply representable_opp, Hp; lia.
  - by apply Hp.
Qed.

(** ** Doubles

    [dbl z]: the integer [z] represents a finite double.  [wf a]: the number
    [a] is a value a JavaScript program can hold. *)
Definition dbl (z : Z) : Prop := representable z /\ Z.abs z < HUGE.

Definition wf (a : num) : Prop := match a with Fin z => dbl z | _ => True end.

Lemma norm_fin z : Z.abs z < HUGE -> norm z = Fin z.
Proof.
  intros. unfold norm.
  destruct (Z.leb_spec HUGE z); [lia|]. destruct (Z.leb_spec z (- HUGE)); [lia|done].
Qed.

Lemma norm_wf z : representable z -> wf (norm z).
Proof.
  intros. unfold norm.
  destruct (Z.leb_spec HUGE z); [done|]. destruct (Z.leb_spec z (- HUGE)); [done|].
  split; [done|lia].
Qed.

Lemma dbl_int n : Z.abs n <= 2 ^ 53 -> dbl (n * U).
Proof.
  intros. split; [by apply representable_int|].
  rewrite Z.abs_mul, (Z.abs_eq U) by (pose proof U_pos; lia).
  apply Z.le_lt_trans with (2 ^ 53 * U); [|reflexivity].
  pose proof U_pos; nia.
Qed.

Lemma dbl_0 : dbl 0.
Proof. split; [apply representable_0 | reflexivity]. Qed.

Lemma dbl_U : dbl U.
Proof. apply (dbl_int 1). lia. Qed.

Lemma of_Z_exact n : Z.abs n <= 2 ^ 53 -> of_Z n = Fin (n * U).
Proof.
  intros Hn. unfold of_Z. destruct (dbl_int n Hn) as [Hr Hb].
  pose proof (rnd_exact (n * U) 1 ltac:(lia) Hr) as E. rewrite Z.mul_1_r in E.
  rewrite E. by apply norm_fin.
Qed.

Lemma of_Z_wf n : wf (of_Z n).
Proof. by apply norm_wf, rnd_representable. Qed.

Lemma lit_wf n d : 0 < d -> wf (lit n d).
Proof. intros. by apply norm_wf, rnd_representable. Qed.

(** A rounded result squeezed between two doubles is finite. *)
Lemma norm_between lo hi n d :
  0 < d -> dbl lo -> dbl hi -> lo * d <= n <= hi * d ->
  exists c, norm (rnd n d) = Fin c /\ dbl c /\ lo <= c <= hi.
Proof.
  intros Hd [Hlo Blo] [Hhi Bhi] Hn. exists (rnd n d).
  pose proof (rnd_ge lo n d Hd Hlo ltac:(lia)).
  pose proof (rnd_le hi n d Hd Hhi ltac:(lia)).
  rewrite norm_fin by lia. repeat split; [by apply rnd_representable|lia..].
Qed.

Lemma add_between lo hi x y :
  dbl lo -> dbl hi -> lo <= x + y <= hi ->
  exists c, add (Fin x) (Fin y) = Fin c /\ dbl c /\ lo <= c <= hi.
Proof. intros. apply norm_between; [lia|done..|lia]. Qed.

Lemma add_exact x y : dbl (x + y) -> add (Fin x) (Fin y) = Fin (x + y).
Proof.
  intros H. destruct (add_between (x + y) (x + y) x y) as (c & -> & _ & ?); [done..|lia|].
  f_equal. lia.
Qed.

Lemma sub_exact x y : dbl (x - y) -> sub (Fin x) (Fin y) = Fin (x - y).
Proof. intros. unfold sub. simpl neg. rewrite add_exact; [f_equal; lia|done]. Qed.

Lemma sub_between lo hi x y :
  dbl lo -> dbl hi -> lo <= x - y <= hi ->
  exists c, sub (Fin x) (Fin y) = Fin c /\ dbl c /\ lo <= c <= hi.
Proof. intros. unfold sub. simpl neg. apply add_between; [done..|lia]. Qed.

(** Multiplying by a ratio in [[0, 1]] cannot increase a non-negative number. *)
Lemma mul_ratio a r :
  dbl a -> 0 <= a -> 0 <= r <= U ->
  exists c, mul (Fin a) (Fin r) = Fin c /\ dbl c /\ 0 <= c <= a.
Proof.
  intros. simpl. apply norm_between; [apply U_pos|apply dbl_0|done|].
  pose proof U_pos. nia.
Qed.

Lemma mul_one_r a : dbl a -> mul (Fin a) one = Fin a.
Proof.
  intros [Hr Hb]. simpl. rewrite rnd_exact by (done || apply U_pos). by apply norm_fin.
Qed.

Lemma mul_zero_r a : mul (Fin a) zero = Fin 0.
Proof. simpl. rewrite Z.mul_0_r, rnd_0 by apply U_pos. reflexivity. Qed.

Lemma mul_mono_r a r1 r2 c1 c2 :
  0 <= a -> r1 <= r2 ->
  mul (Fin a) (Fin r1) = Fin c1 -> mul (Fin a) (Fin r2) = Fin c2 -> c1 <= c2.
Proof.
  intros Ha Hr. simpl. unfold norm.
  pose proof (rnd_mono (a * r1) U (a * r2) U U_pos U_pos) as Hm.
  pose proof U_pos.
  specialize (Hm ltac:(apply Z.mul_le_mono_nonneg_r; [lia|apply Z.mul_le_mono_nonneg_l; lia])).
  repeat case_match; intros; simplify_eq; lia.
Qed.

(** A quotient of non-negative numbers with numerator at most the denominator
    lies in [[0, 1]]. *)
Lemma div_ratio x y :
  0 <= x <= y -> 0 < y -> exists c, div (Fin x) (Fin y) = Fin c /\ dbl c /\ 0 <= c <= U.
Proof.
  intros Hx Hy. unfold div.
  destruct (Z.eqb_spec y 0); [lia|]. destruct (Z.ltb_spec 0 y); [|lia].
  apply norm_between; [done|apply dbl_0|apply dbl_U|]. pose proof U_pos. nia.
Qed.

Lemma div_mono_l x1 x2 y c1 c2 :
  0 < y -> x1 <= x2 ->
  div (Fin x1) (Fin y) = Fin c1 -> div (Fin x2) (Fin y) = Fin c2 -> c1 <= c2.
Proof.
  intros Hy Hx. unfold div.
  destruct (Z.eqb_spec y 0); [lia|]. destruct (Z.ltb_spec 0 y); [|lia].
  pose proof U_pos.
  pose proof (rnd_mono (x1 * U) y (x2 * U) y Hy Hy
    ltac:(apply Z.mul_le_mono_nonneg_r; [lia|apply Z.mul_le_mono_nonneg_r; lia])) as Hm.
  unfold norm. repeat case_match; intros; simplify_eq; lia.
Qed.

Lemma add_mono x1 y1 x2 y2 c1 c2 :
  x1 + y1 <= x2 + y2 ->
  add (Fin x1) (Fin y1) = Fin c1 -> add (Fin x2) (Fin y2) = Fin c2 -> c1 <= c2.
Proof.
  intros H. simpl. pose proof (rnd_mono (x1 + y1) 1 (x2 + y2) 1 ltac:(lia) ltac:(lia) ltac:(lia)).
  unfold norm. repeat case_match; intros; simplify_eq; lia.
Qed.

Lemma sub_mono x1 y1 x2 y2 c1 c2 :
  x1 - y1 <= x2 - y2 ->
  sub (Fin x1) (Fin y1) = Fin c1 -> sub (Fin x2) (Fin y2) = Fin c2 -> c1 <= c2.
Proof. intros H. unfold sub. simpl neg. apply add_mono. lia. Qed.

(** [a - b] has the sign of the exact difference: comparators written as a
    subtraction order doubles correctly. *)
Lemma sub_sign x y : ltb zero (sub (Fin x) (Fin y)) = (y <? x).
Proof.
  unfold sub, zero. simpl. pose proof HUGE_pos.
  assert (0 < rnd (x + - y) 1 <-> y < x) as Hs.
  { split; intros Hlt.
    - destruct (Z.le_gt_cases x y) as [Hle|]; [|lia].
      pose proof (rnd_le 0 (x + - y) 1 ltac:(lia) representable_0). lia.
    - pose proof (rnd_ge 1 (x + - y) 1 ltac:(lia) representable_1). lia. }
  unfold norm. destruct (Z.leb_spec HUGE (rnd (x + - y) 1)).
  - simpl. symmetry. apply Z.ltb_lt. lia.
  - destruct (Z.leb_spec (rnd (x + - y) 1) (- HUGE)); simpl.
    + symmetry. apply Z.ltb_ge. lia.
    + destruct (Z.ltb_spec 0 (rnd (x + - y) 1)), (Z.ltb_spec y x); lia || done.
Qed.

(** ** [Math.round] *)

Lemma round_fin x : math_round (Fin x) = Fin ((2 * x + U) / (2 * U) * U).
Proof. unfold math_round. by rewrite zdiv_eq. Qed.

Lemma round_int_div n : (2 * (n * U) + U) / (2 * U) = n.
Proof.
  pose proof U_pos. symmetry. apply (Z.div_unique _ _ _ U); [lia|ring].
Qed.

Lemma round_int n : math_round (Fin (n * U)) = Fin (n * U).
Proof. rewrite round_fin, round_int_div. done. Qed.

Lemma round_mono x y c d :
  x <= y -> math_round (Fin x) = Fin c -> math_round (Fin y) = Fin d -> c <= d.
Proof.
  rewrite !round_fin. intros ? [= <-] [= <-]. pose proof U_pos.
  apply Z.mul_le_mono_nonneg_r; [lia|]. apply Z.div_le_mono; lia.
Qed.

(** Rounding a number squeezed between two integers stays between them, is an
    integer, and is a double when the bounds are below [2^53]. *)
Lemma round_between lo hi x :
  lo * U <= x <= hi * U ->
  exists n, math_round (Fin x) = Fin (n * U) /\ lo <= n <= hi.
Proof.
  intros Hx. exists ((2 * x + U) / (2 * U)). split; [apply round_fin|]. pose proof U_pos.
  split; [rewrite <- (round_int_div lo) | rewrite <- (round_int_div hi)];
    apply Z.div_le_mono; lia.
Qed.

(** ** Integer-valued numbers *)

Lemma is_integer_int n : is_integer (Fin (n * U)) = true.
Proof. unfold is_integer. rewrite zmod_eq, Z.mod_mul; [done|]. pose proof U_pos. lia. Qed.

Lemma add_cents a b : Z.abs (a + b) <= 2 ^ 53 -> add (Fin (a * U)) (Fin (b * U)) = Fin ((a + b) * U).
Proof. intros. rewrite add_exact; [f_equal; ring|]. rewrite <- Z.mul_add_distr_r. by apply dbl_int. Qed.

Lemma sub_cents a b : Z.abs (a - b) <= 2 ^ 53 -> sub (Fin (a * U)) (Fin (b * U)) = Fin ((a - b) * U).
Proof. intros. rewrite sub_exact; [f_equal; ring|]. rewrite <- Z.mul_sub_distr_r. by apply dbl_int. Qed.

Lemma max_cents a b : math_max (Fin (a * U)) (Fin (b * U)) = Fin (Z.max a b * U).
Proof.
  pose proof U_pos. unfold math_max. simpl. destruct (Z.ltb_spec (a * U) (b * U)).
  - rewrite Z.max_r by nia. done.
  - rewrite Z.max_l by nia. done.
Qed.

Lemma min_cents a b : math_min (Fin (a * U)) (Fin (b * U)) = Fin (Z.min a b * U).
Proof.
  pose proof U_pos. unfold math_min. simpl. destruct (Z.ltb_spec (b * U) (a * U)).
  - rewrite Z.min_r by nia. done.
  - rewrite Z.min_l by nia. done.
Qed.

Lemma ms_until_exact start now :
  Z.abs start <= 2 ^ 52 -> Z.abs now <= 2 ^ 52 ->
  sub (of_Z start) (of_Z now) = Fin ((start - now) * U).
Proof.
  intros. rewrite !of_Z_exact by lia. rewrite sub_exact; [f_equal; ring|].
  replace (start * U - now * U) with ((start - now) * U) by ring. apply dbl_int. lia.
Qed.

Lemma round_share_range n r :
  0 <= n <= 2 ^ 53 -> 0 <= r <= U ->
  exists k, math_round (mul (Fin (n * U)) (Fin r)) = Fin (k * U) /\ 0 <= k <= n.
Proof.
  intros Hn Hr. pose proof U_pos.
  destruct (mul_ratio (n * U) r) as (c & -> & _ & Hc); [apply dbl_int; lia|nia|done|].
  destruct (round_between 0 n c) as (k & -> & Hk); [lia|eauto].
Qed.

(** ** Monotonicity at the level of numbers *)

Lemma leb_fin x y : leb (Fin x) (Fin y) = (x <=? y).
Proof.
  unfold leb; simpl.
  destruct (Z.ltb_spec x y), (Z.eqb_spec x y), (Z.leb_spec x y); simpl; lia || done.
Qed.

Lemma leb_refl a : a <> NaN -> leb a a = true.
Proof. destruct a; [rewrite leb_fin; intros; apply Z.leb_refl|done..]. Qed.

Lemma norm_mono x y : x <= y -> leb (norm x) (norm y) = true.
Proof.
  intros. pose proof HUGE_pos. unfold norm.
  repeat (case_match; [|]); rewrite ?leb_fin; rewrite ?Z.leb_le, ?Z.leb_gt in *; try done; lia.
Qed.

Lemma mul_le_r a r1 r2 :
  0 <= a -> r1 <= r2 -> leb (mul (Fin a) (Fin r1)) (mul (Fin a) (Fin r2)) = true.
Proof.
  intros. pose proof U_pos. apply norm_mono, rnd_mono; [done..|].
  apply Z.mul_le_mono_nonneg_r; [lia|apply Z.mul_le_mono_nonneg_l; lia].
Qed.

Lemma round_le a b : leb a b = true -> leb (math_round a) (math_round b) = true.
Proof.
  destruct a, b; try done. rewrite leb_fin, !round_fin, leb_fin, !Z.leb_le.
  intros. pose proof U_pos.
  apply Z.mul_le_mono_nonneg_r; [lia|]. apply Z.div_le_mono; lia.
Qed.

Lemma max0_le a b : leb a b = true -> leb (math_max zero a) (math_max zero b) = true.
Proof.
  destruct a as [x| | |], b as [y| | |]; try done; unfold math_max, zero; simpl;
    try done; try (intros; by destruct (Z.ltb_spec 0 x));
    try (intros; destruct (Z.ltb_spec 0 y); rewrite leb_fin, Z.leb_le; lia).
  rewrite leb_fin, Z.leb_le. intros.
  destruct (Z.ltb_spec 0 x), (Z.ltb_spec 0 y); rewrite leb_fin, Z.leb_le; lia.
Qed.

Lemma leb_trans a b c : leb a b = true -> leb b c = true -> leb a c = true.
Proof. destruct a, b, c; try done. rewrite !leb_fin, !Z.leb_le. lia. Qed.

Lemma leb_antisym a b : leb a b = true -> leb b a = true -> a = b.
Proof. destruct a, b; try done. rewrite !leb_fin, !Z.leb_le. intros. f_equal. lia. Qed.

Lemma eqb_eq a b : a <> NaN -> eqb a b = true <-> a = b.
Proof.
  destruct a as [x| | |], b as [y| | |]; simpl; try done; intros _.
  rewrite Z.eqb_eq. split; [by intros ->|by intros [= ->]].
Qed.

Lemma norm_not_nan z : norm z <> NaN.
Proof. unfold norm. by repeat case_match. Qed.

Lemma mul_not_nan x y : mul (Fin x) (Fin y) <> NaN.
Proof. apply norm_not_nan. Qed.

Lemma add_not_nan a y : a <> NaN -> add a (Fin y) <> NaN.
Proof. destruct a; try done. intros _. apply norm_not_nan. Qed.

(** Multiplying by a non-negative factor and adding are monotone. *)
Lemma mul_le_l a b r :
  a <= b -> 0 <= r -> leb (mul (Fin a) (Fin r)) (mul (Fin b) (Fin r)) = true.
Proof.
  intros. pose proof U_pos. apply norm_mono, rnd_mono; [done..|].
  apply Z.mul_le_mono_nonneg_r; [lia|]. by apply Z.mul_le_mono_nonneg_r.
Qed.

Lemma add_le a b x y :
  leb a b = true -> x <= y -> leb (add a (Fin x)) (add b (Fin y)) = true.
Proof.
  intros Hab Hxy. destruct a as [a| | |], b as [b| | |]; try done.
  - rewrite leb_fin, Z.leb_le in Hab. apply norm_mono, rnd_mono; lia.
  - unfold add, leb, norm. by repeat case_match.
  - unfold add, leb, norm. by repeat case_match.
Qed.

(** A decimal literal between [0] and [1]. *)
Lemma lit_exact n d z : 0 < d -> dbl z -> n * U = z * d -> lit n d = Fin z.
Proof. intros Hd [Hr Hb] E. unfold lit. rewrite E, rnd_exact by done. by apply norm_fin. Qed.

Lemma lit_ratio n d : 0 <= n <= d -> 0 < d -> exists c, lit n d = Fin c /\ dbl c /\ 0 <= c <= U.
Proof.
  intros. apply norm_between; [done|apply dbl_0|apply dbl_U|]. pose proof U_pos. nia.
Qed.

(** A subtraction of any two numbers that are not [NaN] and differ has the
    sign of the difference. *)
Lemma sub_sign_num a b :
  a <> NaN -> b <> NaN -> a <> b -> ltb zero (sub a b) = ltb b a.
Proof.
  destruct a as [x| | |], b as [y| | |]; try done. intros _ _ _. rewrite sub_sign. done.
Qed.

Lemma floor_fin x : math_floor (Fin x) = Fin (x / U * U).
Proof. unfold math_floor. by rewrite zdiv_eq. Qed.

Lemma is_integer_multiple x : is_integer (Fin x) = true -> exists k, x = k * U.
Proof.
  unfold is_integer. rewrite zmod_eq, Z.eqb_eq. intros Hx. pose proof U_pos. exists (x / U).
  rewrite (Z.div_mod x U) at 1 by lia. lia.
Qed.

Lemma of_Z_mono m n : m <= n -> leb (of_Z m) (of_Z n) = true.
Proof. intros. pose proof U_pos. apply norm_mono, rnd_mono; nia. Qed.

(** ** A product just below an integer

    A number below one (hence at most [1 - 2^-53]) times an integer stays below
    the integer: rounding to nearest never reaches it. *)
Lemma rne_upper n D N : 0 < D -> 2 * n < (2 * N - 1) * D -> rne n D <= N - 1.
Proof.
  intros HD Hn. pose proof (rne_bounds n D HD) as Hb. pose proof (Z.div_mod n D ltac:(lia)) as Hdm.
  pose proof (Z.mod_pos_bound n D HD) as Hr. assert (n / D <= N - 1) as Hq by nia.
  destruct (Z.eq_dec (n / D) (N - 1)) as [Heq|]; [|lia]. unfold rne. rewrite zdiv_eq, zmod_eq.
  destruct (Z.ltb_spec (2 * (n mod D)) D); [lia|]. nia.
Qed.

Definition ulp1 : Z := 2 ^ 1021.

Lemma U_ulp1 : U = ulp1 * 2 ^ 53.
Proof. rewrite U_pow. unfold ulp1. by rewrite <- Z.pow_add_r by lia. Qed.

Lemma ulp1_pos : 0 < ulp1.
Proof. unfold ulp1. lia. Qed.

Lemma rnd_below_int m r :
  0 < m <= 2 ^ 53 -> 0 <= r <= U - ulp1 -> rnd (m * U * r) U < m * U.
Proof.
  intros Hm Hr. pose proof U_pos as HU. pose proof ulp1_pos as He. pose proof U_ulp1 as HUe.
  pose proof (Z.log2_spec m ltac:(lia)) as Hk. set (k := Z.log2 m) in *. assert (0 <= k) as Hk0 by apply Z.log2_nonneg.
  rewrite Z.pow_succ_r in Hk by lia. pose proof (pow2_pos k Hk0) as Hpk.
  assert (k <= 53) as Hk53 by (apply (Z.pow_le_mono_r_iff 2); lia).
  destruct (Z.le_gt_cases (2 ^ k * U) (m * r)) as [Hb|Hb].
  - (* the product is in the binade of the integer *)
    assert (2 ^ k < m) as Hlt by nia. assert (k <= 52) as Hk52.
    { destruct (Z.eq_dec k 53) as [Heq|]; [|lia]. rewrite Heq in Hlt. lia. }
    unfold rnd. destruct (Z.ltb_spec (m * U * r) 0); [nia|]. unfold rnd_pos.
    assert (lsb (m * U * r) U = k + 1022) as ->.
    { unfold lsb. rewrite zdiv_eq. replace (m * U * r) with (m * r * U) by ring. rewrite Z.div_mul by lia.
      rewrite (Z.log2_unique (m * r) (k + 1074)); [lia|lia|]. rewrite Z.pow_succ_r, Z.pow_add_r, <- U_pow by lia. nia. }
    assert (2 ^ (k + 1022) = 2 ^ k * (2 * ulp1)) as ->.
    { unfold ulp1. rewrite Z.pow_add_r by lia. f_equal. }
    set (u := 2 ^ k * (2 * ulp1)). set (N := m * 2 ^ (52 - k)).
    assert (N * u = m * U) as HN.
    { unfold N, u. rewrite HUe. replace (2 ^ 53) with (2 ^ (52 - k) * 2 ^ k * 2); [ring|].
      rewrite <- Z.pow_add_r by lia. replace (52 - k + k) with 52 by lia. lia. }
    assert (0 < u) as Hu by (unfold u; nia).
    assert (rne (m * U * r) (U * u) <= N - 1); [|nia]. apply rne_upper; [nia|].
    assert (2 * (m * r) < (2 * N - 1) * u) as Hmr; [|nia]. unfold u in *. nia.
  - (* below the binade *)
    destruct (Z.eq_dec m (2 ^ k)) as [Heq|Hne].
    + assert (rnd (m * U * r) U <= (m * (2 ^ 53 - 1)) * ulp1) as Hle.
      { apply rnd_le; [done| |nia]. rewrite Heq. exists (2 ^ 53 - 1), (k + 1021). split_and!; [lia|lia|].
        unfold ulp1. rewrite Z.pow_add_r by lia. ring. }
      nia.
    + assert (rnd (m * U * r) U <= 2 ^ k * U) as Hle; [|nia]. apply rnd_le; [done| |nia].
      apply representable_int. lia.
Qed.

Lemma mul_below_int m r :
  0 < m <= 2 ^ 53 -> 0 <= r <= U - ulp1 ->
  exists c, mul (Fin r) (Fin (m * U)) = Fin c /\ 0 <= c < m * U.
Proof.
  intros Hm Hr. pose proof U_pos. pose proof ulp1_pos. pose proof (rnd_below_int m r Hm Hr) as Hb.
  destruct (norm_between 0 (m * U) (r * (m * U)) U) as (c & Hc & _ & Hr0); [done|apply dbl_0|apply dbl_int; lia|nia|].
  exists c. unfold mul. split; [done|]. split; [lia|].
  replace (r * (m * U)) with (m * U * r) in Hc by ring. unfold norm in Hc. repeat case_match; simplify_eq. lia.
Qed.

(** The large constants and rounding are only ever computed by [vm_compute]. *)
#[global] Opaque U HUGE rnd lit zdiv zmod.
#[global] Arguments add _ _ : simpl never.
#[global] Arguments sub _ _ : simpl never.
#[global] Arguments mul _ _ : simpl never.
#[global] Arguments div _ _ : simpl never.
#[global] Arguments of_Z _ : simpl never.
#[global] Arguments lit _ _ : simpl never.
#[global] Arguments is_integer _ : simpl never.
#[global] Arguments math_floor _ : simpl never.
#[global] Arguments math_round _ : simpl never.
#[global] Arguments math_max _ _ : simpl never.
#[global] Arguments math_min _ _ : simpl never.

Lemma half_unit : exists h, U = 2 * h /\ 0 < h /\ lit 1 2 = Fin h.
Proof.
  exists (2 ^ 1073). assert (U = 2 * 2 ^ 1073) as HU by (rewrite U_pow; reflexivity). split; [done|]. split; [lia|].
  apply lit_exact; [lia| |lia]. split; [exists 1, 1073; lia|]. destruct dbl_U as [_ Hb]. lia.
Qed.

Lemma dbl_halves h n : U = 2 * h -> Z.abs n <= 2 ^ 53 -> dbl (n * h).
Proof.
  intros HU Hn. assert (h = 2 ^ 1073) as -> by (assert (U = 2 * 2 ^ 1073) by (rewrite U_pow; reflexivity); lia).
  destruct (dbl_int n Hn) as [_ Hb]. split; [exists n, 1073; lia|]. pose proof U_pos. nia.
Qed.

#[export] Hint Resolve U_pos HUGE_pos representable_0 dbl_0 dbl_U of_Z_wf : jsnum.
