(* ===== verification/Async.v ===== *)
(** * Async: asynchronous handlers

    A handler is a program over a type of events: every repository call, clock
    reading or call of an outside service is an event, and everything between
    two events is pure.  [run] executes one handler alone on a state; [step]
    interleaves any number of handlers at their events, which is finer than
    the interleavings an event loop produces at its await points, so that an
    invariant of [step] is one of the server. *)
From stdpp Require Import base list relations.
From S2P Require Import Prelude.

Section Programs.
Context {Ev : Type -> Type} {E : Type}.

Inductive Prog (A : Type) : Type :=
| Ret (a : A)
| Thr (e : E)
| Vis {X : Type} (ev : Ev X) (k : X -> Prog A).

Arguments Ret {A} a.
Arguments Thr {A} e.
Arguments Vis {A X} ev k.

Fixpoint pbind {A B} (p : Prog A) (f : A -> Prog B) : Prog B :=
  match p with
  | Ret a => f a
  | Thr e => Thr e
  | Vis ev k => Vis ev (fun x => pbind (k x) f)
  end.

#[global] Instance Prog_ret : MRet Prog := @Ret.
#[global] Instance Prog_bind : MBind Prog := fun A B f p => pbind p f.

Definition perform {X} (ev : Ev X) : Prog X := Vis ev Ret.

Definition throw_when (c : bool) (e : E) : Prog unit := if c then Thr e else Ret tt.

Definition need {A} (o : option A) (e : E) : Prog A :=
  match o with Some a => Ret a | None => Thr e end.

(** A synchronous computation whose error is rethrown as [f e]. *)
Definition lift_result {F A} (f : F -> E) (r : result F A) : Prog A :=
  match r with Ok a => Ret a | Err e => Thr (f e) end.

(** [try { p } catch (e) { ... }]: the error becomes a value. *)
Fixpoint attempt {A} (p : Prog A) : Prog (result E A) :=
  match p with
  | Ret a => Ret (Ok a)
  | Thr e => Ret (Err e)
  | Vis ev k => Vis ev (fun x => attempt (k x))
  end.

(** Every event the program can perform satisfies [P]. *)
Fixpoint all_events (P : forall X, Ev X -> Prop) {A} (p : Prog A) : Prop :=
  match p with
  | Ret _ | Thr _ => True
  | @Vis _ X ev k => P X ev /\ forall x, all_events P (k x)
  end.

Lemma all_events_bind P {A B} (p : Prog A) (f : A -> Prog B) :
  all_events P p -> (forall a, all_events P (f a)) -> all_events P (p ≫= f).
Proof.
  unfold mbind, Prog_bind. intros Hp Hf. induction p as [a|e|X ev k IH]; simpl in *; [done..|].
  destruct Hp as [He Hk]. split; [done|]. intros x. by apply IH.
Qed.

Lemma all_events_perform P {X} (ev : Ev X) : P X ev -> all_events P (perform ev).
Proof. by split. Qed.

Lemma all_events_throw_when P c e : all_events P (throw_when c e).
Proof. by destruct c. Qed.

(** What follows a guard may use that the guard did not fire. *)
Lemma all_events_guarded P {B} c e (f : unit -> Prog B) :
  (c = false -> all_events P (f tt)) -> all_events P (throw_when c e ≫= f).
Proof. destruct c; [done|]. intros H. by apply H. Qed.

Lemma all_events_need P {A} (o : option A) e : all_events P (need o e).
Proof. by destruct o. Qed.

Lemma all_events_lift P {F A} (f : F -> E) (r : result F A) : all_events P (lift_result f r).
Proof. by destruct r. Qed.

Lemma all_events_attempt P {A} (p : Prog A) : all_events P p -> all_events P (attempt p).
Proof. induction p as [a|e|X ev k IH]; simpl; [done..|]. intros [? ?]. split; auto. Qed.

(** ** One handler alone *)

Section Run.
Context {S : Type} (handle : forall X, Ev X -> S -> X * S).

Fixpoint run {A} (p : Prog A) (s : S) : result E A * S :=
  match p with
  | Ret a => (Ok a, s)
  | Thr e => (Err e, s)
  | @Vis _ X ev k => let '(x, s') := handle X ev s in run (k x) s'
  end.

Lemma run_bind {A B} (p : Prog A) (f : A -> Prog B) s :
  run (p ≫= f) s =
  match run p s with
  | (Ok a, s') => run (f a) s'
  | (Err e, s') => (Err e, s')
  end.
Proof.
  unfold mbind, Prog_bind. revert s. induction p as [a|e|X ev k IH]; intros s; simpl; [done..|].
  by destruct (handle X ev s).
Qed.

Lemma run_perform {X} (ev : Ev X) s : run (perform ev) s = (Ok (fst (handle X ev s)), snd (handle X ev s)).
Proof. simpl. by destruct (handle X ev s). Qed.

Lemma run_throw_when c e s : run (throw_when c e) s = (if c then Err e else Ok tt, s).
Proof. by destruct c. Qed.

Lemma run_attempt {A} (p : Prog A) s : run (attempt p) s = (Ok (fst (run p s)), snd (run p s)).
Proof.
  revert s. induction p as [a|e|X ev k IH]; intros s; simpl; [done..|].
  by destruct (handle X ev s).
Qed.

Lemma run_mret {A} (a : A) s : run (mret a) s = (Ok a, s).
Proof. done. Qed.

Lemma run_need {A} (o : option A) e s : run (need o e) s = (from_option_or o e, s).
Proof. by destruct o. Qed.

Lemma run_lift {F A} (f : F -> E) (r : result F A) s :
  run (lift_result f r) s = (match r with Ok a => Ok a | Err e => Err (f e) end, s).
Proof. by destruct r. Qed.

(** A relation every allowed event preserves is preserved by the handler. *)
Lemma run_preserves (P : forall X, Ev X -> Prop) (R : relation S) `{!PreOrder R} {A} (p : Prog A) s :
  (forall X ev s, P X ev -> R s (snd (handle X ev s))) ->
  all_events P p -> R s (snd (run p s)).
Proof.
  intros Hh. revert s. induction p as [a|e|X ev k IH]; intros s Hp; simpl in *; [reflexivity..|].
  destruct Hp as [He Hk]. specialize (Hh X ev s He). destruct (handle X ev s) as [x s'].
  simpl in Hh. etrans; [exact Hh|]. by apply IH.
Qed.

(** Weakest precondition of a handler run alone: its outcome and final state
    satisfy [Q]. *)
Definition wp {A} (p : Prog A) (Q : result E A -> S -> Prop) (s : S) : Prop :=
  Q (fst (run p s)) (snd (run p s)).

Lemma wp_bind {A B} (p : Prog A) (f : A -> Prog B) Q s :
  wp p (fun r s' => match r with Ok a => wp (f a) Q s' | Err e => Q (Err e) s' end) s ->
  wp (p ≫= f) Q s.
Proof. unfold wp. rewrite run_bind. by destruct (run p s) as [[a|e] s']. Qed.

Lemma wp_perform {X} (ev : Ev X) Q s :
  Q (Ok (fst (handle X ev s))) (snd (handle X ev s)) -> wp (perform ev) Q s.
Proof. unfold wp. by rewrite run_perform. Qed.

Lemma wp_throw_when c e Q s :
  (c = true -> Q (Err e) s) -> (c = false -> Q (Ok tt) s) -> wp (throw_when c e) Q s.
Proof. unfold wp. rewrite run_throw_when. destruct c; simpl; auto. Qed.

Lemma wp_need {A} (o : option A) e Q s :
  (o = None -> Q (Err e) s) -> (forall a, o = Some a -> Q (Ok a) s) -> wp (need o e) Q s.
Proof. unfold wp. rewrite run_need. destruct o; simpl; auto. Qed.

Lemma wp_lift {F A} (f : F -> E) (r : result F A) Q s :
  (forall e, r = Err e -> Q (Err (f e)) s) -> (forall a, r = Ok a -> Q (Ok a) s) ->
  wp (lift_result f r) Q s.
Proof. unfold wp. rewrite run_lift. destruct r; simpl; auto. Qed.

Lemma wp_ret {A} (a : A) Q s : Q (Ok a) s -> wp (mret a) Q s.
Proof. done. Qed.

Lemma wp_thr {A} e Q s : Q (Err e) s -> wp (Thr (A := A) e) Q s.
Proof. done. Qed.

Lemma wp_mono {A} (p : Prog A) (Q Q' : result E A -> S -> Prop) s :
  (forall r s', Q r s' -> Q' r s') -> wp p Q s -> wp p Q' s.
Proof. unfold wp. auto. Qed.

End Run.

(** ** Concurrent handlers *)

Section Interleaving.
Context {S : Type} (exec : forall X, Ev X -> S -> X -> S -> Prop).
Context (request : Prog unit -> Prop).

Record Config : Type := { cf_state : S; cf_pool : list (Prog unit) }.

Inductive step : Config -> Config -> Prop :=
| step_run s s' l r X (ev : Ev X) k x :
    exec X ev s x s' ->
    step {| cf_state := s; cf_pool := l ++ Vis ev k :: r |}
         {| cf_state := s'; cf_pool := l ++ k x :: r |}
| step_admit s pool p :
    request p ->
    step {| cf_state := s; cf_pool := pool |} {| cf_state := s; cf_pool := pool ++ [p] |}.

(** A relation every allowed event preserves holds between the states of any
    execution whose requests perform allowed events only. *)
Lemma steps_preserve (P : forall X, Ev X -> Prop) (R : relation S) `{!PreOrder R} c c' :
  (forall X ev s x s', P X ev -> exec X ev s x s' -> R s s') ->
  (forall p, request p -> all_events P p) ->
  rtc step c c' -> Forall (all_events P) (cf_pool c) -> R (cf_state c) (cf_state c').
Proof.
  intros He Hreq Hr Hl.
  enough (Forall (all_events P) (cf_pool c') /\ R (cf_state c) (cf_state c')) as [_ ?] by done.
  revert Hl. induction Hr as [c|c c1 c' Hs Hr IH]; intros Hl; [by split|].
  enough (Forall (all_events P) (cf_pool c1) /\ R (cf_state c) (cf_state c1)) as [Hl1 HR].
  { destruct (IH Hl1) as [? ?]. split; [done|by etrans]. }
  destruct Hs as [s s' l r X ev k x Hx|s pool p Hp]; simpl in *.
  - apply Forall_app in Hl as [Hl [[Hev Hk] Hrr]%Forall_cons].
    split; [|by eapply He]. apply Forall_app. split; [done|]. by constructor.
  - split; [|reflexivity]. apply Forall_app. split; [done|]. constructor; auto.
Qed.

(** *** Schedules: executable interleavings

    [advance (n, o)] runs one event of the [n]-th handler, answered by
    [handle o]. *)
Context {O : Type} (handle : O -> forall X, Ev X -> S -> X * S).

Definition advance (c : Config) (no : nat * O) : Config :=
  match cf_pool c !! fst no with
  | Some (@Vis _ X ev k) =>
      let '(x, s') := handle (snd no) X ev (cf_state c) in
      {| cf_state := s'; cf_pool := <[fst no := k x]> (cf_pool c) |}
  | _ => c
  end.

Definition follow (schedule : list (nat * O)) (c : Config) : Config := fold_left advance schedule c.

Lemma advance_steps c no :
  (forall X ev, exec X ev (cf_state c) (fst (handle (snd no) X ev (cf_state c)))
                  (snd (handle (snd no) X ev (cf_state c)))) ->
  rtc step c (advance c no).
Proof.
  intros He. destruct no as [n o]. unfold advance. simpl.
  destruct (cf_pool c !! n) as [[a|e|X ev k]|] eqn:En; try reflexivity.
  pose proof (He X ev) as Hx. simpl in Hx. destruct (handle o X ev (cf_state c)) as [x s'].
  apply rtc_once. destruct c as [s pool]. simpl in *.
  rewrite <- (take_drop_middle pool n _ En) at 1. rewrite insert_take_drop; [by constructor|].
  by eapply lookup_lt_Some.
Qed.

Lemma follow_steps schedule c :
  (forall o X ev s, exec X ev s (fst (handle o X ev s)) (snd (handle o X ev s))) ->
  rtc step c (follow schedule c).
Proof.
  intros He. unfold follow. revert c. induction schedule as [|no sch IH]; intros c; [done|].
  simpl. etrans; [by apply advance_steps|apply IH].
Qed.

(** A schedule whose answers are possible in the states they are given in. *)
Fixpoint schedule_ok (good : O -> S -> Prop) (schedule : list (nat * O)) (c : Config) : Prop :=
  match schedule with
  | [] => True
  | no :: sch => good (snd no) (cf_state c) /\ schedule_ok good sch (advance c no)
  end.

Lemma follow_ok_steps (good : O -> S -> Prop) schedule c :
  (forall o X ev s, good o s -> exec X ev s (fst (handle o X ev s)) (snd (handle o X ev s))) ->
  schedule_ok good schedule c -> rtc step c (follow schedule c).
Proof.
  intros He. unfold follow. revert c. induction schedule as [|no sch IH]; intros c; simpl; [done|].
  intros [Hg Hok]. etrans; [|by apply IH]. apply advance_steps. intros X ev. by apply He.
Qed.

Lemma admit_steps s pool ps :
  Forall request ps ->
  rtc step {| cf_state := s; cf_pool := pool |} {| cf_state := s; cf_pool := pool ++ ps |}.
Proof.
  intros Hps. revert pool. induction Hps as [|p ps Hp Hps IH]; intros pool.
  - by rewrite app_nil_r.
  - eapply rtc_l; [by apply (step_admit _ _ p)|].
    replace (pool ++ p :: ps) with ((pool ++ [p]) ++ ps) by (by rewrite <- app_assoc). apply IH.
Qed.

End Interleaving.
End Programs.

Arguments Prog : clear implicits.
Arguments Config : clear implicits.
Arguments Ret {Ev E A} a.
Arguments Thr {Ev E A} e.
Arguments Vis {Ev E A X} ev k.

Definition forget {Ev E A} (p : Prog Ev E A) : Prog Ev E unit := p ≫= fun _ => Ret tt.

Lemma all_events_forget {Ev E A} P (p : Prog Ev E A) : all_events P p -> all_events P (forget p).
Proof. intros. by apply all_events_bind. Qed.

Create HintDb events.
#[export] Hint Resolve all_events_bind all_events_perform all_events_throw_when
  all_events_need all_events_lift all_events_forget all_events_attempt : events.

(** Walk through a handler, one branch of its control flow per goal. *)
Ltac wp_step :=
  match goal with
  | |- wp _ (_ ≫= _) _ _ => apply wp_bind
  | |- wp _ (mret _) _ _ => apply wp_ret
  | |- wp _ (Ret _) _ _ => apply wp_ret
  | |- wp _ (Thr _) _ _ => apply wp_thr
  | |- wp _ (perform _) _ _ => apply wp_perform
  | |- wp _ (throw_when _ _) _ _ => apply wp_throw_when; intros ?
  | |- wp _ (need _ _) _ _ => apply wp_need; [intros ?|intros ? ?]
  | |- wp _ (lift_result _ _) _ _ => apply wp_lift; intros ? ?
  | |- wp _ (match ?x with _ => _ end) _ _ => destruct x eqn:?
  end; cbv beta iota.
