(* ===== verification/JsMap.v ===== *)
(** * JsMap: the insertion-ordered [Map] of the language

    A [Map] with string keys as the list of its bindings in order of first
    insertion: [set] on a present key replaces the value in place, on an absent
    key appends.  The services whose loops iterate over a map use this model;
    where a map is only looked up, it is a [gmap]. *)
From stdpp Require Import base list strings.
From Stdlib Require Import ZArith Lia.
From S2P Require Import Prelude.

Definition jsmap (V : Type) : Type := list (string * V).

Section JsMap.
Context {V : Type}.
Implicit Types (m : jsmap V) (k : string) (v : V).

Definition at_key (k : string) (kv : string * V) : bool := bool_decide (kv.1 = k).

Definition map_get (k : string) (m : jsmap V) : option V := snd <$> find_first (at_key k) m.

Definition map_set (k : string) (v : V) (m : jsmap V) : jsmap V :=
  match map_get k m with
  | Some _ => update_first (at_key k) (fun _ => (k, v)) m
  | None => m ++ [(k, v)]
  end.

Definition map_delete (k : string) (m : jsmap V) : jsmap V := List.filter (fun kv => negb (at_key k kv)) m.

Definition map_values (m : jsmap V) : list V := map snd m.
Definition map_keys (m : jsmap V) : list string := map fst m.

Lemma at_key_true k kv : at_key k kv = true <-> kv.1 = k.
Proof. apply bool_decide_eq_true. Qed.

Lemma map_get_None k m : map_get k m = None <-> k ∉ map_keys m.
Proof.
  unfold map_get, map_keys. rewrite fmap_None, find_first_None, list_elem_of_fmap. split.
  - intros H ([k' v] & -> & Hin). specialize (H _ Hin). apply bool_decide_eq_false in H. done.
  - intros H x Hin. apply bool_decide_eq_false. intros <-. apply H. eauto.
Qed.

Lemma map_get_elem k v m : map_get k m = Some v -> (k, v) ∈ m.
Proof.
  unfold map_get. intros ([k' v'] & [Hk Hin]%find_first_Some & ->)%fmap_Some.
  apply at_key_true in Hk. simpl in *. by subst.
Qed.

Lemma elem_map_get k v m : NoDup (map_keys m) -> (k, v) ∈ m -> map_get k m = Some v.
Proof.
  induction m as [|[k' v'] m IH]; intros Hnd Hin; [by apply elem_of_nil in Hin|].
  simpl in Hnd. apply NoDup_cons in Hnd as [Hn Hnd]. unfold map_get in *. simpl.
  apply elem_of_cons in Hin as [[= -> ->]|Hin].
  - unfold at_key. simpl. by rewrite bool_decide_eq_true_2.
  - unfold at_key at 1. simpl. rewrite bool_decide_eq_false_2; [by apply IH|].
    intros ->. apply Hn. unfold map_keys. apply list_elem_of_fmap. by exists (k, v).
Qed.

Lemma map_get_set k k' v m : map_get k (map_set k' v m) = if bool_decide (k = k') then Some v else map_get k m.
Proof.
  unfold map_set. case_bool_decide as Hk; [subst k'|].
  - unfold map_get. destruct (find_first (at_key k) m) as [kv|] eqn:Ef; simpl.
    + rewrite (find_update_first_eq _ _ _ kv Ef); [done|]. by apply at_key_true.
    + rewrite find_first_app, Ef. simpl. unfold at_key. by rewrite bool_decide_eq_true_2.
  - destruct (map_get k' m) eqn:E.
    + unfold map_get. rewrite find_update_first_ne; [done|]. intros x Hx%at_key_true.
      unfold at_key. simpl. rewrite !bool_decide_eq_false_2; [done|congruence..].
    + unfold map_get. rewrite find_first_app.
      destruct (find_first (at_key k) m); [done|]. simpl. unfold at_key.
      simpl. by rewrite bool_decide_eq_false_2.
Qed.

Lemma map_get_set_eq k v m : map_get k (map_set k v m) = Some v.
Proof. rewrite map_get_set. by rewrite bool_decide_eq_true_2. Qed.

Lemma map_get_set_ne k k' v m : k <> k' -> map_get k (map_set k' v m) = map_get k m.
Proof. intros. rewrite map_get_set. by rewrite bool_decide_eq_false_2. Qed.

Lemma map_keys_set k v m :
  map_keys (map_set k v m) = match map_get k m with Some _ => map_keys m | None => map_keys m ++ [k] end.
Proof.
  unfold map_set. destruct (map_get k m); unfold map_keys.
  - apply map_update_first. intros x Hx. by apply at_key_true in Hx.
  - by rewrite map_app.
Qed.

(** A new key is appended. *)
Lemma map_set_fresh k v m : k ∉ map_keys m -> map_set k v m = m ++ [(k, v)].
Proof. intros Hk. apply map_get_None in Hk. unfold map_set. by rewrite Hk. Qed.

Lemma map_set_nodup k v m : NoDup (map_keys m) -> NoDup (map_keys (map_set k v m)).
Proof.
  intros Hnd. rewrite map_keys_set. destruct (map_get k m) eqn:E; [done|].
  apply NoDup_app. split; [done|]. apply map_get_None in E. split; [|apply NoDup_singleton].
  by intros x Hx ->%list_elem_of_singleton.
Qed.

Lemma map_delete_nodup k m : NoDup (map_keys m) -> NoDup (map_keys (map_delete k m)).
Proof.
  unfold map_delete, map_keys. induction m as [|kv m IH]; [done|]. simpl.
  intros [Hn Hnd]%NoDup_cons. destruct (negb (at_key k kv)); [|by apply IH]. simpl. apply NoDup_cons. split; [|by apply IH].
  intros (x & Hx & Hin)%list_elem_of_fmap. apply list_elem_of_In, filter_In in Hin as [Hin _].
  apply Hn, list_elem_of_fmap. exists x. split; [done|]. by apply list_elem_of_In.
Qed.

Lemma map_get_cons k k' v m : map_get k ((k', v) :: m) = if bool_decide (k' = k) then Some v else map_get k m.
Proof. unfold map_get. cbn [find_first]. unfold at_key at 1. cbn [fst]. by destruct (bool_decide _). Qed.

Lemma map_get_delete k k' m : map_get k (map_delete k' m) = if bool_decide (k = k') then None else map_get k m.
Proof.
  unfold map_delete. induction m as [|[i v] m IH]; [by destruct (bool_decide _)|].
  cbn [List.filter]. unfold at_key at 1. cbn [fst]. destruct (bool_decide_reflect (i = k')) as [->|Hi]; cbn [negb];
    rewrite !map_get_cons, ?IH; repeat case_bool_decide; congruence.
Qed.

Lemma map_set_forall (P : string * V -> Prop) k v m : P (k, v) -> Forall P m -> Forall P (map_set k v m).
Proof.
  intros Hv Hm. unfold map_set. destruct (map_get k m); [|by apply Forall_app; repeat constructor].
  apply Forall_forall. intros x Hx. apply elem_of_update_first in Hx as [Hx|(y & Hy & ->)]; [|done].
  rewrite Forall_forall in Hm. by apply Hm.
Qed.

Lemma map_delete_forall (P : string * V -> Prop) k m : Forall P m -> Forall P (map_delete k m).
Proof.
  rewrite !Forall_forall. intros Hm x Hx%list_elem_of_In. apply filter_In in Hx as [Hx%list_elem_of_In _]. by apply Hm.
Qed.

(** Changing every value in place. *)
Definition map_update_all (f : V -> V) (m : jsmap V) : jsmap V := zip (map_keys m) (map f (map_values m)).

Lemma map_update_all_eq f m : map_update_all f m = map (fun kv => (kv.1, f kv.2)) m.
Proof. unfold map_update_all, map_keys, map_values. induction m as [|[k v] m IH]; [done|]. simpl. by f_equal. Qed.

Lemma map_get_update_all f k m : map_get k (map_update_all f m) = f <$> map_get k m.
Proof.
  rewrite map_update_all_eq. unfold map_get. induction m as [|[k' v'] m IH]; [done|]. simpl.
  unfold at_key at 1 3. simpl. by case_bool_decide.
Qed.

(** Sums over the values. *)
Definition sum_values (f : V -> Z) (m : jsmap V) : Z := foldr (fun kv acc => (f kv.2 + acc)%Z) 0%Z m.

Lemma sum_values_set f k v m :
  sum_values f (map_set k v m) = (sum_values f m + f v - from_option f 0 (map_get k m))%Z.
Proof.
  unfold map_set. destruct (map_get k m) as [v0|] eqn:E; simpl.
  - revert E. unfold map_get. induction m as [|[k' v'] m IH]; [done|]. simpl. unfold at_key at 1 3. simpl.
    case_bool_decide; simpl; [intros [= ->]; lia|]. intros E. rewrite (IH E). lia.
  - clear E. induction m as [|[k' v'] m IH]; simpl in *; [lia|]. rewrite IH. lia.
Qed.

Lemma sum_values_update_all f g m :
  (forall v, f (g v) = f v) -> sum_values f (map_update_all g m) = sum_values f m.
Proof. intros Hf. rewrite map_update_all_eq. induction m as [|[k v] m IH]; [done|]. simpl. by rewrite Hf, IH. Qed.

Lemma sum_values_abs f g m : (forall v, Z.abs (f v) <= g v)%Z -> (Z.abs (sum_values f m) <= sum_values g m)%Z.
Proof. intros Hf. induction m as [|[k v] m IH]; simpl; [lia|]. specialize (Hf v). lia. Qed.

End JsMap.

#[export] Hint Resolve map_set_nodup map_delete_nodup : core.
