(* ===== verification/HashChain.v ===== *)
(** * HashChain: hash-chained ledgers

    The chain property that the refund ledger, the reversal ledger and the
    redemption ledger share: every entry stores the hash of its predecessor and
    the hash of its own fields.  An entry type is given by what it stores
    ([prev_of], [hash_of]) and by the string that is hashed ([input_of]); SHA-256
    is a parameter.  [verifyChain] is the walk of
    [modules/cancellation/cancellation-reversal-service.ts] and
    [services/redemptionLedger.ts], which is the same code twice. *)
From stdpp Require Import base list strings.
From Stdlib Require Import ZArith Lia Ascii.
From S2P Require Import Prelude.

Section HashChain.
Context {E : Type} (sha256 : string -> string) (prev_of hash_of input_of : E -> string).
Implicit Types (e : E) (l : list E) (prev : string).

Definition derived e : string := sha256 (input_of e).

(** [chain_ok prev l]: the entries follow an entry with hash [prev]. *)
Fixpoint chain_ok prev l : Prop :=
  match l with
  | [] => True
  | e :: l' => prev_of e = prev /\ hash_of e = derived e /\ chain_ok (hash_of e) l'
  end.

Definition tail_from prev l : string :=
  match last l with Some e => hash_of e | None => prev end.

Lemma tail_from_cons prev e l : tail_from prev (e :: l) = tail_from (hash_of e) l.
Proof. unfold tail_from. rewrite last_cons. by destruct (last l). Qed.

Lemma chain_ok_app prev l1 l2 :
  chain_ok prev (l1 ++ l2) <-> chain_ok prev l1 /\ chain_ok (tail_from prev l1) l2.
Proof.
  revert prev. induction l1 as [|e l1 IH]; intros prev; simpl; [tauto|].
  rewrite IH, tail_from_cons. tauto.
Qed.

Lemma chain_ok_snoc prev l e :
  chain_ok prev (l ++ [e]) <->
  chain_ok prev l /\ prev_of e = tail_from prev l /\ hash_of e = derived e.
Proof. rewrite chain_ok_app. simpl. tauto. Qed.

(** Every stored predecessor hash is the genesis value or a digest. *)
Lemma chain_ok_prevs (Q : string -> Prop) prev l :
  Q prev -> (forall x, Q (sha256 x)) -> chain_ok prev l -> Forall (fun e => Q (prev_of e)) l.
Proof.
  intros Hp Hd. revert prev Hp. induction l as [|e l IH]; intros prev Hp; simpl; [by constructor|].
  intros (He & Hh & Hc). constructor; [by rewrite He|]. apply (IH (hash_of e)); [|done]. rewrite Hh. apply Hd.
Qed.

Lemma chain_ok_hashes prev l : chain_ok prev l -> Forall (fun e => hash_of e = derived e) l.
Proof.
  revert prev. induction l as [|e l IH]; intros prev; simpl; [by constructor|].
  intros (_ & Hh & Hc). constructor; eauto.
Qed.

(** Changing fields of an entry that are neither stored hashes nor hashed. *)
Lemma chain_ok_insert prev l n e e' :
  l !! n = Some e -> prev_of e' = prev_of e -> hash_of e' = hash_of e -> derived e' = derived e ->
  chain_ok prev l -> chain_ok prev (<[n := e']> l).
Proof.
  intros Hn Hp Hh Hd. revert prev n Hn. induction l as [|x l IH]; intros prev [|n] Hn Hc; simpl in *; try done.
  - simplify_eq. by rewrite Hp, Hh, Hd.
  - destruct Hc as (? & ? & ?). auto.
Qed.

(** ** The verifier *)

Inductive ChainFault : Type :=
| GenesisPrevHash (prev : string)
| HashMismatch (expected stored : string)
| LinkMismatch (prev stored : string).

Record VerificationResult : Type := {
  vr_valid : bool;
  vr_entriesChecked : nat;
  vr_firstBrokenIndex : option nat;
  vr_error : option ChainFault
}.

Definition broken_at (i : nat) (f : ChainFault) : VerificationResult :=
  {| vr_valid := false; vr_entriesChecked := S i; vr_firstBrokenIndex := Some i; vr_error := Some f |}.

(** The loop body from entry [i] on; [pred] is [entries[i - 1]]. *)
Fixpoint verify_loop (i : nat) (pred : option E) l : VerificationResult :=
  match l with
  | [] => {| vr_valid := true; vr_entriesChecked := i; vr_firstBrokenIndex := None; vr_error := None |}
  | e :: l' =>
      if negb (bool_decide (derived e = hash_of e))
      then broken_at i (HashMismatch (derived e) (hash_of e))
      else match pred with
           | Some p => if negb (bool_decide (prev_of e = hash_of p))
                       then broken_at i (LinkMismatch (prev_of e) (hash_of p))
                       else verify_loop (S i) (Some e) l'
           | None => verify_loop (S i) (Some e) l'
           end
  end.

Definition verifyChain l : VerificationResult :=
  match l with
  | [] => {| vr_valid := true; vr_entriesChecked := 0; vr_firstBrokenIndex := None; vr_error := None |}
  | genesis :: _ =>
      if negb (bool_decide (prev_of genesis = ""%string))
      then broken_at 0 (GenesisPrevHash (prev_of genesis))
      else verify_loop 0 None l
  end.

(** What a verification result says about a list of entries. *)
Definition diagnoses prev l (i : nat) (r : VerificationResult) : Prop :=
  (vr_valid r = true /\ chain_ok prev l /\ vr_firstBrokenIndex r = None /\
   vr_entriesChecked r = (i + length l)%nat) \/
  (vr_valid r = false /\ exists n e, l !! n = Some e /\ vr_firstBrokenIndex r = Some (i + n)%nat /\
     vr_entriesChecked r = S (i + n) /\
     chain_ok prev (take n l) /\ ~ chain_ok prev (take (S n) l)).

Lemma diagnoses_cons prev e l i r :
  prev_of e = prev -> hash_of e = derived e ->
  diagnoses (hash_of e) l (S i) r -> diagnoses prev (e :: l) i r.
Proof.
  intros Hp Hh [(Hv & Hc & Hb & Hn)|(Hv & n & e' & Hl & Hb & Hn & Ht & Hs)].
  - left. split_and!; try done. rewrite Hn. simpl. lia.
  - right. split; [done|]. exists (S n), e'. rewrite Hb, Hn. simpl. split_and!; try done; [f_equal; lia|lia|].
    intros (_ & _ & Hbad). by apply Hs.
Qed.

Lemma diagnoses_broken prev e l i f :
  ~ (prev_of e = prev /\ hash_of e = derived e) -> diagnoses prev (e :: l) i (broken_at i f).
Proof.
  intros Hbad. right. split; [done|]. exists 0%nat, e. simpl. rewrite Nat.add_0_r.
  split_and!; try done. tauto.
Qed.

Lemma verify_loop_spec i p l : diagnoses (hash_of p) l i (verify_loop i (Some p) l).
Proof.
  revert i p. induction l as [|e l IH]; intros i p; simpl.
  { left. split_and!; try done. }
  case_bool_decide as Hh; simpl; [|by apply diagnoses_broken; intros [_ ?]].
  case_bool_decide as Hp; simpl; [|by apply diagnoses_broken; intros [? _]].
  by apply diagnoses_cons.
Qed.

(** The verifier decides the chain property from the genesis value on, and the
    index it reports is the length of the longest intact prefix. *)
Lemma verifyChain_spec l : diagnoses ""%string l 0 (verifyChain l).
Proof.
  destruct l as [|e l]; simpl; [left; by split_and!|].
  case_bool_decide as Hp; simpl; [|by apply diagnoses_broken; intros [? _]].
  case_bool_decide as Hh; simpl; [|by apply diagnoses_broken; intros [_ ?]].
  apply diagnoses_cons; [done..|]. apply verify_loop_spec.
Qed.

Lemma verifyChain_valid l : vr_valid (verifyChain l) = true <-> chain_ok ""%string l.
Proof.
  destruct (verifyChain_spec l) as [(-> & Hc & _)|(-> & n & e & _ & _ & _ & _ & Hs)]; [done|].
  split; [done|]. intros Hc. exfalso. apply Hs.
  rewrite <- (take_drop (S n) l) in Hc. by apply chain_ok_app in Hc as [? _].
Qed.

(** ** Commitment

    When the hash has no collisions and what is hashed determines the stored
    predecessor hash, the last hash determines everything that was hashed. *)
Section Commitment.
Hypothesis sha256_injective : forall x y, sha256 x = sha256 y -> x = y.
Context (genesis : string).
Hypothesis sha256_not_genesis : forall x, sha256 x <> genesis.
Context (P : E -> Prop).
Hypothesis input_commits : forall e1 e2, P e1 -> P e2 -> input_of e1 = input_of e2 -> prev_of e1 = prev_of e2.

Lemma tail_commits l1 l2 :
  Forall P l1 -> Forall P l2 -> chain_ok genesis l1 -> chain_ok genesis l2 ->
  tail_from genesis l1 = tail_from genesis l2 -> map input_of l1 = map input_of l2.
Proof.
  revert l2. induction l1 as [|e1 l1 IH] using rev_ind; intros l2 P1 P2 H1 H2 Ht.
  - destruct l2 as [|e2 l2 _] using rev_ind; [done|]. exfalso.
    apply chain_ok_snoc in H2 as (_ & _ & Hh). unfold tail_from in Ht. rewrite last_snoc, Hh in Ht.
    by apply (sha256_not_genesis (input_of e2)).
  - apply chain_ok_snoc in H1 as (Hc1 & Hp1 & Hh1). unfold tail_from at 1 in Ht. rewrite last_snoc, Hh1 in Ht.
    apply Forall_app in P1 as [P1 [Q1 _]%Forall_cons].
    destruct l2 as [|e2 l2 _] using rev_ind.
    { exfalso. by apply (sha256_not_genesis (input_of e1)). }
    apply chain_ok_snoc in H2 as (Hc2 & Hp2 & Hh2). unfold tail_from in Ht. rewrite last_snoc, Hh2 in Ht.
    apply Forall_app in P2 as [P2 [Q2 _]%Forall_cons].
    apply sha256_injective in Ht. rewrite !map_app. simpl. f_equal; [|by f_equal].
    apply IH; try done. rewrite <- Hp1, <- Hp2. by apply input_commits.
Qed.
End Commitment.

End HashChain.

(** ** Fields separated by bars *)

Fixpoint no_bar (s : string) : bool :=
  match s with
  | EmptyString => true
  | String c s' => negb (bool_decide (c = "|"%char)) && no_bar s'
  end.

Lemma split_at_bar a b x y :
  no_bar a = true -> no_bar b = true ->
  (a +:+ "|" +:+ x = b +:+ "|" +:+ y)%string -> a = b /\ x = y.
Proof.
  revert b. induction a as [|c a IH]; intros [|d b] Ha Hb Heq; simpl in *.
  - by injection Heq.
  - injection Heq as <- _. by rewrite bool_decide_eq_true_2 in Hb.
  - injection Heq as -> _. by rewrite bool_decide_eq_true_2 in Ha.
  - apply andb_true_iff in Ha as [_ Ha]. apply andb_true_iff in Hb as [_ Hb].
    injection Heq as -> Heq. destruct (IH b Ha Hb Heq) as [-> ->]. done.
Qed.

(** ** A collision-free stand-in for SHA-256: the bits of the input. *)

Definition bit_string (b : bool) (s : string) : string := String (if b then "1" else "0")%char s.

Fixpoint w_bits (s : string) : string :=
  match s with
  | EmptyString => EmptyString
  | String (Ascii b0 b1 b2 b3 b4 b5 b6 b7) s' =>
      bit_string b0 (bit_string b1 (bit_string b2 (bit_string b3
        (bit_string b4 (bit_string b5 (bit_string b6 (bit_string b7 (w_bits s'))))))))
  end.

Definition w_sha (s : string) : string := String "h" (w_bits s).

Lemma bit_string_inj b c s t : bit_string b s = bit_string c t -> b = c /\ s = t.
Proof. unfold bit_string. destruct b, c; intros Heq; injection Heq; by auto || discriminate. Qed.

Lemma w_bits_inj s t : w_bits s = w_bits t -> s = t.
Proof.
  revert t. induction s as [|[b0 b1 b2 b3 b4 b5 b6 b7] s IH]; intros [|[c0 c1 c2 c3 c4 c5 c6 c7] t];
    simpl; try done. intros Heq.
  repeat match goal with H : bit_string _ _ = bit_string _ _ |- _ => apply bit_string_inj in H as [-> H] end.
  by rewrite (IH t).
Qed.

Lemma w_sha_injective x y : w_sha x = w_sha y -> x = y.
Proof. intros [= Heq]. by apply w_bits_inj. Qed.

Lemma w_sha_hex x : w_sha x <> ""%string /\ no_bar (w_sha x) = true.
Proof.
  split; [done|]. simpl. induction x as [|[b0 b1 b2 b3 b4 b5 b6 b7] x IH]; simpl; [done|].
  by destruct b0, b1, b2, b3, b4, b5, b6, b7.
Qed.
