(* ===== verification/Domain.v ===== *)
(** * Domain: the records the booking components exchange

    Data types of [modules/booking-intents/booking-intent-repository.ts],
    [modules/slots/slot-repository.ts], [services/holdFeePolicy.ts],
    [services/pricingStrategy.ts] and the authentication context of
    [middleware/auth.ts].  Epoch-millisecond timestamps are integers; prices,
    ratios and user-supplied deadlines are JavaScript numbers.  Optional fields
    are options; ISO date strings are strings. *)
From stdpp Require Import base list strings decidable.
From Stdlib Require Import ZArith.
From S2P Require Import Prelude JsNumber.
Local Open Scope Z_scope.

(** ** Authentication context *)

(** [UserRole] is a string in the source; the verified claims of the token are
    not consulted by the modelled code. *)
Record AuthContext : Type := { userId : string; role : string }.

Definition is_admin (a : AuthContext) : bool := bool_decide (role a = "admin"%string).

(** ** JSON values *)

Inductive Json : Type :=
| JUndefined
| JNull
| JBool (b : bool)
| JNum (n : num)
| JStr (s : string)
| JArr (l : list Json)
| JObj (fields : list (string * Json)).

(** [o[name]] of an object literal: the last binding of a name wins. *)
Definition field (name : string) (o : list (string * Json)) : Json :=
  match find_first (fun p => bool_decide (fst p = name)) (rev o) with
  | Some (_, v) => v
  | None => JUndefined
  end.

(** ** Booking intents *)

Inductive BookingIntentStatus : Type :=
| pending | confirmed | firm | cancelled | expired | hold_placed | hold_refunded
| escrow_held | escrow_released | escrow_refunded | escrow_disputed | no_show.

#[export] Instance BookingIntentStatus_eq_dec : EqDecision BookingIntentStatus.
Proof. solve_decision. Defined.

Inductive BookingType : Type := standard | refundable_hold.

#[export] Instance BookingType_eq_dec : EqDecision BookingType.
Proof. solve_decision. Defined.

Inductive StrategyId : Type := sid_fixed | sid_time_decay | sid_demand_based | sid_flat_rate.

Inductive StrategyConfig : Type :=
| FixedConfig
| TimeDecayConfig (windowMs minMultiplier : num)
| DemandBasedConfig (maxMultiplier : num).

Record PricingSnapshot : Type := {
  ps_strategyId : StrategyId;
  ps_resolvedPrice : num;
  ps_basePrice : num;
  ps_slotStartMs : Z;
  ps_nowMs : Z;
  ps_activeBookings : Z;
  ps_capacity : num;
  ps_config : StrategyConfig
}.

Record CancellationTier : Type := {
  minHoursUntilStart : num;
  maxHoursUntilStart : option num;
  refundRatio : num;
  flatFee : option num;
  percentageFee : option num;
  taxReversalRatio : option num
}.

Record ProratedCancellationTerms : Type := {
  tiers : list CancellationTier;
  minRefundAmount : option num;
  maxRefundAmount : option num
}.

Record CancellationPolicySnapshot : Type := {
  policyVersionId : string;
  policyTerms : ProratedCancellationTerms;
  cps_capturedAtMs : Z
}.

Record HoldFeePolicySnapshot : Type := {
  hfs_supplierId : string;
  hfs_holdFeeCents : num;
  hfs_capturedAtMs : Z
}.

Record RefundMetadata : Type := {
  rm_refundedAt : string;
  rm_refundedAmountCents : num;
  rm_refundReason : string
}.

Record FxRateSnapshot : Type := {
  fx_rate : num;
  fx_baseCurrency : string;
  fx_targetCurrency : string;
  fx_capturedAtMs : Z
}.

Record BookingIntentRecord : Type := {
  bi_id : string;
  bi_slotId : string;
  bi_professional : string;
  bi_customerId : string;
  bi_startTime : Z;
  bi_endTime : Z;
  bi_status : BookingIntentStatus;
  bi_note : option string;
  bi_tokenAsset : option string;
  bi_mintTxHash : option string;
  bi_createdAt : string;
  bi_slotIds : option (list string);
  bi_bundleId : option string;
  bi_supplierId : option string;
  bi_buyerId : option string;
  bi_escrowHoldId : option string;
  bi_bookingType : option BookingType;
  bi_holdUntilMs : option num;
  bi_holdPlacedAt : option string;
  bi_refundedAt : option string;
  bi_refundMetadata : option RefundMetadata;
  bi_pricingSnapshot : option PricingSnapshot;
  bi_cancellationPolicySnapshot : option CancellationPolicySnapshot;
  bi_holdFeePolicySnapshot : option HoldFeePolicySnapshot;
  bi_fxRateSnapshot : option FxRateSnapshot
}.

(** [Partial<Omit<BookingIntentRecord, "id">>] as the fields it assigns, for
    the fields callers of [update] assign. *)
Inductive IntentField : Type :=
| SetStatus (s : BookingIntentStatus)
| SetRefundedAt (t : string)
| SetRefundMetadata (m : RefundMetadata)
| SetTokenAsset (a : string)
| SetMintTxHash (h : string).

Definition set_field (u : IntentField) (r : BookingIntentRecord) : BookingIntentRecord :=
  let '(Build_BookingIntentRecord id slotId prof cust st en status note tok mint created
          slotIds bundle supp buyer hold bt hu hp ra rm ps cp hf fx) := r in
  match u with
  | SetStatus s => Build_BookingIntentRecord id slotId prof cust st en s note tok mint created
          slotIds bundle supp buyer hold bt hu hp ra rm ps cp hf fx
  | SetRefundedAt t => Build_BookingIntentRecord id slotId prof cust st en status note tok mint created
          slotIds bundle supp buyer hold bt hu hp (Some t) rm ps cp hf fx
  | SetRefundMetadata m => Build_BookingIntentRecord id slotId prof cust st en status note tok mint created
          slotIds bundle supp buyer hold bt hu hp ra (Some m) ps cp hf fx
  | SetTokenAsset a => Build_BookingIntentRecord id slotId prof cust st en status note (Some a) mint created
          slotIds bundle supp buyer hold bt hu hp ra rm ps cp hf fx
  | SetMintTxHash h => Build_BookingIntentRecord id slotId prof cust st en status note tok (Some h) created
          slotIds bundle supp buyer hold bt hu hp ra rm ps cp hf fx
  end.

(** The object spread [{ ...r, ...updates }]. *)
Definition spread (us : list IntentField) (r : BookingIntentRecord) : BookingIntentRecord :=
  fold_left (fun r u => set_field u r) us r.

Arguments spread : simpl never.

(** ** Slots *)

Record SlotPricingStrategy : Type := {
  sps_strategyId : StrategyId;
  sps_basePrice : num;
  sps_capacity : option num;
  sps_config : StrategyConfig
}.

Record SlotRecord : Type := {
  sl_id : string;
  sl_professional : string;
  sl_startTime : Z;
  sl_endTime : Z;
  sl_bookable : bool;
  sl_pricingStrategy : option SlotPricingStrategy;
  sl_validUntil : option Z;
  sl_supplierId : option string;
  sl_storeId : option string;
  sl_tenantId : option string;
  sl_category : option string;
  sl_transferable : option bool;
  sl_currency : option string;
  sl_amount_minor : option num
}.

Definition set_bookable (b : bool) (s : SlotRecord) : SlotRecord :=
  {| sl_id := sl_id s; sl_professional := sl_professional s;
     sl_startTime := sl_startTime s; sl_endTime := sl_endTime s; sl_bookable := b;
     sl_pricingStrategy := sl_pricingStrategy s; sl_validUntil := sl_validUntil s;
     sl_supplierId := sl_supplierId s; sl_storeId := sl_storeId s;
     sl_tenantId := sl_tenantId s; sl_category := sl_category s;
     sl_transferable := sl_transferable s; sl_currency := sl_currency s;
     sl_amount_minor := sl_amount_minor s |}.

(** ** Field facts *)

Lemma set_field_id u r : bi_id (set_field u r) = bi_id r.
Proof. by destruct r, u. Qed.

Lemma set_field_slotId u r : bi_slotId (set_field u r) = bi_slotId r.
Proof. by destruct r, u. Qed.

Lemma spread_id us r : bi_id (spread us r) = bi_id r.
Proof.
  revert r. induction us as [|u us IH]; intros r; simpl; [done|].
  unfold spread in *. simpl. by rewrite IH, set_field_id.
Qed.

Lemma spread_slotId us r : bi_slotId (spread us r) = bi_slotId r.
Proof.
  revert r. induction us as [|u us IH]; intros r; simpl; [done|].
  unfold spread in *. simpl. by rewrite IH, set_field_slotId.
Qed.
