(* ===== verification/Canonical.v ===== *)
(** * Canonical: JSON text and canonical request bodies

    [stableStringify] and [generateRequestHash] of [utils/hash.ts], which the
    idempotency middleware and the finality chain of disputes hash, and the
    part of [JSON.stringify] they use.  How a finite number is printed is a
    parameter; SHA-256 is a parameter.  The keys of an object are listed in
    insertion order (no modelled body has integer-like keys). *)
From stdpp Require Import base list strings relations.
From Stdlib Require Import ZArith Lia Ascii.
From S2P Require Import Prelude JsNumber Domain.
Local Open Scope string_scope.

(** ** [JSON.stringify] *)

Definition dquote : ascii := ascii_of_nat 34.
Definition backslash : ascii := ascii_of_nat 92.

Definition hex_digit (n : nat) : ascii := ascii_of_nat (if (n <? 10)%nat then 48 + n else 87 + n).

(** A character of a string literal. *)
Definition json_char (c : ascii) : string :=
  let n := nat_of_ascii c in
  if (n =? 34)%nat || (n =? 92)%nat then String backslash (String c "")
  else if (n =? 8)%nat then String backslash "b"
  else if (n =? 9)%nat then String backslash "t"
  else if (n =? 10)%nat then String backslash "n"
  else if (n =? 12)%nat then String backslash "f"
  else if (n =? 13)%nat then String backslash "r"
  else if (n <? 32)%nat
  then String backslash ("u00" +:+ String (hex_digit (n / 16)) (String (hex_digit (n mod 16)) ""))
  else String c "".

Fixpoint json_chars (s : string) : string :=
  match s with
  | EmptyString => ""
  | String c s' => json_char c +:+ json_chars s'
  end.

Definition json_quote (s : string) : string := String dquote (json_chars s +:+ String dquote "").

Fixpoint commas (l : list string) : string :=
  match l with
  | [] => ""
  | [x] => x
  | x :: l' => x +:+ "," +:+ commas l'
  end.

(** ** [stableStringify] *)

Definition key_gt (p q : string * Json) : bool := String.ltb (fst q) (fst p).

Fixpoint stableStringify (j : Json) : Json :=
  match j with
  | JArr l => JArr (map stableStringify l)
  | JObj fs => JObj (js_sort key_gt (map (fun '(k, v) => (k, stableStringify v)) fs))
  | _ => j
  end.

Section Text.
Context (number_toString : num -> string).

(** An undefined array element prints as [null]; an undefined field is left out. *)
Fixpoint json_text (j : Json) : string :=
  match j with
  | JUndefined | JNull => "null"
  | JBool b => if b then "true" else "false"
  | JNum n => if is_finite n then number_toString n else "null"
  | JStr s => json_quote s
  | JArr l => "[" +:+ commas (map json_text l) +:+ "]"
  | JObj fs =>
      "{" +:+ commas (omap (fun '(k, v) =>
        match v with
        | JUndefined => None
        | _ => Some (json_quote k +:+ ":" +:+ json_text v)
        end) fs) +:+ "}"
  end.

Definition json_truthy (j : Json) : bool :=
  match j with
  | JUndefined | JNull => false
  | JBool b => b
  | JNum n => truthy n
  | JStr s => str_truthy s
  | JArr _ | JObj _ => true
  end.

Definition request_text (method url : string) (body : Json) : string :=
  method +:+ url +:+ (if json_truthy body then json_text (stableStringify body) else "").

Definition generateRequestHash (sha256 : string -> string) (method url : string) (body : Json) : string :=
  sha256 (request_text method url body).

End Text.

(** ** Quoted strings can be read back *)

Definition unhex (c : ascii) : nat :=
  let n := nat_of_ascii c in if (n <? 58)%nat then n - 48 else n - 87.

(** Reads one character of a string literal. *)
Definition read_char (s : string) : option (ascii * string) :=
  match s with
  | EmptyString => None
  | String c s' =>
      if (nat_of_ascii c =? 34)%nat then None
      else if (nat_of_ascii c =? 92)%nat then
        match s' with
        | String "u" (String _ (String _ (String h (String l r)))) => Some (ascii_of_nat (16 * unhex h + unhex l), r)
        | String "b" r => Some (ascii_of_nat 8, r)
        | String "t" r => Some (ascii_of_nat 9, r)
        | String "n" r => Some (ascii_of_nat 10, r)
        | String "f" r => Some (ascii_of_nat 12, r)
        | String "r" r => Some (ascii_of_nat 13, r)
        | String c' r => Some (c', r)
        | EmptyString => None
        end
      else Some (c, s')
  end.

Lemma read_char_json c r : read_char (json_char c +:+ r) = Some (c, r).
Proof. by destruct c as [[] [] [] [] [] [] [] []]. Qed.

Lemma json_chars_prefix a b x y :
  json_chars a +:+ String dquote x = json_chars b +:+ String dquote y -> a = b /\ x = y.
Proof.
  revert b. induction a as [|c a IH]; intros [|d b] Heq; simpl in Heq.
  - by injection Heq.
  - apply (f_equal read_char) in Heq. rewrite str_app_assoc, read_char_json in Heq. done.
  - apply (f_equal read_char) in Heq. rewrite str_app_assoc, read_char_json in Heq. done.
  - rewrite !str_app_assoc in Heq. pose proof (f_equal read_char Heq) as Hr.
    rewrite !read_char_json in Hr. injection Hr as -> Hr. destruct (IH b Hr) as [-> ->]. done.
Qed.

Lemma json_quote_prefix a b x y : json_quote a +:+ x = json_quote b +:+ y -> a = b /\ x = y.
Proof.
  unfold json_quote. simpl. intros [= Heq]. rewrite !str_app_assoc in Heq. by apply json_chars_prefix in Heq.
Qed.

(** ** Bodies that differ in the order of fields *)

Inductive reorder : Json -> Json -> Prop :=
| ro_fields fs fs' : fs ≡ₚ fs' -> NoDup (map fst fs) -> reorder (JObj fs) (JObj fs')
| ro_element l1 j j' l2 : reorder j j' -> reorder (JArr (l1 ++ j :: l2)) (JArr (l1 ++ j' :: l2))
| ro_value fs1 k j j' fs2 :
    reorder j j' -> reorder (JObj (fs1 ++ (k, j) :: fs2)) (JObj (fs1 ++ (k, j') :: fs2)).

(** The same value up to the order of the fields of objects, at any depth. *)
Definition json_equiv : relation Json := rtsc reorder.

#[export] Instance json_equiv_equivalence : Equivalence json_equiv.
Proof. apply _. Qed.

Lemma key_gt_false p q : key_gt p q = false <-> String.leb (fst p) (fst q) = true.
Proof.
  unfold key_gt, String.ltb, String.leb. rewrite (String.compare_antisym (fst q) (fst p)).
  by destruct (String.compare (fst p) (fst q)).
Qed.

Lemma leb_of_gt p q : key_gt p q = true -> key_gt q p = false.
Proof.
  unfold key_gt, String.ltb. rewrite (String.compare_antisym (fst q) (fst p)).
  by destruct (String.compare (fst p) (fst q)).
Qed.

Lemma sorted_fields_ordered l : ordered key_gt (js_sort key_gt l).
Proof.
  apply (js_sort_ordered _ (fun _ => True)); [by intros; apply leb_of_gt| |done].
  intros x y z _ _ _. rewrite !key_gt_false. intros H1 H2.
  pose proof (transitivity (R := String.le) (x := fst x) (y := fst y) (z := fst z)) as Ht.
  unfold String.le in Ht. rewrite H1, H2 in Ht. destruct (String.leb (fst x) (fst z)); [done|]. by destruct Ht.
Qed.

Lemma ordered_fields_unique l1 l2 :
  ordered key_gt l1 -> ordered key_gt l2 -> l1 ≡ₚ l2 -> NoDup (map fst l1) -> l1 = l2.
Proof.
  revert l2. induction l1 as [|p l1 IH]; intros l2 H1 H2 Hp Hnd; [by apply Permutation_nil_l in Hp|].
  destruct l2 as [|q l2]; [by apply Permutation_nil_r in Hp|]. simpl in H1, H2, Hnd.
  destruct H1 as [H1 O1], H2 as [H2 O2]. apply NoDup_cons in Hnd as [Hn Hnd].
  assert (p = q) as ->; [|f_equal; apply IH; try done; by apply Permutation_cons_inv in Hp].
  assert (q ∈ p :: l1) as [|Hq]%elem_of_cons by (rewrite Hp; constructor); [done|].
  assert (p ∈ q :: l2) as [|Hpl]%elem_of_cons by (rewrite <- Hp; constructor); [done|].
  specialize (H1 q Hq). specialize (H2 p Hpl). rewrite key_gt_false in H1, H2.
  destruct Hn. rewrite (String.leb_antisym _ _ H1 H2). apply list_elem_of_fmap. eauto.
Qed.

Lemma reorder_stable j j' : reorder j j' -> stableStringify j = stableStringify j'.
Proof.
  induction 1 as [fs fs' Hp Hnd|l1 j j' l2 _ IH|fs1 k j j' fs2 _ IH]; simpl.
  - f_equal. apply ordered_fields_unique; [apply sorted_fields_ordered..| |].
    + rewrite !js_sort_perm. by rewrite Hp.
    + rewrite js_sort_perm, map_map.
      rewrite (map_ext _ fst); [done|]. by intros [].
  - rewrite !map_app. simpl. by rewrite IH.
  - rewrite !map_app. simpl. by rewrite IH.
Qed.

#[export] Instance stable_proper : Proper (json_equiv ==> eq) stableStringify.
Proof.
  intros j j' Hj. induction Hj as [j|j j1 j2 Hs _ IH]; [done|]. rewrite <- IH.
  destruct Hs as [Hs|Hs]; [|symmetry]; by apply reorder_stable.
Qed.
