(* ===== verification/Pricing.v ===== *)
(** * Pricing: dynamic pricing strategies

    [services/pricingStrategy.ts] (the strategies and their registry) and
    [modules/booking-intents/pricing-snapshot.ts] (the snapshot stored on an
    intent when it is created). *)
From stdpp Require Import base list strings.
From Stdlib Require Import ZArith Lia.
From S2P Require Import Prelude JsNumber Domain.
Local Open Scope Z_scope.

Inductive PricingError : Type :=
| basePrice_not_finite_non_negative
| windowMs_not_positive_finite
| minMultiplier_out_of_range
| capacity_not_integer_ge_1
| maxMultiplier_not_finite_ge_1.

Record PricingInput : Type := {
  in_basePrice : num;
  in_slotStartMs : Z;
  in_nowMs : Z;
  in_activeBookings : Z;
  in_capacity : num;
  in_config : StrategyConfig
}.

Record PricingResult : Type := {
  pr_price : num;
  pr_strategyId : StrategyId;
  pr_snapshot : PricingInput
}.

Definition assertPositiveFinite (value : num) : result PricingError unit :=
  throw_if (negb (is_finite value) || ltb value zero) basePrice_not_finite_non_negative.

Definition assertCapacity (capacity : num) : result PricingError unit :=
  throw_if (negb (is_integer capacity) || ltb capacity one) capacity_not_integer_ge_1.

Definition fixedStrategy (input : PricingInput) : result PricingError PricingResult :=
  _ ← assertPositiveFinite (in_basePrice input);
  mret {| pr_price := math_round (in_basePrice input);
          pr_strategyId := sid_fixed; pr_snapshot := input |}.

(** [input.config as TimeDecayConfig]: on another configuration the fields are
    [undefined], which [Number.isFinite] rejects. *)
Definition time_decay_config (c : StrategyConfig) : num * num :=
  match c with TimeDecayConfig w m => (w, m) | _ => (NaN, NaN) end.

Definition time_decay_multiplier (input : PricingInput) (windowMs minMultiplier : num) : num :=
  let msUntilStart := sub (of_Z (in_slotStartMs input)) (of_Z (in_nowMs input)) in
  if geb msUntilStart windowMs then one
  else if leb msUntilStart zero then minMultiplier
  else
    let progress := sub one (div msUntilStart windowMs) in
    sub one (mul progress (sub one minMultiplier)).

Definition timeDecayStrategy (input : PricingInput) : result PricingError PricingResult :=
  _ ← assertPositiveFinite (in_basePrice input);
  let '(windowMs, minMultiplier) := time_decay_config (in_config input) in
  _ ← throw_if (negb (is_finite windowMs) || leb windowMs zero) windowMs_not_positive_finite;
  _ ← throw_if (negb (is_finite minMultiplier) || ltb minMultiplier zero
                || gtb minMultiplier one) minMultiplier_out_of_range;
  let multiplier := time_decay_multiplier input windowMs minMultiplier in
  mret {| pr_price := math_max zero (math_round (mul (in_basePrice input) multiplier));
          pr_strategyId := sid_time_decay; pr_snapshot := input |}.

Definition demand_config (c : StrategyConfig) : num :=
  match c with DemandBasedConfig m => m | _ => NaN end.

Definition demand_multiplier (activeBookings capacity maxMultiplier : num) : num :=
  let clampedBookings := math_min (math_max zero activeBookings) capacity in
  let demandRatio := div clampedBookings capacity in
  add one (mul demandRatio (sub maxMultiplier one)).

Definition demandBasedStrategy (input : PricingInput) : result PricingError PricingResult :=
  _ ← assertPositiveFinite (in_basePrice input);
  _ ← assertCapacity (in_capacity input);
  let maxMultiplier := demand_config (in_config input) in
  _ ← throw_if (negb (is_finite maxMultiplier) || ltb maxMultiplier one)
        maxMultiplier_not_finite_ge_1;
  let multiplier :=
    demand_multiplier (of_Z (in_activeBookings input)) (in_capacity input) maxMultiplier in
  mret {| pr_price := math_max zero (math_round (mul (in_basePrice input) multiplier));
          pr_strategyId := sid_demand_based; pr_snapshot := input |}.

(** The registry is total on [StrategyId]. *)
Definition resolvePrice (strategyId : StrategyId) : PricingInput -> result PricingError PricingResult :=
  match strategyId with
  | sid_fixed => fixedStrategy
  | sid_flat_rate => fixedStrategy
  | sid_time_decay => timeDecayStrategy
  | sid_demand_based => demandBasedStrategy
  end.

Definition counts_as_active (slotId : string) (i : BookingIntentRecord) : bool :=
  bool_decide (bi_slotId i = slotId) &&
  (bool_decide (bi_status i = pending) || bool_decide (bi_status i = confirmed)).

Definition resolvePricingSnapshot (slot : SlotRecord) (intents : list BookingIntentRecord)
    (nowMs : Z) : result PricingError (option PricingSnapshot) :=
  match sl_pricingStrategy slot with
  | None => mret None
  | Some strategy =>
      let activeBookings :=
        Z.of_nat (length (List.filter (counts_as_active (sl_id slot)) intents)) in
      let capacity := default one (sps_capacity strategy) in
      r ← resolvePrice (sps_strategyId strategy)
            {| in_basePrice := sps_basePrice strategy;
               in_slotStartMs := sl_startTime slot;
               in_nowMs := nowMs;
               in_activeBookings := activeBookings;
               in_capacity := capacity;
               in_config := sps_config strategy |};
      mret (Some {| ps_strategyId := pr_strategyId r;
                    ps_resolvedPrice := pr_price r;
                    ps_basePrice := sps_basePrice strategy;
                    ps_slotStartMs := sl_startTime slot;
                    ps_nowMs := nowMs;
                    ps_activeBookings := activeBookings;
                    ps_capacity := capacity;
                    ps_config := sps_config strategy |})
  end.

(** ** Correctness of the strategies *)

Lemma guard_finite_nonneg v :
  negb (is_finite v) || ltb v zero = false <-> exists z, v = Fin z /\ 0 <= z.
Proof.
  split.
  - destruct v as [z| | |]; simpl; try discriminate. intros H%Z.ltb_ge. eauto.
  - intros (z & -> & Hz). simpl. by apply Z.ltb_ge.
Qed.

Lemma mul_fin_comm a b : mul (Fin a) (Fin b) = mul (Fin b) (Fin a).
Proof. unfold mul. by rewrite Z.mul_comm. Qed.

(** The interpolation step: remaining fraction [x/w] of the window. *)
Definition interpolate (x w m : Z) : num :=
  sub one (mul (sub one (div (Fin x) (Fin w))) (sub one (Fin m))).

Lemma interpolate_range x w m :
  0 <= x <= w -> 0 < w -> 0 <= m <= U ->
  exists q p k c s,
    div (Fin x) (Fin w) = Fin q /\ sub one (Fin q) = Fin p /\ sub one (Fin m) = Fin k /\
    mul (Fin p) (Fin k) = Fin c /\ interpolate x w m = Fin s /\ sub one (Fin c) = Fin s /\
    dbl s /\ 0 <= k <= U /\ 0 <= p <= U /\ 0 <= s <= U.
Proof.
  intros Hx Hw Hm. unfold interpolate, one.
  destruct (div_ratio x w Hx Hw) as (q & Eq & _ & Hq).
  destruct (sub_between 0 U U q) as (p & Ep & Dp & Hp); [auto with jsnum..|lia|].
  destruct (sub_between 0 U U m) as (k & Ek & _ & Hk); [auto with jsnum..|lia|].
  destruct (mul_ratio p k Dp) as (c & Ec & _ & Hc); [lia|lia|].
  destruct (sub_between 0 U U c) as (s & Es & Ds & Hs); [auto with jsnum..|lia|].
  exists q, p, k, c, s. rewrite Eq, Ep, Ek, Ec, Es.
  split_and!; done || lia.
Qed.

Lemma interpolate_mono x1 x2 w m s1 s2 :
  0 <= x2 <= x1 -> x1 <= w -> 0 < w -> 0 <= m <= U ->
  interpolate x1 w m = Fin s1 -> interpolate x2 w m = Fin s2 -> s2 <= s1.
Proof.
  intros Hx Hw0 Hw Hm E1 E2.
  destruct (interpolate_range x1 w m) as (q1&p1&k1&c1&t1&Q1&P1&K1&C1&T1&S1&_&Hk&Hp1&_); [lia..|].
  destruct (interpolate_range x2 w m) as (q2&p2&k2&c2&t2&Q2&P2&K2&C2&T2&S2&_&_&Hp2&_); [lia..|].
  rewrite K1 in K2. rewrite E1 in T1. rewrite E2 in T2. simplify_eq.
  pose proof (div_mono_l _ _ _ _ _ Hw (proj2 Hx) Q2 Q1).
  assert (p1 <= p2) by (eapply sub_mono; [|exact P1|exact P2]; lia).
  rewrite mul_fin_comm in C1, C2.
  pose proof (mul_mono_r _ _ _ _ _ (proj1 Hk) ltac:(done) C1 C2).
  eapply sub_mono; [|exact S2|exact S1]. lia.
Qed.

Section TimeDecay.
Context (input : PricingInput) (w m : Z).
Hypothesis Hw : 0 < w.
Hypothesis Hm : 0 <= m <= U.
Hypothesis Hstart : Z.abs (in_slotStartMs input) <= 2 ^ 52.
Hypothesis Hnow : Z.abs (in_nowMs input) <= 2 ^ 52.

Lemma time_decay_multiplier_cases :
  let x := (in_slotStartMs input - in_nowMs input) * U in
  time_decay_multiplier input (Fin w) (Fin m) =
  if w <=? x then one else if x <=? 0 then Fin m else interpolate x w m.
Proof.
  simpl. unfold time_decay_multiplier, geb, interpolate. rewrite ms_until_exact by done.
  rewrite leb_fin. unfold zero. rewrite leb_fin. done.
Qed.

Lemma time_decay_multiplier_range :
  dbl m ->
  exists s, time_decay_multiplier input (Fin w) (Fin m) = Fin s /\ dbl s /\ 0 <= s <= U.
Proof.
  intros. rewrite time_decay_multiplier_cases. pose proof U_pos. simpl.
  destruct (Z.leb_spec w ((in_slotStartMs input - in_nowMs input) * U)).
  - exists U. auto with jsnum lia.
  - destruct (Z.leb_spec ((in_slotStartMs input - in_nowMs input) * U) 0); [eauto|].
    edestruct interpolate_range as (?&?&?&?&s&_&_&_&_&E&_&?&_&_&?); [| | |eauto]; lia.
Qed.
End TimeDecay.

(** The same request made at another moment. *)
Definition with_now (now : Z) (i : PricingInput) : PricingInput :=
  {| in_basePrice := in_basePrice i; in_slotStartMs := in_slotStartMs i; in_nowMs := now;
     in_activeBookings := in_activeBookings i; in_capacity := in_capacity i;
     in_config := in_config i |}.

Lemma time_decay_multiplier_mono input w m now1 now2 s1 s2 :
  0 < w -> 0 <= m <= U -> Z.abs (in_slotStartMs input) <= 2 ^ 52 ->
  Z.abs now1 <= 2 ^ 52 -> Z.abs now2 <= 2 ^ 52 ->
  now1 <= now2 < in_slotStartMs input ->
  dbl m ->
  time_decay_multiplier (with_now now1 input) (Fin w) (Fin m) = Fin s1 ->
  time_decay_multiplier (with_now now2 input) (Fin w) (Fin m) = Fin s2 -> s2 <= s1.
Proof.
  intros Hw Hm Hs Hn1 Hn2 Hle Dm E1 E2. pose proof U_pos.
  destruct (time_decay_multiplier_range (with_now now2 input) w m) as (t & Et & _ & Ht); [done..|].
  rewrite E2 in Et. injection Et as <-.
  rewrite time_decay_multiplier_cases in E1, E2 by done. simpl in *.
  destruct (Z.leb_spec w ((in_slotStartMs input - now1) * U)).
  { unfold one in E1. simplify_eq. lia. }
  destruct (Z.leb_spec w ((in_slotStartMs input - now2) * U)); [nia|].
  destruct (Z.leb_spec ((in_slotStartMs input - now1) * U) 0); [nia|].
  destruct (Z.leb_spec ((in_slotStartMs input - now2) * U) 0); [nia|].
  eapply interpolate_mono; [| | | |exact E1|exact E2]; nia.
Qed.

Lemma price_bounds b s :
  dbl b -> 0 <= b -> 0 <= s <= U ->
  leb zero (math_max zero (math_round (mul (Fin b) (Fin s)))) = true /\
  leb (math_max zero (math_round (mul (Fin b) (Fin s)))) (math_round (Fin b)) = true.
Proof.
  intros Db Hb Hs. destruct (mul_ratio b s Db Hb Hs) as (c & -> & _ & Hc).
  pose proof U_pos. rewrite !round_fin. unfold math_max, zero. simpl ltb.
  assert ((2 * c + U) / (2 * U) * U <= (2 * b + U) / (2 * U) * U).
  { apply Z.mul_le_mono_nonneg_r; [lia|]. apply Z.div_le_mono; lia. }
  assert (0 <= (2 * b + U) / (2 * U)) by (apply Z.div_pos; lia).
  destruct (Z.ltb_spec 0 ((2 * c + U) / (2 * U) * U)); rewrite !leb_fin, !Z.leb_le; nia.
Qed.

Lemma price_mono b s1 s2 :
  0 <= b -> s2 <= s1 ->
  leb (math_max zero (math_round (mul (Fin b) (Fin s2))))
      (math_max zero (math_round (mul (Fin b) (Fin s1)))) = true.
Proof. intros. by apply max0_le, round_le, mul_le_r. Qed.

Lemma timeDecayStrategy_ok input b w m :
  in_basePrice input = Fin b -> 0 <= b -> in_config input = TimeDecayConfig (Fin w) (Fin m) ->
  0 < w -> 0 <= m <= U ->
  timeDecayStrategy input =
  Ok {| pr_price := math_max zero
          (math_round (mul (Fin b) (time_decay_multiplier input (Fin w) (Fin m))));
        pr_strategyId := sid_time_decay; pr_snapshot := input |}.
Proof.
  intros Hb Hb0 Hc Hw Hm. unfold timeDecayStrategy, assertPositiveFinite. rewrite Hb, Hc. simpl.
  destruct (Z.ltb_spec b 0); [lia|]. simpl.
  unfold zero. rewrite leb_fin. destruct (Z.leb_spec w 0); [lia|]. simpl.
  destruct (Z.ltb_spec m 0); [lia|]. simpl. unfold gtb. simpl.
  destruct (Z.ltb_spec U m); [lia|]. done.
Qed.

(** [time_decay] pricing: with a valid configuration the strategy always
    returns a price; the price is never negative and never above the rounded
    base price; and, up to the slot start, asking later never quotes a higher
    price.  This holds of the floating-point computation itself. *)
Theorem time_decay_price_nonincreasing input b w m now1 now2 :
  in_basePrice input = Fin b -> dbl b -> 0 <= b ->
  in_config input = TimeDecayConfig (Fin w) (Fin m) -> 0 < w -> dbl m -> 0 <= m <= U ->
  Z.abs (in_slotStartMs input) <= 2 ^ 52 -> Z.abs now1 <= 2 ^ 52 -> Z.abs now2 <= 2 ^ 52 ->
  now1 <= now2 < in_slotStartMs input ->
  exists r1 r2,
    timeDecayStrategy (with_now now1 input) = Ok r1 /\
    timeDecayStrategy (with_now now2 input) = Ok r2 /\
    leb (pr_price r2) (pr_price r1) = true /\
    leb zero (pr_price r2) = true /\
    leb (pr_price r1) (math_round (Fin b)) = true.
Proof.
  intros Hb Db Hb0 Hc Hw Dm Hm Hs Hn1 Hn2 Hle.
  destruct (time_decay_multiplier_range (with_now now1 input) w m) as (s1 & E1 & _ & R1); [done..|].
  destruct (time_decay_multiplier_range (with_now now2 input) w m) as (s2 & E2 & _ & R2); [done..|].
  pose proof (time_decay_multiplier_mono input w m now1 now2 s1 s2 Hw Hm Hs Hn1 Hn2 Hle Dm E1 E2).
  do 2 eexists. split_and!.
  - by apply (timeDecayStrategy_ok (with_now now1 input) b w m).
  - by apply (timeDecayStrategy_ok (with_now now2 input) b w m).
  - simpl. rewrite E1, E2. by apply price_mono.
  - simpl. rewrite E2. by apply price_bounds.
  - simpl. rewrite E1. by apply price_bounds.
Qed.

Definition with_bookings (a : Z) (i : PricingInput) : PricingInput :=
  {| in_basePrice := in_basePrice i; in_slotStartMs := in_slotStartMs i;
     in_nowMs := in_nowMs i; in_activeBookings := a; in_capacity := in_capacity i;
     in_config := in_config i |}.

Lemma clamped_bookings a k :
  0 <= a <= 2 ^ 53 -> 1 <= k ->
  math_min (math_max zero (of_Z a)) (Fin (k * U)) = Fin (Z.min a k * U).
Proof.
  intros Ha Hk. rewrite of_Z_exact by lia. pose proof U_pos. unfold math_max, math_min, zero.
  simpl. destruct (Z.ltb_spec 0 (a * U)); simpl.
  - destruct (Z.ltb_spec (k * U) (a * U)); f_equal; nia.
  - assert (a = 0) as -> by nia. destruct (Z.ltb_spec (k * U) 0); [nia|].
    rewrite Z.min_l by lia. done.
Qed.

Section Demand.
Context (k M : Z).
Hypothesis Hk : 1 <= k.
Hypothesis HM : U <= M <= 2 ^ 52 * U.

Lemma demand_multiplier_range a :
  0 <= a <= 2 ^ 53 ->
  exists q d c s,
    div (Fin (Z.min a k * U)) (Fin (k * U)) = Fin q /\ sub (Fin M) one = Fin d /\
    mul (Fin q) (Fin d) = Fin c /\ add one (Fin c) = Fin s /\
    demand_multiplier (of_Z a) (Fin (k * U)) (Fin M) = Fin s /\ 0 <= d /\ U <= s.
Proof.
  intros Ha. pose proof U_pos.
  destruct (div_ratio (Z.min a k * U) (k * U)) as (q & Eq & Dq & Hq); [nia|nia|].
  destruct (sub_between 0 (2 ^ 52 * U) M U) as (d & Ed & Dd & Hd);
    [auto with jsnum|apply dbl_int; lia|lia|].
  destruct (mul_ratio d q Dd) as (c & Ec & _ & Hc); [lia|lia|].
  destruct (add_between U ((2 ^ 52 + 1) * U) U c) as (s & Es & _ & Hs);
    [auto with jsnum|apply dbl_int; lia|lia|].
  rewrite mul_fin_comm in Ec. exists q, d, c, s.
  unfold demand_multiplier, one. rewrite clamped_bookings by done.
  rewrite Eq, Ed, Ec, Es. split_and!; done || lia.
Qed.

Lemma demand_multiplier_mono a1 a2 s1 s2 :
  0 <= a1 <= a2 -> a2 <= 2 ^ 53 ->
  demand_multiplier (of_Z a1) (Fin (k * U)) (Fin M) = Fin s1 ->
  demand_multiplier (of_Z a2) (Fin (k * U)) (Fin M) = Fin s2 -> s1 <= s2.
Proof.
  intros Ha Hb E1 E2. pose proof U_pos.
  destruct (demand_multiplier_range a1) as (q1&d1&c1&t1&Q1&D1&C1&A1&T1&Hd&_); [lia|].
  destruct (demand_multiplier_range a2) as (q2&d2&c2&t2&Q2&D2&C2&A2&T2&_&_); [lia|].
  rewrite D1 in D2. rewrite E1 in T1. rewrite E2 in T2. simplify_eq.
  assert (q1 <= q2) by (eapply div_mono_l; [|  |exact Q1|exact Q2]; nia).
  rewrite mul_fin_comm in C1, C2.
  assert (c1 <= c2) by (eapply mul_mono_r; [| |exact C1|exact C2]; lia).
  eapply add_mono; [|exact A1|exact A2]. lia.
Qed.
End Demand.

Lemma demandBasedStrategy_ok input b k M :
  in_basePrice input = Fin b -> 0 <= b -> in_capacity input = Fin (k * U) -> 1 <= k ->
  in_config input = DemandBasedConfig (Fin M) -> U <= M ->
  demandBasedStrategy input =
  Ok {| pr_price := math_max zero (math_round (mul (Fin b)
          (demand_multiplier (of_Z (in_activeBookings input)) (Fin (k * U)) (Fin M))));
        pr_strategyId := sid_demand_based; pr_snapshot := input |}.
Proof.
  intros Hb Hb0 Hk Hk1 Hc HM. pose proof U_pos.
  unfold demandBasedStrategy, assertPositiveFinite, assertCapacity. rewrite Hb, Hc, Hk, is_integer_int. simpl.
  destruct (Z.ltb_spec b 0); [lia|]. simpl. destruct (Z.ltb_spec (k * U) U); [nia|]. simpl.
  destruct (Z.ltb_spec M U); [lia|]. done.
Qed.

(** [demand_based] pricing: with a valid configuration the strategy always
    returns a price, never below the rounded base price, and more active
    bookings never quote a lower price. *)
Theorem demand_price_nondecreasing input b k M a1 a2 :
  in_basePrice input = Fin b -> dbl b -> 0 <= b ->
  in_capacity input = Fin (k * U) -> 1 <= k ->
  in_config input = DemandBasedConfig (Fin M) -> U <= M <= 2 ^ 52 * U ->
  0 <= a1 <= a2 -> a2 <= 2 ^ 53 ->
  exists r1 r2,
    demandBasedStrategy (with_bookings a1 input) = Ok r1 /\
    demandBasedStrategy (with_bookings a2 input) = Ok r2 /\
    leb (math_max zero (math_round (Fin b))) (pr_price r1) = true /\
    leb (pr_price r1) (pr_price r2) = true.
Proof.
  intros Hb Db Hb0 Hk Hk1 Hc HM Ha Ha2.
  destruct (demand_multiplier_range k M Hk1 HM a1) as (_&_&_&s1&_&_&_&_&E1&_&R1); [lia|].
  destruct (demand_multiplier_range k M Hk1 HM a2) as (_&_&_&s2&_&_&_&_&E2&_&R2); [lia|].
  pose proof (demand_multiplier_mono k M Hk1 HM a1 a2 s1 s2 Ha Ha2 E1 E2).
  do 2 eexists. split_and!.
  - apply (demandBasedStrategy_ok (with_bookings a1 input) b k M); done || lia.
  - apply (demandBasedStrategy_ok (with_bookings a2 input) b k M); done || lia.
  - cbn [pr_price in_activeBookings with_bookings]. rewrite E1.
    rewrite <- (mul_one_r b Db) at 1. by apply price_mono.
  - cbn [pr_price in_activeBookings with_bookings]. rewrite E1, E2. by apply price_mono.
Qed.

(** ** Concrete quotes *)

Definition w_time_decay : PricingInput :=
  {| in_basePrice := Fin (10000 * U); in_slotStartMs := 3600000; in_nowMs := 0;
     in_activeBookings := 0; in_capacity := one;
     in_config := TimeDecayConfig (Fin (3600000 * U)) (Fin 0) |}.

(** After the slot has started the price is the minimum one, not the full base
    price. *)
Example past_start_price_is_minimal :
  pr_price <$> (match timeDecayStrategy (with_now 3600001 w_time_decay) with Ok r => Some r | Err _ => None end)
  = Some zero.
Proof. vm_compute. reflexivity. Qed.

Lemma time_decay_price_nonincreasing_witness :
  exists r1 r2,
    timeDecayStrategy (with_now 900000 w_time_decay) = Ok r1 /\
    timeDecayStrategy (with_now 2700000 w_time_decay) = Ok r2 /\
    leb (pr_price r2) (pr_price r1) = true /\ leb zero (pr_price r2) = true /\
    leb (pr_price r1) (math_round (Fin (10000 * U))) = true.
Proof.
  pose proof U_pos.
  apply (time_decay_price_nonincreasing w_time_decay (10000 * U) (3600000 * U) 0 900000 2700000);
    try reflexivity; try apply dbl_int; try apply dbl_0; simpl; lia.
Defined.

Definition w_demand : PricingInput :=
  {| in_basePrice := Fin (10000 * U); in_slotStartMs := 3600000; in_nowMs := 0;
     in_activeBookings := 0; in_capacity := Fin (4 * U); in_config := DemandBasedConfig (Fin (2 * U)) |}.

Lemma demand_price_nondecreasing_witness :
  exists r1 r2,
    demandBasedStrategy (with_bookings 1 w_demand) = Ok r1 /\
    demandBasedStrategy (with_bookings 3 w_demand) = Ok r2 /\
    leb (math_max zero (math_round (Fin (10000 * U)))) (pr_price r1) = true /\
    leb (pr_price r1) (pr_price r2) = true.
Proof.
  pose proof U_pos.
  apply (demand_price_nondecreasing w_demand (10000 * U) 4 (2 * U) 1 3);
    try reflexivity; try apply dbl_int; lia.
Defined.
