(* ===== verification/HoldFee.v ===== *)
(** * HoldFee: per-supplier hold fee retention ([services/holdFeePolicy.ts]) *)
From stdpp Require Import base list strings gmap.
From Stdlib Require Import ZArith Lia.
From S2P Require Import Prelude JsNumber Domain.
Local Open Scope Z_scope.

Record HoldFeePolicy : Type := {
  hfp_supplierId : string;
  hfp_holdFeeCents : num;
  hfp_updatedAt : string
}.

(** [HoldFeePolicyRegistry.entries]. *)
Abbreviation HoldFeePolicyRegistry := (gmap string HoldFeePolicy).

Definition createEmptyHoldFeeRegistry : HoldFeePolicyRegistry := ∅.

Definition resolveHoldFeeCents (registry : HoldFeePolicyRegistry) (supplierId : string) : num :=
  match registry !! supplierId with
  | None => zero
  | Some policy => math_max zero (hfp_holdFeeCents policy)
  end.

Inductive HoldFeeError : Type :=
| supplierId_empty
| holdFee_not_finite_non_negative
| holdFee_exceeds_maximum.

Definition MAX_HOLD_FEE : num := of_Z 1000000000.

Definition validateHoldFeePolicy (policy : HoldFeePolicy) : result HoldFeeError unit :=
  _ ← throw_if (is_empty_string (hfp_supplierId policy)) supplierId_empty;
  _ ← throw_if (negb (is_finite (hfp_holdFeeCents policy)) || ltb (hfp_holdFeeCents policy) zero)
        holdFee_not_finite_non_negative;
  throw_if (gtb (hfp_holdFeeCents policy) MAX_HOLD_FEE) holdFee_exceeds_maximum.

Definition snapshotForSupplier (registry : HoldFeePolicyRegistry) (nowMs : Z)
    (supplierId : string) : HoldFeePolicySnapshot :=
  {| hfs_supplierId := supplierId;
     hfs_holdFeeCents := resolveHoldFeeCents registry supplierId;
     hfs_capturedAtMs := nowMs |}.

Definition computeRetention (snapshot : option HoldFeePolicySnapshot) : num :=
  match snapshot with
  | None => zero
  | Some s => math_max zero (hfs_holdFeeCents s)
  end.

Definition deductRetention (refundAmount : num) (snapshot : option HoldFeePolicySnapshot) : num :=
  math_max zero (sub refundAmount (computeRetention snapshot)).

(** [nowIso] is [new Date(this.nowMs()).toISOString()]. *)
Definition upsertPolicy (nowIso : string) (registry : HoldFeePolicyRegistry)
    (supplierId : string) (holdFeeCents : num) : result HoldFeeError HoldFeePolicyRegistry :=
  let policy := {| hfp_supplierId := supplierId;
                   hfp_holdFeeCents := math_max zero holdFeeCents;
                   hfp_updatedAt := nowIso |} in
  _ ← validateHoldFeePolicy policy;
  mret (<[supplierId := policy]> registry).

Definition getPolicy (registry : HoldFeePolicyRegistry) (supplierId : string) : option HoldFeePolicy :=
  registry !! supplierId.

(** ** Registry invariant *)

Definition fee_ok (v : num) : Prop :=
  exists z, v = Fin z /\ 0 <= z <= 1000000000 * U.

Definition registry_ok (registry : HoldFeePolicyRegistry) : Prop :=
  map_Forall (fun k p => hfp_supplierId p = k /\ fee_ok (hfp_holdFeeCents p)) registry.

Lemma validateHoldFeePolicy_ok p :
  validateHoldFeePolicy p = Ok tt -> fee_ok (hfp_holdFeeCents p).
Proof.
  unfold validateHoldFeePolicy. destruct p as [sid v iso]; simpl.
  destruct (is_empty_string sid); [done|]. simpl. unfold MAX_HOLD_FEE.
  rewrite of_Z_exact by lia.
  destruct v as [z| | |]; simpl; try done. destruct (Z.ltb_spec z 0); [done|]. simpl.
  unfold gtb; simpl. destruct (Z.ltb_spec (1000000000 * U) z); [done|].
  intros _. exists z. split; [done|lia].
Qed.

Lemma upsertPolicy_registry_ok nowIso r sid v r' :
  registry_ok r -> upsertPolicy nowIso r sid v = Ok r' -> registry_ok r'.
Proof.
  intros Hr Hu. unfold upsertPolicy in Hu. apply bind_ok in Hu as ([] & Hv & [= <-]).
  apply map_Forall_insert_2; [|done]. split; [done|].
  by apply (validateHoldFeePolicy_ok _ Hv).
Qed.

Lemma max0_nonneg v : v <> NaN -> leb zero (math_max zero v) = true.
Proof.
  destruct v as [z| | |]; unfold math_max, zero; simpl; try done; [].
  intros _. destruct (Z.ltb_spec 0 z); rewrite leb_fin, Z.leb_le; lia.
Qed.

Lemma snapshot_fee_ok r now sid : registry_ok r -> fee_ok (hfs_holdFeeCents (snapshotForSupplier r now sid)).
Proof.
  intros Hr. simpl. unfold resolveHoldFeeCents. destruct (r !! sid) as [p|] eqn:E.
  - destruct (Hr _ _ E) as [_ (z & -> & Hz)]. unfold math_max, zero. simpl.
    destruct (Z.ltb_spec 0 z); eexists; split; try done; lia.
  - exists 0. split; [done|]. pose proof U_pos. lia.
Qed.
