(* ===== verification/Cancellation.v ===== *)
(** * Cancellation: versioned cancellation policies and refunds

    [services/cancellationPolicy.ts] and
    [services/supplierCancellationOverrideStore.ts].  Not modelled here:
    [snapshotPolicyAtTime] and [listPolicyVersions], which order versions by
    their ISO date strings, and the audit log writes. *)
From stdpp Require Import base list strings gmap.
From Stdlib Require Import ZArith Lia.
From S2P Require Import Prelude JsNumber Domain HoldFee.
Local Open Scope Z_scope.

(** ** Terms *)

Inductive TermsError : Type :=
| no_tier
| tier_minHours_invalid (i : nat)
| tier_maxHours_invalid (i : nat)
| tier_refundRatio_invalid (i : nat)
| tier_flatFee_invalid (i : nat)
| tier_percentageFee_invalid (i : nat)
| tier_overlap (i : nat)
| minRefundAmount_invalid
| maxRefundAmount_invalid
| maxRefund_below_minRefund.

(** [(a, b) => a.minHoursUntilStart - b.minHoursUntilStart] and its reverse. *)
Definition tier_gt_asc (a b : CancellationTier) : bool :=
  gtb (sub (minHoursUntilStart a) (minHoursUntilStart b)) zero.

Definition tier_gt_desc (a b : CancellationTier) : bool :=
  gtb (sub (minHoursUntilStart b) (minHoursUntilStart a)) zero.

Definition check_tier (i : nat) (prevMax : option num) (tier : CancellationTier)
    : result TermsError unit :=
  let min := minHoursUntilStart tier in
  _ ← throw_if (ltb min zero || negb (is_finite min)) (tier_minHours_invalid i);
  _ ← throw_if (match maxHoursUntilStart tier with
                | Some max => negb (is_finite max) || leb max min
                | None => false end) (tier_maxHours_invalid i);
  _ ← throw_if (ltb (refundRatio tier) zero || gtb (refundRatio tier) one
                || negb (is_finite (refundRatio tier))) (tier_refundRatio_invalid i);
  _ ← throw_if (match flatFee tier with
                | Some f => negb (is_finite f) || ltb f zero
                | None => false end) (tier_flatFee_invalid i);
  _ ← throw_if (match percentageFee tier with
                | Some p => ltb p zero || gtb p one || negb (is_finite p)
                | None => false end) (tier_percentageFee_invalid i);
  throw_if (match prevMax with
            | Some m => ltb min m
            | None => false end) (tier_overlap i).

Fixpoint check_tiers (i : nat) (prevMax : option num) (sorted : list CancellationTier)
    : result TermsError unit :=
  match sorted with
  | [] => mret tt
  | tier :: rest =>
      _ ← check_tier i prevMax tier;
      check_tiers (S i) (maxHoursUntilStart tier) rest
  end.

Definition amount_invalid (a : option num) : bool :=
  match a with Some v => negb (is_finite v) || ltb v zero | None => false end.

Definition validateProratedCancellationTerms (terms : ProratedCancellationTerms)
    : result TermsError unit :=
  _ ← throw_if (match tiers terms with [] => true | _ => false end) no_tier;
  _ ← check_tiers 0 None (js_sort tier_gt_asc (tiers terms));
  _ ← throw_if (amount_invalid (minRefundAmount terms)) minRefundAmount_invalid;
  _ ← throw_if (amount_invalid (maxRefundAmount terms)) maxRefundAmount_invalid;
  throw_if (match minRefundAmount terms, maxRefundAmount terms with
            | Some lo, Some hi => ltb hi lo
            | _, _ => false end) maxRefund_below_minRefund.

Definition covers (hoursUntilStart : num) (tier : CancellationTier) : bool :=
  geb hoursUntilStart (minHoursUntilStart tier) &&
  match maxHoursUntilStart tier with
  | None => true
  | Some max => ltb hoursUntilStart max
  end.

Definition selectTierForCancellation (terms : ProratedCancellationTerms)
    (hoursUntilStart : num) : option CancellationTier :=
  find_first (covers hoursUntilStart) (js_sort tier_gt_desc (tiers terms)).

(** ** Refund computation *)

Record TierApplied : Type := {
  ta_min : num; ta_max : option num; ta_ratio : num
}.

Record RefundBreakdown : Type := {
  rb_fee : num;
  rb_taxReversal : num;
  rb_netRefund : num;
  rb_policyVersion : string;
  rb_tierApplied : option TierApplied;
  rb_hoursUntilStart : num;
  rb_basePrice : num;
  rb_holdFee : num
}.

Inductive PolicyError : Type :=
| invalid_terms (e : TermsError)
| negative_price
| already_cancelled
| current_version_missing
| versionId_empty
| version_exists
| override_supplierId_empty.

(** [cond ? Math.round(base * ratio) : 0] for an optional ratio. *)
Definition rounded_share (base : num) (ratio : option num) : num :=
  match ratio with
  | Some r => if truthy r then math_round (mul base r) else zero
  | None => zero
  end.

Definition net_refund (terms : ProratedCancellationTerms) (baseRefund taxReversal fee : num) : num :=
  let net := sub (add baseRefund taxReversal) fee in
  let net := match minRefundAmount terms with Some m => math_max m net | None => net end in
  let net := match maxRefundAmount terms with Some m => math_min m net | None => net end in
  math_max zero net.

Definition computeRefundWithTerms (terms : ProratedCancellationTerms) (price hoursUntilStart : num)
    (policyVersionId : string) : result PolicyError RefundBreakdown :=
  _ ← throw_if (ltb price zero) negative_price;
  match selectTierForCancellation terms hoursUntilStart with
  | None =>
      mret {| rb_fee := zero; rb_taxReversal := zero; rb_netRefund := zero;
              rb_policyVersion := policyVersionId; rb_tierApplied := None;
              rb_hoursUntilStart := hoursUntilStart; rb_basePrice := price; rb_holdFee := zero |}
  | Some tier =>
      let baseRefund := math_max zero (math_round (mul price (refundRatio tier))) in
      let pct := rounded_share baseRefund (percentageFee tier) in
      let flat := default zero (flatFee tier) in
      let fee := add pct flat in
      let taxReversal := rounded_share baseRefund (taxReversalRatio tier) in
      mret {| rb_fee := fee; rb_taxReversal := taxReversal;
              rb_netRefund := net_refund terms baseRefund taxReversal fee;
              rb_policyVersion := policyVersionId;
              rb_tierApplied := Some {| ta_min := minHoursUntilStart tier;
                                        ta_max := maxHoursUntilStart tier;
                                        ta_ratio := refundRatio tier |};
              rb_hoursUntilStart := hoursUntilStart; rb_basePrice := price; rb_holdFee := zero |}
  end.

Definition applyHoldFeeToRefund (b : RefundBreakdown) (holdFeeCents : num) : RefundBreakdown :=
  let validatedFee := math_max zero (math_round holdFeeCents) in
  {| rb_fee := rb_fee b; rb_taxReversal := rb_taxReversal b;
     rb_netRefund := math_max zero (sub (rb_netRefund b) validatedFee);
     rb_policyVersion := rb_policyVersion b; rb_tierApplied := rb_tierApplied b;
     rb_hoursUntilStart := rb_hoursUntilStart b; rb_basePrice := rb_basePrice b;
     rb_holdFee := validatedFee |}.

(** ** Built-in policies *)

Definition tier (min : Z) (max : option Z) (ratio : num) (flat : option Z)
    (pct tax : option num) : CancellationTier :=
  {| minHoursUntilStart := of_Z min; maxHoursUntilStart := of_Z <$> max;
     refundRatio := ratio; flatFee := of_Z <$> flat; percentageFee := pct;
     taxReversalRatio := tax |}.

Definition LEGACY_V1_TERMS : ProratedCancellationTerms :=
  let pct := Some (lit 5 100) in
  let tax := Some (lit 1 10) in
  {| tiers := [tier 24 None one None pct tax;
               tier 12 (Some 24) (lit 5 10) None pct tax;
               tier 0 (Some 12) zero None pct tax];
     minRefundAmount := Some zero; maxRefundAmount := None |}.

Definition PRORATED_V2_TERMS : ProratedCancellationTerms :=
  let tax := Some (lit 1 10) in
  {| tiers := [tier 168 None one (Some 0) None tax;
               tier 72 (Some 168) (lit 85 100) (Some 0) None tax;
               tier 24 (Some 72) (lit 6 10) (Some 50) None tax;
               tier 12 (Some 24) (lit 3 10) (Some 100) None tax;
               tier 0 (Some 12) zero (Some 0) None tax];
     minRefundAmount := Some zero; maxRefundAmount := None |}.

Record CancellationPolicyVersion : Type := {
  versionId : string;
  effectiveFrom : string;
  effectiveUntil : option string;
  pv_description : string
}.

Definition LEGACY_V1_VERSION : CancellationPolicyVersion :=
  {| versionId := "v1-timezone-tier"; effectiveFrom := "1970-01-01T00:00:00.000Z";
     effectiveUntil := None;
     pv_description := "Original tiered policy: 100% refund >=24h, 50% 12-24h, 0% <12h. 5% fee, 10% tax reversal." |}.

Definition PRORATED_V2_VERSION : CancellationPolicyVersion :=
  {| versionId := "v2-prorated"; effectiveFrom := "2026-01-01T00:00:00.000Z";
     effectiveUntil := None;
     pv_description := "Prorated tiered policy: 100% >=7d, 85% 3-7d, 60% 1-3d (+50 flat), 30% 12h-1d (+100 flat), 0% <12h." |}.

(** ** Registry *)

Record RegistryEntry : Type := {
  re_version : CancellationPolicyVersion;
  re_terms : ProratedCancellationTerms
}.

Record VersionedPolicyRegistry : Type := {
  entries : gmap string RegistryEntry;
  currentVersionId : string
}.

Definition createDefaultRegistry : VersionedPolicyRegistry :=
  {| currentVersionId := versionId PRORATED_V2_VERSION;
     entries :=
       <[versionId PRORATED_V2_VERSION :=
           {| re_version := PRORATED_V2_VERSION; re_terms := PRORATED_V2_TERMS |}]>
       (<[versionId LEGACY_V1_VERSION :=
           {| re_version := LEGACY_V1_VERSION; re_terms := LEGACY_V1_TERMS |}]> ∅) |}.

Definition lift_terms {A} (r : result TermsError A) : result PolicyError A :=
  match r with Ok a => Ok a | Err e => Err (invalid_terms e) end.

Definition registerNewPolicyVersion (nowIso vid description : string)
    (terms : ProratedCancellationTerms) (effFrom : option string) (makeCurrent : bool)
    (existing : VersionedPolicyRegistry) : result PolicyError VersionedPolicyRegistry :=
  _ ← throw_if (is_empty_string (js_trim vid)) versionId_empty;
  _ ← throw_if (match entries existing !! vid with Some _ => true | None => false end) version_exists;
  _ ← lift_terms (validateProratedCancellationTerms terms);
  let version := {| versionId := vid; effectiveFrom := default nowIso effFrom;
                    effectiveUntil := None; pv_description := description |} in
  let newEntries := <[vid := {| re_version := version; re_terms := terms |}]> (entries existing) in
  let cur := currentVersionId existing in
  if makeCurrent then
    let newEntries :=
      match entries existing !! cur with
      | Some prev =>
          <[cur := {| re_version :=
                        {| versionId := versionId (re_version prev);
                           effectiveFrom := effectiveFrom (re_version prev);
                           effectiveUntil := Some (effectiveFrom version);
                           pv_description := pv_description (re_version prev) |};
                      re_terms := re_terms prev |}]> newEntries
      | None => newEntries
      end in
    mret {| entries := newEntries; currentVersionId := vid |}
  else mret {| entries := newEntries; currentVersionId := cur |}.

Definition getCurrentVersion (r : VersionedPolicyRegistry) : result PolicyError RegistryEntry :=
  from_option_or (entries r !! currentVersionId r) current_version_missing.

(** ** Supplier overrides *)

Record SupplierCancellationOverride : Type := {
  ov_supplierId : string;
  ov_terms : ProratedCancellationTerms;
  ov_createdAt : string;
  ov_updatedAt : string;
  ov_createdBy : string;
  ov_updatedBy : string;
  ov_description : option string
}.

Abbreviation OverrideStore := (gmap string SupplierCancellationOverride).

Definition getOverride (supplierId : string) (st : OverrideStore) : option SupplierCancellationOverride :=
  st !! supplierId.

Definition setOverride (nowIso supplierId : string) (terms : ProratedCancellationTerms)
    (changedBy : string) (description : option string) (st : OverrideStore)
    : result PolicyError (SupplierCancellationOverride * OverrideStore) :=
  _ ← throw_if (is_empty_string (js_trim supplierId)) override_supplierId_empty;
  _ ← lift_terms (validateProratedCancellationTerms terms);
  let existing := st !! supplierId in
  let override :=
    {| ov_supplierId := supplierId; ov_terms := terms;
       ov_createdAt := match existing with Some e => ov_createdAt e | None => nowIso end;
       ov_updatedAt := nowIso;
       ov_createdBy := match existing with Some e => ov_createdBy e | None => changedBy end;
       ov_updatedBy := changedBy;
       ov_description :=
         match description with
         | Some d => Some d
         | None => match existing with Some e => ov_description e | None => None end
         end |} in
  mret (override, <[supplierId := override]> st).

Definition deleteOverride (supplierId : string) (st : OverrideStore) : bool * OverrideStore :=
  match st !! supplierId with
  | None => (false, st)
  | Some _ => (true, delete supplierId st)
  end.

(** ** The service *)

Record PolicyEnv : Type := {
  pe_registry : VersionedPolicyRegistry;
  pe_overrides : option OverrideStore;
  pe_nowMs : Z
}.

Definition override_version (supplierId : string) : string := "supplier-override:" +:+ supplierId.

Definition resolveTermsForSupplier (env : PolicyEnv) (supplierId : string)
    : option (string * ProratedCancellationTerms) :=
  match pe_overrides env with
  | None => None
  | Some st =>
      match getOverride supplierId st with
      | None => None
      | Some o => Some (override_version supplierId, ov_terms o)
      end
  end.

(** The union-typed first argument of [snapshotCurrentPolicy]. *)
Inductive SnapshotArg : Type :=
| ArgNone
| ArgSupplier (s : string)
| ArgTerms (t : ProratedCancellationTerms)
| ArgObject (s : option string) (t : option ProratedCancellationTerms).

Definition snapshot_arg (a : SnapshotArg) (supplierId : option string)
    : option ProratedCancellationTerms * option string :=
  match a with
  | ArgNone => (None, supplierId)
  | ArgSupplier s => (None, Some s)
  | ArgTerms t => (Some t, supplierId)
  | ArgObject s t => (t, match s with Some s => Some s | None => supplierId end)
  end.

Definition snapshotCurrentPolicy (env : PolicyEnv) (a : SnapshotArg) (supplierId : option string)
    : result PolicyError CancellationPolicySnapshot :=
  let '(overrideTerms, resolved) := snapshot_arg a supplierId in
  let supplierOverride :=
    match overrideTerms, resolved with
    | None, Some s => if str_truthy s then resolveTermsForSupplier env s else None
    | _, _ => None
    end in
  match supplierOverride with
  | Some (vid, terms) =>
      _ ← lift_terms (validateProratedCancellationTerms terms);
      mret {| policyVersionId := vid; policyTerms := terms; cps_capturedAtMs := pe_nowMs env |}
  | None =>
      entry ← from_option_or (entries (pe_registry env) !! currentVersionId (pe_registry env))
                current_version_missing;
      let terms := default (re_terms entry) overrideTerms in
      _ ← lift_terms (validateProratedCancellationTerms terms);
      mret {| policyVersionId := versionId (re_version entry); policyTerms := terms;
              cps_capturedAtMs := pe_nowMs env |}
  end.

Definition hours_until_start (startTime nowMs : Z) : num :=
  div (sub (of_Z startTime) (of_Z nowMs)) (of_Z (1000 * 60 * 60)).

(** The terms a refund is computed with: the snapshot on the intent, else a live
    supplier override, else the legacy policy. *)
Definition resolve_refund_terms (env : PolicyEnv) (intent : BookingIntentRecord)
    : string * ProratedCancellationTerms :=
  match bi_cancellationPolicySnapshot intent with
  | Some s => (policyVersionId s, policyTerms s)
  | None =>
      let supplierOverride :=
        if str_truthy (bi_professional intent)
        then resolveTermsForSupplier env (bi_professional intent) else None in
      match supplierOverride with
      | Some o => o
      | None =>
          (versionId LEGACY_V1_VERSION,
           match entries (pe_registry env) !! versionId LEGACY_V1_VERSION with
           | Some fallback => re_terms fallback
           | None => LEGACY_V1_TERMS
           end)
      end
  end.

Definition intent_price (intent : BookingIntentRecord) : num :=
  match bi_pricingSnapshot intent with Some p => ps_resolvedPrice p | None => zero end.

Definition with_hold_fee (intent : BookingIntentRecord) (b : RefundBreakdown) : RefundBreakdown :=
  match bi_holdFeePolicySnapshot intent with
  | Some s => applyHoldFeeToRefund b (computeRetention (Some s))
  | None => b
  end.

Definition calculateRefund (env : PolicyEnv) (intent : BookingIntentRecord)
    : result PolicyError RefundBreakdown :=
  _ ← throw_if (bool_decide (bi_status intent = cancelled)) already_cancelled;
  let hours := hours_until_start (bi_startTime intent) (pe_nowMs env) in
  let '(vid, terms) := resolve_refund_terms env intent in
  _ ← lift_terms (validateProratedCancellationTerms terms);
  breakdown ← computeRefundWithTerms terms (intent_price intent) hours vid;
  mret (with_hold_fee intent breakdown).

Definition previewRefundWithOverride (env : PolicyEnv) (intent : BookingIntentRecord)
    (overrideTerms : ProratedCancellationTerms) : result PolicyError RefundBreakdown :=
  _ ← throw_if (bool_decide (bi_status intent = cancelled)) already_cancelled;
  _ ← lift_terms (validateProratedCancellationTerms overrideTerms);
  let hours := hours_until_start (bi_startTime intent) (pe_nowMs env) in
  let vid := match bi_cancellationPolicySnapshot intent with
             | Some s => policyVersionId s | None => "override-preview"%string end in
  breakdown ← computeRefundWithTerms overrideTerms (intent_price intent) hours vid;
  mret (with_hold_fee intent breakdown).

(** ** What validation establishes *)

Definition ratio_ok (r : num) : Prop := exists z, r = Fin z /\ 0 <= z <= U.

Definition tier_ok (t : CancellationTier) : Prop :=
  (exists m, minHoursUntilStart t = Fin m /\ 0 <= m) /\
  (forall M, maxHoursUntilStart t = Some M ->
     exists x m, M = Fin x /\ minHoursUntilStart t = Fin m /\ m < x) /\
  ratio_ok (refundRatio t) /\
  (forall f, flatFee t = Some f -> exists z, f = Fin z /\ 0 <= z) /\
  (forall p, percentageFee t = Some p -> ratio_ok p).

Lemma ratio_guard r :
  ltb r zero || gtb r one || negb (is_finite r) = false -> ratio_ok r.
Proof.
  destruct r as [z| | |]; unfold gtb, one; simpl; try done; try (by rewrite ?orb_true_r).
  destruct (Z.ltb_spec z 0), (Z.ltb_spec U z); try done. intros _. exists z. split; [done|lia].
Qed.

Lemma nonneg_guard f : negb (is_finite f) || ltb f zero = false -> exists z, f = Fin z /\ 0 <= z.
Proof. destruct f as [z| | |]; simpl; try done. intros ?%Z.ltb_ge. eauto. Qed.

Lemma check_tier_ok i pm t :
  check_tier i pm t = Ok tt ->
  tier_ok t /\ (forall x, pm = Some x -> ltb (minHoursUntilStart t) x = false).
Proof.
  unfold check_tier. intros H.
  apply bind_ok in H as ([] & Hmin%throw_if_ok & H).
  apply bind_ok in H as ([] & Hmax%throw_if_ok & H).
  apply bind_ok in H as ([] & Hratio%throw_if_ok & H).
  apply bind_ok in H as ([] & Hflat%throw_if_ok & H).
  apply bind_ok in H as ([] & Hpct%throw_if_ok & Hover%throw_if_ok).
  rewrite orb_comm in Hmin. apply nonneg_guard in Hmin as (m & Hm & Hm0).
  split; [split_and!|].
  - eauto.
  - intros M HM. rewrite HM, Hm in Hmax. destruct M as [x| | |]; try done.
    simpl in Hmax. rewrite leb_fin in Hmax. apply Z.leb_gt in Hmax. eauto.
  - by apply ratio_guard.
  - intros f Hf. rewrite Hf in Hflat. by apply nonneg_guard.
  - intros p Hp. rewrite Hp in Hpct. by apply ratio_guard.
  - intros x ->. done.
Qed.

Lemma check_tiers_forall i pm s : check_tiers i pm s = Ok tt -> Forall tier_ok s.
Proof.
  revert i pm. induction s as [|t s IH]; intros i pm H; constructor.
  - apply bind_ok in H as ([] & Ht & _). by apply (check_tier_ok i pm).
  - apply bind_ok in H as ([] & _ & Hs). by apply (IH _ _ Hs).
Qed.

Lemma tier_gt_asc_spec a b ma mb :
  minHoursUntilStart a = Fin ma -> minHoursUntilStart b = Fin mb -> tier_gt_asc a b = (mb <? ma).
Proof. intros Ha Hb. unfold tier_gt_asc, gtb. rewrite Ha, Hb. apply sub_sign. Qed.

Lemma sorted_asc_ordered l : Forall tier_ok l -> ordered tier_gt_asc (js_sort tier_gt_asc l).
Proof.
  intros Hl. apply (js_sort_ordered _ tier_ok).
  - intros x y ((mx & Ex & _) & _) ((my & Ey & _) & _).
    rewrite !(tier_gt_asc_spec _ _ _ _ Ex Ey), !(tier_gt_asc_spec _ _ _ _ Ey Ex), Z.ltb_lt, Z.ltb_ge. lia.
  - intros x y z ((mx & Ex & _) & _) ((my & Ey & _) & _) ((mz & Ez & _) & _).
    rewrite (tier_gt_asc_spec _ _ _ _ Ex Ey), (tier_gt_asc_spec _ _ _ _ Ey Ez),
      (tier_gt_asc_spec _ _ _ _ Ex Ez), !Z.ltb_ge. lia.
  - intros y Hy. by eapply Forall_forall in Hl.
Qed.

Lemma validate_tiers_ok terms :
  validateProratedCancellationTerms terms = Ok tt -> Forall tier_ok (tiers terms).
Proof.
  intros H. apply bind_ok in H as ([] & _ & H). apply bind_ok in H as ([] & Hc & _).
  apply check_tiers_forall in Hc. by rewrite js_sort_perm in Hc.
Qed.

(** In a validated, sorted list a bounded tier ends before every later tier
    starts. *)
Lemma check_tiers_chain i pm t s M :
  check_tiers i pm (t :: s) = Ok tt -> ordered tier_gt_asc (t :: s) ->
  maxHoursUntilStart t = Some M ->
  forall t', t' ∈ s -> leb M (minHoursUntilStart t') = true.
Proof.
  intros H Ho HM t' Hin. destruct s as [|u s]; [inversion Hin|].
  apply bind_ok in H as ([] & Ht & H). apply bind_ok in H as ([] & Hu & Hs).
  destruct (check_tier_ok _ _ _ Ht) as [Ht0 _].
  destruct (check_tier_ok _ _ _ Hu) as [Hu0 Hover].
  destruct Ht0 as (_ & Hb & _). destruct (Hb M HM) as (x & m & -> & _ & _).
  destruct Hu0 as ((mu & Emu & _) & _). specialize (Hover _ HM). rewrite Emu in Hover.
  simpl in Hover. apply Z.ltb_ge in Hover.
  apply elem_of_cons in Hin as [->|Hin]; [rewrite Emu, leb_fin; by apply Z.leb_le|].
  destruct Ho as [_ [Hord _]]. specialize (Hord _ Hin).
  apply check_tiers_forall in Hs. eapply Forall_forall in Hs as ((m' & E' & _) & _); [|done].
  rewrite (tier_gt_asc_spec _ _ _ _ Emu E'), Z.ltb_ge in Hord.
  rewrite E', leb_fin. apply Z.leb_le. lia.
Qed.

(** An unbounded tier starts strictly after every other tier. *)
Definition unbounded_last (l : list CancellationTier) : Prop :=
  forall t t', t ∈ l -> t' ∈ l -> maxHoursUntilStart t = None ->
    t' = t \/ ltb (minHoursUntilStart t') (minHoursUntilStart t) = true.

Lemma covers_excl h t t' M :
  maxHoursUntilStart t = Some M -> leb M (minHoursUntilStart t') = true ->
  covers h t = true -> covers h t' = true -> False.
Proof.
  intros HM Hle Hc Hc'. unfold covers, geb in *. rewrite HM in Hc.
  apply andb_true_iff in Hc as [_ Hlt]. apply andb_true_iff in Hc' as [Hge _].
  unfold leb in *.
  destruct h as [z| | |], M as [x| | |], (minHoursUntilStart t') as [y| | |]; simpl in *;
    try done; rewrite ?orb_true_iff, ?Z.ltb_lt, ?Z.eqb_eq in *; lia.
Qed.

Lemma covers_at_most_one i pm s h t1 t2 :
  check_tiers i pm s = Ok tt -> ordered tier_gt_asc s -> unbounded_last s ->
  t1 ∈ s -> t2 ∈ s -> covers h t1 = true -> covers h t2 = true -> t1 = t2.
Proof.
  revert i pm. induction s as [|t s IH]; intros i pm H Ho Hu H1 H2 C1 C2; [inversion H1|].
  assert (forall t', t' ∈ s -> covers h t = true -> covers h t' = true -> t' = t) as Hone.
  { intros t' Hin Ct Ct'. destruct (maxHoursUntilStart t) as [M|] eqn:HM.
    - exfalso. eapply (covers_excl h t t' M); try done. by eapply check_tiers_chain.
    - destruct (Hu t t') as [|Hlt]; [constructor|by constructor|done|done|].
      exfalso. destruct Ho as [Hord _]. specialize (Hord _ Hin).
      apply check_tiers_forall in H. inversion H as [|? ? Ht Hs]; subst.
      destruct Ht as ((m & Em & _) & _).
      eapply Forall_forall in Hs as ((m' & Em' & _) & _); [|done].
      rewrite (tier_gt_asc_spec _ _ _ _ Em Em'), Z.ltb_ge in Hord.
      rewrite Em, Em' in Hlt. simpl in Hlt. apply Z.ltb_lt in Hlt. lia. }
  apply elem_of_cons in H1 as [->|H1], H2 as [E2|H2]; subst; try done.
  - symmetry. auto.
  - auto.
  - apply bind_ok in H as ([] & _ & H). destruct Ho as [_ Ho].
    eapply (IH _ _ H); try done. intros a b Ha Hb. apply Hu; by constructor.
Qed.

(** Tier selection is deterministic in the terms and not in their order: for
    validated terms whose unbounded tier, if any, is the last, a tier is
    selected exactly when it is a tier of the terms whose notice window
    contains the hours left. *)
Theorem select_tier_correct terms h t :
  validateProratedCancellationTerms terms = Ok tt -> unbounded_last (tiers terms) ->
  selectTierForCancellation terms h = Some t <-> t ∈ tiers terms /\ covers h t = true.
Proof.
  intros Hv Hu. pose proof (validate_tiers_ok terms Hv) as Hok.
  apply bind_ok in Hv as ([] & _ & Hv). apply bind_ok in Hv as ([] & Hc & _).
  assert (forall t1 t2, t1 ∈ tiers terms -> t2 ∈ tiers terms ->
            covers h t1 = true -> covers h t2 = true -> t1 = t2) as Huniq.
  { intros t1 t2 H1 H2. eapply covers_at_most_one; [done|by apply sorted_asc_ordered| |..];
      [intros a b; rewrite !js_sort_elem; apply Hu|by rewrite js_sort_elem..]. }
  unfold selectTierForCancellation. split.
  - intros [Hcov Hin]%find_first_Some. by rewrite js_sort_elem in Hin.
  - intros [Hin Hcov].
    destruct (find_first (covers h) (js_sort tier_gt_desc (tiers terms))) as [t'|] eqn:E.
    + apply find_first_Some in E as [Hcov' Hin']. rewrite js_sort_elem in Hin'.
      f_equal. by apply Huniq.
    + rewrite find_first_None in E. specialize (E t). rewrite js_sort_elem in E.
      rewrite E in Hcov; done.
Qed.

(** ** Refund arithmetic

    The regime the amounts live in: integer minor units below [2^50] (about
    [10^15]), where every intermediate sum is exact. *)
Definition cents (v : num) (n : Z) : Prop := v = Fin (n * U) /\ 0 <= n <= 2 ^ 50.

Definition opt_cents (o : option num) : Prop :=
  match o with None => True | Some v => exists n, cents v n end.

Definition opt_ratio (o : option num) : Prop :=
  match o with None => True | Some v => ratio_ok v end.

Lemma rounded_share_bounds R r :
  0 <= R <= 2 ^ 53 -> opt_ratio r ->
  exists k, rounded_share (Fin (R * U)) r = Fin (k * U) /\ 0 <= k <= R.
Proof.
  intros HR Hr. pose proof U_pos. destruct r as [r|]; simpl in *; [|exists 0; split; [done|lia]].
  destruct Hr as (z & -> & Hz). destruct (truthy (Fin z)); [|exists 0; split; [done|lia]].
  destruct (mul_ratio (R * U) z) as (c & -> & _ & Hc); [apply dbl_int; lia|nia|done|].
  destruct (round_between 0 R c) as (k & -> & Hk); [lia|eauto].
Qed.

Lemma base_refund_bounds n r :
  0 <= n <= 2 ^ 53 -> 0 <= r <= U ->
  exists R, math_max zero (math_round (mul (Fin (n * U)) (Fin r))) = Fin (R * U) /\ 0 <= R <= n.
Proof.
  intros Hn Hr. pose proof U_pos.
  destruct (mul_ratio (n * U) r) as (c & -> & _ & Hc); [apply dbl_int; lia|nia|done|].
  destruct (round_between 0 n c) as (R & -> & HR); [lia|]. exists R. split; [|done].
  unfold math_max, zero. simpl. destruct (Z.ltb_spec 0 (R * U)); f_equal; nia.
Qed.

(** The integer specification of the clamping in [computeRefundWithTerms]. *)
Definition net_spec (lo hi : option Z) (R T F : Z) : Z :=
  let net := R + T - F in
  let net := match lo with Some m => Z.max m net | None => net end in
  let net := match hi with Some m => Z.min m net | None => net end in
  Z.max 0 net.

Definition opt_is_cents (o : option num) (z : option Z) : Prop :=
  match o, z with
  | None, None => True
  | Some v, Some n => cents v n
  | _, _ => False
  end.

Lemma net_refund_spec terms lo hi R T F :
  opt_is_cents (minRefundAmount terms) lo -> opt_is_cents (maxRefundAmount terms) hi ->
  Z.abs (R + T) <= 2 ^ 53 -> Z.abs (R + T - F) <= 2 ^ 53 ->
  net_refund terms (Fin (R * U)) (Fin (T * U)) (Fin (F * U)) = Fin (net_spec lo hi R T F * U).
Proof.
  intros Hlo Hhi H1 H2. unfold net_refund, net_spec.
  rewrite add_cents, sub_cents by done. change zero with (Fin (0 * U)).
  destruct (minRefundAmount terms) as [v|], lo as [m|]; try done; simpl in Hlo;
    try (destruct Hlo as [-> _]; rewrite max_cents);
    (destruct (maxRefundAmount terms) as [v'|], hi as [m'|]; try done; simpl in Hhi;
     try (destruct Hhi as [-> _]; rewrite min_cents)); apply max_cents.
Qed.

(** A tier in the integer regime; [taxReversalRatio] is not checked by the
    validator and needs its own bound. *)
Definition tier_regular (t : CancellationTier) : Prop :=
  opt_cents (flatFee t) /\ opt_ratio (taxReversalRatio t).

Lemma compute_refund_tier terms lo hi n h vid t :
  opt_is_cents (minRefundAmount terms) lo -> opt_is_cents (maxRefundAmount terms) hi ->
  0 <= n <= 2 ^ 50 -> selectTierForCancellation terms h = Some t ->
  tier_ok t -> tier_regular t ->
  exists b R T F,
    computeRefundWithTerms terms (Fin (n * U)) h vid = Ok b /\
    math_max zero (math_round (mul (Fin (n * U)) (refundRatio t))) = Fin (R * U) /\
    rb_taxReversal b = Fin (T * U) /\ rb_fee b = Fin (F * U) /\
    rb_taxReversal b = rounded_share (Fin (R * U)) (taxReversalRatio t) /\
    rb_netRefund b = Fin (net_spec lo hi R T F * U) /\
    0 <= R <= n /\ 0 <= T <= R /\ 0 <= F <= 2 ^ 51.
Proof.
  intros Hlo Hhi Hn Hsel (_ & _ & (r & Er & Hr) & _ & Hpct) [Hflat Htax]. pose proof U_pos.
  destruct (base_refund_bounds n r) as (R & ER & HR); [lia|done|].
  destruct (rounded_share_bounds R (percentageFee t)) as (P & EP & HP);
    [lia| by destruct (percentageFee t); [apply Hpct|]|].
  destruct (rounded_share_bounds R (taxReversalRatio t)) as (T & ET & HT); [lia|done|].
  assert (exists f, default zero (flatFee t) = Fin (f * U) /\ 0 <= f <= 2 ^ 50) as (f & Ef & Hf).
  { destruct (flatFee t); simpl in *; [|exists 0; split; [done|lia]].
    destruct Hflat as (k & -> & Hk). eauto. }
  unfold computeRefundWithTerms. rewrite Hsel, Er, ER, EP, ET, Ef, add_cents by lia.
  simpl ltb. destruct (Z.ltb_spec (n * U) 0); [nia|]. simpl.
  do 4 eexists. split_and!; [done|done|done|done|by rewrite ET| |lia..].
  simpl. apply net_refund_spec; [done..|lia|lia].
Qed.

Lemma net_spec_bounds lo hi R T F :
  0 <= R -> 0 <= T -> 0 <= F ->
  0 <= net_spec lo hi R T F /\
  (forall m, hi = Some m -> 0 <= m -> net_spec lo hi R T F <= m) /\
  net_spec lo hi R T F <= Z.max (default 0 lo) (R + T).
Proof.
  intros. unfold net_spec. destruct lo, hi; cbn [from_option id];
    repeat apply conj; intros; simplify_eq; lia.
Qed.

(** A configured minimum is a lower bound as well, when it is not above the
    maximum, which the validator checks. *)
Lemma net_spec_min lo hi R T F m :
  (forall a b, lo = Some a -> hi = Some b -> a <= b) -> lo = Some m -> m <= net_spec lo hi R T F.
Proof. intros Hle ->. unfold net_spec. destruct hi as [b|]; [specialize (Hle m b eq_refl eq_refl)|]; lia. Qed.

Lemma validated_min_max terms lo hi a b :
  validateProratedCancellationTerms terms = Ok tt ->
  opt_is_cents (minRefundAmount terms) lo -> opt_is_cents (maxRefundAmount terms) hi ->
  lo = Some a -> hi = Some b -> a <= b.
Proof.
  intros Hv Hlo Hhi -> ->. unfold validateProratedCancellationTerms in Hv.
  do 4 apply bind_ok in Hv as ([] & _ & Hv). apply throw_if_ok in Hv.
  destruct (minRefundAmount terms); [|done]. destruct (maxRefundAmount terms); [|done].
  destruct Hlo as [-> _], Hhi as [-> _]. simpl in Hv. apply Z.ltb_ge in Hv. pose proof U_pos. nia.
Qed.

(** (C9) Refund arithmetic, for validated terms whose amounts are whole cents up
    to 2^50 and whose tax reversal ratios lie in [0, 1] (the validator checks
    neither) and a price of at most 2^50 whole cents: the computation returns.  When no
    tier covers the notice it refunds nothing.  Otherwise the base refund is the
    price times the tier's ratio, rounded and at most the price, the tax
    reversal is at most the price, and the net refund is the base refund plus
    the tax reversal less the fee, raised to the configured minimum, then cut to
    the configured maximum and to 0: a non-negative number of whole cents, at
    least the minimum, at most the maximum, and at most the price plus the tax
    reversal unless the minimum is larger. *)
Theorem refund_bounded terms lo hi n h vid :
  validateProratedCancellationTerms terms = Ok tt ->
  Forall tier_regular (tiers terms) ->
  opt_is_cents (minRefundAmount terms) lo -> opt_is_cents (maxRefundAmount terms) hi ->
  0 <= n <= 2 ^ 50 ->
  exists b N T F,
    computeRefundWithTerms terms (of_Z n) h vid = Ok b /\
    rb_netRefund b = Fin (N * U) /\ rb_taxReversal b = Fin (T * U) /\ rb_fee b = Fin (F * U) /\
    0 <= N /\ 0 <= T <= n /\ 0 <= F /\
    (forall m, hi = Some m -> N <= m) /\
    N <= Z.max (default 0 lo) (n + T) /\
    match selectTierForCancellation terms h with
    | None => N = 0 /\ T = 0 /\ F = 0
    | Some t =>
        (forall m, lo = Some m -> m <= N) /\
        exists R, math_max zero (math_round (mul (of_Z n) (refundRatio t))) = Fin (R * U) /\ 0 <= R <= n /\
          N = net_spec lo hi R T F
    end.
Proof.
  intros Hv Hreg Hlo Hhi Hn. rewrite of_Z_exact by lia.
  assert (forall m, hi = Some m -> 0 <= m) as Hm0.
  { intros m ->. destruct (maxRefundAmount terms); [|done]. destruct Hhi; lia. }
  destruct (selectTierForCancellation terms h) as [t|] eqn:Hsel.
  - pose proof Hsel as [_ Hin]%find_first_Some. rewrite js_sort_elem in Hin.
    pose proof (validate_tiers_ok _ Hv) as Hok. eapply Forall_forall in Hok; [|done].
    eapply Forall_forall in Hreg; [|done].
    destruct (compute_refund_tier terms lo hi n h vid t) as
      (b & R & T & F & Eb & ER & ET & EF & _ & EN & HR & HT & HF); [done..|].
    destruct (net_spec_bounds lo hi R T F) as (? & ? & ?); [lia..|].
    exists b, (net_spec lo hi R T F), T, F. split_and!; try done; try lia; auto.
    + intros m. apply net_spec_min. intros a c. by apply validated_min_max with terms.
    + by exists R.
  - unfold computeRefundWithTerms. rewrite Hsel. pose proof U_pos. simpl ltb.
    destruct (Z.ltb_spec (n * U) 0); [nia|]. simpl.
    eexists _, 0, 0, 0. split_and!; try done; try lia; auto.
Qed.

(** ** More notice never refunds less *)

(** [Math.round(a * r)] in whole units. *)
Definition round_share (a r : Z) : Z :=
  match math_round (mul (Fin a) (Fin r)) with Fin z => z / U | _ => 0 end.

Lemma round_share_spec n r :
  0 <= n <= 2 ^ 53 -> 0 <= r <= U ->
  math_round (mul (Fin (n * U)) (Fin r)) = Fin (round_share (n * U) r * U) /\
  0 <= round_share (n * U) r <= n.
Proof.
  intros Hn Hr. pose proof U_pos. unfold round_share.
  destruct (mul_ratio (n * U) r) as (c & -> & _ & Hc); [apply dbl_int; lia|nia|done|].
  destruct (round_between 0 n c) as (k & -> & Hk); [lia|].
  rewrite Z.div_mul by lia. done.
Qed.

Lemma round_share_mono n1 n2 r1 r2 :
  0 <= n1 <= n2 -> n2 <= 2 ^ 53 -> 0 <= r1 <= r2 -> r2 <= U ->
  round_share (n1 * U) r1 <= round_share (n2 * U) r2.
Proof.
  intros Hn Hn2 Hr Hr2. pose proof U_pos.
  assert (leb (mul (Fin (n1 * U)) (Fin r1)) (mul (Fin (n2 * U)) (Fin r2)) = true) as Hm.
  { unfold mul. apply norm_mono, rnd_mono; [done..|].
    apply Z.mul_le_mono_nonneg_r; [lia|]. apply Z.mul_le_mono_nonneg; nia. }
  apply round_le in Hm.
  destruct (round_share_spec n1 r1) as [E1 _]; [lia..|].
  destruct (round_share_spec n2 r2) as [E2 _]; [lia..|].
  rewrite E1, E2, leb_fin, Z.leb_le in Hm. nia.
Qed.

(** Net refund of a tier without a percentage fee, with the 10% tax reversal and
    a zero refund floor (the shape of every v2 tier). *)
Definition v2_net (n r f : Z) (tax : Z) : Z :=
  let R := round_share (n * U) r in
  Z.max 0 (R + round_share (R * U) tax - f).

Lemma v2_net_mono n r1 r2 f1 f2 tax :
  0 <= n <= 2 ^ 50 -> 0 <= r1 <= r2 -> r2 <= U -> f2 <= f1 -> 0 <= tax <= U ->
  v2_net n r1 f1 tax <= v2_net n r2 f2 tax.
Proof.
  intros Hn Hr Hr2 Hf Ht. unfold v2_net.
  destruct (round_share_spec n r1) as [_ B1]; [lia..|].
  destruct (round_share_spec n r2) as [_ B2]; [lia..|].
  pose proof (round_share_mono n n r1 r2 ltac:(lia) ltac:(lia) Hr Hr2).
  pose proof (round_share_mono (round_share (n * U) r1) (round_share (n * U) r2) tax tax
    ltac:(lia) ltac:(lia) ltac:(lia) ltac:(lia)). lia.
Qed.

Definition tax_tenth : Z := match lit 1 10 with Fin z => z | _ => 0 end.

Lemma lit_tenth : lit 1 10 = Fin tax_tenth.
Proof. vm_compute. reflexivity. Qed.

Lemma tax_tenth_range : 0 < tax_tenth <= U.
Proof. split; vm_compute; congruence. Qed.

Lemma v2_compute n h vid t r f :
  0 <= n <= 2 ^ 50 -> 0 <= r <= U -> 0 <= f <= 2 ^ 50 ->
  selectTierForCancellation PRORATED_V2_TERMS h = Some t ->
  refundRatio t = Fin r -> flatFee t = Some (of_Z f) -> percentageFee t = None ->
  taxReversalRatio t = Some (lit 1 10) ->
  exists b, computeRefundWithTerms PRORATED_V2_TERMS (of_Z n) h vid = Ok b /\
            rb_netRefund b = Fin (v2_net n r f tax_tenth * U).
Proof.
  intros Hn Hr Hf Hsel Er Ef Ep Et. pose proof U_pos. pose proof tax_tenth_range.
  unfold computeRefundWithTerms. rewrite Hsel, Er, Ef, Ep, Et, !of_Z_exact by lia.
  simpl ltb. destruct (Z.ltb_spec (n * U) 0); [nia|]. simpl.
  eexists. split; [done|]. simpl. rewrite lit_tenth.
  destruct (round_share_spec n r) as [-> B]; [lia..|].
  change zero with (Fin (0 * U)). rewrite max_cents, Z.max_r by lia.
  simpl. destruct (Z.eqb_spec tax_tenth 0); [lia|]. simpl.
  set (R := round_share (n * U) r) in *.
  destruct (round_share_spec R tax_tenth) as [-> B2]; [lia..|].
  rewrite add_cents by lia. change zero with (Fin (0 * U)).
  rewrite (net_refund_spec _ (Some 0) None); [|split; [done|lia]|done|lia|lia].
  f_equal. f_equal. unfold v2_net, net_spec. fold R. lia.
Qed.

Definition ratio_z (v : num) : Z := match v with Fin z => z | _ => 0 end.

Lemma ratio_z_fin v : is_finite v = true -> v = Fin (ratio_z v).
Proof. by destruct v. Qed.

(** Ratio and flat fee of the v2 tier that covers [h] (in number units). *)
Definition v2_tier (h : Z) : option (Z * Z) :=
  if 168 * U <=? h then Some (ratio_z one, 0)
  else if 72 * U <=? h then Some (ratio_z (lit 85 100), 0)
  else if 24 * U <=? h then Some (ratio_z (lit 6 10), 50)
  else if 12 * U <=? h then Some (ratio_z (lit 3 10), 100)
  else if 0 <=? h then Some (0, 0) else None.

Lemma lit_85_fin : lit 85 100 = Fin (ratio_z (lit 85 100)).
Proof. apply ratio_z_fin. vm_compute. reflexivity. Qed.

Lemma lit_60_fin : lit 6 10 = Fin (ratio_z (lit 6 10)).
Proof. apply ratio_z_fin. vm_compute. reflexivity. Qed.

Lemma lit_30_fin : lit 3 10 = Fin (ratio_z (lit 3 10)).
Proof. apply ratio_z_fin. vm_compute. reflexivity. Qed.

Lemma v2_ratio_order :
  0 <= ratio_z (lit 3 10) /\ ratio_z (lit 3 10) <= ratio_z (lit 6 10) /\
  ratio_z (lit 6 10) <= ratio_z (lit 85 100) /\ ratio_z (lit 85 100) <= ratio_z one.
Proof. split_and!; vm_compute; congruence. Qed.

Lemma v2_sorted : js_sort tier_gt_desc (tiers PRORATED_V2_TERMS) = tiers PRORATED_V2_TERMS.
Proof. vm_compute. reflexivity. Qed.

Lemma v2_select h :
  match v2_tier h with
  | Some (r, f) =>
      exists t, selectTierForCancellation PRORATED_V2_TERMS (Fin h) = Some t /\
        refundRatio t = Fin r /\ flatFee t = Some (of_Z f) /\ percentageFee t = None /\
        taxReversalRatio t = Some (lit 1 10)
  | None => selectTierForCancellation PRORATED_V2_TERMS (Fin h) = None
  end.
Proof.
  unfold selectTierForCancellation. rewrite v2_sorted.
  unfold PRORATED_V2_TERMS, tiers, tier, v2_tier.
  cbn [find_first]. unfold covers, geb.
  cbn [minHoursUntilStart maxHoursUntilStart fmap option_fmap option_map].
  rewrite !of_Z_exact by lia. rewrite !leb_fin. cbn [ltb].
  pose proof U_pos.
  destruct (Z.leb_spec (168 * U) h); cbn [andb].
  { eexists. split_and!; reflexivity. }
  destruct (Z.leb_spec (72 * U) h); cbn [andb].
  { destruct (Z.ltb_spec h (168 * U)); [|lia].
    eexists. split_and!; [reflexivity|exact lit_85_fin|reflexivity..]. }
  destruct (Z.leb_spec (24 * U) h); cbn [andb].
  { destruct (Z.ltb_spec h (72 * U)); [|lia].
    eexists. split_and!; [reflexivity|exact lit_60_fin|reflexivity..]. }
  destruct (Z.leb_spec (12 * U) h); cbn [andb].
  { destruct (Z.ltb_spec h (24 * U)); [|lia].
    eexists. split_and!; [reflexivity|exact lit_30_fin|reflexivity..]. }
  rewrite Z.mul_0_l. destruct (Z.leb_spec 0 h); cbn [andb]; [|reflexivity].
  destruct (Z.ltb_spec h (12 * U)); [|lia].
  eexists. split_and!; reflexivity.
Qed.

Lemma v2_tier_range h r f : v2_tier h = Some (r, f) -> 0 <= r <= U /\ 0 <= f <= 100.
Proof.
  pose proof v2_ratio_order as Ho. change (ratio_z one) with U in Ho. pose proof U_pos.
  unfold v2_tier. change (ratio_z one) with U.
  generalize dependent (ratio_z (lit 3 10)). intros r30.
  generalize dependent (ratio_z (lit 6 10)). intros r60.
  generalize dependent (ratio_z (lit 85 100)). intros r85 Ho.
  repeat case_match; intros; simplify_eq; lia.
Qed.

Lemma v2_tier_mono h1 h2 :
  h1 <= h2 ->
  match v2_tier h1, v2_tier h2 with
  | None, _ => True
  | Some (r1, f1), Some (r2, f2) => r1 <= r2 /\ (f2 <= f1 \/ (r1 = 0 /\ f1 = 0))
  | Some _, None => False
  end.
Proof.
  pose proof v2_ratio_order as Ho. change (ratio_z one) with U in Ho. pose proof U_pos.
  unfold v2_tier. change (ratio_z one) with U.
  generalize dependent (ratio_z (lit 3 10)). intros r30.
  generalize dependent (ratio_z (lit 6 10)). intros r60.
  generalize dependent (ratio_z (lit 85 100)). intros r85 Ho Hle.
  destruct (Z.leb_spec (168 * U) h1), (Z.leb_spec (72 * U) h1), (Z.leb_spec (24 * U) h1),
    (Z.leb_spec (12 * U) h1), (Z.leb_spec 0 h1), (Z.leb_spec (168 * U) h2),
    (Z.leb_spec (72 * U) h2), (Z.leb_spec (24 * U) h2), (Z.leb_spec (12 * U) h2),
    (Z.leb_spec 0 h2); lia.
Qed.

Lemma v2_net_zero n tax : 0 <= n <= 2 ^ 50 -> 0 <= tax <= U -> v2_net n 0 0 tax = 0.
Proof.
  intros Hn Ht. pose proof U_pos. unfold v2_net.
  assert (round_share (n * U) 0 = 0) as ->.
  { unfold round_share. change (Fin 0) with zero. rewrite mul_zero_r.
    change 0 with (0 * U) at 1. rewrite round_int. by rewrite Z.div_mul by lia. }
  pose proof (round_share_spec 0 tax) as [_ B']; lia.
Qed.

Lemma v2_refund_value n h vid :
  0 <= n <= 2 ^ 50 ->
  exists b, computeRefundWithTerms PRORATED_V2_TERMS (of_Z n) (Fin h) vid = Ok b /\
    rb_netRefund b = Fin (match v2_tier h with
                          | Some (r, f) => v2_net n r f tax_tenth
                          | None => 0 end * U).
Proof.
  intros Hn. pose proof (v2_select h) as Hs. pose proof U_pos.
  destruct (v2_tier h) as [[r f]|] eqn:E.
  - destruct Hs as (t & Hsel & Hr & Hf & Hp & Ht).
    apply v2_tier_range in E as [Hr0 Hf0].
    exact (v2_compute n (Fin h) vid t r f Hn Hr0 ltac:(lia) Hsel Hr Hf Hp Ht).
  - unfold computeRefundWithTerms. rewrite Hs, of_Z_exact by lia. simpl ltb.
    destruct (Z.ltb_spec (n * U) 0); [nia|]. simpl. eauto.
Qed.

(** (C8) Under the platform's current policy (v2), cancelling earlier never
    refunds less: for every integer price and any two notice periods the
    computation returns, and the refund grows with the notice. *)
Theorem v2_refund_monotone n h1 h2 vid :
  0 <= n <= 2 ^ 50 -> h1 <= h2 ->
  exists b1 b2,
    computeRefundWithTerms PRORATED_V2_TERMS (of_Z n) (Fin h1) vid = Ok b1 /\
    computeRefundWithTerms PRORATED_V2_TERMS (of_Z n) (Fin h2) vid = Ok b2 /\
    leb (rb_netRefund b1) (rb_netRefund b2) = true.
Proof.
  intros Hn Hle.
  destruct (v2_refund_value n h1 vid Hn) as (b1 & E1 & N1).
  destruct (v2_refund_value n h2 vid Hn) as (b2 & E2 & N2).
  exists b1, b2. split_and!; [done..|]. rewrite N1, N2, leb_fin. apply Z.leb_le.
  apply Z.mul_le_mono_nonneg_r; [pose proof U_pos; lia|].
  pose proof (v2_tier_mono h1 h2 Hle) as Hm. pose proof tax_tenth_range as Ht.
  pose proof (v2_tier_range h1) as R1. pose proof (v2_tier_range h2) as R2.
  assert (forall r f, 0 <= v2_net n r f tax_tenth) as Hpos by (intros; unfold v2_net; lia).
  destruct (v2_tier h1) as [[r1 f1]|], (v2_tier h2) as [[r2 f2]|]; try contradiction;
    [|apply Hpos|reflexivity].
  destruct (R1 _ _ eq_refl), (R2 _ _ eq_refl), Hm as [Hr [Hf|[-> ->]]].
  - apply v2_net_mono; lia.
  - rewrite v2_net_zero by lia. apply Hpos.
Qed.

(** ** The version registry *)

Definition policy_registry_ok (r : VersionedPolicyRegistry) : Prop :=
  is_Some (entries r !! currentVersionId r) /\
  map_Forall (fun k e => versionId (re_version e) = k /\
    validateProratedCancellationTerms (re_terms e) = Ok tt) (entries r).

Lemma v1_terms_valid : validateProratedCancellationTerms LEGACY_V1_TERMS = Ok tt.
Proof. vm_compute. reflexivity. Qed.

Lemma v2_terms_valid : validateProratedCancellationTerms PRORATED_V2_TERMS = Ok tt.
Proof. vm_compute. reflexivity. Qed.

Lemma lift_terms_ok {A} (r : result TermsError A) a : lift_terms r = Ok a <-> r = Ok a.
Proof. destruct r; simpl; split; congruence. Qed.

Lemma default_registry_ok : policy_registry_ok createDefaultRegistry.
Proof.
  split; [eexists; reflexivity|].
  apply map_Forall_insert_2; [split; [reflexivity|apply v2_terms_valid]|].
  apply map_Forall_insert_2; [split; [reflexivity|apply v1_terms_valid]|].
  apply map_Forall_empty.
Qed.

(** Publishing a policy version keeps the registry well formed (the current
    version exists, every entry is filed under its own id and passes
    validation), makes the new version available, and never changes the terms
    of a version already published: snapshots and fallbacks keep their meaning. *)
Theorem register_version_safe nowIso vid descr terms eff mk r r' :
  policy_registry_ok r ->
  registerNewPolicyVersion nowIso vid descr terms eff mk r = Ok r' ->
  policy_registry_ok r' /\
  (exists e, entries r' !! vid = Some e /\ re_terms e = terms) /\
  (forall k e, entries r !! k = Some e ->
     exists e', entries r' !! k = Some e' /\ re_terms e' = re_terms e /\
                versionId (re_version e') = versionId (re_version e)) /\
  (mk = true -> currentVersionId r' = vid) /\
  (mk = false -> currentVersionId r' = currentVersionId r).
Proof.
  intros [[cur Hcur] Hall] H. unfold registerNewPolicyVersion in H.
  apply bind_ok in H as ([] & _ & H). apply bind_ok in H as ([] & Hnew%throw_if_ok & H).
  apply bind_ok in H as ([] & Hv%lift_terms_ok & H).
  destruct (entries r !! vid) eqn:Hvid; [done|].
  assert (currentVersionId r <> vid) as Hne by congruence.
  destruct (map_Forall_lookup_1 _ _ _ _ Hall Hcur) as [Ek Ev].
  rewrite Hcur in H. destruct mk; injection H as <-; simpl.
  - split_and!; [split| | |done|done]; simpl.
    + rewrite lookup_insert_ne, lookup_insert_eq by done. by eexists.
    + apply map_Forall_insert_2; [done|]. by apply map_Forall_insert_2.
    + rewrite lookup_insert_ne, lookup_insert_eq by done. by eexists.
    + intros k e Hk. destruct (decide (k = currentVersionId r)) as [->|Hk'].
      * rewrite lookup_insert_eq. eexists. split_and!; [done|..]; simpl; congruence.
      * rewrite !lookup_insert_ne by congruence. eauto.
  - split_and!; [split| | |done|done]; simpl.
    + rewrite lookup_insert_ne by done. by eexists.
    + by apply map_Forall_insert_2.
    + rewrite lookup_insert_eq. by eexists.
    + intros k e Hk. rewrite lookup_insert_ne by congruence. eauto.
Qed.

(** ** Witnesses *)

Definition w_tiers : ProratedCancellationTerms :=
  {| tiers := [tier 24 None one None None None; tier 0 (Some 24) (lit 5 10) (Some 10) None None];
     minRefundAmount := None; maxRefundAmount := Some (of_Z 900) |}.

Lemma select_tier_correct_witness :
  selectTierForCancellation PRORATED_V2_TERMS (of_Z 30) =
    Some (tier 24 (Some 72) (lit 6 10) (Some 50) None (Some (lit 1 10))).
Proof.
  apply select_tier_correct.
  - vm_compute. reflexivity.
  - intros t t' Ht Ht' Hm. simpl in Ht, Ht'.
    repeat (apply elem_of_cons in Ht as [->|Ht]; [|]); try (by inversion Ht); try discriminate Hm.
    repeat (apply elem_of_cons in Ht' as [->|Ht']; [|]); try (by inversion Ht');
      [left; reflexivity|right; vm_compute; reflexivity..].
  - split; [do 2 constructor 2; constructor 1|vm_compute; reflexivity].
Defined.

Lemma refund_bounded_witness :
  exists b N T F,
    computeRefundWithTerms w_tiers (of_Z 1000) (of_Z 30) "v" = Ok b /\
    rb_netRefund b = Fin (N * U) /\ rb_taxReversal b = Fin (T * U) /\ rb_fee b = Fin (F * U) /\
    0 <= N /\ 0 <= T <= 1000 /\ 0 <= F /\
    (forall m, Some 900 = Some m -> N <= m) /\
    N <= Z.max (default 0 None) (1000 + T) /\
    match selectTierForCancellation w_tiers (of_Z 30) with
    | None => N = 0 /\ T = 0 /\ F = 0
    | Some t =>
        (forall m, None = Some m -> m <= N) /\
        exists R, math_max zero (math_round (mul (of_Z 1000) (refundRatio t))) = Fin (R * U) /\ 0 <= R <= 1000 /\
          N = net_spec None (Some 900) R T F
    end.
Proof.
  apply (refund_bounded w_tiers None (Some 900)).
  - vm_compute. reflexivity.
  - repeat constructor. simpl. exists 10. split; [apply of_Z_exact; lia|lia].
  - exact I.
  - split; [apply of_Z_exact; lia|lia].
  - lia.
Defined.

Lemma v2_refund_monotone_witness :
  exists b1 b2,
    computeRefundWithTerms PRORATED_V2_TERMS (of_Z 12345) (Fin (30 * U)) "v" = Ok b1 /\
    computeRefundWithTerms PRORATED_V2_TERMS (of_Z 12345) (Fin (100 * U)) "v" = Ok b2 /\
    leb (rb_netRefund b1) (rb_netRefund b2) = true.
Proof. apply (v2_refund_monotone 12345 (30 * U) (100 * U)); [lia|pose proof U_pos; lia]. Defined.

Definition w_registry : VersionedPolicyRegistry :=
  match registerNewPolicyVersion "now" "v3" "d" w_tiers None true createDefaultRegistry with
  | Ok r => r | Err _ => createDefaultRegistry end.

Lemma register_version_safe_witness :
  policy_registry_ok w_registry /\ currentVersionId w_registry = "v3"%string.
Proof.
  assert (registerNewPolicyVersion "now" "v3" "d" w_tiers None true createDefaultRegistry
          = Ok w_registry) as H by (vm_compute; reflexivity).
  destruct (register_version_safe "now" "v3" "d" w_tiers None true _ _ default_registry_ok H)
    as (H1 & _ & _ & H2 & _).
  split; [exact H1|exact (H2 eq_refl)].
Defined.

(** The validator does not see an overlap below an unbounded tier: both tiers
    cover 30 hours of notice. *)
Example unbounded_tier_overlap_accepted :
  let l := {| tiers := [tier 0 None zero None None None; tier 24 (Some 72) one None None None];
              minRefundAmount := None; maxRefundAmount := None |} in
  validateProratedCancellationTerms l = Ok tt /\
  length (List.filter (covers (of_Z 30)) (tiers l)) = 2%nat.
Proof. vm_compute. split; reflexivity. Qed.

(** The v2 policy refunds 110 for a price of 100 with a week's notice: the tax
    reversal is added on top of the full base refund. *)
Example v2_full_notice_refunds_above_price :
  match computeRefundWithTerms PRORATED_V2_TERMS (of_Z 100) (of_Z 200) "v2" with
  | Ok b => rb_netRefund b = of_Z 110
  | Err _ => False
  end.
Proof. vm_compute. reflexivity. Qed.
