(* ===== verification/BookingRepo.v ===== *)
(** * BookingRepo: the booking-intent repository

    The [BookingIntentRepository] interface of
    [modules/booking-intents/booking-intent-repository.ts] as a class of
    operations on a store, what its clients rely on as laws, and
    [InMemoryBookingIntentRepository] as an instance.  A returned record is a
    copy ([{ ...intent }]): clients cannot mutate the store through it, so
    values are passed. *)
From stdpp Require Import base list strings pretty.
From Stdlib Require Import ZArith Lia.
From S2P Require Import Prelude JsNumber Domain.
Local Open Scope Z_scope.

(** [Omit<BookingIntentRecord, "id">]: a record whose [id] is ignored. *)
Abbreviation NewIntent := BookingIntentRecord.

Inductive RepoError : Type :=
| ConflictError (slotId : string)
| IntentNotFound (id : string).

(** [ACTIVE_HOLD_STATUSES]. *)
Definition active_status (s : BookingIntentStatus) : bool :=
  match s with pending | hold_placed => true | _ => false end.

Definition has_id (id : string) (r : BookingIntentRecord) : bool := bool_decide (bi_id r = id).
Definition has_slot (slotId : string) (r : BookingIntentRecord) : bool :=
  bool_decide (bi_slotId r = slotId).
Definition has_customer (c : string) (r : BookingIntentRecord) : bool :=
  bool_decide (bi_customerId r = c).
Definition is_active (r : BookingIntentRecord) : bool := active_status (bi_status r).

(** [candidates.reduce((latest, current) => current.startTime > latest.startTime
    ? current : latest)] on a non-empty array. *)
Definition later_start (latest current : BookingIntentRecord) : BookingIntentRecord :=
  if bi_startTime latest <? bi_startTime current then current else latest.

Definition latest_of (l : list BookingIntentRecord) : option BookingIntentRecord :=
  match l with
  | [] => None
  | x :: l' => Some (fold_left later_start l' x)
  end.

Definition hold_expired (nowMs : Z) (r : BookingIntentRecord) : bool :=
  bool_decide (bi_bookingType r = Some refundable_hold) &&
  bool_decide (bi_status r = hold_placed) &&
  match bi_holdUntilMs r with Some h => leb h (of_Z nowMs) | None => false end.

Class BookingIntentRepository (R : Type) : Type := {
  create : NewIntent -> R -> result RepoError (BookingIntentRecord * R);
  findById : string -> R -> option BookingIntentRecord;
  findBySlotId : string -> R -> option BookingIntentRecord;
  findBySlotIdAndCustomer : string -> string -> R -> option BookingIntentRecord;
  findLatestBySlotId : string -> R -> option BookingIntentRecord;
  listByCustomer : string -> R -> list BookingIntentRecord;
  listAll : R -> list BookingIntentRecord;
  updateStatus : string -> BookingIntentStatus -> R -> result RepoError (BookingIntentRecord * R);
  update : string -> list IntentField -> R -> result RepoError (BookingIntentRecord * R);
  updateTokenInfo : string -> string -> string -> R -> R;
  findExpiredHolds : Z -> R -> list BookingIntentRecord
}.

(** What clients rely on.  [listAll] is the abstraction of the store; the
    queries are views of it; a write touches the record it names only; and
    [create] refuses a second active intent on a slot. *)
Class BookingIntentRepositoryLaws (R : Type) `{BookingIntentRepository R} : Prop := {
  law_findById id r : findById id r = find_first (has_id id) (listAll r);
  law_findBySlotId s r :
    findBySlotId s r = find_first (fun e => has_slot s e && is_active e) (listAll r);
  law_findBySlotIdAndCustomer s c r :
    findBySlotIdAndCustomer s c r =
    find_first (fun e => has_slot s e && has_customer c e && is_active e) (listAll r);
  law_findLatest s r : findLatestBySlotId s r = latest_of (List.filter (has_slot s) (listAll r));
  law_update id us r x :
    findById id r = Some x ->
    exists r', update id us r = Ok (spread us x, r') /\
               listAll r' = update_first (has_id id) (spread us) (listAll r);
  law_update_missing id us r : findById id r = None -> update id us r = Err (IntentNotFound id);
  law_updateStatus id s r : updateStatus id s r = update id [SetStatus s] r;
  law_findExpired now r : findExpiredHolds now r = List.filter (hold_expired now) (listAll r);
  law_create_conflict i r :
    is_active i = true ->
    is_Some (findBySlotId (bi_slotId i) r) -> create i r = Err (ConflictError (bi_slotId i));
  law_create_ok i r :
    (is_active i = false \/ findBySlotId (bi_slotId i) r = None) ->
    exists c r', create i r = Ok (c, r') /\ listAll r' = listAll r ++ [c] /\
      bi_slotId c = bi_slotId i /\ bi_status c = bi_status i /\
      bi_customerId c = bi_customerId i /\ bi_professional c = bi_professional i /\
      bi_startTime c = bi_startTime i /\ bi_endTime c = bi_endTime i /\
      bi_holdUntilMs c = bi_holdUntilMs i /\ bi_pricingSnapshot c = bi_pricingSnapshot i /\
      bi_cancellationPolicySnapshot c = bi_cancellationPolicySnapshot i /\
      bi_holdFeePolicySnapshot c = bi_holdFeePolicySnapshot i /\
      bi_refundMetadata c = bi_refundMetadata i /\ bi_refundedAt c = bi_refundedAt i
}.

(** ** The in-memory repository *)

Module InMemoryRepo.

Record t : Type := { intents : list BookingIntentRecord; sequence : Z }.

Definition empty : t := {| intents := []; sequence := 1 |}.

Definition intent_id (n : Z) : string := "intent-" +:+ pretty n.

(** [{ id, bookingType: "standard", ...intent }]. *)
Definition with_id (id : string) (r : NewIntent) : BookingIntentRecord :=
  let '(Build_BookingIntentRecord _ slotId prof cust st en status note tok mint created
          slotIds bundle supp buyer hold bt hu hp ra rm ps cp hf fx) := r in
  Build_BookingIntentRecord id slotId prof cust st en status note tok mint created
    slotIds bundle supp buyer hold (match bt with Some b => Some b | None => Some standard end)
    hu hp ra rm ps cp hf fx.

Definition create (intent : NewIntent) (r : t) : result RepoError (BookingIntentRecord * t) :=
  let conflict :=
    is_active intent &&
    match find_first (fun e => has_slot (bi_slotId intent) e && is_active e) (intents r) with
    | Some _ => true | None => false end in
  _ ← throw_if conflict (ConflictError (bi_slotId intent));
  let created := with_id (intent_id (sequence r)) intent in
  mret (created, {| intents := intents r ++ [created]; sequence := sequence r + 1 |}).

Definition findBySlotId (slotId : string) (r : t) : option BookingIntentRecord :=
  find_first (fun e => has_slot slotId e && is_active e) (intents r).

Definition findBySlotIdAndCustomer (slotId customerId : string) (r : t) : option BookingIntentRecord :=
  find_first (fun e => has_slot slotId e && has_customer customerId e && is_active e) (intents r).

Definition findLatestBySlotId (slotId : string) (r : t) : option BookingIntentRecord :=
  latest_of (List.filter (has_slot slotId) (intents r)).

Definition findById (id : string) (r : t) : option BookingIntentRecord :=
  find_first (has_id id) (intents r).

Definition listByCustomer (customerId : string) (r : t) : list BookingIntentRecord :=
  List.filter (has_customer customerId) (intents r).

Definition listAll (r : t) : list BookingIntentRecord := intents r.

Definition update (id : string) (us : list IntentField) (r : t)
    : result RepoError (BookingIntentRecord * t) :=
  match find_first (has_id id) (intents r) with
  | None => Err (IntentNotFound id)
  | Some x =>
      Ok (spread us x,
          {| intents := update_first (has_id id) (spread us) (intents r); sequence := sequence r |})
  end.

Definition updateStatus (id : string) (status : BookingIntentStatus) (r : t)
    : result RepoError (BookingIntentRecord * t) :=
  match find_first (has_id id) (intents r) with
  | None => Err (IntentNotFound id)
  | Some x =>
      Ok (set_field (SetStatus status) x,
          {| intents := update_first (has_id id) (set_field (SetStatus status)) (intents r);
             sequence := sequence r |})
  end.

Definition updateTokenInfo (id tokenAsset mintTxHash : string) (r : t) : t :=
  {| intents := update_first (has_id id) (spread [SetTokenAsset tokenAsset; SetMintTxHash mintTxHash])
                  (intents r);
     sequence := sequence r |}.

Definition findExpiredHolds (nowMs : Z) (r : t) : list BookingIntentRecord :=
  List.filter (hold_expired nowMs) (intents r).

#[global] Instance repo : BookingIntentRepository t := {|
  BookingRepo.create := create;
  BookingRepo.findById := findById;
  BookingRepo.findBySlotId := findBySlotId;
  BookingRepo.findBySlotIdAndCustomer := findBySlotIdAndCustomer;
  BookingRepo.findLatestBySlotId := findLatestBySlotId;
  BookingRepo.listByCustomer := listByCustomer;
  BookingRepo.listAll := listAll;
  BookingRepo.updateStatus := updateStatus;
  BookingRepo.update := update;
  BookingRepo.updateTokenInfo := updateTokenInfo;
  BookingRepo.findExpiredHolds := findExpiredHolds
|}.

#[global] Instance laws : BookingIntentRepositoryLaws t.
Proof.
  split; try done.
  - intros id us r x H. simpl in *. unfold update, findById in *. rewrite H. by eexists.
  - intros id us r H. simpl in *. unfold update, findById in *. by rewrite H.
  - intros i r Ha [x Hx]. simpl in *. unfold create, findBySlotId in *. by rewrite Ha, Hx.
  - intros i r Hor. simpl in *. unfold create, findBySlotId in *.
    assert (is_active i && match find_first (fun e => has_slot (bi_slotId i) e && is_active e)
              (intents r) with Some _ => true | None => false end = false) as ->.
    { destruct Hor as [-> | ->]; [done|by rewrite andb_false_r]. }
    simpl. eexists _, _. split; [done|]. split; [done|]. destruct i; split_and!; done.
Qed.

End InMemoryRepo.
