(* ===== verification/SlotRepo.v ===== *)
(** * SlotRepo: the slot repository

    The [SlotRepository] interface of [modules/slots/slot-repository.ts], its
    laws, and [InMemorySlotRepository]. *)
From stdpp Require Import base list strings.
From Stdlib Require Import ZArith Lia.
From S2P Require Import Prelude JsNumber Domain.
Local Open Scope Z_scope.

Definition slot_has_id (id : string) (s : SlotRecord) : bool := bool_decide (sl_id s = id).

Inductive SlotRepoError : Type := SlotMissing (slotId : string).

Class SlotRepository (T : Type) : Type := {
  slots_list : T -> list SlotRecord;
  findSlot : string -> T -> option SlotRecord;
  hasConflict : string -> Z -> Z -> option string -> T -> bool;
  updateBookable : string -> bool -> T -> result SlotRepoError T
}.

Class SlotRepositoryLaws (T : Type) `{SlotRepository T} : Prop := {
  law_findSlot id t : findSlot id t = find_first (slot_has_id id) (slots_list t);
  law_updateBookable id b t :
    is_Some (findSlot id t) ->
    exists t', updateBookable id b t = Ok t' /\
               slots_list t' = update_first (slot_has_id id) (set_bookable b) (slots_list t);
  law_updateBookable_missing id b t :
    findSlot id t = None -> updateBookable id b t = Err (SlotMissing id);
  (** Two stores with the same slots are the same store. *)
  law_slots_ext t t' : slots_list t = slots_list t' -> t = t'
}.

Module InMemorySlots.

Record t : Type := { slots : list SlotRecord }.

Definition list (r : t) : list SlotRecord := slots r.

Definition findById (slotId : string) (r : t) : option SlotRecord :=
  find_first (slot_has_id slotId) (slots r).

Definition hasConflict (professional : string) (startTime endTime : Z)
    (excludeId : option string) (r : t) : bool :=
  existsb (fun s =>
    bool_decide (sl_professional s = professional) &&
    negb (bool_decide (Some (sl_id s) = excludeId)) &&
    (sl_startTime s <? endTime) && (startTime <? sl_endTime s)) (slots r).

Definition updateBookable (slotId : string) (bookable : bool) (r : t) : result SlotRepoError t :=
  match find_first (slot_has_id slotId) (slots r) with
  | None => Err (SlotMissing slotId)
  | Some _ => Ok {| slots := update_first (slot_has_id slotId) (set_bookable bookable) (slots r) |}
  end.

#[global] Instance repo : SlotRepository t := {|
  SlotRepo.slots_list := list;
  SlotRepo.findSlot := findById;
  SlotRepo.hasConflict := hasConflict;
  SlotRepo.updateBookable := updateBookable
|}.

#[global] Instance laws : SlotRepositoryLaws t.
Proof.
  split; try done.
  - intros id b r [x Hx]. simpl in *. unfold updateBookable, findById in *.
    rewrite Hx. by eexists.
  - intros id b r H. simpl in *. unfold updateBookable, findById in *. by rewrite H.
  - intros [l] [l'] H. simpl in *. by rewrite H.
Qed.

End InMemorySlots.

(** ** Consequences of the laws *)

Section SlotLaws.
Context {T : Type} `{SlotRepositoryLaws T}.
Implicit Types (t : T) (id : string).

Lemma findSlot_id id t s : findSlot id t = Some s -> sl_id s = id.
Proof.
  rewrite law_findSlot. intros [Hid _]%find_first_Some. by apply bool_decide_eq_true in Hid.
Qed.

Lemma findSlot_update_eq id b t t' s :
  findSlot id t = Some s -> updateBookable id b t = Ok t' ->
  findSlot id t' = Some (set_bookable b s).
Proof.
  intros Hs Hu. destruct (law_updateBookable id b t) as (t'' & E & El); [by eexists|].
  rewrite Hu in E. injection E as <-. rewrite law_findSlot in Hs. rewrite law_findSlot, El.
  apply (find_update_first_eq (slot_has_id id) (set_bookable b)); [done|].
  by apply find_first_Some in Hs as [? _].
Qed.

Lemma findSlot_update_ne id id' b t t' :
  id' <> id -> updateBookable id b t = Ok t' -> findSlot id' t' = findSlot id' t.
Proof.
  intros Hne Hu. destruct (findSlot id t) eqn:E.
  - destruct (law_updateBookable id b t) as (t'' & E' & El); [by eexists|].
    rewrite Hu in E'. injection E' as <-. rewrite !law_findSlot, El. apply find_update_first_ne.
    intros x Hx%bool_decide_eq_true. unfold slot_has_id. simpl. subst.
    split; by apply bool_decide_eq_false.
  - rewrite law_updateBookable_missing in Hu by done. done.
Qed.

Lemma update_first_inverse id s (l : list SlotRecord) :
  find_first (slot_has_id id) l = Some s -> sl_bookable s = true ->
  update_first (slot_has_id id) (set_bookable true)
    (update_first (slot_has_id id) (set_bookable false) l) = l.
Proof.
  induction l as [|x l IH]; simpl; [done|].
  destruct (slot_has_id id x) eqn:E; simpl.
  - intros [= ->] Hb. unfold slot_has_id in *. simpl. rewrite E. f_equal.
    destruct s; simpl in *; by subst.
  - rewrite E. intros. by rewrite IH.
Qed.

(** Reserving and releasing a bookable slot restores the store. *)
Lemma reserve_release_inverse id t t1 s :
  findSlot id t = Some s -> sl_bookable s = true ->
  updateBookable id false t = Ok t1 -> updateBookable id true t1 = Ok t.
Proof.
  intros Hs Hb H1. pose proof (findSlot_update_eq _ _ _ _ _ Hs H1) as Hs1.
  destruct (law_updateBookable id false t) as (? & E1 & L1); [by eexists|].
  destruct (law_updateBookable id true t1) as (t2 & E2 & L2); [by eexists|].
  rewrite H1 in E1. injection E1 as <-. rewrite E2. f_equal. apply law_slots_ext. rewrite L2, L1.
  rewrite law_findSlot in Hs. by eapply update_first_inverse.
Qed.

End SlotLaws.
