(* ===== verification/Scheduling.v ===== *)
(** * Scheduling: slot and bundle reservation

    The reservation part of [SchedulingService]
    ([services/schedulingService.ts]): [reserveSlot], [releaseSlot],
    [reserveBundle], [releaseBundle], the tenant kill switch, and the escrow
    migration pause ([services/escrowMigrationState.ts]).  Proved against the
    slot-repository laws. *)
From stdpp Require Import base list strings gmap.
From Stdlib Require Import ZArith Lia.
From S2P Require Import Prelude JsNumber Domain SlotRepo.
Local Open Scope Z_scope.

Inductive SchedulingError : Type :=
| EscrowPausedError
| TenantPausedError (tenantId : string)
| SlotNotFoundError (slotId : string)
| SlotNotBookableError (slotId : string)
| SlotExpiredError (slotId : string) (validUntil : Z)
| SlotRowMissing (slotId : string)
| BundleAlreadyReserved (bundleId : string)
| BundleNotFound (bundleId : string)
| BundleReservationError (bundleId : string) (cause : SchedulingError).

(** [Array.from(new Set(l))]: first occurrences, in order. *)
Definition js_set (l : list string) : list string :=
  fold_left (fun acc x => if bool_decide (x ∈ acc) then acc else acc ++ [x]) l [].

Section Scheduling.
Context {T : Type} `{SlotRepository T}.

Definition lift_slot (r : result SlotRepoError T) : result SchedulingError T :=
  match r with Ok t => Ok t | Err (SlotMissing id) => Err (SlotRowMissing id) end.

(** [escrowPaused] is [escrowMigrationState.isPaused()]; [dateNow] is
    [Date.now()], used when the caller passes no [now]. *)
Definition reserveSlot (escrowPaused : bool) (pausedTenants : gset string) (dateNow : Z)
    (slotId : string) (now : option Z) (tenantId : option string) (t : T)
    : result SchedulingError T :=
  _ ← throw_if escrowPaused EscrowPausedError;
  _ ← match tenantId with
      | Some tn => throw_if (str_truthy tn && bool_decide (tn ∈ pausedTenants)) (TenantPausedError tn)
      | None => mret tt
      end;
  slot ← from_option_or (findSlot slotId t) (SlotNotFoundError slotId);
  _ ← throw_if (negb (sl_bookable slot)) (SlotNotBookableError slotId);
  _ ← match sl_validUntil slot with
      | Some vu => throw_if (vu <=? default dateNow now) (SlotExpiredError slotId vu)
      | None => mret tt
      end;
  lift_slot (updateBookable slotId false t).

Definition releaseSlot (slotId : string) (t : T) : result SchedulingError T :=
  lift_slot (updateBookable slotId true t).

Record Sched : Type := {
  sc_slots : T;
  sc_pausedTenants : gset string;
  sc_reservedBundles : gmap string (list string)
}.

Definition set_slots (t : T) (s : Sched) : Sched :=
  {| sc_slots := t; sc_pausedTenants := sc_pausedTenants s;
     sc_reservedBundles := sc_reservedBundles s |}.

Definition set_bundles (b : gmap string (list string)) (s : Sched) : Sched :=
  {| sc_slots := sc_slots s; sc_pausedTenants := sc_pausedTenants s; sc_reservedBundles := b |}.

Definition isTenantPaused (tenantId : string) (s : Sched) : bool :=
  bool_decide (tenantId ∈ sc_pausedTenants s).

Definition setTenantPaused (tenantId : string) (paused : bool) (s : Sched) : Sched :=
  {| sc_slots := sc_slots s;
     sc_pausedTenants := if paused then {[tenantId]} ∪ sc_pausedTenants s
                         else sc_pausedTenants s ∖ {[tenantId]};
     sc_reservedBundles := sc_reservedBundles s |}.

(** A method call on the scheduler: a throw leaves the slots as they are. *)
Definition call (f : T -> result SchedulingError T) : M Sched SchedulingError unit :=
  fun s => match f (sc_slots s) with
           | Ok t => (Ok tt, set_slots t s)
           | Err e => (Err e, s)
           end.

Definition reserve_call (escrowPaused : bool) (dateNow : Z) (slotId : string)
    : M Sched SchedulingError unit :=
  fun s => call (reserveSlot escrowPaused (sc_pausedTenants s) dateNow slotId None None) s.

Definition release_call (slotId : string) : M Sched SchedulingError unit := call (releaseSlot slotId).

(** The [try] loop of [reserveBundle]; the second component of the value is the
    local [reserved] array when the loop stopped, with the error if it threw. *)
Fixpoint reserve_loop (escrowPaused : bool) (dateNow : Z) (ids reserved : list string) (s : Sched)
    : (list string * option SchedulingError) * Sched :=
  match ids with
  | [] => ((reserved, None), s)
  | id :: ids' =>
      match reserve_call escrowPaused dateNow id s with
      | (Ok _, s') => reserve_loop escrowPaused dateNow ids' (reserved ++ [id]) s'
      | (Err e, s') => ((reserved, Some e), s')
      end
  end.

Definition reserveBundle (escrowPaused : bool) (dateNow : Z) (bundleId : string)
    (slotIds : list string) (tenantId : option string) : M Sched SchedulingError unit :=
  s ← get;
  _ ← match tenantId with
      | Some tn => guard (str_truthy tn && isTenantPaused tn s) (TenantPausedError tn)
      | None => mret tt
      end;
  _ ← guard (bool_decide (is_Some (sc_reservedBundles s !! bundleId))) (BundleAlreadyReserved bundleId);
  let uniqueSlotIds := js_set slotIds in
  run_with (fun s0 =>
    match reserve_loop escrowPaused dateNow uniqueSlotIds [] s0 with
    | ((_, None), s1) =>
        (Ok tt, set_bundles (<[bundleId := uniqueSlotIds]> (sc_reservedBundles s1)) s1)
    | ((reserved, Some e), s1) =>
        (_ ← for_each release_call reserved; raise (BundleReservationError bundleId e)) s1
    end).

Definition releaseBundle (bundleId : string) : M Sched SchedulingError unit :=
  s ← get;
  slots ← of_option (sc_reservedBundles s !! bundleId) (BundleNotFound bundleId);
  _ ← for_each release_call slots;
  modify (fun s1 => set_bundles (delete bundleId (sc_reservedBundles s1)) s1).

End Scheduling.

Arguments Sched : clear implicits.

Lemma js_set_spec l : NoDup (js_set l) /\ (forall x, x ∈ js_set l <-> x ∈ l).
Proof.
  unfold js_set.
  enough (forall acc, NoDup acc ->
    NoDup (fold_left (fun acc x => if bool_decide (x ∈ acc) then acc else acc ++ [x]) l acc) /\
    (forall x, x ∈ fold_left (fun acc x => if bool_decide (x ∈ acc) then acc else acc ++ [x]) l acc
               <-> x ∈ acc \/ x ∈ l)) as Hg.
  { destruct (Hg [] ltac:(constructor)) as [Hn He]. split; [done|]. intros x.
    rewrite He, elem_of_nil. tauto. }
  induction l as [|y l IH]; intros acc Hacc; simpl.
  { split; [done|]. intros x. rewrite elem_of_nil. tauto. }
  case_bool_decide as Hy.
  - destruct (IH acc Hacc) as [Hn He]. split; [done|]. intros x.
    rewrite He, elem_of_cons. split; [tauto|]. intros [?|[->|?]]; auto.
  - destruct (IH (acc ++ [y])) as [Hn He].
    { apply NoDup_app. split_and!; [done| |apply NoDup_singleton].
      intros z Hz ->%list_elem_of_singleton. done. }
    split; [done|]. intros x. rewrite He, elem_of_app, list_elem_of_singleton, elem_of_cons. tauto.
Qed.

Section Atomicity.
Context {T : Type} `{SlotRepositoryLaws T}.
Implicit Types (t : T) (s : Sched T).

Lemma reserveSlot_ok ep pt dn id now tn t t' :
  reserveSlot ep pt dn id now tn t = Ok t' ->
  ep = false /\ exists slot, findSlot id t = Some slot /\ sl_bookable slot = true /\
  updateBookable id false t = Ok t'.
Proof.
  unfold reserveSlot. intros Hr. inv_ok.
  match goal with H : findSlot _ _ = Some ?x |- _ => rename x into slot, H into Hs end.
  split; [done|]. exists slot. split; [done|]. split.
  { by destruct (sl_bookable slot). }
  unfold lift_slot in *. by destruct (updateBookable id false t) as [|[]]; simplify_eq.
Qed.

Lemma updateBookable_comm a b x y t t1 t2 :
  a <> b -> updateBookable a x t = Ok t1 -> updateBookable b y t1 = Ok t2 ->
  exists t1', updateBookable b y t = Ok t1' /\ updateBookable a x t1' = Ok t2.
Proof.
  intros Hne H1 H2.
  destruct (findSlot a t) as [sa|] eqn:Ea;
    [|by rewrite law_updateBookable_missing in H1].
  destruct (findSlot b t) as [sb|] eqn:Eb.
  2:{ rewrite <- (findSlot_update_ne a b x t t1) in Eb by done.
      by rewrite law_updateBookable_missing in H2. }
  destruct (law_updateBookable b y t) as (t1' & E1 & L1); [by eexists|].
  exists t1'. split; [done|].
  destruct (law_updateBookable a x t) as (u & Eu & Lu); [by eexists|].
  rewrite H1 in Eu. injection Eu as <-.
  destruct (law_updateBookable a x t1') as (u2 & Eu2 & Lu2).
  { rewrite (findSlot_update_ne b a y t t1'); [by eexists|done|done]. }
  destruct (law_updateBookable b y t1) as (u3 & Eu3 & Lu3).
  { rewrite (findSlot_update_ne a b x t t1); [by eexists|done|done]. }
  rewrite H2 in Eu3. injection Eu3 as <-. rewrite Eu2. f_equal.
  apply law_slots_ext. rewrite Lu2, Lu3, L1, Lu.
  apply update_first_comm; [|done..].
  intros z Hz%bool_decide_eq_true. apply bool_decide_eq_false. congruence.
Qed.

Lemma release_call_ok id s s' :
  release_call id s = (Ok tt, s') <->
  exists t', updateBookable id true (sc_slots s) = Ok t' /\ s' = set_slots t' s.
Proof.
  unfold release_call, call, releaseSlot, lift_slot.
  destruct (updateBookable id true (sc_slots s)) as [t|[i]]; split.
  - intros [= <-]. eauto.
  - intros (? & [= <-] & ->). done.
  - done.
  - intros (? & ? & ?). done.
Qed.

(** Reserving one more slot commutes with releasing others. *)
Lemma release_all_reserve reserved id s s0 t :
  id ∉ reserved ->
  for_each release_call reserved s = (Ok tt, s0) ->
  updateBookable id false (sc_slots s) = Ok t ->
  exists t0, for_each release_call reserved (set_slots t s) = (Ok tt, set_slots t0 s0) /\
             updateBookable id false (sc_slots s0) = Ok t0 /\
             findSlot id (sc_slots s0) = findSlot id (sc_slots s).
Proof.
  revert s t. induction reserved as [|r reserved IH]; intros s t Hni Hf Hu.
  { simpl in *. injection Hf as <-. by exists t. }
  apply not_elem_of_cons in Hni as [Hne Hni].
  simpl in Hf. apply M_bind_ok in Hf as ([] & s1 & Hr & Hf).
  apply release_call_ok in Hr as (t1 & Ht1 & ->).
  destruct (findSlot id (sc_slots s)) eqn:Eid;
    [|by rewrite law_updateBookable_missing in Hu].
  assert (exists u, updateBookable id false t1 = Ok u) as [u Eu].
  { destruct (law_updateBookable id false t1) as (u & ? & _); [|eauto].
    rewrite (findSlot_update_ne r id true (sc_slots s) t1) by done. by eexists. }
  destruct (updateBookable_comm r id true false (sc_slots s) t1 u) as (t' & E1 & E2); [done..|].
  rewrite Hu in E1. injection E1 as <-.
  destruct (IH (set_slots t1 s) u Hni Hf Eu) as (t0 & F1 & F2 & F3).
  exists t0. split; [|split; [done|]].
  - simpl. apply M_bind_ok. exists tt, (set_slots u s). split; [|done].
    apply release_call_ok. by exists u.
  - rewrite F3. simpl. rewrite (findSlot_update_ne r id true (sc_slots s) t1) by done. done.
Qed.

Lemma set_slots_id s : set_slots (sc_slots s) s = s.
Proof. by destruct s. Qed.

(** Whatever point the loop stopped at, releasing what it reserved restores the
    scheduler it started from. *)
Lemma reserve_loop_undo ep dn ids reserved s0 s res o s' :
  NoDup (reserved ++ ids) ->
  for_each release_call reserved s = (Ok tt, s0) ->
  reserve_loop ep dn ids reserved s = ((res, o), s') ->
  for_each release_call res s' = (Ok tt, s0) /\ (o = None -> res = reserved ++ ids).
Proof.
  revert reserved s. induction ids as [|id ids IH]; intros reserved s Hnd Hrel Hl; simpl in Hl.
  { simplify_eq. rewrite app_nil_r. done. }
  destruct (reserve_call ep dn id s) as [[[]|e] s1] eqn:Er; unfold reserve_call, call in Er;
    destruct (reserveSlot _ _ _ _ _ _ (sc_slots s)) as [t|] eqn:Ers; simplify_eq; [|done].
  apply reserveSlot_ok in Ers as (_ & slot & Hs & Hb & Hu).
  rewrite (cons_middle id reserved ids), app_assoc in Hnd.
  assert (id ∉ reserved) as Hni.
  { apply NoDup_app in Hnd as (Hnd & _ & _). apply NoDup_app in Hnd as (_ & Hd & _).
    intros Hin. by apply (Hd id), list_elem_of_singleton. }
  destruct (release_all_reserve reserved id s s0 t Hni Hrel Hu) as (t0 & F1 & F2 & F3).
  destruct (IH (reserved ++ [id]) (set_slots t s)) as [Hres Ho]; [done| |done|].
  - apply for_each_app. exists (set_slots t0 s0). split; [done|].
    simpl. apply M_bind_ok. exists tt, s0. split; [|done].
    apply release_call_ok. exists (sc_slots s0). rewrite <- F3 in Hs. split.
    + simpl. by apply (reserve_release_inverse id (sc_slots s0) t0 slot).
    + destruct s0; done.
  - split; [done|]. intros Hn. rewrite (Ho Hn). by rewrite <- app_assoc.
Qed.

Lemma reserve_loop_ok ep dn ids reserved s res s' :
  reserve_loop ep dn ids reserved s = ((res, None), s') ->
  NoDup ids ->
  sc_reservedBundles s' = sc_reservedBundles s /\ sc_pausedTenants s' = sc_pausedTenants s /\
  (forall id, id ∈ ids -> exists slot, findSlot id (sc_slots s) = Some slot /\
     sl_bookable slot = true /\ findSlot id (sc_slots s') = Some (set_bookable false slot)) /\
  (forall id, id ∉ ids -> findSlot id (sc_slots s') = findSlot id (sc_slots s)).
Proof.
  revert reserved s. induction ids as [|i ids IH]; intros reserved s Hl Hnd; simpl in Hl.
  { simplify_eq. split_and!; [done..| |done]. intros id Hin. inversion Hin. }
  destruct (reserve_call ep dn i s) as [[[]|e] s1] eqn:Er; [|done].
  unfold reserve_call, call in Er.
  destruct (reserveSlot _ _ _ _ _ _ (sc_slots s)) as [t|] eqn:Ers; simplify_eq.
  apply reserveSlot_ok in Ers as (_ & slot & Hs & Hb & Hu).
  apply NoDup_cons in Hnd as [Hni Hnd].
  destruct (IH _ _ Hl Hnd) as (Hb1 & Hb2 & Hin & Hout). simpl in *. split_and!; [done..| |].
  - intros id [->|Hid]%elem_of_cons.
    + exists slot. split_and!; [done..|]. rewrite Hout by done. by eapply findSlot_update_eq.
    + destruct (Hin id Hid) as (sl & E1 & E2 & E3). exists sl. split_and!; [|done..].
      rewrite <- E1. symmetry. apply (findSlot_update_ne i id false); [congruence|done].
  - intros id [Hne Hid]%not_elem_of_cons. rewrite Hout by done.
    by apply (findSlot_update_ne i id false).
Qed.

Lemma reserveBundle_cases ep dn bid ids tn s r s' :
  reserveBundle ep dn bid ids tn s = (r, s') ->
  (exists e, r = Err e /\ s' = s) \/
  (r = Ok tt /\ sc_reservedBundles s !! bid = None /\
   exists s1 res, reserve_loop ep dn (js_set ids) [] s = ((res, None), s1) /\
     s' = set_bundles (<[bid := js_set ids]> (sc_reservedBundles s1)) s1).
Proof.
  unfold reserveBundle, mbind, M_bind, get, guard, raise, mret, M_ret. simpl. intros Hr.
  assert (exists c : bool, (if c then (Err (TenantPausedError (default ""%string tn)), s)
     else if bool_decide (is_Some (sc_reservedBundles s !! bid))
     then (Err (BundleAlreadyReserved bid), s)
     else match reserve_loop ep dn (js_set ids) [] s with
          | ((_, None), s1) =>
              (Ok tt, set_bundles (<[bid := js_set ids]> (sc_reservedBundles s1)) s1)
          | ((reserved, Some e), s1) =>
              (_ ← for_each release_call reserved; raise (BundleReservationError bid e)) s1
          end) = (r, s')) as [c Hc].
  { destruct tn as [tn|]; [exists (str_truthy tn && isTenantPaused tn s)|exists false];
      rewrite <- Hr; simpl; [destruct (_ && _); [done|]|]; by destruct (bool_decide _). }
  clear Hr. destruct c; [left; simplify_eq; eauto|].
  case_bool_decide as Hbid; [left; simplify_eq; eauto|].
  destruct (reserve_loop ep dn (js_set ids) [] s) as [[res [e|]] s1] eqn:El.
  - destruct (reserve_loop_undo ep dn (js_set ids) [] s s res (Some e) s1) as [Hu _];
      [apply js_set_spec|done|done|].
    unfold mbind, M_bind in Hc. rewrite Hu in Hc. left. unfold raise in Hc. simplify_eq. eauto.
  - right. simplify_eq. split; [done|]. split; [by apply eq_None_not_Some|]. eauto.
Qed.

(** (C12) A bundle reservation is atomic: if it throws, for whatever reason and at
    whichever slot, the scheduler (every slot of the store and every bundle) is
    exactly as before the call; if it returns, every requested slot was
    bookable and is now reserved, no other slot changed, and the bundle is on
    record. *)
Theorem reserveBundle_atomic ep dn bid ids tn s :
  match reserveBundle ep dn bid ids tn s with
  | (Err _, s') => s' = s
  | (Ok _, s') =>
      sc_reservedBundles s !! bid = None /\
      sc_reservedBundles s' = <[bid := js_set ids]> (sc_reservedBundles s) /\
      (forall id, id ∈ ids -> exists slot, findSlot id (sc_slots s) = Some slot /\
         sl_bookable slot = true /\ findSlot id (sc_slots s') = Some (set_bookable false slot)) /\
      (forall id, id ∉ ids -> findSlot id (sc_slots s') = findSlot id (sc_slots s))
  end.
Proof.
  destruct (reserveBundle ep dn bid ids tn s) as [r s'] eqn:Er.
  apply reserveBundle_cases in Er as [(e & -> & ->)|(-> & Hb & s1 & res & Hl & ->)]; [done|].
  destruct (reserve_loop_ok _ _ _ _ _ _ _ Hl) as (Eb & _ & Hin & Hout); [apply js_set_spec|].
  simpl. rewrite Eb. split_and!; [done..| |].
  - intros id Hid. apply Hin. by apply js_set_spec.
  - intros id Hid. apply Hout. by rewrite (proj2 (js_set_spec ids)).
Qed.

(** Round trip: releasing a bundle that was just reserved restores the
    scheduler as it was before the reservation. *)
Theorem reserve_release_bundle_roundtrip ep dn bid ids tn s s' :
  reserveBundle ep dn bid ids tn s = (Ok tt, s') ->
  releaseBundle bid s' = (Ok tt, s).
Proof.
  intros Hr. apply reserveBundle_cases in Hr as [(e & ? & _)|(_ & Hb & s1 & res & Hl & ->)]; [done|].
  destruct (reserve_loop_ok _ _ _ _ _ _ _ Hl) as (Eb & Ep & _); [apply js_set_spec|].
  destruct (reserve_loop_undo ep dn (js_set ids) [] s s res None s1) as [Hu Hn];
    [apply js_set_spec|done|done|]. rewrite (Hn eq_refl) in Hu. simpl in Hu.
  unfold releaseBundle, mbind, M_bind, get, of_option. simpl.
  rewrite lookup_insert_eq. simpl.
  assert (forall l u v B, for_each release_call l u = (Ok tt, v) ->
            for_each release_call l (set_bundles B u) = (Ok tt, set_bundles B v)) as Hframe.
  { clear. induction l as [|x l IH]; intros u v B Hf; simpl in *; [by injection Hf as <-|].
    apply M_bind_ok in Hf as ([] & w & Hw & Hf). apply M_bind_ok.
    apply release_call_ok in Hw as (t' & Ht & ->).
    exists tt, (set_bundles B (set_slots t' u)). split; [|by apply IH].
    apply release_call_ok. exists t'. done. }
  rewrite (Hframe _ _ _ _ Hu). unfold modify. f_equal. simpl. rewrite Eb.
  rewrite delete_insert_id by done. destruct s; done.
Qed.
End Atomicity.

(** ** A concrete scheduler *)

Definition w_slot (id : string) (bookable : bool) : SlotRecord :=
  {| sl_id := id; sl_professional := "pro"; sl_startTime := 100; sl_endTime := 200;
     sl_bookable := bookable; sl_pricingStrategy := None; sl_validUntil := None;
     sl_supplierId := None; sl_storeId := None; sl_tenantId := None; sl_category := None;
     sl_transferable := None; sl_currency := None; sl_amount_minor := None |}.

Definition w_sched (b1 b2 b3 : bool) (bundles : gmap string (list string)) : Sched InMemorySlots.t :=
  {| sc_slots := {| InMemorySlots.slots := [w_slot "a" b1; w_slot "b" b2; w_slot "c" b3] |};
     sc_pausedTenants := ∅; sc_reservedBundles := bundles |}.

Lemma reserve_release_bundle_roundtrip_witness :
  releaseBundle "bundle" (w_sched false false true {[ "bundle" := ["a"; "b"] ]}%string)
  = (Ok tt, w_sched true true true ∅).
Proof.
  apply (reserve_release_bundle_roundtrip false 0 "bundle" ["a"; "b"; "a"]%string (Some "tenant"%string)).
  vm_compute. reflexivity.
Defined.

(** A bundle whose second slot is taken: the first one is given back. *)
Lemma reserveBundle_atomic_witness :
  snd (reserveBundle false 0 "bundle" ["a"; "c"]%string None (w_sched true true false ∅))
  = w_sched true true false ∅.
Proof. exact (reserveBundle_atomic false 0 "bundle" ["a"; "c"]%string None (w_sched true true false ∅)). Defined.
