(* ===== verification/Reschedule.v ===== *)
(** * Reschedule: rescheduling bookings of several legs

    [planMultiLegReschedule] and [confirmMultiLegReschedule] of
    [services/schedulingService.ts].  Slots hold whole milliseconds; the times,
    offsets and steps of a booking and of a request are JavaScript numbers, and
    the planner computes with doubles.  The searches for anchor times are loops
    that need not end, so they run on fuel: [None] means that the fuel did not
    suffice.  Nothing else is bounded by it.  UUIDs and [Date.now()] are parameters; the emitted saga event
    is part of the result. *)
From stdpp Require Import base list strings gmap sorting.
From Stdlib Require Import ZArith Lia.
From S2P Require Import Prelude JsNumber Domain SlotRepo Scheduling.
Local Open Scope Z_scope.

Record MultiLegBookingLeg : Type := {
  lg_legId : string;
  lg_slotId : string;
  lg_professional : string;
  lg_startTime : num;
  lg_endTime : num;
  lg_offsetMs : option num
}.

Record MultiLegBooking : Type := {
  mb_bookingId : string;
  mb_buyerId : string;
  mb_tenantId : option string;
  mb_legs : list MultiLegBookingLeg;
  mb_sagaId : option string
}.

Record RescheduleLegOverride : Type := {
  ov_legId : string;
  ov_offsetOverrideMs : option num;
  ov_newSlotId : option string;
  ov_skipReschedule : option bool
}.

Inductive LegOverrides : Type :=
| OverrideArray (l : list RescheduleLegOverride)
| OverrideObject (entries : list (string * RescheduleLegOverride)).

Record RescheduleOptions : Type := {
  ro_bookingId : string;
  ro_buyerId : string;
  ro_tenantId : option string;
  ro_targetAnchorStartTimeMs : option num;
  ro_searchWindow : option (num * num);
  ro_legOverrides : option LegOverrides;
  ro_maxOptions : option Z;
  ro_searchStepMs : option num
}.

Record CandidateLegSchedule : Type := {
  cl_legId : string;
  cl_currentSlotId : string;
  cl_newSlotId : string;
  cl_professional : string;
  cl_currentStartTime : num;
  cl_newStartTime : num;
  cl_newEndTime : num;
  cl_durationMs : num;
  cl_offsetMs : num;
  cl_isOverridden : bool;
  cl_isPartialKept : bool
}.

Record RescheduleCandidateOption : Type := {
  co_optionId : string;
  co_anchorStartTimeMs : num;
  co_legs : list CandidateLegSchedule;
  co_totalDisruptionMs : num;
  co_disruptionScore : num;
  co_isFullyAvailable : bool
}.

Inductive RescheduleError : Type :=
| RescheduleTenantPaused (tenantId : string)
| NoLegs
| NotAuthorized (buyerId owner : string)
| ImpossibleRescheduleError (bookingId : string)
| InvalidCandidateOption
| ConfirmFailed (bookingId : string) (cause : SchedulingError).

(** ** Planning *)

(** [for (let t = from; t <= to; t += step) push(t)]. *)
Fixpoint count_up (fuel : nat) (from to step : num) : option (list num) :=
  match fuel with
  | O => None
  | S fuel' =>
      if leb from to then rest ← count_up fuel' (add from step) to step; Some (from :: rest)
      else Some []
  end.

Definition HOUR_MS : Z := 3600000.

Definition search_step (options : RescheduleOptions) : num :=
  default (of_Z (30 * 60 * 1000)) (ro_searchStepMs options).

(** The candidate start times of the first leg, in the order they are tried. *)
Definition candidate_anchors (fuel : nat) (options : RescheduleOptions) (leg0StartTime : num)
    : option (list num) :=
  let stepMs := search_step options in
  match ro_targetAnchorStartTimeMs options with
  | Some target =>
      let searchStart := from_option fst (sub target (of_Z (2 * HOUR_MS))) (ro_searchWindow options) in
      let searchEnd := from_option snd (add target (of_Z (2 * HOUR_MS))) (ro_searchWindow options) in
      ts ← count_up fuel searchStart searchEnd stepMs;
      Some (target :: List.filter (fun t => negb (eqb t target)) ts)
  | None =>
      match ro_searchWindow options with
      | Some (startMs, endMs) => count_up fuel startMs endMs stepMs
      | None =>
          offsets ← count_up fuel stepMs (of_Z (4 * HOUR_MS)) stepMs;
          Some (leg0StartTime :: flat_map (fun o => [add leg0StartTime o; sub leg0StartTime o]) offsets)
      end
  end.

(** [Map] of overrides by leg: the last one set for a leg wins. *)
Definition override_for (o : option LegOverrides) (legId : string) : option RescheduleLegOverride :=
  match o with
  | None => None
  | Some (OverrideArray l) => find_first (fun ov => bool_decide (ov_legId ov = legId)) (rev l)
  | Some (OverrideObject entries) =>
      snd <$> find_first (fun p => bool_decide (fst p = legId)) (rev entries)
  end.

Record LegConfig : Type := {
  lc_leg : MultiLegBookingLeg;
  lc_offsetMs : num;
  lc_durationMs : num;
  lc_override : option RescheduleLegOverride;
  lc_isOverridden : bool;
  lc_skipReschedule : bool
}.

Definition leg_config (options : RescheduleOptions) (leg0StartTime : num) (leg : MultiLegBookingLeg)
    : LegConfig :=
  let override := override_for (ro_legOverrides options) (lg_legId leg) in
  let defaultOffset := default (sub (lg_startTime leg) leg0StartTime) (lg_offsetMs leg) in
  {| lc_leg := leg;
     lc_offsetMs := default defaultOffset (override ≫= ov_offsetOverrideMs);
     lc_durationMs := sub (lg_endTime leg) (lg_startTime leg);
     lc_override := override;
     lc_isOverridden := bool_decide (is_Some (override ≫= ov_offsetOverrideMs)) ||
                        bool_decide (is_Some (override ≫= ov_newSlotId));
     lc_skipReschedule := default false (override ≫= ov_skipReschedule) |}.

(** A slot of the leg's professional that is free or already the leg's own. *)
Definition usable (leg : MultiLegBookingLeg) (s : SlotRecord) : bool :=
  bool_decide (sl_professional s = lg_professional leg) &&
  (sl_bookable s || bool_decide (sl_id s = lg_slotId leg)).

Definition exact (newStart newEnd : num) (s : SlotRecord) : bool :=
  eqb (of_Z (sl_startTime s)) newStart && eqb (of_Z (sl_endTime s)) newEnd.

Definition spans (newStart newEnd : num) (s : SlotRecord) : bool :=
  leb (of_Z (sl_startTime s)) newStart && geb (of_Z (sl_endTime s)) newEnd.

Definition find_slot_for (allSlots : list SlotRecord) (cfg : LegConfig) (newStart newEnd : num)
    : option string :=
  let leg := lc_leg cfg in
  match lc_override cfg ≫= ov_newSlotId with
  | Some id =>
      if str_truthy id then
        s ← find_first (slot_has_id id) allSlots;
        if usable leg s && exact newStart newEnd s then Some (sl_id s) else None
      else match find_first (fun s => usable leg s && exact newStart newEnd s) allSlots with
           | Some s => Some (sl_id s)
           | None => sl_id <$> find_first (fun s => usable leg s && spans newStart newEnd s) allSlots
           end
  | None =>
      match find_first (fun s => usable leg s && exact newStart newEnd s) allSlots with
      | Some s => Some (sl_id s)
      | None => sl_id <$> find_first (fun s => usable leg s && spans newStart newEnd s) allSlots
      end
  end.

Definition place_leg (allSlots : list SlotRecord) (anchorStartMs : num) (cfg : LegConfig)
    : option CandidateLegSchedule :=
  let leg := lc_leg cfg in
  let newStart := if lc_skipReschedule cfg then lg_startTime leg else add anchorStartMs (lc_offsetMs cfg) in
  let newEnd := if lc_skipReschedule cfg then lg_endTime leg else add newStart (lc_durationMs cfg) in
  slotId ← (if lc_skipReschedule cfg then Some (lg_slotId leg)
            else find_slot_for allSlots cfg newStart newEnd);
  Some {| cl_legId := lg_legId leg; cl_currentSlotId := lg_slotId leg; cl_newSlotId := slotId;
          cl_professional := lg_professional leg; cl_currentStartTime := lg_startTime leg;
          cl_newStartTime := newStart; cl_newEndTime := newEnd; cl_durationMs := lc_durationMs cfg;
          cl_offsetMs := lc_offsetMs cfg; cl_isOverridden := lc_isOverridden cfg;
          cl_isPartialKept := lc_skipReschedule cfg |}.

(** [Math.abs]. *)
Definition math_abs (a : num) : num := match a with Fin x => Fin (Z.abs x) | NInf => PInf | _ => a end.

Definition disruption (l : CandidateLegSchedule) : num :=
  math_abs (sub (cl_newStartTime l) (cl_currentStartTime l)).

(** The body of the loop over anchors: a missing slot abandons the anchor. *)
Fixpoint place_legs (allSlots : list SlotRecord) (anchorStartMs : num) (cfgs : list LegConfig)
    (proposedLegs : list CandidateLegSchedule) (total : num) : option (list CandidateLegSchedule * num) :=
  match cfgs with
  | [] => Some (proposedLegs, total)
  | cfg :: cfgs' =>
      l ← place_leg allSlots anchorStartMs cfg;
      place_legs allSlots anchorStartMs cfgs' (proposedLegs ++ [l]) (add total (disruption l))
  end.

(** [uuid n] is the identifier drawn at the [n]-th anchor. *)
Fixpoint collect_options (uuid : nat -> string) (allSlots : list SlotRecord) (cfgs : list LegConfig)
    (n : nat) (anchors : list num) : list RescheduleCandidateOption :=
  match anchors with
  | [] => []
  | a :: anchors' =>
      let rest := collect_options uuid allSlots cfgs (S n) anchors' in
      if leb a zero then rest
      else match place_legs allSlots a cfgs [] zero with
           | None => rest
           | Some (legs, total) =>
               {| co_optionId := "opt_" +:+ uuid n; co_anchorStartTimeMs := a; co_legs := legs;
                  co_totalDisruptionMs := total; co_disruptionScore := total;
                  co_isFullyAvailable := true |} :: rest
           end
  end.

Definition leg_gt (a b : MultiLegBookingLeg) : bool := ltb zero (sub (lg_startTime a) (lg_startTime b)).
Definition option_gt (a b : RescheduleCandidateOption) : bool :=
  ltb zero (sub (co_disruptionScore a) (co_disruptionScore b)).

(** [l.slice(0, n)]. *)
Definition js_slice {A} (n : Z) (l : list A) : list A :=
  take (Z.to_nat (if n <? 0 then Z.of_nat (length l) + n else n)) l.

(** [x && y && x !== y] on strings. *)
Definition differ (x y : string) : bool := str_truthy x && str_truthy y && negb (bool_decide (x = y)).

Definition tenant_blocked (tenantId : option string) (paused : gset string) : bool :=
  match tenantId with Some t => str_truthy t && bool_decide (t ∈ paused) | None => false end.

Section Reschedule.
Context {T : Type} `{SlotRepository T}.

Definition planMultiLegReschedule (fuel : nat) (uuid : nat -> string) (s : Sched T)
    (booking : MultiLegBooking) (options : RescheduleOptions)
    : option (result RescheduleError (list RescheduleCandidateOption)) :=
  let tenantId := match ro_tenantId options with Some t => Some t | None => mb_tenantId booking end in
  if tenant_blocked tenantId (sc_pausedTenants s) then
    Some (Err (RescheduleTenantPaused (default ""%string tenantId)))
  else
    match js_sort leg_gt (mb_legs booking) with
    | [] => Some (Err NoLegs)
    | (anchorLeg :: _) as sortedLegs =>
        if differ (mb_buyerId booking) (ro_buyerId options) then
          Some (Err (NotAuthorized (ro_buyerId options) (mb_buyerId booking)))
        else
          let leg0StartTime := lg_startTime anchorLeg in
          let legConfigs := map (leg_config options leg0StartTime) sortedLegs in
          candidateAnchors ← candidate_anchors fuel options leg0StartTime;
          let candidateOptions :=
            collect_options uuid (slots_list (sc_slots s)) legConfigs 0 candidateAnchors in
          match candidateOptions with
          | [] => Some (Err (ImpossibleRescheduleError (mb_bookingId booking)))
          | _ => Some (Ok (js_slice (default 3 (ro_maxOptions options)) (js_sort option_gt candidateOptions)))
          end
    end.

(** ** Confirmation *)

Record ConfirmRescheduleRequest : Type := {
  cr_bookingId : string;
  cr_buyerId : string;
  cr_optionId : string;
  cr_candidateOption : RescheduleCandidateOption;
  cr_multiLegBooking : MultiLegBooking
}.

Record ConfirmRescheduleResult : Type := {
  cf_bookingId : string;
  cf_sagaExecutionId : string;
  cf_updatedLegs : list CandidateLegSchedule;
  cf_confirmedAtMs : Z
}.

Definition moves (l : CandidateLegSchedule) : bool :=
  negb (cl_isPartialKept l) && negb (bool_decide (cl_currentSlotId l = cl_newSlotId l)).

(** [for (id of ids) try { f(id); done.push(id) } catch {}]. *)
Fixpoint try_each (f : string -> M (Sched T) SchedulingError unit) (ids done : list string) (s : Sched T)
    : list string * Sched T :=
  match ids with
  | [] => (done, s)
  | id :: ids' =>
      match f id s with
      | (Ok _, s') => try_each f ids' (done ++ [id]) s'
      | (Err _, s') => try_each f ids' done s'
      end
  end.

Definition confirmMultiLegReschedule (escrowPaused : bool) (dateNow : Z) (uuid : string)
    (req : ConfirmRescheduleRequest) : M (Sched T) RescheduleError ConfirmRescheduleResult :=
  s ← get;
  let booking := cr_multiLegBooking req in
  let legs := co_legs (cr_candidateOption req) in
  _ ← guard (tenant_blocked (mb_tenantId booking) (sc_pausedTenants s))
        (RescheduleTenantPaused (default ""%string (mb_tenantId booking)));
  _ ← guard (differ (mb_buyerId booking) (cr_buyerId req))
        (NotAuthorized (cr_buyerId req) (mb_buyerId booking));
  _ ← guard (Nat.eqb (length legs) 0) InvalidCandidateOption;
  let moving := List.filter moves legs in
  run_with (fun s0 =>
    let '(releasedSlotIds, s1) := try_each release_call (map cl_currentSlotId moving) [] s0 in
    match reserve_loop escrowPaused dateNow (map cl_newSlotId moving) [] s1 with
    | ((_, None), s2) =>
        (Ok {| cf_bookingId := cr_bookingId req; cf_sagaExecutionId := "saga_" +:+ uuid;
               cf_updatedLegs := legs; cf_confirmedAtMs := dateNow |}, s2)
    | ((reservedSlotIds, Some e), s2) =>
        let '(_, s3) := try_each release_call reservedSlotIds [] s2 in
        let '(_, s4) := try_each (reserve_call escrowPaused dateNow) releasedSlotIds [] s3 in
        (Err (ConfirmFailed (cr_bookingId req) e), s4)
    end).

End Reschedule.

(** ** When the search ends

    Between -2^52 and 2^52 a step of at least a millisecond moves a double on by
    at least one, so the search ends; a step of zero or less never passes the
    end.  Smaller steps can be absorbed by rounding. *)

Lemma count_up_ends fuel k m from to st :
  U <= st -> leb (Fin (k * U)) from = true -> leb to (Fin (m * U)) = true -> - 2 ^ 53 <= k -> m < 2 ^ 53 ->
  Z.max 0 (m - k + 1) < Z.of_nat fuel -> is_Some (count_up fuel from to (Fin st)).
Proof.
  intros Hst Hfrom Hto. revert k from Hfrom. induction fuel as [|fuel IH]; intros k from Hfrom Hk Hm Hf; [lia|].
  cbn [count_up]. destruct (leb from to) eqn:Hle; [|by eexists].
  assert (k <= m) as Hkm.
  { pose proof (leb_trans _ _ _ (leb_trans _ _ _ Hfrom Hle) Hto) as Hx. rewrite leb_fin in Hx.
    apply Z.leb_le in Hx. pose proof U_pos. nia. }
  destruct (IH (k + 1) (add from (Fin st))) as [l ->]; [|lia..|by eexists].
  rewrite <- (add_cents k 1), Z.mul_1_l by lia. by apply add_le.
Qed.

Lemma count_up_never_ends fuel from to st :
  st <= 0 -> wf from -> leb from to = true -> count_up fuel from to (Fin st) = None.
Proof.
  intros Hst. revert from. induction fuel as [|fuel IH]; intros from Hw Hle; [done|]. cbn [count_up]. rewrite Hle.
  rewrite IH; [done| |].
  - destruct from; try done. apply norm_wf, rnd_representable. lia.
  - apply leb_trans with from; [|done]. destruct from as [f| | |]; try done.
    apply leb_trans with (add (Fin f) (Fin 0)); [apply add_le; [by apply leb_refl|done]|].
    rewrite add_exact, Z.add_0_r by (by rewrite Z.add_0_r). by apply leb_refl.
Qed.

(** A positive step that rounding absorbs at a time of the range keeps the
    search there for ever. *)
Lemma absorbed_step_never_ends fuel from to step :
  leb from to = true -> add from step = from -> count_up fuel from to step = None.
Proof. intros Hle He. induction fuel as [|fuel IH]; [done|]. cbn [count_up]. by rewrite Hle, He, IH. Qed.

(** A tenth of a microsecond, at a date of 2023. *)
Example tiny_step_never_ends fuel :
  count_up fuel (of_Z 1700000000000) (of_Z 1700000000001) (lit 1 10000) = None.
Proof. apply absorbed_step_never_ends; by vm_compute. Qed.

(** The bounds of a search are doubles within 2^51 milliseconds of 1970, and the
    window is not empty. *)
Definition search_bound (t : num) : Prop := exists z, t = Fin z /\ dbl z /\ Z.abs z <= 2 ^ 51 * U.

Definition search_ok (options : RescheduleOptions) : Prop :=
  match ro_targetAnchorStartTimeMs options with Some target => search_bound target | None => True end /\
  match ro_searchWindow options with
  | Some (a, b) => search_bound a /\ search_bound b /\ leb a b = true
  | None => True
  end.

(** The loop the search runs. *)
Definition search_loop (options : RescheduleOptions) : num * num :=
  match ro_targetAnchorStartTimeMs options, ro_searchWindow options with
  | _, Some w => w
  | Some target, None => (sub target (of_Z (2 * HOUR_MS)), add target (of_Z (2 * HOUR_MS)))
  | None, None => (search_step options, of_Z (4 * HOUR_MS))
  end.

Lemma anchors_loop fuel options start :
  is_Some (candidate_anchors fuel options start) <->
  is_Some (count_up fuel (search_loop options).1 (search_loop options).2 (search_step options)).
Proof.
  unfold candidate_anchors, search_loop. destruct (ro_targetAnchorStartTimeMs options) as [t|],
    (ro_searchWindow options) as [[a b]|]; cbn [from_option fst snd]; try done;
    by destruct (count_up _ _ _ _).
Qed.

Lemma around_target t : search_bound t ->
  exists a b, sub t (of_Z (2 * HOUR_MS)) = Fin a /\ add t (of_Z (2 * HOUR_MS)) = Fin b /\ dbl a /\
    - 2 ^ 52 * U <= a /\ a <= b /\ b <= 2 ^ 52 * U.
Proof.
  intros (z & -> & Hd & Hz). pose proof U_pos. unfold HOUR_MS. rewrite of_Z_exact by lia.
  destruct (sub_between (- 2 ^ 52 * U) z z (2 * 3600000 * U)) as (a & -> & Ha & ?);
    [by apply (dbl_int (- 2 ^ 52))|done|nia|].
  destruct (add_between z (2 ^ 52 * U) z (2 * 3600000 * U)) as (b & -> & _ & ?); [done|by apply dbl_int|nia|].
  exists a, b. split_and!; try done; lia.
Qed.

(** The loop's ends: finite, or the start is the step itself. *)
Lemma search_loop_ok options st :
  search_ok options -> search_step options = Fin st -> dbl st ->
  exists a b, search_loop options = (Fin a, Fin b) /\ dbl a /\ b <= 2 ^ 52 * U /\
    (U <= st -> - 2 ^ 52 * U <= a) /\ (st <= 0 -> a <= b).
Proof.
  intros [Ht Hw] Hst Hd. unfold search_loop. rewrite Hst. pose proof U_pos.
  destruct (ro_searchWindow options) as [[a b]|].
  { destruct Hw as ((x & -> & Hx & Bx) & (y & -> & Hy & By) & Hle). rewrite leb_fin in Hle.
    apply Z.leb_le in Hle. exists x, y. destruct (ro_targetAnchorStartTimeMs options); split_and!; try done; nia. }
  destruct (ro_targetAnchorStartTimeMs options) as [t|].
  - destruct (around_target t Ht) as (a & b & -> & -> & ? & ? & ? & ?). exists a, b. split_and!; try done; lia.
  - unfold HOUR_MS. rewrite of_Z_exact by lia. exists st, (4 * 3600000 * U). split_and!; try done; nia.
Qed.

Lemma anchors_end options start st :
  search_ok options -> search_step options = Fin st -> dbl st -> U <= st ->
  exists fuel, is_Some (candidate_anchors fuel options start).
Proof.
  intros Hok Hst Hd Hs. destruct (search_loop_ok options st Hok Hst Hd) as (a & b & E & _ & Hb & Ha & _).
  destruct (Z_of_nat_complete (2 ^ 53 + 2) ltac:(lia)) as [fuel Hf].
  exists fuel. apply anchors_loop. rewrite E, Hst. cbn [fst snd].
  apply (count_up_ends fuel (- 2 ^ 52) (2 ^ 52)).
  - exact Hs.
  - rewrite leb_fin. apply Z.leb_le. by apply Ha.
  - rewrite leb_fin. by apply Z.leb_le.
  - lia.
  - lia.
  - lia.
Qed.

Lemma anchors_never_end options start st fuel :
  search_ok options -> search_step options = Fin st -> dbl st -> st <= 0 ->
  candidate_anchors fuel options start = None.
Proof.
  intros Hok Hst Hd Hs. destruct (search_loop_ok options st Hok Hst Hd) as (a & b & E & Ha & _ & _ & Hle).
  apply eq_None_not_Some. rewrite anchors_loop, E, Hst. cbn [fst snd].
  rewrite count_up_never_ends; [by intros [? ?]|done|done|]. rewrite leb_fin. by apply Z.leb_le, Hle.
Qed.

(** ** The planner *)

Section Plan.
Context {T : Type} `{SlotRepositoryLaws T}.
Implicit Types (s : Sched T) (booking : MultiLegBooking) (options : RescheduleOptions).

(** The guards before the search. *)
Definition plan_admitted s booking options : Prop :=
  tenant_blocked (match ro_tenantId options with Some t => Some t | None => mb_tenantId booking end)
    (sc_pausedTenants s) = false /\
  mb_legs booking <> [] /\ differ (mb_buyerId booking) (ro_buyerId options) = false.

Definition first_start booking : num :=
  match js_sort leg_gt (mb_legs booking) with l :: _ => lg_startTime l | [] => zero end.

Definition configs booking options : list LegConfig :=
  map (leg_config options (first_start booking)) (js_sort leg_gt (mb_legs booking)).

Lemma plan_ok_admitted fuel uuid s booking options opts :
  planMultiLegReschedule fuel uuid s booking options = Some (Ok opts) -> plan_admitted s booking options.
Proof.
  unfold planMultiLegReschedule, plan_admitted. destruct (tenant_blocked _ _); [done|].
  destruct (mb_legs booking) as [|l0 ls] eqn:El; [done|]. rewrite <- El.
  destruct (js_sort leg_gt (mb_legs booking)); [done|]. destruct (differ _ _); [done|]. intros _.
  split_and!; [done| |done]. by rewrite El.
Qed.

Definition all_options uuid s booking options (anchors : list num) : list RescheduleCandidateOption :=
  collect_options uuid (slots_list (sc_slots s)) (configs booking options) 0 anchors.

Lemma plan_unfold fuel uuid s booking options :
  plan_admitted s booking options ->
  planMultiLegReschedule fuel uuid s booking options =
  (anchors ← candidate_anchors fuel options (first_start booking);
   match all_options uuid s booking options anchors with
   | [] => Some (Err (ImpossibleRescheduleError (mb_bookingId booking)))
   | l => Some (Ok (js_slice (default 3 (ro_maxOptions options)) (js_sort option_gt l)))
   end).
Proof.
  intros (Ht & Hl & Hb). unfold planMultiLegReschedule, all_options, configs, first_start. rewrite Ht.
  destruct (js_sort leg_gt (mb_legs booking)) as [|l0 ls] eqn:Hs.
  { exfalso. apply Hl, Permutation_nil_r. rewrite <- Hs. symmetry. apply js_sort_perm. }
  rewrite Hb. destruct (candidate_anchors fuel options (lg_startTime l0)); [|done]. simpl.
  by destruct (collect_options _ _ _ _ _).
Qed.

(** (C39) When planning ends: with an authorised request for a booking with legs,
    search bounds that are doubles within 2^51 milliseconds of 1970 and a window
    that is not empty, and a step that is not strictly between 0 and 1
    millisecond, planning returns exactly when the step is at least a
    millisecond; a zero or negative [searchStepMs], which is not validated, makes
    it run for ever.  (A step between 0 and 1 may be absorbed by rounding:
    [tiny_step_never_ends].) *)
Theorem plan_terminates_iff uuid s booking options st :
  plan_admitted s booking options -> search_ok options ->
  search_step options = Fin st -> dbl st -> st <= 0 \/ U <= st ->
  (exists fuel, is_Some (planMultiLegReschedule fuel uuid s booking options)) <-> U <= st.
Proof.
  intros Ha Hok Hst Hd Hs. split.
  - intros [fuel [r Hp]]. rewrite plan_unfold in Hp by done. destruct Hs as [Hs|]; [|done].
    by rewrite (anchors_never_end _ _ _ _ Hok Hst Hd Hs) in Hp.
  - intros Hu. destruct (anchors_end options (first_start booking) st Hok Hst Hd Hu) as (fuel & anchors & Hf).
    exists fuel. rewrite plan_unfold, Hf by done. simpl. by destruct (all_options _ _ _ _ _).
Qed.

(** Where a leg of a candidate option goes: nowhere if it is kept, else to the
    anchor plus its offset, into a slot of its professional that is free or its
    own and spans it, the one its override names if it names one. *)
Definition leg_placed (slots : list SlotRecord) options (start anchor : num) (leg : MultiLegBookingLeg)
    (l : CandidateLegSchedule) : Prop :=
  let override := override_for (ro_legOverrides options) (lg_legId leg) in
  let kept := match override ≫= ov_skipReschedule with Some b => b | None => false end in
  let offset := match override ≫= ov_offsetOverrideMs, lg_offsetMs leg with
                | Some x, _ => x | None, Some x => x | None, None => sub (lg_startTime leg) start end in
  cl_legId l = lg_legId leg /\ cl_currentSlotId l = lg_slotId leg /\
  cl_currentStartTime l = lg_startTime leg /\ cl_isPartialKept l = kept /\
  if kept then
    cl_newSlotId l = lg_slotId leg /\ cl_newStartTime l = lg_startTime leg /\ cl_newEndTime l = lg_endTime leg
  else
    cl_newStartTime l = add anchor offset /\
    cl_newEndTime l = add (cl_newStartTime l) (sub (lg_endTime leg) (lg_startTime leg)) /\
    (exists slot, slot ∈ slots /\ sl_id slot = cl_newSlotId l /\ sl_professional slot = lg_professional leg /\
       (sl_bookable slot = true \/ sl_id slot = lg_slotId leg) /\
       leb (of_Z (sl_startTime slot)) (cl_newStartTime l) = true /\ leb (cl_newEndTime l) (of_Z (sl_endTime slot)) = true) /\
    forall id, override ≫= ov_newSlotId = Some id -> str_truthy id = true -> cl_newSlotId l = id.

Lemma usable_true leg x :
  usable leg x = true <-> sl_professional x = lg_professional leg /\ (sl_bookable x = true \/ sl_id x = lg_slotId leg).
Proof. unfold usable. by rewrite andb_true_iff, orb_true_iff, !bool_decide_eq_true. Qed.

Lemma exact_spans start fin x : exact start fin x = true -> spans start fin x = true.
Proof.
  unfold exact, spans, geb, leb. intros [He1 He2]%andb_true_iff. rewrite He1.
  assert (forall a b, eqb a b = true -> eqb b a = true) as Hsym.
  { intros [] []; simpl; try done. by rewrite Z.eqb_sym. }
  rewrite (Hsym _ _ He2). by rewrite !orb_true_r.
Qed.

Lemma find_slot_for_spec slots cfg start fin id :
  find_slot_for slots cfg start fin = Some id ->
  (exists slot, slot ∈ slots /\ sl_id slot = id /\ usable (lc_leg cfg) slot = true /\ spans start fin slot = true) /\
  forall nid, lc_override cfg ≫= ov_newSlotId = Some nid -> str_truthy nid = true -> id = nid.
Proof.
  assert (forall x, x ∈ slots -> usable (lc_leg cfg) x && exact start fin x = true ->
    exists slot, slot ∈ slots /\ sl_id slot = sl_id x /\ usable (lc_leg cfg) slot = true /\
      spans start fin slot = true) as Hexact.
  { intros x Hin [Hu He%exact_spans]%andb_true_iff. by exists x. }
  assert (match find_first (fun x => usable (lc_leg cfg) x && exact start fin x) slots with
          | Some s => Some (sl_id s)
          | None => sl_id <$> find_first (fun x => usable (lc_leg cfg) x && spans start fin x) slots
          end = Some id ->
    exists slot, slot ∈ slots /\ sl_id slot = id /\ usable (lc_leg cfg) slot = true /\
      spans start fin slot = true) as Hsearch.
  { destruct (find_first _ slots) as [s|] eqn:E1.
    - intros [= <-]. apply find_first_Some in E1 as [He Hin]. by apply Hexact.
    - destruct (find_first (fun x => usable (lc_leg cfg) x && spans start fin x) slots) as [s|] eqn:E2; [|done].
      intros [= <-]. apply find_first_Some in E2 as [[Hu Hsp]%andb_true_iff Hin]. by exists s. }
  unfold find_slot_for. destruct (lc_override cfg ≫= ov_newSlotId) as [nid|]; [|by split; [apply Hsearch|]].
  destruct (str_truthy nid) eqn:Ht; [|intros Hs; split; [by apply Hsearch|congruence]].
  destruct (find_first (slot_has_id nid) slots) as [s|] eqn:E; [|done].
  simpl. destruct (usable (lc_leg cfg) s && exact start fin s) eqn:He; [|done]. intros [= <-].
  apply find_first_Some in E as [Hid%bool_decide_eq_true Hin]. split; [by apply Hexact|]. congruence.
Qed.

Lemma place_leg_placed options start leg slots anchor l :
  place_leg slots anchor (leg_config options start leg) = Some l -> leg_placed slots options start anchor leg l.
Proof.
  unfold place_leg, leg_placed. cbv zeta.
  assert (match override_for (ro_legOverrides options) (lg_legId leg) ≫= ov_skipReschedule with Some b => b | None => false end =
    lc_skipReschedule (leg_config options start leg)) as -> by done.
  assert (match override_for (ro_legOverrides options) (lg_legId leg) ≫= ov_offsetOverrideMs, lg_offsetMs leg with
    | Some x, _ => x | None, Some x => x | None, None => sub (lg_startTime leg) start end =
    lc_offsetMs (leg_config options start leg)) as ->.
  { unfold leg_config. cbn [lc_offsetMs]. by destruct (_ ≫= ov_offsetOverrideMs), (lg_offsetMs leg). }
  destruct (lc_skipReschedule _); [intros [= <-]; by split_and!|].
  destruct (find_slot_for slots _ _ _) as [id|] eqn:E; [|done]. intros [= <-].
  apply find_slot_for_spec in E as [(slot & Hin & Hid & Hu & [Hs He]%andb_true_iff) Hn].
  apply usable_true in Hu as [Hp Hb]. cbn. split_and!; try done. by exists slot.
Qed.

Definition add_disruption (total : num) (l : CandidateLegSchedule) : num := add total (disruption l).

Definition total_disruption (l : list CandidateLegSchedule) : num := foldl add_disruption zero l.

Lemma place_legs_spec slots anchor cfgs acc tot legs total :
  place_legs slots anchor cfgs acc tot = Some (legs, total) ->
  exists new, legs = acc ++ new /\ total = foldl add_disruption tot new /\
    Forall2 (fun cfg l => place_leg slots anchor cfg = Some l) cfgs new.
Proof.
  revert acc tot. induction cfgs as [|cfg cfgs IH]; intros acc tot; cbn [place_legs].
  - intros [= <- <-]. exists []. rewrite app_nil_r. by split_and!.
  - destruct (place_leg slots anchor cfg) as [l|] eqn:E; cbn [mbind option_bind]; [|done].
    intros (new & -> & -> & HF)%IH. exists (l :: new). rewrite <- app_assoc.
    split_and!; [done|done|by constructor].
Qed.

Lemma collect_sound uuid slots cfgs n anchors o :
  o ∈ collect_options uuid slots cfgs n anchors ->
  co_anchorStartTimeMs o ∈ anchors /\ leb (co_anchorStartTimeMs o) zero = false /\
  co_disruptionScore o = co_totalDisruptionMs o /\
  place_legs slots (co_anchorStartTimeMs o) cfgs [] zero = Some (co_legs o, co_totalDisruptionMs o).
Proof.
  revert n. induction anchors as [|a anchors IH]; intros n; simpl; [by intros ?%elem_of_nil|].
  assert (o ∈ collect_options uuid slots cfgs (S n) anchors ->
    co_anchorStartTimeMs o ∈ a :: anchors /\ leb (co_anchorStartTimeMs o) zero = false /\
    co_disruptionScore o = co_totalDisruptionMs o /\
    place_legs slots (co_anchorStartTimeMs o) cfgs [] zero = Some (co_legs o, co_totalDisruptionMs o)) as Hrest.
  { intros (? & ? & ? & ?)%IH. split_and!; try done. by constructor. }
  destruct (leb a zero) eqn:Ha; [done|]. destruct (place_legs slots a cfgs [] zero) as [[legs total]|] eqn:E; [|done].
  intros [->|Ho]%elem_of_cons; [|by apply Hrest]. simpl. split_and!; try done. constructor.
Qed.

Lemma collect_complete uuid slots cfgs n anchors a legs total :
  a ∈ anchors -> leb a zero = false -> place_legs slots a cfgs [] zero = Some (legs, total) ->
  exists o, o ∈ collect_options uuid slots cfgs n anchors /\ co_anchorStartTimeMs o = a /\
            co_legs o = legs /\ co_totalDisruptionMs o = total.
Proof.
  revert n. induction anchors as [|b anchors IH]; intros n Hin Ha Hp; simpl; [by apply elem_of_nil in Hin|].
  apply elem_of_cons in Hin as [<-|Hin].
  - rewrite Ha, Hp. eexists. split; [by constructor|]. done.
  - destruct (IH (S n) Hin Ha Hp) as (o & Ho & ?). exists o. split; [|done].
    destruct (leb b zero); [done|]. destruct (place_legs slots b cfgs [] zero) as [[]|]; [by constructor|done].
Qed.

(** *** Disruptions are comparable

    With finite start times no disruption is [NaN], so the comparator of the
    options orders them. *)

Lemma abs_sub_nonneg a x : a <> NaN -> leb zero (math_abs (sub a (Fin x))) = true.
Proof.
  intros Ha. unfold sub. pose proof (add_not_nan a (- x) Ha) as Hn. cbn [neg].
  destruct (add a (Fin (- x))); try done. cbn [math_abs]. unfold zero. rewrite leb_fin. apply Z.leb_le. lia.
Qed.

Lemma add_nonneg a b : leb zero a = true -> leb zero b = true -> leb zero (add a b) = true.
Proof.
  unfold zero. destruct a as [x| | |], b as [y| | |]; try done. rewrite !leb_fin, !Z.leb_le. intros.
  change (Fin 0) with (norm 0). apply norm_mono, rnd_ge; [done|apply representable_0|lia].
Qed.

Lemma nonneg_not_nan a : leb zero a = true -> a <> NaN.
Proof. by intros Hn ->. Qed.

Definition finite_legs booking : Prop := forall l, l ∈ mb_legs booking -> is_finite (lg_startTime l) = true.

Lemma placed_disruption slots options start anchor leg l :
  leg_placed slots options start anchor leg l -> is_finite (lg_startTime leg) = true -> leb zero (disruption l) = true.
Proof.
  unfold leg_placed. cbv zeta. intros (_ & _ & Hcur & _ & Hp) Hf. unfold disruption. rewrite Hcur. clear Hcur. revert Hp.
  destruct (lg_startTime leg) as [x| | |]; try done. intros Hp. apply abs_sub_nonneg.
  match type of Hp with if ?kept then _ else _ => destruct kept end; [destruct Hp as (_ & Hp & _); congruence|].
  destruct Hp as (_ & _ & (slot & _ & _ & _ & _ & Hs & _) & _). intros Hn. rewrite Hn in Hs.
  by destruct (of_Z (sl_startTime slot)).
Qed.

Lemma shifts_nonneg slots options start anchor legs ls tot :
  Forall2 (leg_placed slots options start anchor) legs ls -> Forall (fun leg => is_finite (lg_startTime leg) = true) legs ->
  leb zero tot = true -> leb zero (foldl add_disruption tot ls) = true.
Proof.
  intros HF. revert tot. induction HF as [|leg l legs ls Hp _ IH]; intros tot Hf Ht; [done|].
  apply Forall_cons in Hf as [Hc Hf]. apply IH; [done|]. apply add_nonneg; [done|]. by eapply placed_disruption.
Qed.

Lemma option_gt_ltb a b :
  leb zero (co_disruptionScore a) = true -> leb zero (co_disruptionScore b) = true ->
  option_gt a b = ltb (co_disruptionScore b) (co_disruptionScore a).
Proof.
  intros Ha%nonneg_not_nan Hb%nonneg_not_nan. unfold option_gt.
  destruct (decide (co_disruptionScore a = co_disruptionScore b)) as [->|Hne]; [|by apply sub_sign_num].
  destruct (co_disruptionScore b); try done. by rewrite sub_sign.
Qed.

Lemma ltb_leb a b : a <> NaN -> b <> NaN -> ltb a b = false <-> leb b a = true.
Proof. destruct a, b; try done. intros _ _. rewrite leb_fin. simpl. rewrite Z.ltb_ge, Z.leb_le. done. Qed.

Lemma options_ordered l : (forall o, o ∈ l -> leb zero (co_disruptionScore o) = true) -> ordered option_gt (js_sort option_gt l).
Proof.
  intros Hl. apply js_sort_ordered with (fun o => leb zero (co_disruptionScore o) = true); [| |done].
  - intros x y Hx Hy. rewrite !option_gt_ltb by done. apply nonneg_not_nan in Hx, Hy.
    destruct (co_disruptionScore x), (co_disruptionScore y); try done. simpl. rewrite Z.ltb_lt, Z.ltb_ge. lia.
  - intros x y z Hx Hy Hz. rewrite !option_gt_ltb by done. apply nonneg_not_nan in Hx, Hy, Hz.
    rewrite !ltb_leb by done. intros. by eapply leb_trans.
Qed.

(** Two legs that are neither kept nor given an offset of their own. *)
Definition follows_anchor options (leg : MultiLegBookingLeg) : Prop :=
  lg_offsetMs leg = None /\ override_for (ro_legOverrides options) (lg_legId leg) = None.

(** A time in whole milliseconds, in the range where sums of three are exact. *)
Definition whole_ms (t : num) (n : Z) : Prop := t = Fin (n * U) /\ Z.abs n <= 2 ^ 51.

(** An option the booking can be moved to: its anchor is a positive time of the
    search; each leg, in order of start, is placed; the total is the sum of the
    shifts; and, in whole milliseconds, two legs that follow the anchor keep
    their distance. *)
Record good_option (slots : list SlotRecord) booking options (anchors : list num)
    (o : RescheduleCandidateOption) : Prop := {
  go_anchor : co_anchorStartTimeMs o ∈ anchors /\ leb (co_anchorStartTimeMs o) zero = false;
  go_legs : Forall2 (leg_placed slots options (first_start booking) (co_anchorStartTimeMs o))
              (js_sort leg_gt (mb_legs booking)) (co_legs o);
  go_total : co_totalDisruptionMs o = total_disruption (co_legs o);
  go_distances i j a b x y t0 t ta tb :
    js_sort leg_gt (mb_legs booking) !! i = Some a -> js_sort leg_gt (mb_legs booking) !! j = Some b ->
    follows_anchor options a -> follows_anchor options b ->
    co_legs o !! i = Some x -> co_legs o !! j = Some y ->
    whole_ms (first_start booking) t0 -> whole_ms (co_anchorStartTimeMs o) t ->
    whole_ms (lg_startTime a) ta -> whole_ms (lg_startTime b) tb ->
    cl_newStartTime x = Fin ((t + (ta - t0)) * U) /\ cl_newStartTime y = Fin ((t + (tb - t0)) * U)
}.

Lemma anchored_start slots options start anchor legs ls i a x t0 t ta :
  Forall2 (leg_placed slots options start anchor) legs ls ->
  legs !! i = Some a -> follows_anchor options a -> ls !! i = Some x ->
  whole_ms start t0 -> whole_ms anchor t -> whole_ms (lg_startTime a) ta ->
  cl_newStartTime x = Fin ((t + (ta - t0)) * U).
Proof.
  intros HF Ha [Ho Hv] Hx [-> B0] [-> B] [Ea Ba]. pose proof (Forall2_lookup_lr _ _ _ _ _ _ HF Ha Hx) as Hp.
  unfold leg_placed in Hp. rewrite Hv, Ho in Hp. cbn [mbind option_bind] in Hp. destruct Hp as (_ & _ & _ & _ & -> & _).
  rewrite Ea, sub_cents, add_cents by lia. done.
Qed.

Lemma collected_placed uuid s booking options n anchors o :
  o ∈ collect_options uuid (slots_list (sc_slots s)) (configs booking options) n anchors ->
  Forall2 (leg_placed (slots_list (sc_slots s)) options (first_start booking) (co_anchorStartTimeMs o))
    (js_sort leg_gt (mb_legs booking)) (co_legs o) /\
  co_totalDisruptionMs o = total_disruption (co_legs o).
Proof.
  intros (_ & _ & _ & (new & Hnew & Htot & HF)%place_legs_spec)%collect_sound. simpl in Hnew. subst new.
  split; [|done]. unfold configs in *. apply Forall2_fmap_l in HF.
  eapply Forall2_impl; [exact HF|]. intros leg l. apply place_leg_placed.
Qed.

Lemma collected_good uuid s booking options n anchors o :
  o ∈ collect_options uuid (slots_list (sc_slots s)) (configs booking options) n anchors ->
  good_option (slots_list (sc_slots s)) booking options anchors o.
Proof.
  intros Ho. destruct (collected_placed _ _ _ _ _ _ _ Ho) as [HP Htot]. apply collect_sound in Ho as (Hin & Hpos & _).
  constructor; try done. intros i j a b x y t0 t ta tb Ha Hb Fa Fb Hx Hy H0' Ht Hta Htb.
  split; [exact (anchored_start _ _ _ _ _ _ i a x t0 t ta HP Ha Fa Hx H0' Ht Hta)|
          exact (anchored_start _ _ _ _ _ _ j b y t0 t tb HP Hb Fb Hy H0' Ht Htb)].
Qed.

Lemma collected_nonneg uuid s booking options n anchors o :
  finite_legs booking ->
  o ∈ collect_options uuid (slots_list (sc_slots s)) (configs booking options) n anchors ->
  leb zero (co_totalDisruptionMs o) = true.
Proof.
  intros Hf Ho. destruct (collected_placed _ _ _ _ _ _ _ Ho) as [HP ->]. eapply shifts_nonneg; [exact HP| |done].
  apply Forall_forall. intros leg Hl%js_sort_elem. by apply Hf.
Qed.

(** (C17) What the planner returns, when it returns options for a booking whose
    start times are finite: they are ordered by disruption, and no more than
    asked for when that is not negative.  Each has every leg of the booking, in order of start.  A leg with
    [skipReschedule] keeps its slot and times, whether the slot is usable or
    not; every other leg starts at the anchor plus its offset (its override's,
    else its own, else its distance from the first leg) and keeps its duration,
    in a slot of its professional that is free (or its own) and spans it, the one
    its override names if it names one.  Legs
    without override and without an offset of their own start, in whole
    milliseconds up to 2^51, exactly as far from the anchor as from the first
    leg.  The disruption is the sum of the shifts, added as doubles; and no
    positive anchor of the search that was left out admits a less disruptive
    option. *)
Theorem plan_correct fuel uuid s booking options anchors opts :
  finite_legs booking ->
  candidate_anchors fuel options (first_start booking) = Some anchors ->
  planMultiLegReschedule fuel uuid s booking options = Some (Ok opts) ->
  let slots := slots_list (sc_slots s) in
  let maxOptions := default 3 (ro_maxOptions options) in
  ordered option_gt opts /\ (0 <= maxOptions -> Z.of_nat (length opts) <= maxOptions) /\
  (forall o, o ∈ opts -> good_option slots booking options anchors o) /\
  (forall a l total, a ∈ anchors -> leb a zero = false ->
     place_legs slots a (configs booking options) [] zero = Some (l, total) ->
     (exists o, o ∈ opts /\ co_anchorStartTimeMs o = a) \/
     (forall o, o ∈ opts -> leb (co_totalDisruptionMs o) total = true)).
Proof.
  intros Hfin Hanch Hplan. pose proof (plan_ok_admitted _ _ _ _ _ _ Hplan) as Ha. revert Hplan.
  rewrite plan_unfold, Hanch by done. cbn [mbind option_bind].
  destruct (all_options uuid s booking options anchors) as [|o0 os] eqn:Eall; [done|].
  rewrite <- Eall. clear Eall o0 os. intros Heq. injection Heq as <-. cbv zeta.
  set (sorted := js_sort option_gt (all_options uuid s booking options anchors)).
  set (k := Z.to_nat (if default 3 (ro_maxOptions options) <? 0
                      then Z.of_nat (length sorted) + default 3 (ro_maxOptions options)
                      else default 3 (ro_maxOptions options))).
  change (js_slice _ sorted) with (take k sorted).
  assert (forall o, o ∈ all_options uuid s booking options anchors ->
    leb zero (co_disruptionScore o) = true /\ co_disruptionScore o = co_totalDisruptionMs o) as Hscore.
  { intros o Ho. pose proof (collect_sound _ _ _ _ _ _ Ho) as (_ & _ & He & _). rewrite He.
    split; [|done]. by eapply collected_nonneg. }
  assert (ordered option_gt sorted) as Hord by (apply options_ordered; intros o Ho; by apply Hscore).
  rewrite <- (take_drop k sorted) in Hord. apply ordered_app in Hord as [Hord Hlt].
  assert (forall o, o ∈ take k sorted -> o ∈ all_options uuid s booking options anchors) as Hin.
  { intros o Ho%elem_of_take. destruct Ho as (i & Hi & _). by eapply js_sort_elem, list_elem_of_lookup_2. }
  split_and!; [done| |by intros o Ho%Hin%collected_good|].
  - intros Hk. rewrite length_take. unfold k. destruct (Z.ltb_spec (default 3 (ro_maxOptions options)) 0); lia.
  - intros a l total Hina Hpos Hp.
    destruct (collect_complete uuid _ _ 0 _ _ _ _ Hina Hpos Hp) as (o & Ho & Hoa & _ & Hot).
    fold (all_options uuid s booking options anchors) in Ho.
    assert (o ∈ sorted) as Hs by (by apply js_sort_elem).
    rewrite <- (take_drop k sorted) in Hs. apply elem_of_app in Hs as [Hs|Hdrop]; [left; eauto|].
    right. intros x Hx. pose proof (Hlt x o Hx Hdrop) as Hle. apply Hin in Hx.
    destruct (Hscore x Hx) as [Nx Ex], (Hscore o Ho) as [No Eo].
    rewrite option_gt_ltb, ltb_leb in Hle by (done || by apply nonneg_not_nan). by rewrite <- Ex, <- Hot, <- Eo.
Qed.

(** ** Confirmation *)

(** The slots [ids] have been set to [b], and nothing else has changed. *)
Definition marked (b : bool) (ids : list string) s s' : Prop :=
  sc_pausedTenants s' = sc_pausedTenants s /\ sc_reservedBundles s' = sc_reservedBundles s /\
  forall x, findSlot x (sc_slots s') =
            if decide (x ∈ ids) then set_bookable b <$> findSlot x (sc_slots s) else findSlot x (sc_slots s).

Lemma set_bookable_twice a b x : set_bookable a (set_bookable b x) = set_bookable a x.
Proof. done. Qed.

Lemma set_bookable_same x : set_bookable (sl_bookable x) x = x.
Proof. by destruct x. Qed.

Lemma marked_nil b s : marked b [] s s.
Proof. split_and!; try done. Qed.

Lemma marked_app b l1 l2 s s1 s2 : marked b l1 s s1 -> marked b l2 s1 s2 -> marked b (l1 ++ l2) s s2.
Proof.
  intros (P1 & B1 & F1) (P2 & B2 & F2). split_and!; [congruence..|]. intros x. rewrite F2, F1.
  destruct (decide (x ∈ l1)), (decide (x ∈ l2)), (decide (x ∈ l1 ++ l2)) as [Hx|Hx];
    rewrite elem_of_app in Hx; try tauto; by destruct (findSlot x (sc_slots s)).
Qed.

(** A slot that already has the value [b] may be counted as set. *)
Lemma marked_already b id s :
  (forall x, findSlot id (sc_slots s) = Some x -> sl_bookable x = b) -> marked b [id] s s.
Proof.
  intros Hb. split_and!; try done. intros x. destruct (decide (x ∈ [id])) as [->%list_elem_of_singleton|]; [|done].
  destruct (findSlot id (sc_slots s)) as [y|]; [|done]. simpl. by rewrite <- (Hb y eq_refl), set_bookable_same.
Qed.

Lemma marked_update b id s t' :
  updateBookable id b (sc_slots s) = Ok t' -> marked b [id] s (set_slots t' s).
Proof.
  intros Hu. split_and!; try done. intros x. simpl.
  destruct (decide (x ∈ [id])) as [->%list_elem_of_singleton|Hx].
  - destruct (findSlot id (sc_slots s)) as [y|] eqn:Hy.
    + by erewrite findSlot_update_eq.
    + by rewrite law_updateBookable_missing in Hu.
  - apply (findSlot_update_ne id x b); [|done]. intros ->. apply Hx. by constructor.
Qed.

Lemma release_call_marked id s :
  (is_Some (findSlot id (sc_slots s)) /\ exists s', release_call id s = (Ok tt, s') /\ marked true [id] s s') \/
  (findSlot id (sc_slots s) = None /\ (exists e, release_call id s = (Err e, s)) /\ marked true [id] s s).
Proof.
  unfold release_call, call, releaseSlot. destruct (findSlot id (sc_slots s)) as [y|] eqn:Hy.
  - left. split; [by eexists|]. destruct (law_updateBookable id true (sc_slots s)) as (t' & Hu & _); [by eexists|].
    rewrite Hu. simpl. eexists. split; [done|]. by apply marked_update.
  - right. rewrite law_updateBookable_missing by done. simpl. split_and!; [done|by eexists|].
    apply marked_already. congruence.
Qed.

Lemma try_release ids acc s :
  exists rel s', try_each release_call ids acc s = (acc ++ rel, s') /\ marked true ids s s' /\
    forall x, x ∈ rel <-> x ∈ ids /\ is_Some (findSlot x (sc_slots s)).
Proof.
  revert acc s. induction ids as [|id ids IH]; intros acc s; simpl.
  { exists [], s. rewrite app_nil_r. split_and!; [done|apply marked_nil|]. intros x. rewrite !elem_of_nil. tauto. }
  assert (forall s', marked true [id] s s' ->
            forall x, is_Some (findSlot x (sc_slots s')) <-> is_Some (findSlot x (sc_slots s))) as Hdom.
  { intros s' (_ & _ & F) x. rewrite F. destruct (decide _); [|done]. apply fmap_is_Some. }
  destruct (release_call_marked id s) as [(Hex & s1 & -> & Hm)|(Hno & [e ->] & Hm)].
  - destruct (IH (acc ++ [id]) s1) as (rel & s' & -> & Hm' & Hrel). exists (id :: rel), s'.
    rewrite <- app_assoc. split_and!; [done|by apply (marked_app true [id] ids s s1 s')|].
    intros x. rewrite !elem_of_cons, Hrel, (Hdom s1 Hm). split; [intros [->|[? ?]]; auto|]. intros [[->|?] ?]; auto.
  - destruct (IH acc s) as (rel & s' & -> & Hm' & Hrel). exists rel, s'.
    split_and!; [done|by apply (marked_app true [id] ids s s s')|].
    intros x. rewrite Hrel, elem_of_cons. split; [tauto|]. intros [[->|?] Hx]; [|done].
    rewrite Hno in Hx. by destruct Hx.
Qed.

Lemma reserve_loop_marked ep dn ids acc s acc' o s' :
  reserve_loop ep dn ids acc s = ((acc', o), s') ->
  exists new, acc' = acc ++ new /\ marked false new s s' /\
    (forall x, x ∈ new -> exists y, findSlot x (sc_slots s) = Some y /\ sl_bookable y = true) /\
    (o = None -> new = ids) /\ (ep = true -> ids <> [] -> new = [] /\ o = Some EscrowPausedError).
Proof.
  revert acc s. induction ids as [|id ids IH]; intros acc s; simpl.
  { intros [= <- <- <-]. exists []. rewrite app_nil_r. split; [done|]. split; [apply marked_nil|].
    split; [by intros x ?%elem_of_nil|]. by split. }
  destruct (reserve_call ep dn id s) as [[u|e] s1] eqn:Hr.
  - unfold reserve_call, call in Hr. destruct (reserveSlot _ _ _ _ _ _ _) as [t1|] eqn:E; [|done].
    injection Hr as <- <-. apply reserveSlot_ok in E as (-> & y & Hy & Hb & Hu).
    apply marked_update in Hu. intros (new & -> & Hm & Hnew & Hall & _)%IH. exists (id :: new).
    rewrite <- app_assoc. split_and!; [done|by apply (marked_app false [id] new s (set_slots t1 s) s')| |by intros ->%Hall|done].
    intros x [->|Hx]%elem_of_cons; [by exists y|]. destruct (Hnew x Hx) as (z & Hz & Hbz).
    destruct Hu as (_ & _ & F). rewrite F in Hz. destruct (decide (x ∈ [id])); [|by exists z].
    destruct (findSlot x (sc_slots s)) as [w|]; [|done]. simpl in Hz. injection Hz as <-. done.
  - intros [= <- <- <-]. exists []. rewrite app_nil_r. unfold reserve_call, call in Hr.
    destruct (reserveSlot _ _ _ _ _ _ _) eqn:E; [done|]. injection Hr as -> ->.
    split; [done|]. split; [apply marked_nil|]. split; [by intros x ?%elem_of_nil|]. split; [done|].
    intros -> _. unfold reserveSlot in E. simpl in E. by simplify_eq.
Qed.

(** Re-reserving slots that are still valid, when the escrow is not paused. *)
Lemma try_reserve dn ids acc s :
  (forall x y, x ∈ ids -> findSlot x (sc_slots s) = Some y ->
     forall vu, sl_validUntil y = Some vu -> dn < vu) ->
  marked false ids s (snd (try_each (reserve_call false dn) ids acc s)).
Proof.
  revert acc s. induction ids as [|id ids IH]; intros acc s Hv; simpl; [apply marked_nil|].
  assert (exists s1, snd (reserve_call false dn id s) = s1 /\ marked false [id] s s1) as (s1 & Hs1 & Hm).
  { unfold reserve_call, call, reserveSlot. simpl. destruct (findSlot id (sc_slots s)) as [y|] eqn:Hy; simpl.
    2:{ exists s. split; [done|]. apply marked_already. congruence. }
    destruct (sl_bookable y) eqn:Hb; simpl.
    2:{ exists s. split; [done|]. apply marked_already. intros z Hz. congruence. }
    assert (match sl_validUntil y with
            | Some vu => throw_if (vu <=? dn) (SlotExpiredError id vu)
            | None => mret tt end = Ok tt) as ->.
    { destruct (sl_validUntil y) as [vu|] eqn:Hvu; [|done].
      specialize (Hv id y ltac:(constructor) Hy vu Hvu). by destruct (Z.leb_spec vu dn); [lia|]. }
    simpl. destruct (law_updateBookable id false (sc_slots s)) as (t' & Hu & _); [by eexists|].
    rewrite Hu. simpl. eexists. split; [done|]. by apply marked_update. }
  assert (forall x y, x ∈ ids -> findSlot x (sc_slots s1) = Some y ->
     forall vu, sl_validUntil y = Some vu -> dn < vu) as Hv1.
  { intros x y Hx Hy. destruct Hm as (_ & _ & F). rewrite F in Hy.
    destruct (decide _); [|apply (Hv x y); [by constructor|done]].
    destruct (findSlot x (sc_slots s)) as [z|] eqn:Hz; [|done]. injection Hy as <-. simpl.
    apply (Hv x z); [by constructor|done]. }
  destruct (reserve_call false dn id s) as [[u|e] s1'] eqn:Hr; simpl in Hs1; subst s1';
    apply (marked_app false [id] ids s s1 _ Hm); by apply IH.
Qed.

Lemma try_reserve_paused dn ids acc s : snd (try_each (reserve_call true dn) ids acc s) = s.
Proof. revert acc. induction ids as [|id ids IH]; intros acc; simpl; [done|]. apply IH. Qed.

Definition moving (req : ConfirmRescheduleRequest) : list CandidateLegSchedule :=
  List.filter moves (co_legs (cr_candidateOption req)).
Definition old_slots req : list string := map cl_currentSlotId (moving req).
Definition new_slots req : list string := map cl_newSlotId (moving req).

(** The guards of a confirmation. *)
Definition confirm_refusal (req : ConfirmRescheduleRequest) s : option RescheduleError :=
  let booking := cr_multiLegBooking req in
  if tenant_blocked (mb_tenantId booking) (sc_pausedTenants s)
  then Some (RescheduleTenantPaused (default ""%string (mb_tenantId booking)))
  else if differ (mb_buyerId booking) (cr_buyerId req)
  then Some (NotAuthorized (cr_buyerId req) (mb_buyerId booking))
  else if Nat.eqb (length (co_legs (cr_candidateOption req))) 0 then Some InvalidCandidateOption
  else None.

(** The two outcomes past the guards. *)
Lemma confirm_cases ep dn uuid req s r s' :
  confirmMultiLegReschedule ep dn uuid req s = (r, s') ->
  (exists e, confirm_refusal req s = Some e /\ r = Err e /\ s' = s) \/
  confirm_refusal req s = None /\
  exists rel s1 new s2,
    marked true (old_slots req) s s1 /\ marked false new s1 s2 /\
    (forall x, x ∈ rel <-> x ∈ old_slots req /\ is_Some (findSlot x (sc_slots s))) /\
    (forall x, x ∈ new -> exists y, findSlot x (sc_slots s1) = Some y /\ sl_bookable y = true) /\
    ((exists out, r = Ok out /\ cf_updatedLegs out = co_legs (cr_candidateOption req) /\
        new = new_slots req /\ s' = s2 /\ (ep = true -> new_slots req = [])) \/
     (exists e s3, r = Err (ConfirmFailed (cr_bookingId req) e) /\ marked true new s2 s3 /\
        s' = snd (try_each (reserve_call ep dn) rel [] s3) /\
        (ep = true -> new_slots req <> [] -> e = EscrowPausedError /\ new = []))).
Proof.
  unfold confirmMultiLegReschedule, confirm_refusal, mbind, M_bind, get, guard, raise, mret, M_ret, run_with.
  destruct (tenant_blocked _ _); [intros [= <- <-]; left; by eexists|].
  destruct (differ _ _); [intros [= <- <-]; left; by eexists|].
  destruct (Nat.eqb _ 0); [intros [= <- <-]; left; by eexists|]. fold (moving req). fold (old_slots req).
  fold (new_slots req).
  destruct (try_release (old_slots req) [] s) as (rel & s1 & -> & Hm1 & Hrel). simpl.
  destruct (reserve_loop ep dn (new_slots req) [] s1) as [[res o] s2] eqn:Hl.
  apply reserve_loop_marked in Hl as (new & -> & Hm2 & Hnew & Hall & Hpaused). simpl.
  intros Hc. right. split; [done|]. exists rel, s1, new, s2.
  do 4 (split; [done|]). destruct o as [e|].
  - right. destruct (try_release new [] s2) as (rel' & s3 & Ht & Hm3 & _). rewrite Ht in Hc.
    destruct (try_each (reserve_call ep dn) rel [] s3) as [acc s4] eqn:Er. injection Hc as <- <-.
    exists e, s3. do 2 (split; [done|]). rewrite Er. split; [done|].
    intros Hep Hne. destruct (Hpaused Hep Hne) as [-> [= ->]]. done.
  - left. injection Hc as <- <-. eexists. split; [done|]. split; [done|]. split; [by apply Hall|]. split; [done|].
    intros Hep. destruct (new_slots req) as [|n l]; [done|]. by destruct (Hpaused Hep ltac:(done)).
Qed.

(** (C15) Confirming a reschedule is atomic: with the escrow not paused and the old slots
    of the moved legs reserved and not expired, a refused or failed confirmation leaves
    every slot as it was; a successful one leaves the new slots of the moved legs
    reserved, the old ones free unless they are new ones too, and no other slot changed. *)
Theorem confirm_atomic dn uuid req s r s' :
  (forall x y, x ∈ old_slots req -> findSlot x (sc_slots s) = Some y ->
     sl_bookable y = false /\ forall vu, sl_validUntil y = Some vu -> dn < vu) ->
  confirmMultiLegReschedule false dn uuid req s = (r, s') ->
  match r with
  | Ok out =>
      cf_updatedLegs out = co_legs (cr_candidateOption req) /\
      forall x, findSlot x (sc_slots s') =
        if decide (x ∈ new_slots req) then set_bookable false <$> findSlot x (sc_slots s)
        else if decide (x ∈ old_slots req) then set_bookable true <$> findSlot x (sc_slots s)
        else findSlot x (sc_slots s)
  | Err _ => forall x, findSlot x (sc_slots s') = findSlot x (sc_slots s)
  end.
Proof.
  intros Hold [(e & _ & -> & ->)|(_ & rel & s1 & new & s2 & Hm1 & Hm2 & Hrel & Hnew & Hc)]%confirm_cases; [done|].
  destruct Hm1 as (_ & _ & F1), Hm2 as (_ & _ & F2).
  destruct Hc as [(out & -> & Hlegs & -> & -> & _)|(e & s3 & -> & (_ & _ & F3) & -> & _)].
  - split; [done|]. intros x. rewrite F2, F1. destruct (decide (x ∈ new_slots req)); [|done].
    destruct (decide (x ∈ old_slots req)); [|done]. by destruct (findSlot x (sc_slots s)).
  - assert (forall x, findSlot x (sc_slots s3) = findSlot x (sc_slots s1)) as F13.
    { intros x. rewrite F3, F2. destruct (decide (x ∈ new)) as [Hx|]; [|done].
      destruct (Hnew x Hx) as (y & -> & Hb). simpl. by rewrite set_bookable_twice, <- Hb, set_bookable_same. }
    destruct (try_reserve dn rel [] s3) as (_ & _ & F4).
    { intros x y [Hx _]%Hrel. rewrite F13, F1, decide_True by done.
      destruct (findSlot x (sc_slots s)) as [z|] eqn:Hz; [|done]. intros [= <-]. simpl. by apply (Hold x z). }
    intros x. rewrite F4, F13, F1. destruct (decide (x ∈ rel)) as [Hx|Hx].
    + apply Hrel in Hx as [Hx [y Hy]]. rewrite decide_True, Hy by done. simpl.
      rewrite set_bookable_twice. destruct (Hold x y Hx Hy) as [<- _]. by rewrite set_bookable_same.
    + destruct (decide (x ∈ old_slots req)); [|done]. destruct (findSlot x (sc_slots s)) eqn:Hy; [|done].
      destruct Hx. apply Hrel. by rewrite Hy.
Qed.

(** While the escrow is paused, a confirmation that moves a leg fails, and its
    rollback fails too, silently: every old slot of the moved legs is left free for
    others to book, although the booking keeps its legs. *)
Theorem confirm_paused_frees_slots dn uuid req s :
  confirm_refusal req s = None -> moving req <> [] ->
  exists s', confirmMultiLegReschedule true dn uuid req s =
               (Err (ConfirmFailed (cr_bookingId req) EscrowPausedError), s') /\
    marked true (old_slots req) s s'.
Proof.
  intros Hok Hne. destruct (confirmMultiLegReschedule true dn uuid req s) as [r s'] eqn:Hc.
  assert (new_slots req <> []) as Hn by (unfold new_slots; by destruct (moving req)).
  apply confirm_cases in Hc as [(e & Hbad & _)|(_ & rel & s1 & new & s2 & Hm1 & Hm2 & _ & _ & Hc)]; [congruence|].
  destruct Hc as [(out & _ & _ & _ & _ & Hp)|(e & s3 & -> & Hm3 & -> & Hp)].
  { by destruct Hn, Hp. }
  destruct (Hp eq_refl Hn) as [-> ->]. exists s3. rewrite try_reserve_paused. split; [done|].
  destruct Hm1 as (P1 & B1 & F1), Hm2 as (P2 & B2 & F2), Hm3 as (P3 & B3 & F3).
  split_and!; [congruence..|]. intros x. rewrite F3, F2. simpl. apply F1.
Qed.

End Plan.

(** ** A concrete booking of two legs *)

Definition w_a_slot (id : string) (start : Z) (bookable : bool) : SlotRecord :=
  {| sl_id := id; sl_professional := "bob"; sl_startTime := start; sl_endTime := start + 100;
     sl_bookable := bookable; sl_pricingStrategy := None; sl_validUntil := None; sl_supplierId := None;
     sl_storeId := None; sl_tenantId := None; sl_category := None; sl_transferable := None;
     sl_currency := None; sl_amount_minor := None |}.

Definition w_calendar : Sched InMemorySlots.t :=
  {| sc_slots := {| InMemorySlots.slots :=
       [w_a_slot "a" 1000 false; w_a_slot "b" 1200 false; w_a_slot "c" 1500 true; w_a_slot "d" 1700 true;
        w_a_slot "e" 2000 true; w_a_slot "f" 2200 true] |};
     sc_pausedTenants := ∅; sc_reservedBundles := ∅ |}.

Definition w_leg (id slot : string) (start : Z) : MultiLegBookingLeg :=
  {| lg_legId := id; lg_slotId := slot; lg_professional := "bob"; lg_startTime := of_Z start;
     lg_endTime := of_Z (start + 100); lg_offsetMs := None |}.

Definition w_booking : MultiLegBooking :=
  {| mb_bookingId := "bk"; mb_buyerId := "alice"; mb_tenantId := None;
     mb_legs := [w_leg "l2" "b" 1200; w_leg "l1" "a" 1000]; mb_sagaId := None |}.

Definition w_options (step : num) : RescheduleOptions :=
  {| ro_bookingId := "bk"; ro_buyerId := "alice"; ro_tenantId := None; ro_targetAnchorStartTimeMs := None;
     ro_searchWindow := Some (of_Z 1100, of_Z 2400); ro_legOverrides := None; ro_maxOptions := Some 1;
     ro_searchStepMs := Some step |}.

Definition w_uuid (n : nat) : string := "u".

Definition w_anchors : list num := default [] (candidate_anchors 20 (w_options (of_Z 100)) (of_Z 1000)).

Definition w_planned : list RescheduleCandidateOption := Eval vm_compute in
  match planMultiLegReschedule 20 w_uuid w_calendar w_booking (w_options (of_Z 100)) with
  | Some (Ok l) => l | _ => [] end.

(** The planner finds the move by 500 and prefers it to the one by 1000. *)
Example w_planned_anchor :
  map co_anchorStartTimeMs w_planned = [of_Z 1500] /\ map co_totalDisruptionMs w_planned = [of_Z 1000].
Proof. by vm_compute. Qed.

Lemma plan_terminates_iff_witness :
  ((exists fuel, is_Some (planMultiLegReschedule fuel w_uuid w_calendar w_booking (w_options (Fin 0)))) <-> U <= 0) /\
  ((exists fuel, is_Some (planMultiLegReschedule fuel w_uuid w_calendar w_booking (w_options (Fin U)))) <-> U <= U).
Proof.
  assert (forall n, 0 <= n <= 2400 -> search_bound (of_Z n)) as Hb.
  { intros n Hn. exists (n * U). split; [apply of_Z_exact; lia|]. split; [apply dbl_int; lia|]. pose proof U_pos.
    rewrite Z.abs_eq by (apply Z.mul_nonneg_nonneg; lia). apply Z.mul_le_mono_nonneg_r; lia. }
  assert (forall st, search_ok (w_options st)) as Hok.
  { intros st. split; [exact I|]. split; [apply Hb; lia|]. split; [apply Hb; lia|apply of_Z_mono; lia]. }
  assert (plan_admitted w_calendar w_booking (w_options zero)) as Ha by (split; [reflexivity|split; [discriminate|reflexivity]]).
  split.
  - apply (plan_terminates_iff w_uuid w_calendar w_booking (w_options (Fin 0)) 0); [exact Ha|apply Hok|reflexivity|apply dbl_0|lia].
  - apply (plan_terminates_iff w_uuid w_calendar w_booking (w_options (Fin U)) U); [exact Ha|apply Hok|reflexivity|apply dbl_U|lia].
Defined.

Lemma plan_correct_witness :
  Forall (good_option (slots_list (sc_slots w_calendar)) w_booking (w_options (of_Z 100)) w_anchors) w_planned.
Proof.
  apply Forall_forall.
  apply (plan_correct 20 w_uuid w_calendar w_booking (w_options (of_Z 100)) w_anchors w_planned).
  - intros l Hl. apply elem_of_cons in Hl as [->|Hl]; [vm_compute; reflexivity|].
    apply list_elem_of_singleton in Hl as ->. vm_compute. reflexivity.
  - vm_compute. reflexivity.
  - vm_compute. reflexivity.
Defined.

Definition w_request : ConfirmRescheduleRequest :=
  {| cr_bookingId := "bk"; cr_buyerId := "alice"; cr_optionId := "opt_u";
     cr_candidateOption := default {| co_optionId := ""; co_anchorStartTimeMs := zero; co_legs := [];
       co_totalDisruptionMs := zero; co_disruptionScore := zero; co_isFullyAvailable := true |} (head w_planned);
     cr_multiLegBooking := w_booking |}.

Definition w_confirmed := Eval vm_compute in confirmMultiLegReschedule false 0 "u" w_request w_calendar.

Lemma w_old_reserved x y :
  x ∈ old_slots w_request -> findSlot x (sc_slots w_calendar) = Some y ->
  sl_bookable y = false /\ forall vu, sl_validUntil y = Some vu -> 0 < vu.
Proof.
  change (old_slots w_request) with ["a"; "b"]%string.
  intros Hx. apply elem_of_cons in Hx as [->|Hx%list_elem_of_singleton]; [|subst x]; simpl; by intros [= <-].
Qed.

(** The booking has moved from [a] and [b] to [c] and [d]. *)
Lemma confirm_atomic_witness :
  findSlot "a" (sc_slots (snd w_confirmed)) = Some (w_a_slot "a" 1000 true) /\
  findSlot "c" (sc_slots (snd w_confirmed)) = Some (w_a_slot "c" 1500 false).
Proof.
  destruct (confirm_atomic 0 "u" w_request w_calendar (fst w_confirmed) (snd w_confirmed) w_old_reserved eq_refl)
    as [_ Hslots].
  split; rewrite Hslots; vm_compute; reflexivity.
Defined.

Lemma confirm_paused_frees_slots_witness :
  exists s', confirmMultiLegReschedule true 0 "u" w_request w_calendar =
               (Err (ConfirmFailed "bk" EscrowPausedError), s') /\
    marked true (old_slots w_request) w_calendar s'.
Proof. apply (confirm_paused_frees_slots 0 "u" w_request w_calendar); [reflexivity|done]. Defined.

(** Legs are placed one by one, so two legs of one professional can be given the
    same wide slot; such an option is marked fully available, and its
    confirmation fails on the second reservation. *)
Definition w_wide : Sched InMemorySlots.t :=
  {| sc_slots := {| InMemorySlots.slots :=
       [w_a_slot "a" 1000 false; w_a_slot "b" 1200 false;
        {| sl_id := "wide"; sl_professional := "bob"; sl_startTime := 1500; sl_endTime := 1800;
           sl_bookable := true; sl_pricingStrategy := None; sl_validUntil := None; sl_supplierId := None;
           sl_storeId := None; sl_tenantId := None; sl_category := None; sl_transferable := None;
           sl_currency := None; sl_amount_minor := None |}] |};
     sc_pausedTenants := ∅; sc_reservedBundles := ∅ |}.

Definition w_wide_option : option RescheduleCandidateOption :=
  match planMultiLegReschedule 20 w_uuid w_wide w_booking (w_options (of_Z 100)) with
  | Some (Ok (o :: _)) => Some o | _ => None end.

Example one_slot_for_two_legs :
  (map cl_newSlotId ∘ co_legs <$> w_wide_option) = Some ["wide"; "wide"]%string /\
  (co_isFullyAvailable <$> w_wide_option) = Some true /\
  (o ← w_wide_option;
   Some (fst (confirmMultiLegReschedule false 0 "u"
     {| cr_bookingId := "bk"; cr_buyerId := "alice"; cr_optionId := "opt_u"; cr_candidateOption := o;
        cr_multiLegBooking := w_booking |} w_wide)))
  = Some (Err (ConfirmFailed "bk" (SlotNotBookableError "wide"))).
Proof. by vm_compute. Qed.
