(* ===== verification/Checkout.v ===== *)
(** * Checkout: checkout sessions

    [services/checkout.ts], the data of [types/checkout.ts] and the SQL of
    [modules/checkout/pg-checkout-session-repository.ts].  A handler is a
    program ([Async]) whose events are its interactions: a clock reading, one
    SQL statement, a charge at the payment provider, a Horizon quote.  Audit events and tracing
    spans are not modelled. *)
From stdpp Require Import base list strings gmap relations.
From Stdlib Require Import ZArith Lia.
From S2P Require Import Prelude JsNumber Async.
Local Open Scope Z_scope.

Inductive CheckoutSessionStatus : Type := PENDING | COMPLETED | FAILED | EXPIRED | CANCELLED.

#[export] Instance CheckoutSessionStatus_eq_dec : EqDecision CheckoutSessionStatus.
Proof. solve_decision. Defined.

Inductive MetaValue : Type := MStr (s : string) | MNum (n : num) | MBool (b : bool).

Abbreviation Metadata := (gmap string MetaValue).

Record PaymentInfo : Type := {
  amount : num; currency : string; paymentMethod : string;
  pay_description : option string; asset : option string
}.

Record CheckoutSession : Type := {
  cs_id : string;
  cs_payment : PaymentInfo;
  cs_customerId : string;
  cs_status : CheckoutSessionStatus;
  cs_createdAt : Z;
  cs_expiresAt : Z;
  cs_metadata : option Metadata;
  cs_successUrl : option string;
  cs_cancelUrl : option string;
  cs_paymentToken : option string;
  cs_updatedAt : Z
}.

Inductive CheckoutErrorCode : Type :=
| UNAUTHORIZED | SESSION_NOT_FOUND | SESSION_EXPIRED | INVALID_SESSION_STATE
| PAYMENT_PROVIDER_UNAVAILABLE | INTERNAL_ERROR | PATH_PAYMENT_FAILED
| INVALID_SLIPPAGE_TOLERANCE | INVALID_REFUND_AMOUNT | INVALID_REFUND_WINDOW.

Record CheckoutError : Type := { ce_code : CheckoutErrorCode; ce_status : Z }.

Definition err (c : CheckoutErrorCode) (s : Z) : CheckoutError := {| ce_code := c; ce_status := s |}.

(** ** The repository: one row per session id *)

Abbreviation Table := (gmap string CheckoutSession).

(** The [SET] list of [updateSession]. *)
Record UpdateFields : Type := {
  uf_status : CheckoutSessionStatus;
  uf_updatedAt : Z;
  uf_paymentToken : option string;
  uf_metadata : option Metadata
}.

Definition coalesce {A} (a b : option A) : option A := match a with Some x => Some x | None => b end.

Definition apply_fields (f : UpdateFields) (s : CheckoutSession) : CheckoutSession :=
  {| cs_id := cs_id s; cs_payment := cs_payment s; cs_customerId := cs_customerId s;
     cs_status := uf_status f; cs_createdAt := cs_createdAt s; cs_expiresAt := cs_expiresAt s;
     cs_metadata := coalesce (uf_metadata f) (cs_metadata s);
     cs_successUrl := cs_successUrl s; cs_cancelUrl := cs_cancelUrl s;
     cs_paymentToken := coalesce (uf_paymentToken f) (cs_paymentToken s);
     cs_updatedAt := uf_updatedAt f |}.

Definition repo_findById (id : string) (tbl : Table) : option CheckoutSession := tbl !! id.

(** [UPDATE ... WHERE id = $1 AND status = $6 RETURNING *]: atomic in the
    database. *)
Definition repo_updateSession (id : string) (f : UpdateFields) (expected : CheckoutSessionStatus)
    (tbl : Table) : option CheckoutSession * Table :=
  match tbl !! id with
  | Some s =>
      if bool_decide (cs_status s = expected)
      then (Some (apply_fields f s), <[id := apply_fields f s]> tbl)
      else (None, tbl)
  | None => (None, tbl)
  end.

(** [INSERT]: [None] on a primary-key violation. *)
Definition repo_create (s : CheckoutSession) (tbl : Table) : option CheckoutSession * Table :=
  match tbl !! cs_id s with
  | Some _ => (None, tbl)
  | None => (Some s, <[cs_id s := s]> tbl)
  end.

(** ** Programs *)

Inductive PaymentResult : Type :=
| succeeded (providerRef : string)
| declined (providerRef reason : string).

Record Quote : Type := { quoteId : string; destinationAmount : num }.

(** Arguments [findPathPaymentQuote] is called with. *)
Record QuoteRequest : Type := {
  qr_sourceAmount : num; qr_tenantId : MetaValue; qr_maxSlippagePercent : num
}.

Inductive CheckoutEv : Type -> Type :=
| Now : CheckoutEv Z
| Find (id : string) : CheckoutEv (option CheckoutSession)
| Update (id : string) (f : UpdateFields) (expected : CheckoutSessionStatus)
    : CheckoutEv (option CheckoutSession)
| Insert (s : CheckoutSession) : CheckoutEv (option CheckoutSession)
| Charge (s : CheckoutSession) : CheckoutEv PaymentResult
| GetQuote (q : QuoteRequest) : CheckoutEv (result (option CheckoutError) Quote).

Abbreviation Checkout := (Prog CheckoutEv CheckoutError).

(** ** The service *)

Definition SESSION_TTL_SECONDS : Z := 24 * 60 * 60.

Definition fields (st : CheckoutSessionStatus) (now : Z) : UpdateFields :=
  {| uf_status := st; uf_updatedAt := now; uf_paymentToken := None; uf_metadata := None |}.

Definition updateSession (sessionId : string) (f : UpdateFields) (expected : CheckoutSessionStatus)
    : Checkout CheckoutSession :=
  updated ← perform (Update sessionId f expected);
  need updated (err INVALID_SESSION_STATE 409).

Record CreateRequest : Type := {
  rq_payment : PaymentInfo; rq_customerId : string; rq_metadata : option Metadata;
  rq_successUrl : option string; rq_cancelUrl : option string
}.

(** [verifyJwt] gives the token's subject claim, or [None] when verification
    throws; [uuid] is the [randomUUID()] drawn. *)
Definition createSession (verifyJwt : string -> option (option string)) (uuid : string)
    (request : CreateRequest) (authorizationToken : option string) : Checkout CheckoutSession :=
  _ ← match authorizationToken with
      | Some tok =>
          if str_truthy tok then
            match verifyJwt tok with
            | None => Thr (err UNAUTHORIZED 401)
            | Some sub =>
                match sub with
                | Some s => throw_when (str_truthy s && negb (bool_decide (s = rq_customerId request)))
                              (err UNAUTHORIZED 403)
                | None => mret tt
                end
            end
          else mret tt
      | None => mret tt
      end;
  now ← perform Now;
  let session :=
      {| cs_id := uuid; cs_payment := rq_payment request; cs_customerId := rq_customerId request;
         cs_status := PENDING; cs_createdAt := now; cs_expiresAt := now + SESSION_TTL_SECONDS;
         cs_metadata := rq_metadata request; cs_successUrl := rq_successUrl request;
         cs_cancelUrl := rq_cancelUrl request; cs_paymentToken := None; cs_updatedAt := now |} in
  created ← perform (Insert session);
  need created (err INTERNAL_ERROR 500).

Definition getSession (sessionId : string) : Checkout CheckoutSession :=
  found ← perform (Find sessionId);
  session ← need found (err SESSION_NOT_FOUND 404);
  now ← perform Now;
  if (cs_expiresAt session <? now) && bool_decide (cs_status session = PENDING) then
    _ ← updateSession sessionId (fields EXPIRED now) PENDING;
    Thr (err SESSION_EXPIRED 410)
  else if bool_decide (cs_status session = EXPIRED) then Thr (err SESSION_EXPIRED 410)
  else mret session.

(** The guard shared by complete, fail, cancel and pay. *)
Definition require_pending (session : CheckoutSession) : Checkout unit :=
  throw_when (negb (bool_decide (cs_status session = PENDING))) (err INVALID_SESSION_STATE 409).

Definition completeSession (sessionId : string) (paymentToken : option string)
    : Checkout CheckoutSession :=
  session ← getSession sessionId;
  _ ← require_pending session;
  now ← perform Now;
  updateSession sessionId
    {| uf_status := COMPLETED; uf_updatedAt := now; uf_paymentToken := paymentToken;
       uf_metadata := None |} PENDING.

Definition failSession (sessionId : string) (reason : option string) : Checkout CheckoutSession :=
  session ← getSession sessionId;
  _ ← require_pending session;
  let metadata := <["failureReason" := MStr (default "Unknown" reason)]>
                    (default ∅ (cs_metadata session)) in
  now ← perform Now;
  updateSession sessionId
    {| uf_status := FAILED; uf_updatedAt := now; uf_paymentToken := None;
       uf_metadata := Some metadata |} PENDING.

Definition cancelSession (sessionId : string) : Checkout CheckoutSession :=
  session ← getSession sessionId;
  _ ← require_pending session;
  now ← perform Now;
  updateSession sessionId (fields CANCELLED now) PENDING.

(** [haveProvider]: a provider is configured, or the mock one applies outside
    production. *)
Definition paySession (haveProvider : bool) (sessionId : string) : Checkout CheckoutSession :=
  session ← getSession sessionId;
  _ ← require_pending session;
  _ ← throw_when (negb haveProvider) (err PAYMENT_PROVIDER_UNAVAILABLE 503);
  result ← perform (Charge session);
  match result with
  | succeeded ref => completeSession sessionId (Some ref)
  | declined _ reason => failSession sessionId (Some reason)
  end.

(** ** Slippage configuration *)

Abbreviation SlippageConfig := (gmap string num).

Definition defaultSlippageTolerancePercent : num := lit 5 10.

Definition setTenantSlippageTolerance (tenantId : string) (tolerancePercent : num)
    (c : SlippageConfig) : result CheckoutError SlippageConfig :=
  _ ← throw_if (ltb tolerancePercent zero || gtb tolerancePercent (of_Z 50))
        (err INVALID_SLIPPAGE_TOLERANCE 400);
  mret (<[tenantId := tolerancePercent]> c).

Definition getTenantSlippageTolerance (tenantId : option string) (c : SlippageConfig) : num :=
  match tenantId with
  | Some t => if str_truthy t then default defaultSlippageTolerancePercent (c !! t)
              else defaultSlippageTolerancePercent
  | None => defaultSlippageTolerancePercent
  end.

Record PathRefundRequest : Type := {
  pr_sessionId : string; pr_tenantId : option string; pr_refundAmount : num;
  pr_slippageTolerancePercent : option num
}.

(** [(session.metadata?.tenantId as string) ?? "default"]: the cast is not
    checked, so any metadata value may come through. *)
Definition meta_tenant (session : CheckoutSession) : MetaValue :=
  default (MStr "default") (cs_metadata session ≫= (fun m => m !! "tenantId"%string)).

Definition tolerance_for (tenant : MetaValue) (c : SlippageConfig) : num :=
  match tenant with
  | MStr t => getTenantSlippageTolerance (Some t) c
  | _ => defaultSlippageTolerancePercent
  end.

Definition processPartialRefundPathPayment (config : SlippageConfig) (haveClient : bool)
    (request : PathRefundRequest) : Checkout (CheckoutSession * Quote) :=
  session ← getSession (pr_sessionId request);
  _ ← throw_when (negb (bool_decide (cs_status session = COMPLETED))) (err INVALID_SESSION_STATE 409);
  let tenantId := default (meta_tenant session) (MStr <$> pr_tenantId request) in
  let tenantTolerance := tolerance_for tenantId config in
  let maxSlippage :=
    match pr_slippageTolerancePercent request with
    | Some p => math_min p tenantTolerance
    | None => tenantTolerance
    end in
  _ ← throw_when (negb haveClient) (err INTERNAL_ERROR 500);
  q ← perform (GetQuote {| qr_sourceAmount := pr_refundAmount request; qr_tenantId := tenantId;
                           qr_maxSlippagePercent := maxSlippage |});
  match q with
  | Err (Some e) => Thr e
  | Err None => Thr (err PATH_PAYMENT_FAILED 400)
  | Ok quote =>
      let metadata :=
        <["lastPartialRefundDestinationAmount" := MNum (destinationAmount quote)]>
        (<["lastPartialRefundQuoteId" := MStr (quoteId quote)]>
           (default ∅ (cs_metadata session))) in
      now ← perform Now;
      s ← updateSession (pr_sessionId request)
            {| uf_status := cs_status session; uf_updatedAt := now; uf_paymentToken := None;
               uf_metadata := Some metadata |} COMPLETED;
      mret (s, quote)
  end.

(** ** Duration-based refunds *)

Record DurationRefund : Type := {
  dr_refundAmountCents : num; dr_consumedRatio : num; dr_remainingRatio : num
}.

(** The timing window is in integer milliseconds, hence finite; [nowMs] may be
    any number (an administrator can supply it). *)
Definition calculateDurationBasedRefund (amountCents : num) (startTimeMs endTimeMs : Z) (nowMs : num)
    : result CheckoutError DurationRefund :=
  _ ← throw_if (negb (is_finite amountCents) || ltb amountCents zero) (err INVALID_REFUND_AMOUNT 400);
  if endTimeMs <=? startTimeMs then
    mret {| dr_refundAmountCents := zero; dr_consumedRatio := one; dr_remainingRatio := zero |}
  else
    let totalMs := sub (of_Z endTimeMs) (of_Z startTimeMs) in
    let consumedMs := math_min (math_max (sub nowMs (of_Z startTimeMs)) zero) totalMs in
    let consumedRatio := if eqb totalMs zero then one else div consumedMs totalMs in
    let remainingRatio := math_max zero (math_min one (sub one consumedRatio)) in
    mret {| dr_refundAmountCents := math_round (mul amountCents remainingRatio);
            dr_consumedRatio := consumedRatio; dr_remainingRatio := remainingRatio |}.

(** ** Sequential execution *)

(** The sessions, and the charges that went through at the provider. *)
Record World : Type := { w_table : Table; w_charges : list (string * string) }.

Definition with_table (tbl : Table) (w : World) : World :=
  {| w_table := tbl; w_charges := w_charges w |}.

Definition add_charge (sessionId ref : string) (w : World) : World :=
  {| w_table := w_table w; w_charges := w_charges w ++ [(sessionId, ref)] |}.

Section Run.
Context (now : Z) (charge : CheckoutSession -> PaymentResult)
  (quote : QuoteRequest -> result (option CheckoutError) Quote).

Definition handle (X : Type) (ev : CheckoutEv X) (w : World) : X * World :=
  match ev with
  | Now => (now, w)
  | Find id => (repo_findById id (w_table w), w)
  | Update id f ex =>
      let '(o, tbl) := repo_updateSession id f ex (w_table w) in (o, with_table tbl w)
  | Insert s => let '(o, tbl) := repo_create s (w_table w) in (o, with_table tbl w)
  | Charge s =>
      (charge s, match charge s with succeeded ref => add_charge (cs_id s) ref w | _ => w end)
  | GetQuote q => (quote q, w)
  end.

Abbreviation run1 := (run handle).

(** The contract of the settling operations: what a request to move a pending
    session to its final state does to the table. *)
Definition settle_spec (id : string) (f : CheckoutSession -> UpdateFields) (w : World)
    : result CheckoutError CheckoutSession * World :=
  match w_table w !! id with
  | None => (Err (err SESSION_NOT_FOUND 404), w)
  | Some s =>
      let put f := with_table (<[id := apply_fields f s]> (w_table w)) w in
      match cs_status s with
      | EXPIRED => (Err (err SESSION_EXPIRED 410), w)
      | PENDING =>
          if cs_expiresAt s <? now
          then (Err (err SESSION_EXPIRED 410), put (fields EXPIRED now))
          else (Ok (apply_fields (f s) s), put (f s))
      | _ => (Err (err INVALID_SESSION_STATE 409), w)
      end
  end.

Lemma run_update id f ex w :
  run1 (updateSession id f ex) w =
  match repo_updateSession id f ex (w_table w) with
  | (Some s, tbl) => (Ok s, with_table tbl w)
  | (None, tbl) => (Err (err INVALID_SESSION_STATE 409), with_table tbl w)
  end.
Proof. simpl. by destruct (repo_updateSession id f ex (w_table w)) as [[s|] tbl']. Qed.

Lemma run_getSession id w :
  run1 (getSession id) w =
  match w_table w !! id with
  | None => (Err (err SESSION_NOT_FOUND 404), w)
  | Some s =>
      if bool_decide (cs_status s = EXPIRED) then (Err (err SESSION_EXPIRED 410), w)
      else if bool_decide (cs_status s = PENDING) && (cs_expiresAt s <? now)
      then (Err (err SESSION_EXPIRED 410),
            with_table (<[id := apply_fields (fields EXPIRED now) s]> (w_table w)) w)
      else (Ok s, w)
  end.
Proof.
  unfold getSession. simpl. unfold repo_findById. destruct (w_table w !! id) as [s|] eqn:E; [|done].
  simpl. destruct (cs_status s) eqn:Es; rewrite ?andb_false_r; try done.
  destruct (cs_expiresAt s <? now); [|done]. simpl.
  unfold repo_updateSession. rewrite E, Es. done.
Qed.

(** Settling: read, check, compare-and-set. *)
Lemma run_settle id (f : CheckoutSession -> Z -> UpdateFields) w :
  run1 (session ← getSession id; _ ← require_pending session;
        n ← perform Now; updateSession id (f session n) PENDING) w =
  settle_spec id (fun s => f s now) w.
Proof.
  rewrite run_bind, run_getSession. unfold settle_spec.
  destruct (w_table w !! id) as [s|] eqn:E; [|done].
  destruct (cs_status s) eqn:Es; simpl; unfold require_pending, throw_when;
    rewrite ?Es; simpl; try done.
  destruct (cs_expiresAt s <? now); simpl; [done|].
  rewrite Es. simpl. unfold repo_updateSession. rewrite E, Es. done.
Qed.

(** (C13) The settling operations implement their contract on every branch: 404 for
    an unknown session, 410 for an expired one (persisting the expiry when it is
    discovered), 409 for a session settled otherwise, and, for a live pending
    session, exactly one row update to the new state. *)
Theorem settle_refines id tok reason w :
  run1 (completeSession id tok) w =
    settle_spec id (fun _ => {| uf_status := COMPLETED; uf_updatedAt := now;
                                uf_paymentToken := tok; uf_metadata := None |}) w /\
  run1 (cancelSession id) w = settle_spec id (fun _ => fields CANCELLED now) w /\
  run1 (failSession id reason) w =
    settle_spec id (fun s => {| uf_status := FAILED; uf_updatedAt := now; uf_paymentToken := None;
       uf_metadata := Some (<["failureReason" := MStr (default "Unknown" reason)]>
                              (default ∅ (cs_metadata s))) |}) w.
Proof.
  split_and!.
  - apply (run_settle id (fun _ n => {| uf_status := COMPLETED; uf_updatedAt := n;
             uf_paymentToken := tok; uf_metadata := None |})).
  - apply (run_settle id (fun _ n => fields CANCELLED n)).
  - apply (run_settle id (fun s n => {| uf_status := FAILED; uf_updatedAt := n;
             uf_paymentToken := None;
             uf_metadata := Some (<["failureReason" := MStr (default "Unknown" reason)]>
                              (default ∅ (cs_metadata s))) |})).
Qed.
End Run.

(** ** Duration-based refunds are bounded and decrease with time *)

Section DurationRefunds.
Context (n startMs endMs : Z).
Hypothesis Hn : 0 <= n <= 2 ^ 53.
Hypothesis Hs : Z.abs startMs <= 2 ^ 52.
Hypothesis He : Z.abs endMs <= 2 ^ 52.
Hypothesis Hlt : startMs < endMs.

(** Milliseconds of the session consumed at [now]. *)
Definition consumed (now : Z) : Z := Z.min (Z.max (now - startMs) 0) (endMs - startMs).

Lemma duration_refund_value now :
  Z.abs now <= 2 ^ 52 ->
  exists q p k r,
    div (Fin (consumed now * U)) (Fin ((endMs - startMs) * U)) = Fin q /\
    sub one (Fin q) = Fin p /\
    math_round (mul (Fin (n * U)) (Fin p)) = Fin (k * U) /\
    calculateDurationBasedRefund (of_Z n) startMs endMs (of_Z now) = Ok r /\
    dr_refundAmountCents r = Fin (k * U) /\ 0 <= q <= U /\ 0 <= p <= U /\ 0 <= k <= n.
Proof.
  intros Hnow. pose proof U_pos. unfold consumed.
  set (c := Z.min (Z.max (now - startMs) 0) (endMs - startMs)).
  destruct (div_ratio (c * U) ((endMs - startMs) * U)) as (q & Eq & _ & Hq); [unfold c; nia|nia|].
  destruct (sub_between 0 U U q) as (p & Ep & _ & Hp); [auto with jsnum..|lia|].
  destruct (round_share_range n p Hn Hp) as (k & Ek & Hk).
  exists q, p, k. unfold calculateDurationBasedRefund.
  rewrite (of_Z_exact n) by lia. rewrite !ms_until_exact by done.
  simpl is_finite. simpl ltb. destruct (Z.ltb_spec (n * U) 0); [nia|].
  destruct (Z.leb_spec endMs startMs); [lia|]. simpl throw_if. change zero with (Fin (0 * U)).
  rewrite max_cents, min_cents. fold c. simpl eqb.
  destruct (Z.eqb_spec ((endMs - startMs) * U) (0 * U)); [nia|]. rewrite Eq.
  unfold one in *. rewrite Ep.
  replace (math_min (Fin U) (Fin p)) with (Fin p)
    by (unfold math_min; simpl; destruct (Z.ltb_spec p U); f_equal; lia).
  replace (math_max (Fin (0 * U)) (Fin p)) with (Fin p)
    by (unfold math_max; simpl ltb; rewrite Z.mul_0_l; destruct (Z.ltb_spec 0 p); f_equal; lia).
  eexists. split_and!; done || lia.
Qed.

(** Duration-based refunds: the computation returns for every clock value;
    the refund is a whole number of cents between nothing and the amount, the
    full amount before the session starts and nothing once it has ended; and
    cancelling later never refunds more. *)
Theorem duration_refund_correct now1 now2 :
  Z.abs now1 <= 2 ^ 52 -> Z.abs now2 <= 2 ^ 52 -> now1 <= now2 ->
  exists r1 r2 k1 k2,
    calculateDurationBasedRefund (of_Z n) startMs endMs (of_Z now1) = Ok r1 /\
    calculateDurationBasedRefund (of_Z n) startMs endMs (of_Z now2) = Ok r2 /\
    dr_refundAmountCents r1 = Fin (k1 * U) /\ dr_refundAmountCents r2 = Fin (k2 * U) /\
    0 <= k2 <= k1 /\ k1 <= n /\
    (now1 <= startMs -> k1 = n) /\ (endMs <= now2 -> k2 = 0).
Proof.
  intros H1 H2 Hle. pose proof U_pos.
  destruct (duration_refund_value now1 H1) as (q1&p1&k1&r1&Q1&P1&K1&R1&V1&B1&C1&D1).
  destruct (duration_refund_value now2 H2) as (q2&p2&k2&r2&Q2&P2&K2&R2&V2&B2&C2&D2).
  exists r1, r2, k1, k2.
  assert (q1 <= q2) by (eapply div_mono_l; [| |exact Q1|exact Q2]; unfold consumed; nia).
  assert (p2 <= p1) by (eapply sub_mono; [|exact P2|exact P1]; lia).
  assert (k2 <= k1).
  { pose proof (round_le _ _ (mul_le_r (n * U) p2 p1 ltac:(nia) ltac:(lia))) as Hm.
    rewrite K1, K2, leb_fin, Z.leb_le in Hm. nia. }
  split_and!; try done; try lia.
  - intros Hb. replace (consumed now1) with 0 in Q1 by (unfold consumed; lia).
    assert (q1 = 0) as ->.
    { destruct (div_ratio 0 ((endMs - startMs) * U)) as (c & Ec & _ & _); [nia|nia|].
      unfold div in Q1. destruct (Z.eqb_spec ((endMs - startMs) * U) 0); [nia|].
      destruct (Z.ltb_spec 0 ((endMs - startMs) * U)); [|nia].
      rewrite !Z.mul_0_l, rnd_0 in Q1 by done. rewrite norm_fin in Q1 by (pose proof HUGE_pos; lia). congruence. }
    unfold one in P1. rewrite sub_exact in P1 by (rewrite Z.sub_0_r; apply dbl_U).
    rewrite Z.sub_0_r in P1. simplify_eq. rewrite mul_one_r in K1 by (apply dbl_int; lia).
    rewrite round_int in K1. injection K1. nia.
  - intros Hb. replace (consumed now2) with (endMs - startMs) in Q2 by (unfold consumed; lia).
    assert (q2 = U) as ->.
    { unfold div in Q2. destruct (Z.eqb_spec ((endMs - startMs) * U) 0); [nia|].
      destruct (Z.ltb_spec 0 ((endMs - startMs) * U)); [|nia].
      rewrite (Z.mul_comm _ U), rnd_exact in Q2 by (done || apply dbl_U).
      rewrite norm_fin in Q2 by apply dbl_U. congruence. }
    unfold one in P2. rewrite sub_exact in P2 by (rewrite Z.sub_diag; apply dbl_0).
    rewrite Z.sub_diag in P2. simplify_eq. change (Fin 0) with zero in K2.
    rewrite mul_zero_r in K2. change 0 with (0 * U) in K2. rewrite round_int in K2.
    injection K2. nia.
Qed.
End DurationRefunds.

(** ** Concurrent requests *)

Inductive request : Checkout unit -> Prop :=
| rq_create vj uuid rq tok : request (forget (createSession vj uuid rq tok))
| rq_get id : request (forget (getSession id))
| rq_complete id tok : request (forget (completeSession id tok))
| rq_fail id reason : request (forget (failSession id reason))
| rq_cancel id : request (forget (cancelSession id))
| rq_pay hp id : request (forget (paySession hp id))
| rq_path_refund cfg hc rq : request (forget (processPartialRefundPathPayment cfg hc rq)).

(** The database executes a statement atomically; the clock, the provider and
    the quote service answer anything. *)
Definition exec (X : Type) (ev : CheckoutEv X) (w : World) : X -> World -> Prop :=
  match ev in CheckoutEv X return X -> World -> Prop with
  | Now => fun _ w' => w' = w
  | Find id => fun o w' => o = repo_findById id (w_table w) /\ w' = w
  | Update id f ex => fun o w' =>
      exists tbl, repo_updateSession id f ex (w_table w) = (o, tbl) /\ w' = with_table tbl w
  | Insert s => fun o w' =>
      exists tbl, repo_create s (w_table w) = (o, tbl) /\ w' = with_table tbl w
  | Charge s => fun r w' =>
      w' = match r with succeeded ref => add_charge (cs_id s) ref w | declined _ _ => w end
  | GetQuote _ => fun _ w' => w' = w
  end.

Abbreviation csteps := (rtc (step exec request)).

(** The writes the code ever asks the database for. *)
Definition legal_update (ex st : CheckoutSessionStatus) : Prop :=
  (ex = PENDING /\ st <> PENDING) \/ (ex = COMPLETED /\ st = COMPLETED).

Definition legal (X : Type) (ev : CheckoutEv X) : Prop :=
  match ev with
  | Update _ f ex => legal_update ex (uf_status f)
  | Insert s => cs_status s = PENDING
  | _ => True
  end.

Lemma legal_updateSession id f ex :
  legal_update ex (uf_status f) -> all_events legal (updateSession id f ex).
Proof. intros. apply all_events_bind; auto with events. Qed.

Lemma legal_getSession id : all_events legal (getSession id).
Proof.
  apply all_events_bind; [by apply all_events_perform|]. intros o.
  apply all_events_bind; [auto with events|]. intros s.
  apply all_events_bind; [by apply all_events_perform|]. intros z.
  case_match; [|by case_match]. apply all_events_bind; [|done].
  apply legal_updateSession. by left.
Qed.

#[local] Hint Resolve legal_updateSession legal_getSession : events.

Lemma legal_settle id (f : CheckoutSession -> Z -> UpdateFields) :
  (forall s z, uf_status (f s z) <> PENDING) ->
  all_events legal (session ← getSession id; _ ← require_pending session;
                    n ← perform Now; updateSession id (f session n) PENDING).
Proof.
  intros Hf. apply all_events_bind; [auto with events|]. intros s.
  apply all_events_bind; [apply all_events_throw_when|]. intros _.
  apply all_events_bind; [by apply all_events_perform|]. intros z.
  apply legal_updateSession. left. split; [done|apply Hf].
Qed.

Lemma legal_complete id tok : all_events legal (completeSession id tok).
Proof.
  by apply (legal_settle id (fun _ n => {| uf_status := COMPLETED; uf_updatedAt := n;
             uf_paymentToken := tok; uf_metadata := None |})).
Qed.

Lemma legal_fail id reason : all_events legal (failSession id reason).
Proof.
  by apply (legal_settle id (fun s n => {| uf_status := FAILED; uf_updatedAt := n;
             uf_paymentToken := None; uf_metadata := _ |})).
Qed.

Lemma legal_path_refund cfg hc rq : all_events legal (processPartialRefundPathPayment cfg hc rq).
Proof.
  apply all_events_bind; [auto with events|]. intros s.
  apply all_events_guarded. intros Hs%negb_false_iff%bool_decide_eq_true.
  apply all_events_guarded. intros _.
  apply all_events_bind; [by apply all_events_perform|]. intros [q|[e|]]; [|done..].
  apply all_events_bind; [by apply all_events_perform|]. intros z.
  apply all_events_bind; [|done]. apply legal_updateSession. right. done.
Qed.

Lemma request_legal p : request p -> all_events legal p.
Proof.
  intros [vj uuid rq tok|id|id tok|id reason|id|hp id|cfg hc rq]; apply all_events_forget.
  - apply all_events_bind.
    + destruct tok as [tok|]; [|done]. case_match; [|done].
      destruct (vj tok) as [[s|]|]; auto with events; done.
    + intros _. apply all_events_bind; [by apply all_events_perform|]. intros z.
      apply all_events_bind; auto with events. by apply all_events_perform.
  - apply legal_getSession.
  - apply legal_complete.
  - apply legal_fail.
  - by apply (legal_settle id (fun _ n => fields CANCELLED n)).
  - apply all_events_bind; [auto with events|]. intros s.
    apply all_events_bind; [apply all_events_throw_when|]. intros _.
    apply all_events_bind; [apply all_events_throw_when|]. intros _.
    apply all_events_bind; [by apply all_events_perform|].
    intros [ref|ref reason]; [apply legal_complete|apply legal_fail].
  - apply legal_path_refund.
Qed.

(** How a row may evolve: identity, payment and expiry are fixed for good, and
    a session that has left [PENDING] keeps its status. *)
Definition row_evolves (s s' : CheckoutSession) : Prop :=
  cs_id s' = cs_id s /\ cs_payment s' = cs_payment s /\ cs_customerId s' = cs_customerId s /\
  cs_createdAt s' = cs_createdAt s /\ cs_expiresAt s' = cs_expiresAt s /\
  (cs_status s <> PENDING -> cs_status s' = cs_status s).

#[local] Instance row_evolves_preorder : PreOrder row_evolves.
Proof.
  split.
  - intros s. unfold row_evolves. naive_solver.
  - intros s1 s2 s3 (?&?&?&?&?&Hst) (?&?&?&?&?&Hst'). unfold row_evolves.
    split_and!; try congruence.
    intros Hp. rewrite <- (Hst Hp). apply Hst'. by rewrite (Hst Hp).
Qed.

Definition table_evolves (t t' : Table) : Prop :=
  forall id s, t !! id = Some s -> exists s', t' !! id = Some s' /\ row_evolves s s'.

#[local] Instance table_evolves_preorder : PreOrder table_evolves.
Proof.
  split.
  - intros t id s H. exists s. split; [done|reflexivity].
  - intros t1 t2 t3 H1 H2 id s H. destruct (H1 id s H) as (s2 & E2 & R2).
    destruct (H2 id s2 E2) as (s3 & E3 & R3). exists s3. split; [done|by etrans].
Qed.

Lemma session_update_evolves id f ex tbl o tbl' :
  legal_update ex (uf_status f) -> repo_updateSession id f ex tbl = (o, tbl') ->
  table_evolves tbl tbl'.
Proof.
  intros Hl Hu. unfold repo_updateSession in Hu.
  destruct (tbl !! id) as [s|] eqn:E; [|by simplify_eq].
  case_bool_decide as Hex; [|by simplify_eq]. injection Hu as <- <-.
  intros i u Hi. destruct (decide (i = id)) as [->|Hne].
  - rewrite lookup_insert_eq. simplify_eq. eexists. split; [done|].
    unfold row_evolves. simpl. split_and!; try done.
    intros Hp. destruct Hl as [[? _]|[? ->]]; congruence.
  - rewrite lookup_insert_ne by done. exists u. split; [done|reflexivity].
Qed.

Lemma session_create_evolves s tbl o tbl' :
  repo_create s tbl = (o, tbl') -> table_evolves tbl tbl'.
Proof.
  unfold repo_create. destruct (tbl !! cs_id s) eqn:E; intros [= <- <-]; [reflexivity|].
  intros i u Hi. rewrite lookup_insert_ne by congruence. exists u. split; [done|reflexivity].
Qed.

Definition world_evolves (w w' : World) : Prop := table_evolves (w_table w) (w_table w').

#[local] Instance world_evolves_preorder : PreOrder world_evolves.
Proof. unfold world_evolves. split; [intros w; reflexivity|intros w1 w2 w3; apply transitivity]. Qed.

Lemma checkout_exec_evolves X (ev : CheckoutEv X) w x w' :
  legal X ev -> exec X ev w x w' -> world_evolves w w'.
Proof.
  unfold world_evolves. destruct ev; simpl; intros Hl He.
  - by subst.
  - by destruct He as [_ ->].
  - destruct He as (tbl & Hu & ->). simpl. by eapply session_update_evolves.
  - destruct He as (tbl & Hc & ->). simpl. by eapply session_create_evolves.
  - subst. by destruct x.
  - by subst.
Qed.

(** (C14) Under any interleaving of any requests (create, get, complete, fail,
    cancel, pay, path-payment refund), a checkout session is never lost, its
    identity, amount, customer and expiry never change, and once it is
    completed, failed, expired or cancelled it stays so. *)
Theorem checkout_settled_once w c' id s :
  csteps {| cf_state := w; cf_pool := [] |} c' ->
  w_table w !! id = Some s ->
  exists s', w_table (cf_state c') !! id = Some s' /\ row_evolves s s'.
Proof.
  intros Hr Hs.
  assert (world_evolves w (cf_state c')) as He
    by (apply (steps_preserve exec request legal world_evolves _ _ checkout_exec_evolves request_legal Hr);
        constructor).
  by apply (He id s).
Qed.

(** ** A charge can outlive its session

    [paySession] charges before it re-reads the session: a cancellation that
    commits in between makes the completion fail with 409 although the provider
    was charged, and nothing in the handler reverses the charge. *)

Definition w_session : CheckoutSession :=
  {| cs_id := "cs1"; cs_payment := {| amount := of_Z 500; currency := "USD";
       paymentMethod := "credit_card"; pay_description := None; asset := None |};
     cs_customerId := "cust"; cs_status := PENDING; cs_createdAt := 0; cs_expiresAt := 86400;
     cs_metadata := None; cs_successUrl := None; cs_cancelUrl := None;
     cs_paymentToken := None; cs_updatedAt := 0 |}.

Definition w_cancelled : CheckoutSession := apply_fields (fields CANCELLED 2) w_session.

Definition w_start : World := {| w_table := {[ "cs1" := w_session ]}; w_charges := [] |}.

Definition w_settled : World :=
  {| w_table := <["cs1" := w_cancelled]> (w_table w_start); w_charges := [] |}.

Lemma checkout_handle_exec now charge quote X (ev : CheckoutEv X) w :
  exec X ev w (fst (handle now charge quote X ev w)) (snd (handle now charge quote X ev w)).
Proof.
  destruct ev; simpl; try done.
  - destruct (repo_updateSession id f expected (w_table w)); eauto.
  - destruct (repo_create s (w_table w)); eauto.
Qed.

(** A provider that accepts every charge; no path payments. *)
Definition accepting (now : Z) : forall X, CheckoutEv X -> World -> X * World :=
  handle now (fun _ => succeeded "ref-1") (fun _ => Err None).

(** The payment reads and charges; then the cancellation runs; then the payment
    goes on. *)
Definition w_race : Config CheckoutEv CheckoutError World :=
  follow accepting
    [(0%nat, 1); (0%nat, 1); (0%nat, 1); (1%nat, 2); (1%nat, 2); (1%nat, 2); (1%nat, 2);
     (0%nat, 2); (0%nat, 2)]
    {| cf_state := w_start;
       cf_pool := [forget (paySession true "cs1"); forget (cancelSession "cs1")] |}.

(** The charge of [paySession] is not covered by the compare-and-set on the
    session: from one pending session, a payment and a cancellation of the same
    session interleave so that the provider has been charged, the session is
    cancelled, and no handler is left that would reverse the charge (the paying
    request has thrown 409). *)
Theorem charge_outlives_cancelled_session :
  exists c' s',
    csteps {| cf_state := w_start; cf_pool := [] |} c' /\
    w_table (cf_state c') !! "cs1"%string = Some s' /\ cs_status s' = CANCELLED /\
    w_charges (cf_state c') = [("cs1", "ref-1")]%string /\
    cf_pool c' = [Thr (err INVALID_SESSION_STATE 409); Ret tt].
Proof.
  exists w_race, w_cancelled. split_and!; [|vm_compute; reflexivity..].
  etrans; [|apply follow_steps; intros; apply checkout_handle_exec].
  apply (admit_steps _ _ _ [] [_; _]). repeat constructor.
Qed.

Lemma duration_refund_correct_witness :
  exists r1 r2 k1 k2,
    calculateDurationBasedRefund (of_Z 1000) 0 100 (of_Z 25) = Ok r1 /\
    calculateDurationBasedRefund (of_Z 1000) 0 100 (of_Z 120) = Ok r2 /\
    dr_refundAmountCents r1 = Fin (k1 * U) /\ dr_refundAmountCents r2 = Fin (k2 * U) /\
    0 <= k2 <= k1 /\ k1 <= 1000 /\ (25 <= 0 -> k1 = 1000) /\ (100 <= 120 -> k2 = 0).
Proof. apply (duration_refund_correct 1000 0 100); lia. Defined.

Definition w_after_get : Config CheckoutEv CheckoutError World :=
  follow accepting [(0%nat, 3); (0%nat, 3)]
    {| cf_state := w_settled; cf_pool := [forget (getSession "cs1")] |}.

Lemma checkout_settled_once_witness :
  exists s', w_table (cf_state w_after_get) !! "cs1"%string = Some s' /\ row_evolves w_cancelled s'.
Proof.
  apply (checkout_settled_once w_settled); [|vm_compute; reflexivity].
  etrans; [|apply follow_steps; intros; apply checkout_handle_exec].
  apply (admit_steps _ _ _ [] [_]). repeat constructor.
Defined.
