(* ===== verification/BookingService.v ===== *)
(** * BookingService: the booking-intent service

    [BookingIntentService] of [modules/booking-intents/booking-intent-service.ts]
    and [assertBundleTransferable] of [services/bundleTransferabilityService.ts].
    Each method is a program over the events below; [handle] interprets the
    repository events in the laws' stores, and [exec] adds the freedom of the
    outside world (clocks, exchange rates, the strike service, the escrow
    pause switch) for concurrent executions. *)
From stdpp Require Import base list strings gmap relations.
From Stdlib Require Import ZArith Lia.
From S2P Require Import Prelude JsNumber Async Domain Pricing HoldFee Cancellation BookingRepo SlotRepo Scheduling Checkout.
Local Open Scope Z_scope.

Inductive BookingErr : Type :=
| BookingIntentError (status : Z) (code : option string)
| PricingThrew (e : PricingError)
| PolicyThrew (e : PolicyError)
| RepoThrew (e : RepoError)
| SchedulingThrew (e : SchedulingError)
| RefundThrew (e : CheckoutError)
| StrikeThrew
| ExpansionThrew.

Definition http (status : Z) : BookingErr := BookingIntentError status None.
Definition BUNDLE_EXPIRED : BookingErr := BookingIntentError 422 (Some "BUNDLE_EXPIRED"%string).
Definition BUNDLE_NOT_TRANSFERABLE : BookingErr :=
  BookingIntentError 422 (Some "BUNDLE_NOT_TRANSFERABLE"%string).
Definition HOLD_EXPIRED : BookingErr := BookingIntentError 409 (Some "HOLD_EXPIRED"%string).

Record StrikeRequest : Type := {
  sr_buyerId : string; sr_intentId : string; sr_slotId : string; sr_reason : string; sr_issuedAt : Z
}.

(** The interactions of the service, and of the escrow projector that shares its
    stores ([LatestIntentBySlot] is used by the latter only).  [EscrowPaused] reads the module-level
    migration switch; [DateNow] is the global clock, which [reserveSlot] uses
    because the service does not pass its own. *)
Inductive Ev : Type -> Type :=
| NowMs : Ev Z
| NowIso : Ev string
| DateNow : Ev Z
| EscrowPaused : Ev bool
| SlotById (slotId : string) : Ev (option SlotRecord)
| ListSlots : Ev (list SlotRecord)
| ReserveSlot (paused : bool) (dateNow : Z) (slotId : string) : Ev (result SchedulingError unit)
| ReleaseSlot (slotId : string) : Ev (result SchedulingError unit)
| IntentById (id : string) : Ev (option BookingIntentRecord)
| IntentBySlot (slotId : string) : Ev (option BookingIntentRecord)
| IntentBySlotAndCustomer (slotId customerId : string) : Ev (option BookingIntentRecord)
| LatestIntentBySlot (slotId : string) : Ev (option BookingIntentRecord)
| AllIntents : Ev (list BookingIntentRecord)
| IntentsOf (customerId : string) : Ev (list BookingIntentRecord)
| CreateIntent (i : NewIntent) : Ev (result RepoError BookingIntentRecord)
| UpdateIntent (id : string) (us : list IntentField) : Ev (result RepoError BookingIntentRecord)
| UpdateStatus (id : string) (s : BookingIntentStatus) : Ev (result RepoError BookingIntentRecord)
| FxRate (base target : string) : Ev (option num)
| GraceSeconds (category : option string) : Ev num
| IssueStrike (r : StrikeRequest) : Ev (option (string * bool)).

Abbreviation Handler := (Prog Ev BookingErr).

(** What the constructor fixes. *)
Record ServiceEnv : Type := {
  se_policies : VersionedPolicyRegistry;
  se_overrides : OverrideStore;
  se_holdFees : HoldFeePolicyRegistry;
  se_hasFxProvider : bool;
  se_noShowGraceMs : option num
}.

Inductive ConstructorError : Type := RangeError.

(** The constructor's validation of [options.noShowGraceMs]. *)
Definition noShowGraceMs_option (o : option num) : result ConstructorError (option num) :=
  match o with
  | None => mret None
  | Some g =>
      _ ← throw_if (negb (is_finite g) || ltb g zero) RangeError;
      mret (Some (math_floor g))
  end.

Section Service.
Context (env : ServiceEnv).

Definition policy_env (nowMs : Z) : PolicyEnv :=
  {| pe_registry := se_policies env; pe_overrides := Some (se_overrides env); pe_nowMs := nowMs |}.

Definition resolveNoShowGraceMs (slotId : string) : Handler num :=
  match se_noShowGraceMs env with
  | Some g => mret g
  | None =>
      slot ← perform (SlotById slotId);
      secs ← perform (GraceSeconds (slot ≫= sl_category));
      mret (mul secs (of_Z 1000))
  end.

Definition captureCancellationPolicySnapshot (professionalId : string)
    : Handler CancellationPolicySnapshot :=
  now ← perform NowMs;
  lift_result PolicyThrew (snapshotCurrentPolicy (policy_env now) ArgNone (Some professionalId)).

Definition captureHoldFeePolicySnapshot (professionalId : string) : Handler HoldFeePolicySnapshot :=
  now ← perform NowMs;
  mret (snapshotForSupplier (se_holdFees env) now professionalId).

(** The error of [releaseSlot] is swallowed. *)
Definition releaseSlotBestEffort (slotId : string) : Handler unit :=
  _ ← perform (ReleaseSlot slotId);
  mret tt.

Definition isTransferable (slot : SlotRecord) : bool :=
  negb (bool_decide (sl_transferable slot = Some false)).

Definition assertBundleTransferable (slot : SlotRecord) (actor : option AuthContext)
    : result string unit :=
  if isTransferable slot then mret tt
  else match actor with
       | Some a => if is_admin a then mret tt else Err (sl_id slot)
       | None => Err (sl_id slot)
       end.

Record CreateBookingIntentInput : Type := {
  ci_slotId : string;
  ci_note : option string;
  ci_bookingType : option BookingType;
  ci_holdDeadlineMs : option num;
  ci_buyerCurrency : option string
}.

(** A string option that is present and not empty. *)
Definition truthy_opt (o : option string) : option string :=
  match o with Some s => if str_truthy s then Some s else None | None => None end.

Definition fx_snapshot (slot : SlotRecord) (input : CreateBookingIntentInput)
    : Handler (option FxRateSnapshot) :=
  match truthy_opt (sl_currency slot), truthy_opt (ci_buyerCurrency input), se_hasFxProvider env with
  | Some base, Some target, true =>
      rate ← perform (FxRate base target);
      match rate with
      | None => Thr (http 500)
      | Some rate =>
          now ← perform NowMs;
          mret (Some {| fx_rate := rate; fx_baseCurrency := base; fx_targetCurrency := target;
                        fx_capturedAtMs := now |})
      end
  | _, _, _ => mret None
  end.

Definition pricing_snapshot (slot : SlotRecord) : Handler (option PricingSnapshot) :=
  match sl_pricingStrategy slot with
  | Some _ =>
      all ← perform AllIntents;
      now ← perform NowMs;
      lift_result PricingThrew (resolvePricingSnapshot slot all now)
  | None => mret None
  end.

Definition hold_placed_at (bookingType : BookingType) : Handler (option string) :=
  match bookingType with
  | refundable_hold => iso ← perform NowIso; mret (Some iso)
  | standard => mret None
  end.

Definition check_hold_deadline (input : CreateBookingIntentInput) (bookingType : BookingType)
    : Handler unit :=
  match bookingType with
  | standard => mret tt
  | refundable_hold =>
      deadline ← need (ci_holdDeadlineMs input) (http 400);
      now ← perform NowMs;
      throw_when (leb deadline (of_Z now)) (http 400)
  end.

(** The record handed to the repository; the repository assigns the id. *)
Definition new_intent (slot : SlotRecord) (input : CreateBookingIntentInput) (actor : AuthContext)
    (bookingType : BookingType) (holdPlacedAt : option string) (createdAt : string)
    (pricing : option PricingSnapshot) (policy : CancellationPolicySnapshot)
    (holdFee : HoldFeePolicySnapshot) (fx : option FxRateSnapshot) : NewIntent :=
  {| bi_id := ""; bi_slotId := sl_id slot; bi_professional := sl_professional slot;
     bi_customerId := userId actor; bi_startTime := sl_startTime slot; bi_endTime := sl_endTime slot;
     bi_status := match bookingType with refundable_hold => hold_placed | standard => pending end;
     bi_note := ci_note input; bi_tokenAsset := None; bi_mintTxHash := None;
     bi_createdAt := createdAt; bi_slotIds := None; bi_bundleId := None; bi_supplierId := None;
     bi_buyerId := None; bi_escrowHoldId := None; bi_bookingType := Some bookingType;
     bi_holdUntilMs := match bookingType with
                       | refundable_hold => ci_holdDeadlineMs input | standard => None end;
     bi_holdPlacedAt := holdPlacedAt; bi_refundedAt := None; bi_refundMetadata := None;
     bi_pricingSnapshot := pricing; bi_cancellationPolicySnapshot := Some policy;
     bi_holdFeePolicySnapshot := Some holdFee; bi_fxRateSnapshot := fx |}.

(** [this.schedulingService.reserveSlot(input.slotId)]. *)
Definition reserve_slot (slotId : string) : Handler unit :=
  paused ← perform EscrowPaused;
  dateNow ← perform DateNow;
  r ← perform (ReserveSlot paused dateNow slotId);
  lift_result SchedulingThrew r.

(** The write of [createIntent]: store the intent, then reserve the slot. *)
Definition store_and_reserve (slotId : string) (i : NewIntent) : Handler BookingIntentRecord :=
  created ← perform (CreateIntent i);
  intent ← lift_result RepoThrew created;
  _ ← reserve_slot slotId;
  mret intent.

Definition createIntent (input : CreateBookingIntentInput) (actor : AuthContext)
    : Handler BookingIntentRecord :=
  found ← perform (SlotById (ci_slotId input));
  slot ← need found (http 404);
  _ ← throw_when (negb (sl_bookable slot)) (http 409);
  _ ← match sl_validUntil slot with
      | Some validUntil =>
          currentTime ← perform NowMs;
          throw_when (validUntil <=? currentTime) BUNDLE_EXPIRED
      | None => mret tt
      end;
  _ ← lift_result (fun _ => BUNDLE_NOT_TRANSFERABLE) (assertBundleTransferable slot (Some actor));
  _ ← throw_when (bool_decide (sl_professional slot = userId actor)) (http 403);
  existingForCustomer ← perform (IntentBySlotAndCustomer (ci_slotId input) (userId actor));
  _ ← throw_when (bool_decide (is_Some existingForCustomer)) (http 409);
  existingForSlot ← perform (IntentBySlot (ci_slotId input));
  _ ← throw_when (bool_decide (is_Some existingForSlot)) (http 409);
  pricingSnapshot ← pricing_snapshot slot;
  cancellationPolicySnapshot ← captureCancellationPolicySnapshot (sl_professional slot);
  holdFeePolicySnapshot ← captureHoldFeePolicySnapshot (sl_professional slot);
  fxRateSnapshot ← fx_snapshot slot input;
  let bookingType := default standard (ci_bookingType input) in
  _ ← check_hold_deadline input bookingType;
  holdPlacedAt ← hold_placed_at bookingType;
  createdAt ← perform NowIso;
  store_and_reserve (ci_slotId input) (new_intent slot input actor bookingType holdPlacedAt createdAt
      pricingSnapshot cancellationPolicySnapshot holdFeePolicySnapshot fxRateSnapshot).

Definition getIntent (intentId : string) (actor : AuthContext) : Handler BookingIntentRecord :=
  found ← perform (IntentById intentId);
  intent ← need found (http 404);
  _ ← throw_when (negb (bool_decide (bi_customerId intent = userId actor)) && negb (is_admin actor))
        (http 404);
  mret intent.

Definition listIntents (actor : AuthContext) : Handler (list BookingIntentRecord) :=
  if is_admin actor then perform AllIntents else perform (IntentsOf (userId actor)).

(** The lookup and ownership guard of confirm, cancel, preview, hold status and
    refund: 404, then 403. *)
Definition owned_intent (intentId : string) (actor : AuthContext) : Handler BookingIntentRecord :=
  found ← perform (IntentById intentId);
  intent ← need found (http 404);
  _ ← throw_when (negb (bool_decide (bi_customerId intent = userId actor)) && negb (is_admin actor))
        (http 403);
  mret intent.

Definition is_refundable_hold (i : BookingIntentRecord) : bool :=
  bool_decide (bi_bookingType i = Some refundable_hold).

(** [intent.holdUntilMs !== undefined && intent.holdUntilMs <= now]. *)
Definition deadline_passed (i : BookingIntentRecord) (now : Z) : bool :=
  match bi_holdUntilMs i with Some h => leb h (of_Z now) | None => false end.

Definition update_intent (id : string) (us : list IntentField) : Handler BookingIntentRecord :=
  r ← perform (UpdateIntent id us);
  lift_result RepoThrew r.

Definition update_status (id : string) (s : BookingIntentStatus) : Handler BookingIntentRecord :=
  r ← perform (UpdateStatus id s);
  lift_result RepoThrew r.

Definition expireIntent (intentId : string) : Handler BookingIntentRecord :=
  found ← perform (IntentById intentId);
  intent ← need found (http 404);
  _ ← throw_when (negb (is_active intent)) (http 409);
  updated ← update_status intentId expired;
  _ ← releaseSlotBestEffort (bi_slotId intent);
  mret updated.

Definition confirmIntent (intentId : string) (actor : AuthContext) : Handler BookingIntentRecord :=
  intent ← owned_intent intentId actor;
  _ ← throw_when (negb (is_active intent)) (http 409);
  _ ← (if is_refundable_hold intent && bool_decide (is_Some (bi_holdUntilMs intent)) then
         now ← perform NowMs;
         if deadline_passed intent now then
           _ ← expireIntent intentId;
           Thr HOLD_EXPIRED
         else mret tt
       else mret tt);
  update_status intentId confirmed.

Definition resolveIntentPrice (intent : BookingIntentRecord) : num := intent_price intent.

(** The [updates] object of a refund: [this.now()] is read twice. *)
Definition refund_fields (status : BookingIntentStatus) (at1 at2 : string) (amount : num)
    (reason : string) : list IntentField :=
  [SetStatus status; SetRefundedAt at1;
   SetRefundMetadata {| rm_refundedAt := at2; rm_refundedAmountCents := amount;
                        rm_refundReason := reason |}].

Definition cancelIntent (intentId : string) (actor : AuthContext) : Handler BookingIntentRecord :=
  intent ← owned_intent intentId actor;
  _ ← throw_when (negb (is_active intent)) (http 409);
  let isHold := is_refundable_hold intent && bool_decide (bi_status intent = hold_placed) in
  let refundAmount := if isHold then resolveIntentPrice intent else zero in
  updated ← (if isHold : bool then
      at1 ← perform NowIso;
      at2 ← perform NowIso;
      update_intent intentId (refund_fields hold_refunded at1 at2 refundAmount
        (if is_admin actor then "admin_action" else "customer_cancel")%string)
    else update_intent intentId [SetStatus cancelled]);
  _ ← releaseSlotBestEffort (bi_slotId intent);
  mret updated.

Definition previewCancel (intentId : string) (actor : AuthContext) : Handler RefundBreakdown :=
  intent ← owned_intent intentId actor;
  now ← perform NowMs;
  lift_result PolicyThrew (calculateRefund (policy_env now) intent).

Record HoldStatus : Type := {
  hs_intentId : string;
  hs_bookingType : option BookingType;
  hs_status : BookingIntentStatus;
  hs_isRefundableHold : bool;
  hs_holdUntilMs : option num;
  hs_holdPlacedAt : option string;
  hs_refundableNow : bool;
  hs_refundAmountCents : num
}.

Definition getHoldStatus (intentId : string) (actor : AuthContext) : Handler HoldStatus :=
  intent ← owned_intent intentId actor;
  let isRefundableHold := is_refundable_hold intent in
  let refundableNow := isRefundableHold && bool_decide (bi_status intent = hold_placed) in
  mret {| hs_intentId := bi_id intent; hs_bookingType := bi_bookingType intent;
          hs_status := bi_status intent; hs_isRefundableHold := isRefundableHold;
          hs_holdUntilMs := bi_holdUntilMs intent; hs_holdPlacedAt := bi_holdPlacedAt intent;
          hs_refundableNow := refundableNow;
          hs_refundAmountCents := if refundableNow then resolveIntentPrice intent else zero |}.

Record RefundInput : Type := { ri_reason : option string; ri_cancelledAtMs : option num }.

Record RefundOutcome : Type := {
  ro_intent : BookingIntentRecord;
  ro_refundAmountCents : num;
  ro_refundRatio : num;
  ro_consumedRatio : num;
  ro_reason : string;
  ro_breakdown : RefundBreakdown
}.

Definition not_refundable_status (s : BookingIntentStatus) : bool :=
  match s with cancelled | expired | hold_refunded | no_show => true | _ => false end.

(** [intent.refundMetadata || intent.refundedAt]. *)
Definition already_refunded (i : BookingIntentRecord) : bool :=
  bool_decide (is_Some (bi_refundMetadata i)) ||
  match bi_refundedAt i with Some s => str_truthy s | None => false end.

Definition effective_cancelled_at (actor : AuthContext) (input : RefundInput) (currentNowMs : Z)
    : Handler num :=
  match is_admin actor, ri_cancelledAtMs input with
  | true, Some at_ =>
      _ ← throw_when (negb (is_finite at_)) (http 400);
      _ ← throw_when (gtb at_ (of_Z currentNowMs)) (http 400);
      mret at_
  | _, _ => mret (of_Z currentNowMs)
  end.

(** The refund once the session has started. *)
Definition duration_refund (intent : BookingIntentRecord) (at_ : num)
    : result CheckoutError (RefundBreakdown * num * num) :=
  let amountCents := resolveIntentPrice intent in
  summary ← calculateDurationBasedRefund amountCents (bi_startTime intent) (bi_endTime intent) at_;
  let vid := match bi_cancellationPolicySnapshot intent with
             | Some s => policyVersionId s | None => versionId LEGACY_V1_VERSION end in
  mret ({| rb_fee := zero; rb_taxReversal := zero; rb_netRefund := dr_refundAmountCents summary;
           rb_policyVersion := vid; rb_tierApplied := None;
           rb_hoursUntilStart :=
             div (sub (of_Z (bi_startTime intent)) at_) (of_Z (1000 * 60 * 60));
           rb_basePrice := amountCents; rb_holdFee := zero |},
        dr_remainingRatio summary, dr_consumedRatio summary).

Definition or_default (o : option string) (d : string) : string :=
  let t := js_trim (default d o) in if str_truthy t then t else d.

Definition refundIntent (intentId : string) (actor : AuthContext) (input : RefundInput)
    : Handler RefundOutcome :=
  intent ← owned_intent intentId actor;
  _ ← throw_when (already_refunded intent) (http 409);
  _ ← throw_when (not_refundable_status (bi_status intent)) (http 409);
  currentNowMs ← perform NowMs;
  effective ← effective_cancelled_at actor input currentNowMs;
  outcome ← (if ltb effective (of_Z (bi_startTime intent)) then
      now ← perform NowMs;
      breakdown ← lift_result PolicyThrew (calculateRefund (policy_env now) intent);
      mret (breakdown,
            match rb_tierApplied breakdown with Some t => ta_ratio t | None => zero end, zero)
    else lift_result RefundThrew (duration_refund intent effective));
  let '(breakdown, refundRatio, consumedRatio) := outcome in
  let reason := or_default (ri_reason input) "partial_refund" in
  at1 ← perform NowIso;
  at2 ← perform NowIso;
  updated ← update_intent intentId (refund_fields cancelled at1 at2 (rb_netRefund breakdown) reason);
  _ ← releaseSlotBestEffort (bi_slotId intent);
  mret {| ro_intent := updated; ro_refundAmountCents := rb_netRefund breakdown;
          ro_refundRatio := refundRatio; ro_consumedRatio := consumedRatio; ro_reason := reason;
          ro_breakdown := breakdown |}.

Definition autoRefundHold (intentId : string) (force : bool) : Handler BookingIntentRecord :=
  found ← perform (IntentById intentId);
  intent ← need found (http 404);
  _ ← throw_when (negb (is_refundable_hold intent)) (http 409);
  _ ← throw_when (negb (bool_decide (bi_status intent = hold_placed))) (http 409);
  _ ← (if force then mret tt else
         now ← perform NowMs;
         throw_when (negb (deadline_passed intent now)) (http 409));
  at1 ← perform NowIso;
  at2 ← perform NowIso;
  updated ← update_intent intentId
    (refund_fields hold_refunded at1 at2 (resolveIntentPrice intent) "hold_auto_refund");
  _ ← releaseSlotBestEffort (bi_slotId intent);
  mret updated.

Record NoShowInput : Type := { ns_reason : option string; ns_forfeitRatio : option num }.

Record NoShowOutcome : Type := {
  nso_intent : BookingIntentRecord;
  nso_buyerId : string;
  nso_supplierId : string;
  nso_forfeitAmountCents : num;
  nso_strikeId : string;
  nso_autoSuspended : bool;
  nso_reason : string
}.

Definition markNoShow (intentId : string) (actor : AuthContext) (input : NoShowInput)
    : Handler NoShowOutcome :=
  found ← perform (IntentById intentId);
  intent ← need found (http 404);
  _ ← throw_when (negb (is_admin actor) && negb (bool_decide (bi_professional intent = userId actor)))
        (http 403);
  _ ← throw_when (negb (bool_decide (bi_status intent = confirmed))) (http 409);
  graceMs ← resolveNoShowGraceMs (bi_slotId intent);
  now ← perform NowMs;
  _ ← throw_when (ltb (of_Z now) (add (of_Z (bi_startTime intent)) graceMs)) (http 409);
  let ratio := default (lit 2 10) (ns_forfeitRatio input) in
  _ ← throw_when (negb (is_finite ratio) || leb ratio zero || gtb ratio one) (http 400);
  let forfeitAmountCents := math_round (mul (resolveIntentPrice intent) ratio) in
  let normalizedReason := or_default (ns_reason input) "Buyer no-show" in
  issuedAt ← perform NowMs;
  strike ← perform (IssueStrike {| sr_buyerId := bi_customerId intent; sr_intentId := bi_id intent;
      sr_slotId := bi_slotId intent; sr_reason := normalizedReason; sr_issuedAt := issuedAt |});
  outcome ← need strike StrikeThrew;
  updated ← update_intent intentId [SetStatus no_show];
  _ ← releaseSlotBestEffort (bi_slotId intent);
  mret {| nso_intent := updated; nso_buyerId := bi_customerId intent;
          nso_supplierId := bi_professional intent; nso_forfeitAmountCents := forfeitAmountCents;
          nso_strikeId := fst outcome; nso_autoSuspended := snd outcome;
          nso_reason := normalizedReason |}.

End Service.

(** ** Interpretation *)

(** What the outside world answers during one request. *)
Record Outside : Type := {
  o_nowMs : Z; o_nowIso : string; o_dateNow : Z; o_paused : bool;
  o_fx : string -> string -> option num;
  o_grace : option string -> num;
  o_strike : StrikeRequest -> option (string * bool)
}.

(** Events that read the outside world, as opposed to the two stores. *)
Definition outside {X} (ev : Ev X) : bool :=
  match ev with
  | NowMs | NowIso | DateNow | EscrowPaused | FxRate _ _ | GraceSeconds _ | IssueStrike _ => true
  | _ => false
  end.

Record St (R T : Type) : Type := MkSt { st_intents : R; st_slots : T }.
Arguments MkSt {R T}.
Arguments st_intents {R T}.
Arguments st_slots {R T}.

Section Interpretation.
Context {R T : Type} `{BookingIntentRepository R} `{SlotRepository T}.
Implicit Types s : St R T.

Definition on_intents {A} (r : result RepoError (A * R)) s : result RepoError A * St R T :=
  match r with
  | Ok (a, r') => (Ok a, MkSt r' (st_slots s))
  | Err e => (Err e, s)
  end.

Definition on_slots (r : result SchedulingError T) s : result SchedulingError unit * St R T :=
  match r with
  | Ok t => (Ok tt, MkSt (st_intents s) t)
  | Err e => (Err e, s)
  end.

Definition handle (o : Outside) (X : Type) (ev : Ev X) s : X * St R T :=
  match ev in Ev X return X * St R T with
  | NowMs => (o_nowMs o, s)
  | NowIso => (o_nowIso o, s)
  | DateNow => (o_dateNow o, s)
  | EscrowPaused => (o_paused o, s)
  | SlotById id => (findSlot id (st_slots s), s)
  | ListSlots => (slots_list (st_slots s), s)
  | ReserveSlot p now id => on_slots (reserveSlot p ∅ now id None None (st_slots s)) s
  | ReleaseSlot id => on_slots (releaseSlot id (st_slots s)) s
  | IntentById id => (findById id (st_intents s), s)
  | IntentBySlot id => (findBySlotId id (st_intents s), s)
  | IntentBySlotAndCustomer id c => (findBySlotIdAndCustomer id c (st_intents s), s)
  | LatestIntentBySlot id => (findLatestBySlotId id (st_intents s), s)
  | AllIntents => (listAll (st_intents s), s)
  | IntentsOf c => (listByCustomer c (st_intents s), s)
  | CreateIntent i => on_intents (create i (st_intents s)) s
  | UpdateIntent id us => on_intents (update id us (st_intents s)) s
  | UpdateStatus id st => on_intents (updateStatus id st (st_intents s)) s
  | FxRate a b => (o_fx o a b, s)
  | GraceSeconds c => (o_grace o c, s)
  | IssueStrike r => (o_strike o r, s)
  end.

(** In a concurrent execution every outside event may be answered anew. *)
Definition exec (X : Type) (ev : Ev X) s (x : X) s' : Prop :=
  if outside ev then s' = s else exists o, handle o X ev s = (x, s').

Inductive request : Handler unit -> Prop :=
| rq_create env input actor : request (forget (createIntent env input actor))
| rq_get id actor : request (forget (getIntent id actor))
| rq_list actor : request (forget (listIntents actor))
| rq_confirm id actor : request (forget (confirmIntent id actor))
| rq_cancel id actor : request (forget (cancelIntent id actor))
| rq_preview env id actor : request (forget (previewCancel env id actor))
| rq_hold_status id actor : request (forget (getHoldStatus id actor))
| rq_refund env id actor input : request (forget (refundIntent env id actor input))
| rq_expire id : request (forget (expireIntent id))
| rq_auto_refund id force : request (forget (autoRefundHold id force))
| rq_no_show env id actor input : request (forget (markNoShow env id actor input)).

End Interpretation.

Abbreviation bsteps := (rtc (step exec request)).

(** ** The writes the service performs *)

Definition inactive_field (u : IntentField) : bool :=
  match u with SetStatus s => negb (active_status s) | _ => true end.

(** No write puts an existing intent (back) into an active status. *)
Definition write_ok (X : Type) (ev : Ev X) : Prop :=
  match ev with
  | UpdateIntent _ us => Forall (fun u => inactive_field u = true) us
  | UpdateStatus _ s => active_status s = false
  | _ => True
  end.

Lemma update_intent_ok id us :
  Forall (fun u => inactive_field u = true) us -> all_events write_ok (update_intent id us).
Proof. intros. apply all_events_bind; auto with events. Qed.

Lemma update_status_ok id st :
  active_status st = false -> all_events write_ok (update_status id st).
Proof. intros. apply all_events_bind; auto with events. Qed.

Lemma refund_fields_ok st a b m r :
  active_status st = false -> Forall (fun u => inactive_field u = true) (refund_fields st a b m r).
Proof. intros Hs. repeat constructor. simpl. by rewrite Hs. Qed.

#[local] Hint Resolve update_intent_ok update_status_ok refund_fields_ok : events.
#[local] Hint Extern 1 (write_ok _ _) => exact I : events.
#[local] Hint Extern 1 (active_status _ = false) => reflexivity : events.

(** Walk through a handler, leaving its writes. *)
Ltac events :=
  repeat match goal with
  | |- forall _, _ => intro
  | |- all_events _ (Ret _) => exact I
  | |- all_events _ (mret _) => exact I
  | |- all_events _ (Thr _) => exact I
  | |- all_events _ (_ ≫= _) => apply all_events_bind
  | |- all_events _ (attempt _) => apply all_events_attempt
  | |- all_events _ (perform _) => apply all_events_perform; exact I
  | |- all_events _ (throw_when _ _) => apply all_events_throw_when
  | |- all_events _ (need _ _) => apply all_events_need
  | |- all_events _ (lift_result _ _) => apply all_events_lift
  | |- all_events _ (match ?x with _ => _ end) => destruct x
  | |- all_events _ _ => progress auto with events
  end.

Lemma owned_intent_writes id actor : all_events write_ok (owned_intent id actor).
Proof. unfold owned_intent. events. Qed.

Lemma release_writes id : all_events write_ok (releaseSlotBestEffort id).
Proof. unfold releaseSlotBestEffort. events. Qed.

#[local] Hint Resolve owned_intent_writes release_writes : events.

Lemma expireIntent_writes id : all_events write_ok (expireIntent id).
Proof. unfold expireIntent. events. Qed.

#[local] Hint Resolve expireIntent_writes : events.

Lemma createIntent_writes env input actor : all_events write_ok (createIntent env input actor).
Proof.
  unfold createIntent, captureCancellationPolicySnapshot, captureHoldFeePolicySnapshot, fx_snapshot,
    check_hold_deadline, pricing_snapshot, hold_placed_at, store_and_reserve, reserve_slot. events.
Qed.

Lemma request_writes p : request p -> all_events write_ok p.
Proof.
  intros Hp. destruct Hp; apply all_events_forget.
  - apply createIntent_writes.
  - unfold getIntent. events.
  - unfold listIntents. events.
  - unfold confirmIntent. events.
  - unfold cancelIntent. events.
  - unfold previewCancel. events.
  - unfold getHoldStatus. events.
  - unfold refundIntent, effective_cancelled_at. events.
  - apply expireIntent_writes.
  - unfold autoRefundHold. events.
  - unfold markNoShow, resolveNoShowGraceMs. events.
Qed.

(** ** Safety under concurrency *)

(** What the parties agreed on: fixed when the intent is created. *)
Definition agreed (i : BookingIntentRecord) :=
  (bi_id i, bi_slotId i, bi_professional i, bi_customerId i, (bi_startTime i, bi_endTime i),
   (bi_bookingType i, bi_holdUntilMs i, bi_createdAt i, bi_note i),
   (bi_pricingSnapshot i, bi_cancellationPolicySnapshot i, bi_holdFeePolicySnapshot i,
    bi_fxRateSnapshot i)).

Lemma spread_agreed us i : agreed (spread us i) = agreed i.
Proof.
  revert i. induction us as [|u us IH]; intros i; [done|]. unfold spread in *. simpl.
  rewrite IH. by destruct i, u.
Qed.

Lemma spread_inactive us i :
  Forall (fun u => inactive_field u = true) us ->
  is_active (spread us i) = true -> is_active i = true.
Proof.
  intros Hus. revert i. induction Hus as [|u us Hu Hus IH]; intros i Ha; [done|].
  unfold spread in *. simpl in Ha. apply IH in Ha. destruct i, u; unfold is_active in *; simpl in *; try done.
  by rewrite Ha in Hu.
Qed.

Definition intent_evolves (i i' : BookingIntentRecord) : Prop :=
  agreed i' = agreed i /\ (is_active i' = true -> is_active i = true).

#[global] Instance intent_evolves_preorder : PreOrder intent_evolves.
Proof.
  unfold intent_evolves. split; [by intros i|].
  intros i1 i2 i3 [E1 A1] [E2 A2]. split; [congruence|auto].
Qed.

Definition active_on (slotId : string) (i : BookingIntentRecord) : bool :=
  has_slot slotId i && is_active i.

Definition one_active (l : list BookingIntentRecord) : Prop :=
  forall slotId, (length (List.filter (active_on slotId) l) <= 1)%nat.

(** Intents are neither lost nor reordered; new ones come last. *)
Definition list_evolves (l l' : list BookingIntentRecord) : Prop :=
  (one_active l -> one_active l') /\
  exists old new, l' = old ++ new /\ Forall2 intent_evolves l old.

#[global] Instance list_evolves_preorder : PreOrder list_evolves.
Proof.
  split.
  - intros l. split; [done|]. exists l, []. rewrite app_nil_r. split; [done|].
    by apply Forall_Forall2_diag, Forall_true.
  - intros l1 l2 l3 [U1 (old1 & new1 & -> & F1)] [U2 (old2 & new2 & -> & F2)].
    split; [auto|]. apply Forall2_app_inv_l in F2 as (old & new & Fo & Fn & ->).
    exists old, (new ++ new2). split; [by rewrite app_assoc|]. by etrans.
Qed.

Lemma update_evolves id us l :
  Forall (fun u => inactive_field u = true) us ->
  list_evolves l (update_first (has_id id) (spread us) l).
Proof.
  intros Hus. split.
  - intros Hl slotId. etrans; [|exact (Hl slotId)]. apply filter_update_first_le.
    intros i _. unfold active_on, has_slot. rewrite spread_slotId, !andb_true_iff.
    intros [? ?]. split; [done|by eapply spread_inactive].
  - exists (update_first (has_id id) (spread us) l), []. rewrite app_nil_r. split; [done|].
    induction l as [|i l IH]; simpl; [constructor|]. destruct (has_id id i).
    + constructor; [|by apply Forall_Forall2_diag, Forall_true].
      split; [apply spread_agreed|by apply spread_inactive].
    + by constructor.
Qed.

Section Safety.
Context {R T : Type} `{BookingIntentRepositoryLaws R} `{SlotRepositoryLaws T}.
Implicit Types s : St R T.

(** A successful [create] stored the record it was given, at the end, on a slot
    without active intent. *)
Lemma create_ok_facts i (r r' : R) c :
  create i r = Ok (c, r') ->
  (is_active i = false \/ findBySlotId (bi_slotId i) r = None) /\
  listAll r' = listAll r ++ [c] /\
  bi_slotId c = bi_slotId i /\ bi_status c = bi_status i /\
  bi_customerId c = bi_customerId i /\ bi_professional c = bi_professional i /\
  bi_startTime c = bi_startTime i /\ bi_endTime c = bi_endTime i /\
  bi_holdUntilMs c = bi_holdUntilMs i /\ bi_pricingSnapshot c = bi_pricingSnapshot i /\
  bi_cancellationPolicySnapshot c = bi_cancellationPolicySnapshot i /\
  bi_holdFeePolicySnapshot c = bi_holdFeePolicySnapshot i /\
  bi_refundMetadata c = bi_refundMetadata i /\ bi_refundedAt c = bi_refundedAt i.
Proof.
  intros Hc. assert (is_active i = false \/ findBySlotId (bi_slotId i) r = None) as Hfree.
  { destruct (is_active i) eqn:Ha; [right|by left].
    destruct (findBySlotId (bi_slotId i) r) eqn:E; [|done].
    rewrite law_create_conflict in Hc; [done|done|by eexists]. }
  destruct (law_create_ok i r Hfree) as (c' & r'' & E & Hrest).
  rewrite Hc in E. injection E as <- <-. done.
Qed.

Lemma create_evolves i (r r' : R) c :
  create i r = Ok (c, r') -> list_evolves (listAll r) (listAll r').
Proof.
  intros Hc. pose proof (create_ok_facts _ _ _ _ Hc) as (Hfree & El & Eslot & Est & _).
  rewrite El. split.
  - intros Hl slotId. rewrite List.filter_app, length_app. simpl.
    specialize (Hl slotId). destruct (active_on slotId c) eqn:Ec; simpl; [|lia].
    unfold active_on in Ec. apply andb_true_iff in Ec as [Es Ea].
    unfold has_slot in Es. rewrite Eslot in Es. apply bool_decide_eq_true in Es as <-.
    unfold is_active in Ea. rewrite Est in Ea. unfold is_active in Hfree. rewrite Ea in Hfree.
    destruct Hfree as [|Ef]; [done|].
    rewrite law_findBySlotId in Ef. apply find_first_filter in Ef. unfold active_on.
    rewrite Ef. simpl. lia.
  - exists (listAll r), [c]. split; [done|]. by apply Forall_Forall2_diag, Forall_true.
Qed.

Lemma update_ok_inv id us (r r' : R) x :
  update id us r = Ok (x, r') ->
  exists i, findById id r = Some i /\ x = spread us i /\
            listAll r' = update_first (has_id id) (spread us) (listAll r).
Proof.
  intros Hu. destruct (findById id r) as [i|] eqn:E.
  - destruct (law_update id us r i E) as (r'' & E' & El). rewrite Hu in E'.
    injection E' as -> ->. by exists i.
  - by rewrite law_update_missing in Hu.
Qed.

Definition st_evolves (s s' : St R T) : Prop :=
  list_evolves (listAll (st_intents s)) (listAll (st_intents s')).

#[global] Instance st_evolves_preorder : PreOrder st_evolves.
Proof. unfold st_evolves. split; [by intros s|intros s1 s2 s3; apply transitivity]. Qed.

Lemma handle_evolves o X (ev : Ev X) s : write_ok X ev -> st_evolves s (snd (handle o X ev s)).
Proof.
  unfold st_evolves. destruct ev; simpl; intros Hw; try reflexivity.
  - by destruct (reserveSlot _ _ _ _ _ _ _).
  - by destruct (releaseSlot _ _).
  - destruct (create i (st_intents s)) as [[c r']|e] eqn:E; [|done]. by eapply create_evolves.
  - destruct (update id us (st_intents s)) as [[c r']|e] eqn:E; [|done]. simpl.
    apply update_ok_inv in E as (i & _ & _ & ->). by apply update_evolves.
  - rewrite law_updateStatus.
    destruct (update id _ (st_intents s)) as [[c r']|e] eqn:E; [|done]. simpl.
    apply update_ok_inv in E as (i & _ & _ & ->). apply update_evolves.
    repeat constructor. simpl. by rewrite Hw.
Qed.

Lemma exec_evolves X (ev : Ev X) s x s' : write_ok X ev -> exec X ev s x s' -> st_evolves s s'.
Proof.
  unfold exec. intros Hw He. destruct (outside ev); [by subst|]. destruct He as [o Ho].
  pose proof (handle_evolves o X ev s Hw) as Hs. by rewrite Ho in Hs.
Qed.

Lemma bsteps_evolve s c' :
  bsteps {| cf_state := s; cf_pool := [] |} c' -> st_evolves s (cf_state c').
Proof.
  intros Hr. apply (steps_preserve exec request write_ok st_evolves _ _ exec_evolves request_writes Hr).
  constructor.
Qed.

(** (C1) No double booking: under any interleaving of any requests, with any clocks
    and any answers of the services around it, a slot never has two active
    (pending or held) intents, if it had at most one to begin with. *)
Theorem no_double_booking s c' :
  one_active (listAll (st_intents s)) ->
  bsteps {| cf_state := s; cf_pool := [] |} c' ->
  one_active (listAll (st_intents (cf_state c'))).
Proof. intros Hs Hr. by apply (bsteps_evolve s c' Hr). Qed.

(** Grandfathering: under any interleaving of any requests, an intent is never
    lost, the terms it was created with (parties, slot, times, price, cancellation policy, hold
    fee, exchange rate, hold deadline) never change, and an intent that is no
    longer active never becomes active again. *)
Theorem agreed_terms_immutable s c' n i :
  bsteps {| cf_state := s; cf_pool := [] |} c' ->
  listAll (st_intents s) !! n = Some i ->
  exists i', listAll (st_intents (cf_state c')) !! n = Some i' /\
             agreed i' = agreed i /\ (is_active i' = true -> is_active i = true).
Proof.
  intros Hr Hn. destruct (bsteps_evolve s c' Hr) as [_ (old & new & -> & HF)].
  destruct (Forall2_lookup_l _ _ _ _ _ HF Hn) as (i' & Hi' & He).
  exists i'. split; [|done]. by apply lookup_app_l_Some.
Qed.

End Safety.
