(* ===== verification/BookingLifecycle.v ===== *)
(** * BookingLifecycle: the booking-intent service, one request at a time

    What each method of [BookingIntentService] does when it runs alone: the
    effect of every request on the two stores, the life cycle of an intent over
    any sequence of requests, and the contract of the individual methods. *)
From stdpp Require Import base list strings gmap relations.
From Stdlib Require Import ZArith Lia.
From S2P Require Import Prelude JsNumber Async Domain Pricing HoldFee Cancellation BookingRepo SlotRepo Scheduling Checkout BookingService.
Local Open Scope Z_scope.

(** ** Requests one at a time *)

(** The life cycle of an intent as the service drives it. *)
Definition edge (a b : BookingIntentStatus) : bool :=
  match a, b with
  | pending, (confirmed | cancelled | expired) => true
  | hold_placed, (confirmed | cancelled | expired | hold_refunded) => true
  | confirmed, (cancelled | no_show) => true
  | (firm | escrow_held | escrow_released | escrow_refunded | escrow_disputed), cancelled => true
  | _, _ => false
  end.

Definition terminal (st : BookingIntentStatus) : bool := not_refundable_status st.

Section Sequential.
Context {R T : Type} `{BookingIntentRepositoryLaws R} `{SlotRepositoryLaws T}.
Implicit Types s : St R T.

(** The slot store after [releaseSlotBestEffort]. *)
Definition released (slotId : string) (t : T) : T :=
  match updateBookable slotId true t with Ok t' => t' | Err _ => t end.

(** What one request may do to the two stores: nothing; move one intent along
    an edge, freeing its slot unless it is being confirmed; or add an active
    intent and then reserve its slot, or fail to. *)
Inductive effect s s' : Prop :=
| eff_none : s' = s -> effect s s'
| eff_update id i us :
    findById id (st_intents s) = Some i ->
    edge (bi_status i) (bi_status (spread us i)) = true ->
    (bi_refundMetadata (spread us i) = bi_refundMetadata i \/
     terminal (bi_status (spread us i)) = true) ->
    listAll (st_intents s') = update_first (has_id id) (spread us) (listAll (st_intents s)) ->
    st_slots s' = (if bool_decide (bi_status (spread us i) = confirmed) then st_slots s
                   else released (bi_slotId i) (st_slots s)) ->
    effect s s'
| eff_create i c :
    listAll (st_intents s') = listAll (st_intents s) ++ [c] ->
    create i (st_intents s) = Ok (c, st_intents s') ->
    is_active c = true -> bi_refundMetadata c = None ->
    (st_slots s' = st_slots s \/
     exists slotId, updateBookable slotId false (st_slots s) = Ok (st_slots s')) ->
    effect s s'.

Lemma wp_update_intent o id us (Q : result BookingErr BookingIntentRecord -> St R T -> Prop) s :
  (findById id (st_intents s) = None -> Q (Err (RepoThrew (IntentNotFound id))) s) ->
  (forall i r', findById id (st_intents s) = Some i ->
     listAll r' = update_first (has_id id) (spread us) (listAll (st_intents s)) ->
     Q (Ok (spread us i)) (MkSt r' (st_slots s))) ->
  wp (handle o) (update_intent id us) Q s.
Proof.
  intros Hnone Hsome. unfold update_intent. repeat (wp_step; cbn [handle fst snd]); simpl in *;
    destruct (findById id (st_intents s)) as [i|] eqn:E.
  - destruct (law_update id us _ i E) as (r' & E' & _). by rewrite E' in *.
  - rewrite law_update_missing in * by done. simplify_eq/=. by apply Hnone.
  - destruct (law_update id us _ i E) as (r' & E' & El). rewrite E' in *. simplify_eq/=.
    by apply Hsome.
  - by rewrite law_update_missing in * by done.
Qed.

Lemma wp_update_status o id st (Q : result BookingErr BookingIntentRecord -> St R T -> Prop) s :
  wp (handle o) (update_intent id [SetStatus st]) Q s -> wp (handle o) (update_status id st) Q s.
Proof. unfold wp, update_status, update_intent. simpl. by rewrite law_updateStatus. Qed.

Lemma wp_release o id (Q : result BookingErr unit -> St R T -> Prop) s :
  Q (Ok tt) (MkSt (st_intents s) (released id (st_slots s))) ->
  wp (handle o) (releaseSlotBestEffort id) Q s.
Proof.
  intros HQ. unfold releaseSlotBestEffort. repeat (wp_step; cbn [handle fst snd]).
  unfold releaseSlot, lift_slot, released in *.
  destruct (updateBookable id true (st_slots s)) as [t|[]]; simpl; [done|]. by destruct s.
Qed.

End Sequential.

(** Close the branches of a handler that changed nothing. *)
Ltac bwp :=
  repeat first
    [ wp_step; cbn [handle fst snd]
    | apply wp_update_intent; [intros ?|intros ? ? ? ?]; cbv beta iota
    | apply wp_update_status
    | apply wp_release; cbv beta iota; cbn [st_intents st_slots] ].

Section Effects.
Context {R T : Type} `{BookingIntentRepositoryLaws R} `{SlotRepositoryLaws T}.
Context (o : Outside).
Implicit Types s : St R T.

Abbreviation has_effect p s := (wp (handle o) p (fun _ s' => effect s s') s).

Lemma wp_owned_intent id actor (Q : result BookingErr BookingIntentRecord -> St R T -> Prop) s :
  (forall e, Q (Err e) s) ->
  (forall i, findById id (st_intents s) = Some i ->
     negb (bool_decide (bi_customerId i = userId actor)) && negb (is_admin actor) = false ->
     Q (Ok i) s) ->
  wp (handle o) (owned_intent id actor) Q s.
Proof. intros He Hi. unfold owned_intent. bwp; auto. Qed.

Lemma wp_forget {A} (p : Handler A) (Q : St R T -> Prop) s :
  wp (handle o) p (fun _ s' => Q s') s -> wp (handle o) (forget p) (fun _ s' => Q s') s.
Proof. intros Hp. apply wp_bind. revert Hp. apply wp_mono. by intros [a|e] s'. Qed.

Ltac no_effect := solve [by apply eff_none].

Lemma is_active_cases i : is_active i = true -> bi_status i = pending \/ bi_status i = hold_placed.
Proof. unfold is_active. destruct (bi_status i); simpl; auto; discriminate. Qed.

Lemma spread_status us st i :
  Forall (fun u => match u with SetStatus _ => False | _ => True end) us ->
  bi_status (spread (SetStatus st :: us) i) = st.
Proof.
  unfold spread. simpl. assert (bi_status (set_field (SetStatus st) i) = st) as E by by destruct i.
  revert E. generalize (set_field (SetStatus st) i). intros j Hj Hus. revert j Hj.
  induction Hus as [|u us Hu Hus IH]; intros j Hj; simpl; [done|]. apply IH. by destruct j, u.
Qed.

Lemma set_status_metadata st i : bi_refundMetadata (spread [SetStatus st] i) = bi_refundMetadata i.
Proof. by destruct i. Qed.

(** A status update followed by the release of the slot. *)
Lemma effect_close id i us st s r' :
  findById id (st_intents s) = Some i ->
  Forall (fun u => match u with SetStatus _ => False | _ => True end) us ->
  edge (bi_status i) st = true -> st <> confirmed ->
  (us = [] \/ terminal st = true) ->
  listAll r' = update_first (has_id id) (spread (SetStatus st :: us)) (listAll (st_intents s)) ->
  effect s (MkSt r' (released (bi_slotId i) (st_slots s))).
Proof.
  intros Hf Hus He Hc Hm Hl. apply (eff_update _ _ id i (SetStatus st :: us)); simpl; try done.
  - by rewrite spread_status.
  - rewrite spread_status by done. destruct Hm as [->|Hm]; [left; apply set_status_metadata|by right].
  - rewrite spread_status by done. by rewrite bool_decide_eq_false_2.
Qed.

(** Close with [effect_close], leaving the edge. *)
Ltac closes st :=
  eapply (effect_close _ _ _ st); [..|eassumption]; [eassumption|repeat constructor| |done|auto].

Lemma active_edges i st :
  negb (is_active i) = false -> st = expired \/ st = cancelled \/ st = confirmed ->
  edge (bi_status i) st = true.
Proof.
  intros Ha%negb_false_iff%is_active_cases. destruct Ha as [-> | ->]; intros [->|[->| ->]]; done.
Qed.

Lemma expire_effect id s : has_effect (expireIntent id) s.
Proof.
  unfold expireIntent. bwp; try no_effect. simplify_eq. closes expired. auto using active_edges.
Qed.

Lemma effect_confirm id i s r' :
  findById id (st_intents s) = Some i -> negb (is_active i) = false ->
  listAll r' = update_first (has_id id) (spread [SetStatus confirmed]) (listAll (st_intents s)) ->
  effect s (MkSt r' (st_slots s)).
Proof.
  intros Hf Ha Hl. apply (eff_update _ _ id i [SetStatus confirmed]); try done.
  - rewrite spread_status by constructor. auto using active_edges.
  - left. apply set_status_metadata.
  - by rewrite spread_status by constructor.
Qed.

Lemma confirm_effect id actor s : has_effect (confirmIntent id actor) s.
Proof.
  unfold confirmIntent. apply wp_bind, wp_owned_intent; [intros; no_effect|]. intros i Hi _.
  cbv beta iota. bwp; try no_effect; simplify_eq; eauto using effect_confirm.
  eapply wp_mono; [|apply expire_effect]. by intros [?|?] s' He.
Qed.

Lemma cancel_effect id actor s : has_effect (cancelIntent id actor) s.
Proof.
  unfold cancelIntent. apply wp_bind, wp_owned_intent; [intros; no_effect|]. intros i Hi _.
  cbv beta iota zeta. bwp; try no_effect; simplify_eq.
  - apply andb_true_iff in Heqb as [_ Hh%bool_decide_eq_true].
    closes hold_refunded. by rewrite Hh.
  - closes cancelled. auto using active_edges.
Qed.

Lemma refundable_edge i : not_refundable_status (bi_status i) = false -> edge (bi_status i) cancelled = true.
Proof. by destruct (bi_status i). Qed.

Lemma refund_effect env id actor input s : has_effect (refundIntent env id actor input) s.
Proof.
  unfold refundIntent, effective_cancelled_at.
  apply wp_bind, wp_owned_intent; [intros; no_effect|]. intros i Hi _.
  cbv beta iota zeta. bwp; try no_effect; simplify_eq.
  all: closes cancelled; by apply refundable_edge.
Qed.

Lemma auto_refund_effect id force s : has_effect (autoRefundHold id force) s.
Proof.
  unfold autoRefundHold. bwp; try no_effect; simplify_eq.
  all: match goal with Hh : negb (bool_decide (bi_status ?i = hold_placed)) = false |- _ =>
         apply negb_false_iff, bool_decide_eq_true in Hh; closes hold_refunded; by rewrite Hh end.
Qed.

Lemma no_show_effect env id actor input s : has_effect (markNoShow env id actor input) s.
Proof.
  unfold markNoShow, resolveNoShowGraceMs. bwp; try no_effect; simplify_eq.
  all: match goal with Hh : negb (bool_decide (bi_status ?i = confirmed)) = false |- _ =>
         apply negb_false_iff, bool_decide_eq_true in Hh; closes no_show; by rewrite Hh end.
Qed.

(** The intent [createIntent] asks the repository to store. *)
Definition intent_for env (slot : SlotRecord) input actor s (i : NewIntent) : Prop :=
  bi_slotId i = ci_slotId input /\ bi_customerId i = userId actor /\
  bi_professional i = sl_professional slot /\ bi_startTime i = sl_startTime slot /\
  bi_endTime i = sl_endTime slot /\ is_active i = true /\ bi_refundMetadata i = None /\
  (bi_status i = hold_placed -> exists d, ci_holdDeadlineMs input = Some d /\
     bi_holdUntilMs i = Some d /\ leb d (of_Z (o_nowMs o)) = false) /\
  resolvePricingSnapshot slot (listAll (st_intents s)) (o_nowMs o) = Ok (bi_pricingSnapshot i) /\
  (exists p, bi_cancellationPolicySnapshot i = Some p /\
     snapshotCurrentPolicy (policy_env env (o_nowMs o)) ArgNone (Some (sl_professional slot)) = Ok p) /\
  bi_holdFeePolicySnapshot i =
    Some (snapshotForSupplier (se_holdFees env) (o_nowMs o) (sl_professional slot)).

(** The conditions under which [createIntent] proceeds to write. *)
Definition may_book (slot : SlotRecord) input actor s : Prop :=
  findSlot (ci_slotId input) (st_slots s) = Some slot /\
  sl_bookable slot = true /\ sl_professional slot <> userId actor /\
  (sl_transferable slot = Some false -> is_admin actor = true) /\
  (forall v, sl_validUntil slot = Some v -> o_nowMs o < v) /\
  findBySlotId (ci_slotId input) (st_intents s) = None.

Definition create_post env input actor s (r : result BookingErr BookingIntentRecord) s' : Prop :=
  (exists e, r = Err e /\ s' = s) \/
  exists slot i c, may_book slot input actor s /\ intent_for env slot input actor s i /\
    create i (st_intents s) = Ok (c, st_intents s') /\
    match reserveSlot (o_paused o) ∅ (o_dateNow o) (ci_slotId input) None None (st_slots s) with
    | Ok t => r = Ok c /\ st_slots s' = t
    | Err e => r = Err (SchedulingThrew e) /\ st_slots s' = st_slots s
    end.

Lemma wp_reserve_slot id (Q : result BookingErr unit -> St R T -> Prop) s :
  match reserveSlot (o_paused o) ∅ (o_dateNow o) id None None (st_slots s) with
  | Ok t => Q (Ok tt) (MkSt (st_intents s) t)
  | Err e => Q (Err (SchedulingThrew e)) s
  end ->
  wp (handle o) (reserve_slot id) Q s.
Proof.
  unfold reserve_slot. intros HQ. bwp; unfold on_slots in *;
    destruct (reserveSlot _ _ _ _ _ _ _); by simplify_eq/=.
Qed.

(** The guards before the first query. *)
Lemma wp_create_guards actor slot s (f : Handler BookingIntentRecord) Q :
  (forall e, Q (Err e) s) ->
  ((sl_transferable slot = Some false -> is_admin actor = true) ->
   (forall v, sl_validUntil slot = Some v -> o_nowMs o < v) ->
   sl_professional slot <> userId actor ->
   wp (handle o) f Q s) ->
  wp (handle o)
    (_ ← match sl_validUntil slot with
         | Some validUntil =>
             currentTime ← perform NowMs;
             throw_when (validUntil <=? currentTime) BUNDLE_EXPIRED
         | None => mret tt
         end;
     _ ← lift_result (fun _ => BUNDLE_NOT_TRANSFERABLE) (assertBundleTransferable slot (Some actor));
     _ ← throw_when (bool_decide (sl_professional slot = userId actor)) (http 403);
     f) Q s.
Proof.
  intros He Hf. apply wp_bind.
  assert (forall r, assertBundleTransferable slot (Some actor) = Ok r ->
            sl_transferable slot = Some false -> is_admin actor = true) as Htr.
  { unfold assertBundleTransferable, isTransferable. intros r Hr Ht. rewrite Ht in Hr.
    simpl in Hr. by destruct (is_admin actor). }
  bwp; auto; (apply Hf; [by eapply Htr| |by eapply bool_decide_eq_false]); [|done].
  intros v [= ->]. by apply Z.leb_gt.
Qed.

Lemma wp_pricing slot (Q : result BookingErr (option PricingSnapshot) -> St R T -> Prop) s :
  (forall e, Q (Err e) s) ->
  (forall p, resolvePricingSnapshot slot (listAll (st_intents s)) (o_nowMs o) = Ok p -> Q (Ok p) s) ->
  wp (handle o) (pricing_snapshot slot) Q s.
Proof.
  intros He Hp. unfold pricing_snapshot. bwp; auto. apply Hp. unfold resolvePricingSnapshot.
  by rewrite Heqo0.
Qed.

Lemma wp_fx env slot input (Q : result BookingErr (option FxRateSnapshot) -> St R T -> Prop) s :
  (forall e, Q (Err e) s) -> (forall x, Q (Ok x) s) -> wp (handle o) (fx_snapshot env slot input) Q s.
Proof. intros He Hp. unfold fx_snapshot. bwp; auto. Qed.

Lemma wp_hold_deadline input bt (Q : result BookingErr unit -> St R T -> Prop) s :
  (forall e, Q (Err e) s) ->
  ((bt = refundable_hold -> exists d, ci_holdDeadlineMs input = Some d /\
      leb d (of_Z (o_nowMs o)) = false) -> Q (Ok tt) s) ->
  wp (handle o) (check_hold_deadline input bt) Q s.
Proof. intros He Hp. unfold check_hold_deadline. bwp; auto; apply Hp; intros; [done|eauto]. Qed.

Lemma wp_store_and_reserve env input actor slot i s :
  may_book slot input actor s -> intent_for env slot input actor s i ->
  wp (handle o) (store_and_reserve (ci_slotId input) i) (create_post env input actor s) s.
Proof.
  intros Hm Hi. unfold store_and_reserve. bwp; unfold on_intents in *;
    destruct (create i (st_intents s)) as [[c r']|e'] eqn:Ec; simplify_eq/=.
  - left. eauto.
  - apply wp_reserve_slot. cbn [st_intents st_slots].
    destruct (reserveSlot _ _ _ _ _ _ _) as [t|e] eqn:Er;
      [apply wp_ret|]; right; exists slot, i, a; split_and!; try done; by rewrite Er.
Qed.

Lemma new_intent_for env slot input actor bt placed created pricing policy fx s :
  findSlot (ci_slotId input) (st_slots s) = Some slot ->
  resolvePricingSnapshot slot (listAll (st_intents s)) (o_nowMs o) = Ok pricing ->
  snapshotCurrentPolicy (policy_env env (o_nowMs o)) ArgNone (Some (sl_professional slot)) = Ok policy ->
  (bt = refundable_hold -> exists d, ci_holdDeadlineMs input = Some d /\
     leb d (of_Z (o_nowMs o)) = false) ->
  intent_for env slot input actor s (new_intent slot input actor bt placed created pricing policy
    (snapshotForSupplier (se_holdFees env) (o_nowMs o) (sl_professional slot)) fx).
Proof.
  intros Hs Hp Hc Hd. unfold intent_for. simpl. split_and!; try done.
  - by eapply findSlot_id.
  - by destruct bt.
  - destruct bt; [done|]. intros _. destruct (Hd eq_refl) as (d & -> & ?). by exists d.
  - by exists policy.
Qed.

Lemma create_outcome env input actor s :
  wp (handle o) (createIntent env input actor) (create_post env input actor s) s.
Proof.
  assert (forall e, create_post env input actor s (Err e) s) as Herr by (left; eauto).
  unfold createIntent. apply wp_bind, wp_perform. cbn [handle fst snd].
  apply wp_bind, wp_need; [auto|]. intros slot Hslot. cbv beta iota.
  apply wp_bind, wp_throw_when; intros Hb; [auto|]. cbv beta iota.
  apply wp_create_guards; [auto|]. intros Htr Hval Hown.
  unfold captureCancellationPolicySnapshot, captureHoldFeePolicySnapshot. bwp; auto.
  apply wp_pricing; [auto|]. intros pricing Hpricing. bwp; auto.
  apply wp_fx; [auto|]. intros fx. bwp; auto.
  apply wp_hold_deadline; [auto|]. intros Hdl.
  assert (may_book slot input actor s) as Hmay.
  { apply negb_false_iff in Hb. split_and!; try done.
    apply bool_decide_eq_false in H4. by apply eq_None_not_Some. }
  unfold hold_placed_at. bwp; auto;
    apply wp_store_and_reserve with slot; auto using new_intent_for.
Qed.

Lemma create_effect env input actor s : has_effect (createIntent env input actor) s.
Proof.
  eapply wp_mono; [|apply create_outcome].
  intros r s' [(e & _ & ->)|(slot & i & c & _ & Hi & Hc & Hres)]; [by apply eff_none|].
  destruct Hi as (_ & _ & _ & _ & _ & Ha & Hm & _).
  pose proof (create_ok_facts _ _ _ _ Hc) as (_ & Hl & _ & Hst & _ & _ & _ & _ & _ & _ & _ & _ & Hrm & _).
  apply (eff_create _ _ i c); auto.
  - unfold is_active in *. congruence.
  - congruence.
  - destruct (reserveSlot _ _ _ _ _ _ _) as [t|e] eqn:Er; destruct Hres as [_ ->]; [right|by left].
    apply reserveSlot_ok in Er as (_ & sl & _ & _ & Hu). eauto.
Qed.

Lemma request_effect p s : request p -> has_effect p s.
Proof.
  intros Hp. destruct Hp; apply wp_forget.
  - apply create_effect.
  - unfold getIntent. bwp; no_effect.
  - unfold listIntents. bwp; no_effect.
  - apply confirm_effect.
  - apply cancel_effect.
  - unfold previewCancel. apply wp_bind, wp_owned_intent; [intros; no_effect|].
    intros i _ _. cbv beta iota. bwp; no_effect.
  - unfold getHoldStatus. apply wp_bind, wp_owned_intent; [intros; no_effect|].
    intros i _ _. cbv beta iota. bwp; no_effect.
  - apply refund_effect.
  - apply expire_effect.
  - apply auto_refund_effect.
  - apply no_show_effect.
Qed.

End Effects.

(** ** The contract of [createIntent] *)

Section CreateContract.
Context {R T : Type} `{BookingIntentRepositoryLaws R} `{SlotRepositoryLaws T}.
Context (o : Outside).
Implicit Types s : St R T.

Lemma intent_for_stored env slot input actor s i r' c :
  intent_for o env slot input actor s i -> create i (st_intents s) = Ok (c, r') ->
  intent_for o env slot input actor s c.
Proof.
  intros Hi Hc. apply create_ok_facts in Hc as (_ & _ & E1 & E2 & E3 & E4 & E5 & E6 & E7 & E8 & E9 & E10 & E11 & _).
  unfold intent_for, is_active in *. by rewrite E1, E2, E3, E4, E5, E6, E7, E8, E9, E10, E11.
Qed.

(** Why reserving a slot that looked bookable can still fail. *)
Lemma reserve_failure slot input actor s e :
  may_book o slot input actor s ->
  reserveSlot (o_paused o) ∅ (o_dateNow o) (ci_slotId input) None None (st_slots s) = Err e ->
  (e = EscrowPausedError /\ o_paused o = true) \/
  exists v, e = SlotExpiredError (ci_slotId input) v /\ sl_validUntil slot = Some v /\
            o_nowMs o < v <= o_dateNow o.
Proof.
  intros (Hs & Hb & _ & _ & Hv & _) Hr. unfold reserveSlot in Hr.
  destruct (o_paused o); simpl in Hr; [left; by simplify_eq|]. right.
  rewrite Hs in Hr. simpl in Hr. rewrite Hb in Hr. simpl in Hr.
  destruct (law_updateBookable (ci_slotId input) false (st_slots s)) as (t & Et & _); [by eexists|].
  rewrite Et in Hr. simpl in Hr.
  destruct (sl_validUntil slot) as [v|]; [|done]. exists v.
  destruct (Z.leb_spec v (o_dateNow o)); simpl in Hr; [|done]. simplify_eq.
  split_and!; auto.
Qed.

(** (C18) [createIntent], on every branch.  If it returns, the slot existed, was
    bookable, valid, transferable (or the actor an administrator), not the
    actor's own and free of active intents; the new intent is the only one
    added, it carries the price, policy and hold fee of this moment, and the
    slot, and only it, is now reserved.  If it throws, nothing was written, with
    one exception: when the reservation itself fails (the escrow is paused, or
    the slot expired between the two clocks), the active intent stays behind on
    a slot that is still bookable. *)
Theorem createIntent_correct env input actor s :
  match run (handle o) (createIntent env input actor) s with
  | (Ok c, s') =>
      exists slot, may_book o slot input actor s /\ intent_for o env slot input actor s c /\
        listAll (st_intents s') = listAll (st_intents s) ++ [c] /\
        findSlot (ci_slotId input) (st_slots s') = Some (set_bookable false slot) /\
        (forall id, id <> ci_slotId input -> findSlot id (st_slots s') = findSlot id (st_slots s))
  | (Err e, s') =>
      s' = s \/
      exists slot c e', e = SchedulingThrew e' /\ may_book o slot input actor s /\
        listAll (st_intents s') = listAll (st_intents s) ++ [c] /\ is_active c = true /\
        st_slots s' = st_slots s /\
        ((e' = EscrowPausedError /\ o_paused o = true) \/
         exists v, e' = SlotExpiredError (ci_slotId input) v /\ sl_validUntil slot = Some v /\
                   o_nowMs o < v <= o_dateNow o)
  end.
Proof.
  pose proof (create_outcome o env input actor s) as Hpost. unfold wp in Hpost.
  destruct (run (handle o) (createIntent env input actor) s) as [r s']. simpl in Hpost.
  destruct Hpost as [(e & -> & ->)|(slot & i & c & Hm & Hi & Hc & Hres)]; [by left|].
  pose proof (intent_for_stored _ _ _ _ _ _ _ _ Hi Hc) as Hic.
  pose proof (create_ok_facts _ _ _ _ Hc) as (_ & Hl & _).
  destruct (reserveSlot _ _ _ _ _ _ _) as [t|e] eqn:Er; destruct Hres as [-> Hsl].
  - exists slot. split_and!; try done; rewrite Hsl; clear Hsl;
      apply reserveSlot_ok in Er as (_ & sl & Hs & _ & Hu); destruct Hm as (Hs' & _).
    + rewrite Hs in Hs'. simplify_eq. by eapply findSlot_update_eq.
    + intros id Hne. by eapply findSlot_update_ne.
  - right. exists slot, c, e. split_and!; try done; [by apply Hic|].
    by eapply reserve_failure.
Qed.

End CreateContract.

(** ** The life cycle of an intent *)

(** A refund is recorded on closed intents only. *)
Definition refund_recorded_ok (i : BookingIntentRecord) : Prop :=
  is_Some (bi_refundMetadata i) -> terminal (bi_status i) = true.

Definition lifecycle (i i' : BookingIntentRecord) : Prop :=
  rtc (fun a b => edge a b = true) (bi_status i) (bi_status i') /\
  (terminal (bi_status i) = true -> i' = i) /\
  (refund_recorded_ok i -> refund_recorded_ok i').

#[global] Instance lifecycle_preorder : PreOrder lifecycle.
Proof.
  split.
  - intros i. by split_and!.
  - intros i1 i2 i3 (P1 & T1 & M1) (P2 & T2 & M2). split_and!; [by etrans| |auto].
    intros Ht. pose proof (T1 Ht). subst. auto.
Qed.

Definition lifecycles (l l' : list BookingIntentRecord) : Prop :=
  exists old new, l' = old ++ new /\ Forall2 lifecycle l old /\ Forall refund_recorded_ok new.

#[global] Instance lifecycles_preorder : PreOrder lifecycles.
Proof.
  split.
  - intros l. exists l, []. rewrite app_nil_r. split_and!; [done| |done].
    by apply Forall_Forall2_diag, Forall_true.
  - intros l1 l2 l3 (old1 & new1 & -> & F1 & G1) (old2 & new2 & -> & F2 & G2).
    apply Forall2_app_inv_l in F2 as (old & new & Fo & Fn & ->).
    exists old, (new ++ new2). split_and!; [by rewrite app_assoc|by etrans|].
    apply Forall_app. split; [|done]. clear -G1 Fn. induction Fn as [|i i' ? ? Hi ? IH]; [constructor|].
    apply Forall_cons in G1 as [Hr G1]. constructor; [by apply Hi|auto].
Qed.

Lemma edge_from_terminal a b : edge a b = true -> terminal a = false.
Proof. by destruct a, b. Qed.

Lemma update_lifecycles id us i l :
  find_first (has_id id) l = Some i ->
  edge (bi_status i) (bi_status (spread us i)) = true ->
  (bi_refundMetadata (spread us i) = bi_refundMetadata i \/
   terminal (bi_status (spread us i)) = true) ->
  lifecycles l (update_first (has_id id) (spread us) l).
Proof.
  intros Hf He Hm. exists (update_first (has_id id) (spread us) l), [].
  rewrite app_nil_r. split_and!; [done| |done].
  induction l as [|x l IH]; simpl in *; [done|]. destruct (has_id id x).
  - simplify_eq. constructor; [|by apply Forall_Forall2_diag, Forall_true]. split_and!.
    + by apply rtc_once.
    + apply edge_from_terminal in He. by rewrite He.
    + unfold refund_recorded_ok. destruct Hm as [->|Hm]; [|by rewrite Hm].
      intros Hr Hs. specialize (Hr Hs). apply edge_from_terminal in He. congruence.
  - constructor; [done|auto].
Qed.

Section Lifecycle.
Context {R T : Type} `{BookingIntentRepositoryLaws R} `{SlotRepositoryLaws T}.
Implicit Types s : St R T.

(** One request after the other, each under its own outside world. *)
Definition serial_step s s' : Prop :=
  exists o p, request p /\ s' = snd (run (handle o) p s).

Lemma effect_lifecycles s s' :
  effect s s' -> lifecycles (listAll (st_intents s)) (listAll (st_intents s')).
Proof.
  intros [->|id i us Hf He Hm Hl _|i c Hl _ Ha Hr _]; [done| |].
  - rewrite Hl. rewrite law_findById in Hf. by eapply update_lifecycles.
  - rewrite Hl. exists (listAll (st_intents s)), [c]. split_and!; [done| |].
    + by apply Forall_Forall2_diag, Forall_true.
    + constructor; [|constructor]. unfold refund_recorded_ok. rewrite Hr. by intros [? ?].
Qed.

Lemma serial_lifecycles s s' :
  rtc serial_step s s' -> lifecycles (listAll (st_intents s)) (listAll (st_intents s')).
Proof.
  induction 1 as [s|s s1 s' (o & p & Hp & ->) _ IH]; [done|]. etrans; [|exact IH].
  apply effect_lifecycles. by apply (request_effect o p s).
Qed.

(** (C19) Over any sequence of requests an intent moves along the edges of the
    life cycle only; once cancelled, expired, refunded or marked a no-show it never
    changes again; and a recorded refund (amount, reason, time) is never
    altered or repeated. *)
Theorem intent_lifecycle s s' n i :
  rtc serial_step s s' ->
  listAll (st_intents s) !! n = Some i -> refund_recorded_ok i ->
  exists i', listAll (st_intents s') !! n = Some i' /\
    rtc (fun a b => edge a b = true) (bi_status i) (bi_status i') /\
    (terminal (bi_status i) = true -> i' = i) /\
    (forall m, bi_refundMetadata i = Some m -> i' = i) /\ refund_recorded_ok i'.
Proof.
  intros Hr Hn Hok. destruct (serial_lifecycles s s' Hr) as (old & new & -> & HF & _).
  destruct (Forall2_lookup_l _ _ _ _ _ HF Hn) as (i' & Hi' & P & Ht & Hm).
  exists i'. split_and!; [by apply lookup_app_l_Some|done|done| |by apply Hm].
  intros m Em. apply Ht, Hok. by rewrite Em.
Qed.

(** The effect of any single request, whatever the outside world answers:
    nothing; or one intent moves along one edge, and its slot is freed exactly
    when the intent is not being confirmed; or one active intent is added. *)
Theorem request_effect_correct o p s : request p -> effect s (snd (run (handle o) p s)).
Proof. intros Hp. exact (request_effect o p s Hp). Qed.

End Lifecycle.

(** ** Refunds *)

Section Refunds.
Context {R T : Type} `{BookingIntentRepositoryLaws R} `{SlotRepositoryLaws T}.
Context (o : Outside) (env : ServiceEnv).
Implicit Types s : St R T.

Definition may_manage (i : BookingIntentRecord) (actor : AuthContext) : bool :=
  bool_decide (bi_customerId i = userId actor) || is_admin actor.

Lemma run_owned_intent id actor s i :
  findById id (st_intents s) = Some i ->
  run (handle o) (owned_intent id actor) s = (if may_manage i actor then Ok i else Err (http 403), s).
Proof.
  intros Hf. unfold owned_intent. rewrite run_bind, run_perform. cbn [handle fst snd]. rewrite Hf.
  unfold may_manage, need. rewrite run_bind. simpl. by destruct (bool_decide _), (is_admin actor).
Qed.

Lemma run_update_intent id us s i :
  findById id (st_intents s) = Some i ->
  exists r', run (handle o) (update_intent id us) s = (Ok (spread us i), MkSt r' (st_slots s)) /\
             listAll r' = update_first (has_id id) (spread us) (listAll (st_intents s)).
Proof.
  intros Hf. destruct (law_update id us _ i Hf) as (r' & E & Hl). exists r'. split; [|done].
  unfold update_intent. rewrite run_bind, run_perform. cbn [handle fst snd]. by rewrite E.
Qed.

Lemma run_release id s :
  run (handle o) (releaseSlotBestEffort id) s =
  (Ok tt, MkSt (st_intents s) (released id (st_slots s))).
Proof.
  unfold releaseSlotBestEffort. rewrite run_bind, run_perform. cbn [handle fst snd].
  unfold releaseSlot, lift_slot, released.
  destruct (updateBookable id true (st_slots s)) as [t|[]]; simpl; [done|]. by destruct s.
Qed.

(** The part of [refundIntent] after the refund has been computed. *)
Definition settle_refund (intentId : string) (slotId reason : string)
    (outcome : RefundBreakdown * num * num) : Handler RefundOutcome :=
  let '(breakdown, refundRatio, consumedRatio) := outcome in
  at1 ← perform NowIso;
  at2 ← perform NowIso;
  updated ← update_intent intentId (refund_fields cancelled at1 at2 (rb_netRefund breakdown) reason);
  _ ← releaseSlotBestEffort slotId;
  mret {| ro_intent := updated; ro_refundAmountCents := rb_netRefund breakdown;
          ro_refundRatio := refundRatio; ro_consumedRatio := consumedRatio; ro_reason := reason;
          ro_breakdown := breakdown |}.

Lemma run_settle_refund id slotId reason b rr cr s i :
  findById id (st_intents s) = Some i ->
  exists r',
    let us := refund_fields cancelled (o_nowIso o) (o_nowIso o) (rb_netRefund b) reason in
    run (handle o) (settle_refund id slotId reason (b, rr, cr)) s =
    (Ok {| ro_intent := spread us i; ro_refundAmountCents := rb_netRefund b; ro_refundRatio := rr;
           ro_consumedRatio := cr; ro_reason := reason; ro_breakdown := b |},
     MkSt r' (released slotId (st_slots s))) /\
    listAll r' = update_first (has_id id) (spread us) (listAll (st_intents s)).
Proof.
  intros Hf. set (us := refund_fields _ _ _ _ _).
  destruct (run_update_intent id us s i Hf) as (r' & E & Hl). exists r'. split; [|done].
  unfold settle_refund. rewrite run_bind, run_perform. cbn [handle fst snd].
  rewrite run_bind, run_perform. cbn [handle fst snd]. fold us.
  rewrite run_bind, E, run_bind, run_release. done.
Qed.

Lemma refundIntent_unfold id actor input :
  refundIntent env id actor input =
  (intent ← owned_intent id actor;
   _ ← throw_when (already_refunded intent) (http 409);
   _ ← throw_when (not_refundable_status (bi_status intent)) (http 409);
   currentNowMs ← perform NowMs;
   effective ← effective_cancelled_at actor input currentNowMs;
   outcome ← (if ltb effective (of_Z (bi_startTime intent)) then
       now ← perform NowMs;
       breakdown ← lift_result PolicyThrew (calculateRefund (policy_env env now) intent);
       mret (breakdown,
             match rb_tierApplied breakdown with Some t => ta_ratio t | None => zero end, zero)
     else lift_result RefundThrew (duration_refund intent effective));
   settle_refund id (bi_slotId intent) (or_default (ri_reason input) "partial_refund") outcome).
Proof. done. Qed.

(** The refund of an open intent before its start. *)
Lemma run_refund_before_start id actor input s i at_ :
  findById id (st_intents s) = Some i -> may_manage i actor = true ->
  already_refunded i = false -> not_refundable_status (bi_status i) = false ->
  run (handle o) (effective_cancelled_at actor input (o_nowMs o)) s = (Ok at_, s) ->
  ltb at_ (of_Z (bi_startTime i)) = true ->
  run (handle o) (refundIntent env id actor input) s =
  match calculateRefund (policy_env env (o_nowMs o)) i with
  | Err e => (Err (PolicyThrew e), s)
  | Ok b => run (handle o) (settle_refund id (bi_slotId i) (or_default (ri_reason input) "partial_refund")
              (b, match rb_tierApplied b with Some t => ta_ratio t | None => zero end, zero)) s
  end.
Proof.
  intros Hf Hm Hr Hs He Hlt. rewrite refundIntent_unfold, run_bind, (run_owned_intent _ _ _ i Hf), Hm.
  rewrite run_bind, run_throw_when, Hr, run_bind, run_throw_when, Hs, run_bind, run_perform.
  cbn [handle fst snd]. rewrite run_bind, He, run_bind, Hlt, run_bind, run_perform.
  cbn [handle fst snd]. rewrite run_bind, run_lift.
  by destruct (calculateRefund (policy_env env (o_nowMs o)) i).
Qed.

(** (C37) A refund pays what the preview promised: if [previewCancel] shows a
    breakdown for an open intent before its start, then [refundIntent] under the same
    clock and policies succeeds with that very breakdown, records its net
    amount on the intent, cancels it and frees its slot. *)
Theorem preview_equals_refund id actor reason s s1 i b :
  run (handle o) (previewCancel env id actor) s = (Ok b, s1) ->
  findById id (st_intents s) = Some i ->
  already_refunded i = false -> not_refundable_status (bi_status i) = false ->
  ltb (of_Z (o_nowMs o)) (of_Z (bi_startTime i)) = true ->
  exists out s2,
    run (handle o) (refundIntent env id actor {| ri_reason := reason; ri_cancelledAtMs := None |}) s
      = (Ok out, s2) /\
    s1 = s /\ ro_breakdown out = b /\ ro_refundAmountCents out = rb_netRefund b /\
    bi_status (ro_intent out) = cancelled /\
    rm_refundedAmountCents <$> bi_refundMetadata (ro_intent out) = Some (rb_netRefund b) /\
    st_slots s2 = released (bi_slotId i) (st_slots s).
Proof.
  intros Hp Hf Hr Hs Hlt. unfold previewCancel in Hp. rewrite run_bind, (run_owned_intent _ _ _ i Hf) in Hp.
  destruct (may_manage i actor) eqn:Hm; [|done].
  rewrite run_bind, run_perform in Hp. cbn [handle fst snd] in Hp. rewrite run_lift in Hp.
  rewrite (run_refund_before_start id actor _ s i (of_Z (o_nowMs o))); try done;
    [|unfold effective_cancelled_at; by destruct (is_admin actor)].
  destruct (calculateRefund (policy_env env (o_nowMs o)) i) as [b'|e]; [|done]. simplify_eq.
  edestruct (run_settle_refund id (bi_slotId i)) as (r' & E & Hl); [exact Hf|].
  rewrite E. do 2 eexists. split; [done|]. simpl. split_and!; try done; by destruct i.
Qed.

(** The administrator's [cancelledAtMs] does not reach the tier computation:
    every back-dated cancellation time before the start gives the same
    response and the same final state, namely those computed for the present moment. *)
Theorem override_time_ignored id actor reason s i at1 at2 :
  is_admin actor = true -> findById id (st_intents s) = Some i ->
  already_refunded i = false -> not_refundable_status (bi_status i) = false ->
  (forall a, a = at1 \/ a = at2 -> is_finite a = true /\ gtb a (of_Z (o_nowMs o)) = false /\
                                 ltb a (of_Z (bi_startTime i)) = true) ->
  run (handle o) (refundIntent env id actor {| ri_reason := reason; ri_cancelledAtMs := Some at1 |}) s =
  run (handle o) (refundIntent env id actor {| ri_reason := reason; ri_cancelledAtMs := Some at2 |}) s.
Proof.
  intros Ha Hf Hr Hs Hat.
  assert (may_manage i actor = true) as Hm by (unfold may_manage; rewrite Ha; apply orb_true_r).
  assert (forall a, a = at1 \/ a = at2 ->
    run (handle o) (effective_cancelled_at actor
      {| ri_reason := reason; ri_cancelledAtMs := Some a |} (o_nowMs o)) s = (Ok a, s)) as He.
  { intros a (Hfin & Hnow & _)%Hat. unfold effective_cancelled_at. rewrite Ha. cbn [ri_cancelledAtMs].
    by rewrite run_bind, run_throw_when, Hfin, run_bind, run_throw_when, Hnow. }
  rewrite (run_refund_before_start id actor _ s i at1) by (auto; by apply Hat; left).
  rewrite (run_refund_before_start id actor _ s i at2) by (auto; by apply Hat; right). done.
Qed.

End Refunds.

(** ** Authorisation *)

Section Authorisation.
Context {R T : Type} `{BookingIntentRepositoryLaws R} `{SlotRepositoryLaws T}.
Context (o : Outside) (env : ServiceEnv).
Implicit Types s : St R T.

Lemma stranger_rejected {A} id actor s i (f : BookingIntentRecord -> Handler A) :
  findById id (st_intents s) = Some i -> is_admin actor = false -> bi_customerId i <> userId actor ->
  run (handle o) (owned_intent id actor ≫= f) s = (Err (http 403), s).
Proof.
  intros Hf Ha Hc. rewrite run_bind, (run_owned_intent o _ _ _ i Hf). unfold may_manage.
  by rewrite bool_decide_eq_false_2, Ha.
Qed.

(** Nobody but the customer and administrators can confirm, cancel, refund
    or inspect an intent (403; a plain lookup answers 404, as for an unknown
    intent), nobody but the professional and administrators can declare a
    no-show, and a rejected request changes nothing. *)
Theorem strangers_rejected id actor s i rin nin :
  findById id (st_intents s) = Some i -> is_admin actor = false ->
  (bi_customerId i <> userId actor ->
     run (handle o) (confirmIntent id actor) s = (Err (http 403), s) /\
     run (handle o) (cancelIntent id actor) s = (Err (http 403), s) /\
     run (handle o) (refundIntent env id actor rin) s = (Err (http 403), s) /\
     run (handle o) (previewCancel env id actor) s = (Err (http 403), s) /\
     run (handle o) (getHoldStatus id actor) s = (Err (http 403), s) /\
     run (handle o) (getIntent id actor) s = (Err (http 404), s)) /\
  (bi_professional i <> userId actor ->
     run (handle o) (markNoShow env id actor nin) s = (Err (http 403), s)).
Proof.
  intros Hf Ha. split.
  - intros Hc. split_and!; try by apply (stranger_rejected _ _ _ i).
    unfold getIntent. rewrite run_bind, run_perform. cbn [handle fst snd]. rewrite Hf.
    rewrite run_bind, run_need. simpl from_option_or. cbv iota.
    rewrite run_bind, run_throw_when, bool_decide_eq_false_2, Ha by done. done.
  - intros Hc. unfold markNoShow. rewrite run_bind, run_perform. cbn [handle fst snd]. rewrite Hf.
    rewrite run_bind, run_need. simpl from_option_or. cbv iota.
    rewrite run_bind, run_throw_when, bool_decide_eq_false_2, Ha by done. done.
Qed.

(** Booking and cancelling restores the slots: if [createIntent] returns an
    intent the repository finds again, its customer can cancel it, whatever
    the state of the outside world by then, and the slot store is exactly as
    before the booking. *)
Theorem create_cancel_roundtrip o' input actor s c s1 :
  run (handle o) (createIntent env input actor) s = (Ok c, s1) ->
  findById (bi_id c) (st_intents s1) = Some c ->
  exists c' s2, run (handle o') (cancelIntent (bi_id c) actor) s1 = (Ok c', s2) /\
    st_slots s2 = st_slots s /\ terminal (bi_status c') = true.
Proof.
  intros Hc Hf. pose proof (create_outcome o env input actor s) as Hpost. unfold wp in Hpost.
  rewrite Hc in Hpost. simpl in Hpost.
  destruct Hpost as [(e & ? & _)|(slot & i & c0 & Hm & Hi & Hcr & Hres)]; [done|].
  destruct (reserveSlot _ _ _ _ _ _ _) as [t|e] eqn:Er; [|by destruct Hres].
  destruct Hres as [Hcc Hsl]. simplify_eq.
  pose proof (intent_for_stored _ _ _ _ _ _ _ _ _ Hi Hcr) as (Hslot & Hcust & _ & _ & _ & Hact & _).
  apply reserveSlot_ok in Er as (_ & sl & Hs & Hb & Hu).
  assert (released (bi_slotId c0) (st_slots s1) = st_slots s) as Hrel.
  { unfold released. rewrite Hslot. by rewrite (reserve_release_inverse _ _ _ sl Hs Hb Hu). }
  unfold cancelIntent. rewrite run_bind, (run_owned_intent o' _ _ _ c0 Hf). unfold may_manage.
  rewrite bool_decide_eq_true_2 by done. simpl orb. cbv iota.
  rewrite run_bind, run_throw_when, Hact. simpl negb. cbv iota.
  destruct (is_refundable_hold c0 && bool_decide (bi_status c0 = hold_placed)).
  - rewrite run_bind, run_bind, run_perform, run_bind, run_perform. cbn [handle fst snd].
    match goal with |- context [update_intent _ ?us] =>
      destruct (run_update_intent o' (bi_id c0) us s1 c0 Hf) as (r' & E & _) end.
    rewrite E, run_bind, run_release. do 2 eexists. split; [done|]. split; [done|].
    unfold refund_fields. by rewrite spread_status by repeat constructor.
  - destruct (run_update_intent o' (bi_id c0) [SetStatus cancelled] s1 c0 Hf) as (r' & E & _).
    rewrite run_bind, E, run_bind, run_release. do 2 eexists. split; [done|]. split; [done|].
    by rewrite spread_status by constructor.
Qed.

End Authorisation.

(** ** A concrete world *)

Definition HOUR : Z := 3600000.

Definition w_env : ServiceEnv :=
  {| se_policies := createDefaultRegistry; se_overrides := ∅; se_holdFees := ∅;
     se_hasFxProvider := false; se_noShowGraceMs := None |}.

Definition w_outside (now : Z) : Outside :=
  {| o_nowMs := now; o_nowIso := "iso"; o_dateNow := now; o_paused := false;
     o_fx := fun _ _ => None; o_grace := fun _ => of_Z 900;
     o_strike := fun _ => Some ("strike-1"%string, false) |}.

Definition w_paused (now : Z) : Outside :=
  {| o_nowMs := now; o_nowIso := "iso"; o_dateNow := now; o_paused := true;
     o_fx := fun _ _ => None; o_grace := fun _ => of_Z 900; o_strike := fun _ => None |}.

Definition alice : AuthContext := {| userId := "alice"; role := "customer" |}.
Definition mallory : AuthContext := {| userId := "mallory"; role := "customer" |}.
Definition root : AuthContext := {| userId := "root"; role := "admin" |}.

(** A slot starting 100 hours after time 0, for 100.00. *)
Definition w_slot1 : SlotRecord :=
  {| sl_id := "slot-00000000-0000-4000-8000-000000000001"; sl_professional := "bob"; sl_startTime := 100 * HOUR;
     sl_endTime := 101 * HOUR; sl_bookable := true;
     sl_pricingStrategy := Some {| sps_strategyId := sid_fixed; sps_basePrice := of_Z 10000;
                                   sps_capacity := None; sps_config := FixedConfig |};
     sl_validUntil := None; sl_supplierId := None; sl_storeId := None; sl_tenantId := None;
     sl_category := None; sl_transferable := None; sl_currency := None; sl_amount_minor := None |}.

Definition w_input : CreateBookingIntentInput :=
  {| ci_slotId := "slot-00000000-0000-4000-8000-000000000001"; ci_note := None; ci_bookingType := None; ci_holdDeadlineMs := None;
     ci_buyerCurrency := None |}.

Abbreviation MemSt := (St InMemoryRepo.t InMemorySlots.t).

Definition w_s0 : MemSt := MkSt InMemoryRepo.empty {| InMemorySlots.slots := [w_slot1] |}.

Definition after {A} (o : Outside) (p : Handler A) (s : MemSt) : MemSt := snd (run (handle o) p s).

(** Alice books at time 0, and her booking is confirmed. *)
Definition w_s1 : MemSt := Eval vm_compute in after (w_outside 0) (createIntent w_env w_input alice) w_s0.
Definition w_s2 : MemSt := Eval vm_compute in after (w_outside 0) (confirmIntent "intent-1" alice) w_s1.

Definition w_first (s : MemSt) : option BookingIntentRecord := listAll (st_intents s) !! 0%nat.

Definition w_blank : BookingIntentRecord :=
  new_intent w_slot1 w_input alice standard None "" None
    {| policyVersionId := ""; policyTerms := LEGACY_V1_TERMS; cps_capturedAtMs := 0 |}
    (snapshotForSupplier ∅ 0 "bob") None.

Definition w_booked : BookingIntentRecord := default w_blank (w_first w_s1).
Definition w_confirmed : BookingIntentRecord := default w_blank (w_first w_s2).

Lemma w_create_runs : run (handle (w_outside 0)) (createIntent w_env w_input alice) w_s0 = (Ok w_booked, w_s1).
Proof. vm_compute. reflexivity. Qed.

Lemma createIntent_correct_witness :
  exists slot, may_book (w_outside 0) slot w_input alice w_s0 /\
    intent_for (w_outside 0) w_env slot w_input alice w_s0 w_booked /\
    listAll (st_intents w_s1) = listAll (st_intents w_s0) ++ [w_booked] /\
    findSlot (ci_slotId w_input) (st_slots w_s1) = Some (set_bookable false slot) /\
    (forall id, id <> ci_slotId w_input -> findSlot id (st_slots w_s1) = findSlot id (st_slots w_s0)).
Proof.
  pose proof (createIntent_correct (w_outside 0) w_env w_input alice w_s0) as H.
  rewrite w_create_runs in H. exact H.
Defined.

Lemma handle_exec {R T} `{BookingIntentRepository R} `{SlotRepository T} o X (ev : Ev X) (s : St R T) :
  exec X ev s (fst (handle o X ev s)) (snd (handle o X ev s)).
Proof.
  unfold exec. destruct (outside ev) eqn:E; [by destruct ev|].
  exists o. by destruct (handle o X ev s).
Qed.

(** Two customers race for the slot. *)
Definition w_create_race : Config Ev BookingErr MemSt :=
  follow (fun o => handle o)
    (map (fun n => (n, w_outside 0)) [0; 1; 0; 1; 0; 1; 0; 1; 0; 1; 0; 1; 0; 1; 0; 1; 0; 1; 0; 1; 0; 1; 0; 1]%nat)
    {| cf_state := w_s0;
       cf_pool := [forget (createIntent w_env w_input alice);
                   forget (createIntent w_env w_input mallory)] |}.

Lemma w_create_race_reachable : bsteps {| cf_state := w_s0; cf_pool := [] |} w_create_race.
Proof.
  etrans; [|apply follow_steps; intros; apply handle_exec].
  apply (admit_steps _ _ _ [] [_; _]). repeat constructor.
Qed.

Lemma no_double_booking_witness :
  one_active (listAll (st_intents (cf_state w_create_race))) /\
  length (listAll (st_intents (cf_state w_create_race))) = 1%nat /\
  cf_pool w_create_race = [Ret tt; Thr (RepoThrew (ConflictError "slot-00000000-0000-4000-8000-000000000001"))].
Proof.
  split_and!; [|vm_compute; reflexivity..].
  apply (no_double_booking w_s0); [|apply w_create_race_reachable].
  intros slotId. simpl. lia.
Defined.

Lemma agreed_terms_immutable_witness :
  exists i', listAll (st_intents (cf_state
      (follow (fun o => handle o) (repeat (0%nat, w_outside HOUR) 7)
        {| cf_state := w_s2; cf_pool := [forget (refundIntent w_env "intent-1" alice
             {| ri_reason := None; ri_cancelledAtMs := None |})] |}))) !! 0%nat = Some i' /\
    agreed i' = agreed w_confirmed /\ (is_active i' = true -> is_active w_confirmed = true).
Proof.
  apply (agreed_terms_immutable w_s2); [|vm_compute; reflexivity].
  etrans; [|apply follow_steps; intros; apply handle_exec].
  apply (admit_steps _ _ _ [] [_]). repeat constructor.
Defined.

Lemma intent_lifecycle_witness :
  exists i', listAll (st_intents w_s2) !! 0%nat = Some i' /\
    rtc (fun a b => edge a b = true) (bi_status w_booked) (bi_status i') /\
    (terminal (bi_status w_booked) = true -> i' = w_booked) /\
    (forall m, bi_refundMetadata w_booked = Some m -> i' = w_booked) /\ refund_recorded_ok i'.
Proof.
  apply (intent_lifecycle w_s1).
  - apply rtc_once. exists (w_outside 0), (forget (confirmIntent "intent-1" alice)).
    split; [constructor|]. vm_compute. reflexivity.
  - vm_compute. reflexivity.
  - intros Hm. exfalso. revert Hm. vm_compute. by intros [? ?].
Defined.

Lemma request_effect_correct_witness :
  effect w_s1 (snd (run (handle (w_outside 0)) (forget (cancelIntent "intent-1" alice)) w_s1)).
Proof. apply request_effect_correct. constructor. Defined.

Definition w_preview : RefundBreakdown :=
  match fst (run (handle (w_outside HOUR)) (previewCancel w_env "intent-1" alice) w_s2) with
  | Ok b => b
  | Err _ => {| rb_fee := zero; rb_taxReversal := zero; rb_netRefund := NaN; rb_policyVersion := "";
                rb_tierApplied := None; rb_hoursUntilStart := zero; rb_basePrice := zero;
                rb_holdFee := zero |}
  end.

Lemma preview_equals_refund_witness :
  exists out s2,
    run (handle (w_outside HOUR)) (refundIntent w_env "intent-1" alice
      {| ri_reason := None; ri_cancelledAtMs := None |}) w_s2 = (Ok out, s2) /\
    w_s2 = w_s2 /\ ro_breakdown out = w_preview /\
    ro_refundAmountCents out = rb_netRefund w_preview /\
    bi_status (ro_intent out) = cancelled /\
    rm_refundedAmountCents <$> bi_refundMetadata (ro_intent out) = Some (rb_netRefund w_preview) /\
    st_slots s2 = released (bi_slotId w_confirmed) (st_slots w_s2).
Proof. apply (preview_equals_refund _ _ "intent-1" alice None w_s2); vm_compute; reflexivity. Defined.

Lemma override_time_ignored_witness :
  run (handle (w_outside (99 * HOUR))) (refundIntent w_env "intent-1" root
    {| ri_reason := None; ri_cancelledAtMs := Some (of_Z HOUR) |}) w_s2 =
  run (handle (w_outside (99 * HOUR))) (refundIntent w_env "intent-1" root
    {| ri_reason := None; ri_cancelledAtMs := Some (of_Z (98 * HOUR)) |}) w_s2.
Proof.
  apply (override_time_ignored _ _ "intent-1" root None w_s2 w_confirmed);
    [vm_compute; reflexivity..|].
  intros a [->| ->]; split_and!; vm_compute; reflexivity.
Defined.

Lemma strangers_rejected_witness :
  (bi_customerId w_booked <> userId mallory ->
     run (handle (w_outside 0)) (confirmIntent "intent-1" mallory) w_s1 = (Err (http 403), w_s1) /\
     run (handle (w_outside 0)) (cancelIntent "intent-1" mallory) w_s1 = (Err (http 403), w_s1) /\
     run (handle (w_outside 0)) (refundIntent w_env "intent-1" mallory
        {| ri_reason := None; ri_cancelledAtMs := None |}) w_s1 = (Err (http 403), w_s1) /\
     run (handle (w_outside 0)) (previewCancel w_env "intent-1" mallory) w_s1 = (Err (http 403), w_s1) /\
     run (handle (w_outside 0)) (getHoldStatus "intent-1" mallory) w_s1 = (Err (http 403), w_s1) /\
     run (handle (w_outside 0)) (getIntent "intent-1" mallory) w_s1 = (Err (http 404), w_s1)) /\
  (bi_professional w_booked <> userId mallory ->
     run (handle (w_outside 0)) (markNoShow w_env "intent-1" mallory
        {| ns_reason := None; ns_forfeitRatio := None |}) w_s1 = (Err (http 403), w_s1)).
Proof. apply strangers_rejected; vm_compute; reflexivity. Defined.

Lemma create_cancel_roundtrip_witness :
  exists c' s2,
    run (handle (w_paused HOUR)) (cancelIntent (bi_id w_booked) alice) w_s1 = (Ok c', s2) /\
    st_slots s2 = st_slots w_s0 /\ terminal (bi_status c') = true.
Proof.
  apply (create_cancel_roundtrip (w_outside 0) w_env _ w_input); [apply w_create_runs|].
  vm_compute. reflexivity.
Defined.

(** ** What the guarantees above do not cover *)

(** While the escrow is paused, [createIntent] stores the intent and only then
    discovers the pause: the customer gets an error, and the slot, still
    bookable, is blocked by a pending intent. *)
Example create_half_applied :
  exists s' i, run (handle (w_paused 0)) (createIntent w_env w_input alice) w_s0 =
               (Err (SchedulingThrew EscrowPausedError), s') /\
    listAll (st_intents s') = [i] /\ bi_status i = pending /\
    sl_bookable <$> findSlot "slot-00000000-0000-4000-8000-000000000001" (st_slots s') = Some true /\
    fst (run (handle (w_outside 0)) (createIntent w_env w_input mallory) s') = Err (http 409).
Proof.
  exists (after (w_paused 0) (createIntent w_env w_input alice) w_s0).
  exists (default w_blank (w_first (after (w_paused 0) (createIntent w_env w_input alice) w_s0))).
  split_and!; vm_compute; reflexivity.
Qed.

Definition w_refund_amount (r : result BookingErr RefundOutcome * MemSt) : option num :=
  match r with (Ok out, _) => Some (ro_refundAmountCents out) | _ => None end.

(** An administrator who back-dates a cancellation to 99 hours before the start
    grants 0 cents once the session has begun, where a refund requested at
    that time would have paid 9350. *)
Example backdated_refund_is_zero :
  w_refund_amount (run (handle (w_outside (100 * HOUR))) (refundIntent w_env "intent-1" root
    {| ri_reason := None; ri_cancelledAtMs := Some (of_Z HOUR) |}) w_s2) = Some zero /\
  w_refund_amount (run (handle (w_outside HOUR)) (refundIntent w_env "intent-1" root
    {| ri_reason := None; ri_cancelledAtMs := None |}) w_s2) = Some (of_Z 9350).
Proof. split; vm_compute; reflexivity. Qed.

(** Two refunds of one intent, a millisecond apart on either side of a tier
    boundary, read it before either writes. *)
Definition w_refund : Handler unit :=
  forget (refundIntent w_env "intent-1" alice {| ri_reason := None; ri_cancelledAtMs := None |}).

Definition w_race1 : Config Ev BookingErr MemSt :=
  follow (fun o => handle o) ((0%nat, w_outside (28 * HOUR)) :: (1%nat, w_outside (28 * HOUR + 1)) ::
      repeat (0%nat, w_outside (28 * HOUR)) 6)
    {| cf_state := w_s2; cf_pool := [w_refund; w_refund] |}.

Definition w_race2 : Config Ev BookingErr MemSt :=
  follow (fun o => handle o) (repeat (1%nat, w_outside (28 * HOUR + 1)) 6) w_race1.

Definition w_recorded (c : Config Ev BookingErr MemSt) : option num :=
  i ← w_first (cf_state c); rm_refundedAmountCents <$> bi_refundMetadata i.

(** [refundIntent] checks "not refunded yet" and writes in two separate
    repository calls: two concurrent refunds of the same intent can both
    succeed, the second replacing the amount the first recorded. *)
Theorem concurrent_refunds_both_succeed :
  bsteps {| cf_state := w_s2; cf_pool := [] |} w_race1 /\ bsteps w_race1 w_race2 /\
  w_recorded w_race1 = Some (of_Z 9350) /\ w_recorded w_race2 = Some (of_Z 6550) /\
  cf_pool w_race2 = [Ret tt; Ret tt].
Proof.
  split_and!; [| |vm_compute; reflexivity..].
  - etrans; [|apply follow_steps; intros; apply handle_exec].
    apply (admit_steps _ _ _ [] [_; _]). repeat constructor.
  - apply follow_steps. intros. apply handle_exec.
Qed.
