(* ===== verification/Recurring.v ===== *)
(** * Recurring: recurring bookings

    [RecurringBookingRulesEngine] of [services/schedulingService.ts] and
    [createRecurringIntents] of [modules/booking-intents/booking-intent-service.ts].
    The expansion of a rule ([recurrenceService.expandRRule], which calls an RRULE library)
    is a parameter; the engine's own checks of the rule text are modelled. *)
From stdpp Require Import base list strings gmap relations.
From Stdlib Require Import ZArith Lia Ascii.
From S2P Require Import Prelude JsNumber Async Domain Pricing HoldFee Cancellation BookingRepo SlotRepo Scheduling BookingService BookingLifecycle.
Local Open Scope Z_scope.

(** ** The rule text *)

Definition LF : ascii := "010"%char.
Definition CR : ascii := "013"%char.

(** [s.split(/\r?\n/)]; [cur] is the line read so far, reversed. *)
Fixpoint split_lines_from (cur : list ascii) (s : string) : list string :=
  match s with
  | EmptyString => [String.string_of_list_ascii (rev cur)]
  | String c s' =>
      if bool_decide (c = LF) then
        let line := match cur with d :: cur' => if bool_decide (d = CR) then cur' else cur | [] => [] end in
        String.string_of_list_ascii (rev line) :: split_lines_from [] s'
      else split_lines_from (c :: cur) s'
  end.

Definition split_lines (s : string) : list string := split_lines_from [] s.

Definition ends_with_Z (s : string) : bool :=
  match last (String.list_ascii_of_string s) with Some c => bool_decide (c = "Z"%char) | None => false end.

Definition includes (needle s : string) : bool := bool_decide (is_Some (String.index 0 needle s)).

(** What follows the first [':'] of a line, or nothing. *)
Definition after_colon (line : string) : string :=
  match String.index 0 ":" line with
  | Some i => String.substring (S i) (String.length line) line
  | None => ""
  end.

Definition ambiguous_dtstart (normalized : string) : bool :=
  match find_first (String.prefix "DTSTART") (split_lines normalized) with
  | Some line => negb (ends_with_Z (after_colon line)) && negb (includes "TZID=" normalized)
  | None => false
  end.

Inductive ExpandError : Type :=
| RecurringBookingRulesError (message : string)
| OtherThrow.

Inductive RuleFailure : Type :=
| RecurrenceError (message : string)
| UnexpectedThrow.

Inductive FailureReason : Type :=
| NoAvailableSlot
| NotTransferable (bundleId : string)
| OwnSlot
| CustomerHasIntent
| SlotHasIntent
| AlreadyBooked
| Expired (slotId : string) (validUntil : Z)
| ReserveFailed (slotId : string) (cause : SchedulingError)
| CreateFailed (cause : BookingErr).

Record RecurringOptions : Type := {
  rg_note : option string;
  rg_bookingType : option BookingType;
  rg_holdDeadlineMs : option num
}.

Record RecurringBookingReport : Type := {
  rp_successes : list BookingIntentRecord;
  rp_failures : list (Z * FailureReason)
}.

Section Engine.
Context (expandRule : string -> result RuleFailure (list Z)).
Context (env : ServiceEnv).

Definition expand (rrule : string) : result ExpandError (list Z) :=
  let normalized := js_trim rrule in
  _ ← throw_if (is_empty_string normalized) (RecurringBookingRulesError "rrule must be a non-empty string");
  _ ← throw_if (ambiguous_dtstart normalized)
        (RecurringBookingRulesError "Ambiguous DTSTART: missing explicit timezone offset (Z or TZID)");
  match expandRule normalized with
  | Ok occurrences => mret occurrences
  | Err (RecurrenceError m) => Err (RecurringBookingRulesError m)
  | Err UnexpectedThrow => Err OtherThrow
  end.

(** The reason reported for a refused reservation. *)
Definition reserve_reason (slotId : string) (e : SchedulingError) : FailureReason :=
  match e with
  | SlotNotBookableError _ => AlreadyBooked
  | SlotExpiredError id vu => Expired id vu
  | SlotNotFoundError _ => NoAvailableSlot
  | _ => ReserveFailed slotId e
  end.

Definition capturePolicySnapshots (professionalId : string)
    : Handler (CancellationPolicySnapshot * HoldFeePolicySnapshot) :=
  c ← captureCancellationPolicySnapshot env professionalId;
  h ← captureHoldFeePolicySnapshot env professionalId;
  mret (c, h).

(** The engine's own clock is [Date.now]. *)
Definition occurrence_pricing (slot : SlotRecord) : Handler (option PricingSnapshot) :=
  match sl_pricingStrategy slot with
  | Some _ =>
      all ← perform AllIntents;
      now ← perform DateNow;
      lift_result PricingThrew (resolvePricingSnapshot slot all now)
  | None => mret None
  end.

(** The [try] block that persists the intent; the hold deadline is taken as it is. *)
Definition persist_occurrence (slot : SlotRecord) (actor : AuthContext) (opts : RecurringOptions)
    : Handler BookingIntentRecord :=
  snapshots ← capturePolicySnapshots (sl_professional slot);
  pricing ← occurrence_pricing slot;
  let bookingType := default standard (rg_bookingType opts) in
  createdAt ← perform NowIso;
  holdPlacedAt ← hold_placed_at bookingType;
  created ← perform (CreateIntent (new_intent slot
    {| ci_slotId := sl_id slot; ci_note := rg_note opts; ci_bookingType := rg_bookingType opts;
       ci_holdDeadlineMs := rg_holdDeadlineMs opts; ci_buyerCurrency := None |}
    actor bookingType holdPlacedAt createdAt pricing (fst snapshots) (snd snapshots) None));
  lift_result RepoThrew created.

Definition bookable_at (startEpoch : Z) (s : SlotRecord) : bool :=
  (sl_startTime s =? startEpoch) && sl_bookable s.

Definition materializeOccurrence (occurrence : Z) (actor : AuthContext) (opts : RecurringOptions)
    : Handler (result FailureReason BookingIntentRecord) :=
  slots ← perform ListSlots;
  match find_first (bookable_at occurrence) slots with
  | None => mret (Err NoAvailableSlot)
  | Some slot =>
      match assertBundleTransferable slot (Some actor) with
      | Err b => mret (Err (NotTransferable b))
      | Ok _ =>
          if bool_decide (sl_professional slot = userId actor) then mret (Err OwnSlot)
          else
            existingForCustomer ← perform (IntentBySlotAndCustomer (sl_id slot) (userId actor));
            if bool_decide (is_Some existingForCustomer) then mret (Err CustomerHasIntent)
            else
              existingForSlot ← perform (IntentBySlot (sl_id slot));
              if bool_decide (is_Some existingForSlot) then mret (Err SlotHasIntent)
              else
                paused ← perform EscrowPaused;
                dateNow ← perform DateNow;
                reserved ← perform (ReserveSlot paused dateNow (sl_id slot));
                match reserved with
                | Err e => mret (Err (reserve_reason (sl_id slot) e))
                | Ok _ =>
                    persisted ← attempt (persist_occurrence slot actor opts);
                    match persisted with
                    | Ok intent => mret (Ok intent)
                    | Err e =>
                        _ ← releaseSlotBestEffort (sl_id slot);
                        mret (Err (CreateFailed e))
                    end
                end
      end
  end.

Definition add_outcome (occurrence : Z) (outcome : result FailureReason BookingIntentRecord)
    (report : RecurringBookingReport) : RecurringBookingReport :=
  match outcome with
  | Ok intent => {| rp_successes := rp_successes report ++ [intent]; rp_failures := rp_failures report |}
  | Err reason => {| rp_successes := rp_successes report;
                     rp_failures := rp_failures report ++ [(occurrence, reason)] |}
  end.

Fixpoint materialize_all (occurrences : list Z) (actor : AuthContext) (opts : RecurringOptions)
    (report : RecurringBookingReport) : Handler RecurringBookingReport :=
  match occurrences with
  | [] => mret report
  | t :: rest =>
      outcome ← materializeOccurrence t actor opts;
      materialize_all rest actor opts (add_outcome t outcome report)
  end.

(** [createRecurringBookings], its rule errors turned into the service's. *)
Definition createRecurringIntents (rrule : string) (actor : AuthContext) (opts : RecurringOptions)
    : Handler RecurringBookingReport :=
  occurrences ← lift_result (fun e => match e with
      | RecurringBookingRulesError _ => http 400
      | OtherThrow => ExpansionThrew
      end) (expand rrule);
  materialize_all occurrences actor opts {| rp_successes := []; rp_failures := [] |}.

End Engine.

(** ** One occurrence alone *)

Section Alone.
Context (expandRule : string -> result RuleFailure (list Z)) (env : ServiceEnv).
Context {R T : Type} `{BookingIntentRepositoryLaws R} `{SlotRepositoryLaws T}.
Implicit Types (s : St R T) (o : Outside).

(** Persisting either stores one intent for the slot and the actor, or throws
    and changes nothing. *)
Lemma run_persist_occurrence o slot actor opts s :
  wp (handle o) (persist_occurrence env slot actor opts) (fun r s' =>
    match r with
    | Ok c => listAll (st_intents s') = listAll (st_intents s) ++ [c] /\ st_slots s' = st_slots s /\
              bi_slotId c = sl_id slot /\ bi_customerId c = userId actor /\
              bi_status c = (match default standard (rg_bookingType opts) with
                             | refundable_hold => hold_placed | standard => pending end) /\
              bi_holdUntilMs c = (match default standard (rg_bookingType opts) with
                             | refundable_hold => rg_holdDeadlineMs opts | standard => None end)
    | Err _ => s' = s
    end) s.
Proof.
  unfold persist_occurrence, capturePolicySnapshots, captureCancellationPolicySnapshot,
    captureHoldFeePolicySnapshot, occurrence_pricing, hold_placed_at.
  repeat wp_step; simpl in *; try done.
  all: match goal with |- context [on_intents ?r ?s] => destruct r as [[c r']|e'] eqn:E end; simpl in *; try done.
  all: simplify_eq; apply create_ok_facts in E as (_ & Hl & Hs & Hst & Hc & _ & _ & _ & Hh & _); by split_and!.
Qed.

Lemma st_eta s : MkSt (st_intents s) (st_slots s) = s.
Proof. by destruct s. Qed.

(** The effect of one occurrence: a stored intent and a reserved slot, or
    nothing at all. *)
Definition occurrence_effect (occ : Z) (actor : AuthContext) (opts : RecurringOptions)
    (r : result BookingErr (result FailureReason BookingIntentRecord)) s s' : Prop :=
  match r with
  | Ok (Ok c) =>
      exists slot, find_first (bookable_at occ) (slots_list (st_slots s)) = Some slot /\
        sl_professional slot <> userId actor /\
        listAll (st_intents s') = listAll (st_intents s) ++ [c] /\
        bi_slotId c = sl_id slot /\ bi_customerId c = userId actor /\ is_active c = true /\
        updateBookable (sl_id slot) false (st_slots s) = Ok (st_slots s')
  | Ok (Err _) => s' = s
  | Err _ => False
  end.

Lemma run_materializeOccurrence o occ actor opts s :
  wp (handle o) (materializeOccurrence env occ actor opts)
    (fun r s' => occurrence_effect occ actor opts r s s') s.
Proof.
  unfold materializeOccurrence. apply wp_bind, wp_perform. cbn [handle fst snd].
  destruct (find_first (bookable_at occ) (slots_list (st_slots s))) as [slot|] eqn:Hslot; [|by apply wp_ret].
  destruct (assertBundleTransferable slot (Some actor)); [|by apply wp_ret].
  case_bool_decide as Hown; [by apply wp_ret|]. apply wp_bind, wp_perform. cbn [handle fst snd].
  destruct (bool_decide _); [by apply wp_ret|]. apply wp_bind, wp_perform. cbn [handle fst snd].
  destruct (bool_decide _); [by apply wp_ret|]. apply wp_bind, wp_perform. cbn [handle fst snd].
  apply wp_bind, wp_perform. cbn [handle fst snd]. apply wp_bind, wp_perform. cbn [handle fst snd].
  destruct (reserveSlot _ _ _ _ _ _ _) as [t1|e] eqn:Hr; cbn [on_slots fst snd]; [|by apply wp_ret].
  apply reserveSlot_ok in Hr as (_ & x & Hx & Hb & Hu).
  apply wp_bind. unfold wp at 1. rewrite run_attempt. cbn [fst snd].
  pose proof (run_persist_occurrence o slot actor opts (MkSt (st_intents s) t1)) as Hp. unfold wp in Hp.
  destruct (run (handle o) (persist_occurrence env slot actor opts) (MkSt (st_intents s) t1)) as [[c|e] s2].
  - simpl in *. destruct Hp as (Hl & Hs & Hid & Hc & Hst & _). apply wp_ret. simpl.
    exists slot. rewrite Hs. split_and!; try done. unfold is_active. rewrite Hst.
    by destruct (default standard (rg_bookingType opts)).
  - simpl in Hp. subst s2. cbn [fst snd]. unfold releaseSlotBestEffort. apply wp_bind, wp_bind, wp_perform. cbn [handle fst snd].
    unfold releaseSlot, lift_slot. cbn [st_slots st_intents]. rewrite (reserve_release_inverse _ _ _ _ Hx Hb Hu). simpl.
    apply wp_ret, wp_ret. simpl. apply st_eta.
Qed.

(** The slots after reserving those of the intents [ok]. *)
Definition reserved_for (ok : list BookingIntentRecord) (t t' : T) : Prop :=
  forall id, findSlot id t' = if decide (id ∈ map bi_slotId ok)
                              then set_bookable false <$> findSlot id t else findSlot id t.

Lemma reserved_for_cons c ok t t1 t' :
  updateBookable (bi_slotId c) false t = Ok t1 -> reserved_for ok t1 t' -> reserved_for (c :: ok) t t'.
Proof.
  intros Hu Hr id. rewrite (Hr id). simpl.
  assert (findSlot id t1 = if decide (id = bi_slotId c) then set_bookable false <$> findSlot id t
                           else findSlot id t) as ->.
  { destruct (decide (id = bi_slotId c)) as [->|Hne]; [|by apply (findSlot_update_ne (bi_slotId c) id false)].
    destruct (findSlot (bi_slotId c) t) eqn:Hf; [by erewrite findSlot_update_eq|].
    by rewrite law_updateBookable_missing in Hu. }
  destruct (decide (id ∈ map bi_slotId ok)), (decide (id = bi_slotId c)),
    (decide (id ∈ bi_slotId c :: map bi_slotId ok)) as [Hin|Hin]; rewrite elem_of_cons in Hin; try tauto;
    by destruct (findSlot id t).
Qed.

Definition booked_for (actor : AuthContext) (c : BookingIntentRecord) : Prop :=
  bi_customerId c = userId actor /\ is_active c = true.

Lemma run_materialize_all o occs actor opts rep s :
  exists ok bad s',
    run (handle o) (materialize_all env occs actor opts rep) s =
      (Ok {| rp_successes := rp_successes rep ++ ok; rp_failures := rp_failures rep ++ bad |}, s') /\
    listAll (st_intents s') = listAll (st_intents s) ++ ok /\
    (length ok + length bad = length occs)%nat /\ map fst bad `sublist_of` occs /\
    Forall (booked_for actor) ok /\ reserved_for ok (st_slots s) (st_slots s').
Proof.
  revert rep s. induction occs as [|t occs IH]; intros rep s; cbn [materialize_all].
  { exists [], [], s. rewrite !app_nil_r. destruct rep. by split_and!. }
  rewrite run_bind. pose proof (run_materializeOccurrence o t actor opts s) as Hm. unfold wp in Hm.
  destruct (run (handle o) (materializeOccurrence env t actor opts) s) as [[[c|why]|e] s1]; simpl in Hm; [| |done].
  - destruct Hm as (slot & _ & _ & Hl & Hid & Hc & Ha & Hu).
    destruct (IH (add_outcome t (Ok c) rep) s1) as (ok & bad & s' & -> & Hl' & Hn & Hsub & Hok & Hr).
    exists (c :: ok), bad, s'. simpl. rewrite Hl', Hl, <- !app_assoc. simpl.
    split; [done|]. split; [done|]. split; [lia|]. split; [by constructor|]. split; [by repeat constructor|].
    rewrite <- Hid in Hu. by apply reserved_for_cons with (st_slots s1).
  - subst s1. destruct (IH (add_outcome t (Err why) rep) s) as (ok & bad & s' & -> & Hl' & Hn & Hsub & Hok & Hr).
    exists ok, ((t, why) :: bad), s'. simpl. rewrite Hl', <- !app_assoc. simpl.
    split; [done|]. split; [done|]. split; [lia|]. split; [by constructor|]. by split.
Qed.

(** A recurring booking alone: a rule the engine rejects changes nothing;
    otherwise the request never fails as a whole, accounts for every occurrence
    exactly once, in order, as a success or a failure, stores exactly the reported
    successes (active intents of the buyer), reserves exactly their slots, and leaves
    nothing behind for a failed occurrence. *)
Theorem recurring_report_correct o rrule actor opts s :
  match expand expandRule rrule with
  | Err _ => exists e, run (handle o) (createRecurringIntents expandRule env rrule actor opts) s = (Err e, s)
  | Ok occs =>
      exists rep s', run (handle o) (createRecurringIntents expandRule env rrule actor opts) s = (Ok rep, s') /\
        (length (rp_successes rep) + length (rp_failures rep) = length occs)%nat /\
        map fst (rp_failures rep) `sublist_of` occs /\
        listAll (st_intents s') = listAll (st_intents s) ++ rp_successes rep /\
        Forall (booked_for actor) (rp_successes rep) /\
        reserved_for (rp_successes rep) (st_slots s) (st_slots s')
  end.
Proof.
  unfold createRecurringIntents. rewrite run_bind, run_lift.
  destruct (expand expandRule rrule) as [occs|[m|]]; [|by eexists..].
  destruct (run_materialize_all o occs actor opts {| rp_successes := []; rp_failures := [] |} s)
    as (ok & bad & s' & -> & Hl & Hn & Hsub & Hok & Hr). simpl.
  eexists _, s'. split; [done|]. simpl. by split_and!.
Qed.

(** ** Concurrency *)

Lemma createRecurringIntents_writes rrule actor opts :
  all_events write_ok (createRecurringIntents expandRule env rrule actor opts).
Proof.
  unfold createRecurringIntents. apply all_events_bind; [apply all_events_lift|]. intros occs.
  generalize {| rp_successes := []; rp_failures := [] |}. induction occs as [|t occs IH]; intros rep; [done|].
  cbn [materialize_all]. apply all_events_bind; [|intros; apply IH].
  unfold materializeOccurrence, persist_occurrence, capturePolicySnapshots, captureCancellationPolicySnapshot,
    captureHoldFeePolicySnapshot, occurrence_pricing, hold_placed_at, releaseSlotBestEffort. events.
Qed.

End Alone.

Section Concurrent.
Context (expandRule : string -> result RuleFailure (list Z)).
Context {R T : Type} `{BookingIntentRepositoryLaws R} `{SlotRepositoryLaws T}.

Inductive recurring_request : Handler unit -> Prop :=
| rr_single p : request p -> recurring_request p
| rr_recurring env rrule actor opts :
    recurring_request (forget (createRecurringIntents expandRule env rrule actor opts)).

Lemma recurring_request_writes p : recurring_request p -> all_events write_ok p.
Proof.
  intros [p' Hp|env rrule actor opts]; [by apply request_writes|].
  apply all_events_forget, createRecurringIntents_writes.
Qed.

End Concurrent.

(** ** A concrete series *)

Definition w_rule (text : string) : result RuleFailure (list Z) :=
  if bool_decide (text = "weekly"%string) then Ok [50 * HOUR; 100 * HOUR; 100 * HOUR]
  else Err (RecurrenceError "Invalid RRULE format").

Definition w_opts (bt : BookingType) (deadline : option num) : RecurringOptions :=
  {| rg_note := None; rg_bookingType := Some bt; rg_holdDeadlineMs := deadline |}.

Lemma recurring_report_correct_witness :
  exists rep s', run (handle (w_outside 0)) (createRecurringIntents w_rule w_env " weekly" alice (w_opts standard None)) w_s0 = (Ok rep, s') /\
    (length (rp_successes rep) + length (rp_failures rep) = 3)%nat /\
    map fst (rp_failures rep) `sublist_of` [50 * HOUR; 100 * HOUR; 100 * HOUR] /\
    listAll (st_intents s') = listAll (st_intents w_s0) ++ rp_successes rep /\
    Forall (booked_for alice) (rp_successes rep) /\
    reserved_for (rp_successes rep) (st_slots w_s0) (st_slots s').
Proof. exact (recurring_report_correct w_rule w_env (w_outside 0) " weekly" alice (w_opts standard None) w_s0). Defined.

(** The middle occurrence is booked, the other two are reported. *)
Example w_series_report :
  (fun r => match fst r with
            | Ok rep => (length (rp_successes rep), rp_failures rep)
            | Err _ => (0%nat, []) end)
    (run (handle (w_outside 0)) (createRecurringIntents w_rule w_env " weekly" alice (w_opts standard None)) w_s0)
  = (1%nat, [(50 * HOUR, NoAvailableSlot); (100 * HOUR, NoAvailableSlot)]).
Proof. vm_compute. reflexivity. Qed.

(** A single refundable hold needs a deadline in the future; a recurring one does
    not: without a deadline it is stored as a hold that no sweep ever finds. *)
Example recurring_hold_without_deadline :
  fst (run (handle (w_outside 0)) (createIntent w_env
    {| ci_slotId := sl_id w_slot1; ci_note := None; ci_bookingType := Some refundable_hold;
       ci_holdDeadlineMs := None; ci_buyerCurrency := None |} alice) w_s0) = Err (http 400) /\
  exists i, w_first (after (w_outside 0)
      (createRecurringIntents w_rule w_env "weekly" alice (w_opts refundable_hold None)) w_s0) = Some i /\
    bi_status i = hold_placed /\ bi_holdUntilMs i = None /\ forall now, hold_expired now i = false.
Proof.
  split; [vm_compute; reflexivity|]. eexists. split; [vm_compute; reflexivity|].
  split; [reflexivity|]. split; [reflexivity|]. intros now. reflexivity.
Qed.
