(* ===== verification/EscrowEvents.v ===== *)
(** * EscrowEvents: the escrow events a contract client delivers

    [scheduler/escrowEventTypes.ts]: the event type, its identity key and the
    validation of a raw page.  A raw payload is a JSON value; a regular
    expression of fixed shape is the list of character classes it matches.
    Sequence numbers are exact integers: a JavaScript number holds them exactly
    below [2^53], and ledger sequences are 32-bit.  [Date.parse] depends on the
    engine and on the time zone of the host, so it is a parameter. *)
From stdpp Require Import base list strings pretty.
From Stdlib Require Import ZArith Lia Ascii.
From S2P Require Import Prelude JsNumber Domain.
Local Open Scope Z_scope.

Inductive EscrowEventKind : Type := Held | Captured | Released | Refunded | Slashed.

#[export] Instance EscrowEventKind_eq_dec : EqDecision EscrowEventKind.
Proof. solve_decision. Defined.

Record EscrowEvent : Type := {
  ee_kind : EscrowEventKind;
  ee_txHash : string;
  ee_eventIndex : Z;
  ee_ledgerSeq : Z;
  ee_closeTime : string;
  ee_contractAddress : string;
  ee_slotId : string;
  ee_bookingIntentId : option string;
  ee_amount : option string
}.

Definition eventKey (e : EscrowEvent) : string :=
  to_lower (ee_txHash e) +:+ ":" +:+ pretty (ee_eventIndex e).

(** ** Raw payloads *)

(** The validation error, with the field it names. *)
Inductive ValidationError : Type :=
| EscrowEventValidationError (field : option string)
| InvalidEventAt (index : nat) (field : option string).

Definition invalid (f : string) : ValidationError := EscrowEventValidationError (Some f).

(** ** Patterns *)

Abbreviation char_class := (ascii -> bool).

Definition between (lo hi : ascii) (c : ascii) : bool :=
  (N_of_ascii lo <=? N_of_ascii c)%N && (N_of_ascii c <=? N_of_ascii hi)%N.

Definition digit : char_class := between "0" "9".
(** [[0-9a-f]] with the flag [i]. *)
Definition hex : char_class := fun c => digit c || between "a" "f" c || between "A" "F" c.
Definition base32 : char_class := fun c => between "A" "Z" c || between "2" "7" c.
Definition chr (c : ascii) : char_class := fun d => bool_decide (c = d).
Definition letter_i (lower upper : ascii) : char_class := fun d => bool_decide (d = lower) || bool_decide (d = upper).

Fixpoint matches (p : list char_class) (s : string) : bool :=
  match p, s with
  | [], EmptyString => true
  | cls :: p', String c s' => cls c && matches p' s'
  | _, _ => false
  end.

Definition TX_HASH_PATTERN : list char_class := replicate 64 hex.
Definition CONTRACT_ADDRESS_PATTERN : list char_class := chr "C" :: replicate 55 base32.
Definition SLOT_ID_PATTERN : list char_class :=
  [letter_i "s" "S"; letter_i "l" "L"; letter_i "o" "O"; letter_i "t" "T"; chr "-"] ++
  replicate 8 hex ++ [chr "-"] ++ replicate 4 hex ++ [chr "-"] ++ replicate 4 hex ++ [chr "-"] ++
  replicate 4 hex ++ [chr "-"] ++ replicate 12 hex.

(** The pattern with its two optional groups, as the list of its expansions. *)
Definition ISO_8601_PATTERN : list (list char_class) :=
  let seconds := replicate 4 digit ++ [chr "-"; digit; digit; chr "-"; digit; digit; chr "T"; digit; digit;
                                       chr ":"; digit; digit; chr ":"; digit; digit] in
  let sign := fun c => bool_decide (c = "+"%char) || bool_decide (c = "-"%char) in
  fraction ← [[]; [chr "."; digit; digit; digit]];
  zone ← [[]; [chr "Z"]; [sign; digit; digit; chr ":"; digit; digit]];
  [seconds ++ fraction ++ zone].

Definition iso_8601 (s : string) : bool := existsb (fun p => matches p s) ISO_8601_PATTERN.

(** [/^\d+$/]. *)
Fixpoint all_digits (s : string) : bool :=
  match s with EmptyString => true | String c s' => digit c && all_digits s' end.
Definition digits (s : string) : bool := str_truthy s && all_digits s.

(** [Number(s)] of a string of digits. *)
Fixpoint digits_value (acc : Z) (s : string) : Z :=
  match s with
  | EmptyString => acc
  | String c s' => digits_value (acc * 10 + (Z.of_N (N_of_ascii c) - 48)) s'
  end.

(** ** Validation *)

Definition isEscrowEventKind (v : Json) : option EscrowEventKind :=
  match v with
  | JStr "Held" => Some Held
  | JStr "Captured" => Some Captured
  | JStr "Released" => Some Released
  | JStr "Refunded" => Some Refunded
  | JStr "Slashed" => Some Slashed
  | _ => None
  end.

(** [Number.isInteger(value) && value >= 0], with the integer. *)
Definition nonneg_integer (n : num) : option Z :=
  match n with
  | Fin z => if is_integer n && (0 <=? z) then Some (zdiv z U) else None
  | _ => None
  end.

Definition asNonNegativeInteger (v : Json) (f : string) : result ValidationError Z :=
  match v with
  | JNum n => from_option_or (nonneg_integer n) (invalid f)
  | JStr s => if digits s then mret (digits_value 0 s) else Err (invalid f)
  | _ => Err (invalid f)
  end.

(** A string field that satisfies a test. *)
Definition string_field (test : string -> bool) (v : Json) (f : string) : result ValidationError string :=
  match v with
  | JStr s => if test s then mret s else Err (invalid f)
  | _ => Err (invalid f)
  end.

Definition optional_string (test : string -> bool) (v : Json) : option string :=
  match v with JStr s => if test s then Some s else None | _ => None end.

Section Validation.
Context (date_parse : string -> option Z).

Definition validateEscrowEvent (raw : Json) : result ValidationError EscrowEvent :=
  match raw with
  | JObj e =>
      kind ← from_option_or (isEscrowEventKind (field "kind" e)) (invalid "kind");
      txHash ← string_field (matches TX_HASH_PATTERN) (field "txHash" e) "txHash";
      eventIndex ← asNonNegativeInteger (field "eventIndex" e) "eventIndex";
      ledgerSeq ← asNonNegativeInteger (field "ledgerSeq" e) "ledgerSeq";
      closeTime ← string_field iso_8601 (field "closeTime" e) "closeTime";
      _ ← throw_if (bool_decide (date_parse closeTime = None)) (invalid "closeTime");
      contractAddress ←
        string_field (matches CONTRACT_ADDRESS_PATTERN) (field "contractAddress" e) "contractAddress";
      slotId ← string_field (matches SLOT_ID_PATTERN) (field "slotId" e) "slotId";
      mret {| ee_kind := kind; ee_txHash := txHash; ee_eventIndex := eventIndex;
              ee_ledgerSeq := ledgerSeq; ee_closeTime := closeTime;
              ee_contractAddress := contractAddress; ee_slotId := slotId;
              ee_bookingIntentId := optional_string str_truthy (field "bookingIntentId" e);
              ee_amount := optional_string digits (field "amount" e) |}
  | _ => Err (EscrowEventValidationError None)
  end.

(** The error of one event, with the index of the event. *)
Definition at_index (index : nat) (e : ValidationError) : ValidationError :=
  match e with
  | EscrowEventValidationError f => InvalidEventAt index f
  | InvalidEventAt _ f => InvalidEventAt index f
  end.

Fixpoint validate_events (index : nat) (l : list Json) : result ValidationError (list EscrowEvent) :=
  match l with
  | [] => mret []
  | candidate :: l' =>
      match validateEscrowEvent candidate with
      | Err e => Err (at_index index e)
      | Ok event => events ← validate_events (S index) l'; mret (event :: events)
      end
  end.

Definition validateEscrowEventBatch (raw : Json) : result ValidationError (list EscrowEvent * Z) :=
  match raw with
  | JObj b =>
      match field "events" b with
      | JArr l =>
          latest ← asNonNegativeInteger (field "latestLedgerSeq" b) "latestLedgerSeq";
          events ← validate_events 0 l;
          mret (events, latest)
      | _ => Err (invalid "events")
      end
  | _ => Err (EscrowEventValidationError None)
  end.

End Validation.

#[global] Opaque TX_HASH_PATTERN CONTRACT_ADDRESS_PATTERN SLOT_ID_PATTERN ISO_8601_PATTERN.

(** ** What validation establishes *)

Section Correctness.
Context (date_parse : string -> option Z).

(** The events the projector and the listener may rely on. *)
Definition wf_event (e : EscrowEvent) : Prop :=
  matches TX_HASH_PATTERN (ee_txHash e) = true /\ 0 <= ee_eventIndex e /\ 0 <= ee_ledgerSeq e /\
  iso_8601 (ee_closeTime e) = true /\ is_Some (date_parse (ee_closeTime e)) /\
  matches CONTRACT_ADDRESS_PATTERN (ee_contractAddress e) = true /\
  matches SLOT_ID_PATTERN (ee_slotId e) = true /\
  (forall i, ee_bookingIntentId e = Some i -> str_truthy i = true) /\
  (forall a, ee_amount e = Some a -> digits a = true).

Lemma digits_value_nonneg s acc : all_digits s = true -> 0 <= acc -> 0 <= digits_value acc s.
Proof.
  revert acc. induction s as [|c s IH]; intros acc; simpl; [done|].
  intros [[Hlo _]%andb_true_iff Hs]%andb_true_iff Hacc. apply IH; [done|].
  apply N.leb_le in Hlo. change (N_of_ascii "0") with 48%N in Hlo. lia.
Qed.

Lemma asNonNegativeInteger_ok v f n : asNonNegativeInteger v f = Ok n -> 0 <= n.
Proof.
  destruct v as [| | |a|s| |]; simpl; try done.
  - intros H%from_option_or_ok. destruct a as [z| | |]; simpl in H; try done.
    destruct (_ && _) eqn:E in H; [|done]. simplify_eq.
    apply andb_true_iff in E as [_ Hz%Z.leb_le]. rewrite zdiv_eq. apply Z.div_pos; [done|].
    apply U_pos.
  - destruct (digits s) eqn:E; [|done]. intros [= <-].
    apply andb_true_iff in E as [_ Hd]. by apply digits_value_nonneg.
Qed.

Lemma asNonNegativeInteger_err v f x : asNonNegativeInteger v f = Err x -> x = invalid f.
Proof.
  unfold asNonNegativeInteger. destruct v as [| | |a|s| |]; try congruence;
    [destruct (nonneg_integer a)|destruct (digits s)]; unfold from_option_or, mret, result_ret; congruence.
Qed.

Lemma string_field_ok test v f s : string_field test v f = Ok s -> test s = true.
Proof. destruct v as [| | | |t| |]; simpl; try done. destruct (test t) eqn:E; [|done]. by intros [= <-]. Qed.

Lemma optional_string_ok test v s : optional_string test v = Some s -> test s = true.
Proof. destruct v as [| | | |t| |]; simpl; try done. destruct (test t) eqn:E; [|done]. by intros [= <-]. Qed.

Lemma validateEscrowEvent_wf raw e : validateEscrowEvent date_parse raw = Ok e -> wf_event e.
Proof.
  unfold validateEscrowEvent. destruct raw as [| | | | | |o]; try done. intros H.
  apply bind_ok in H as (k & _ & H). apply bind_ok in H as (h & Hh%string_field_ok & H).
  apply bind_ok in H as (i & Hi%asNonNegativeInteger_ok & H).
  apply bind_ok in H as (l & Hl%asNonNegativeInteger_ok & H).
  apply bind_ok in H as (t & Ht%string_field_ok & H).
  apply bind_ok in H as ([] & Hd%throw_if_ok & H).
  apply bind_ok in H as (c & Hc%string_field_ok & H). apply bind_ok in H as (s & Hs%string_field_ok & H).
  injection H as <-. apply bool_decide_eq_false, not_eq_None_Some in Hd.
  repeat (split; [assumption|]). split; intros x; apply optional_string_ok.
Qed.

(** The JSON rendering of an event. *)
Definition kind_name (k : EscrowEventKind) : string :=
  match k with
  | Held => "Held" | Captured => "Captured" | Released => "Released" | Refunded => "Refunded"
  | Slashed => "Slashed"
  end.

Definition opt_field (name : string) (o : option string) : list (string * Json) :=
  match o with Some s => [(name, JStr s)] | None => [] end.

Definition to_json (e : EscrowEvent) : Json :=
  JObj ([("kind", JStr (kind_name (ee_kind e))); ("txHash", JStr (ee_txHash e));
         ("eventIndex", JNum (Fin (ee_eventIndex e * U))); ("ledgerSeq", JNum (Fin (ee_ledgerSeq e * U)));
         ("closeTime", JStr (ee_closeTime e)); ("contractAddress", JStr (ee_contractAddress e));
         ("slotId", JStr (ee_slotId e))]%string ++
        opt_field "bookingIntentId" (ee_bookingIntentId e) ++ opt_field "amount" (ee_amount e)).

Lemma nonneg_integer_exact n : 0 <= n -> nonneg_integer (Fin (n * U)) = Some n.
Proof.
  intros Hn. unfold nonneg_integer. rewrite is_integer_int, zdiv_eq.
  pose proof U_pos. simpl andb.
  destruct (Z.leb_spec 0 (n * U)) as [_|Hlt]; [by rewrite Z.div_mul by lia|]. nia.
Qed.

Definition opt_json (o : option string) : Json := from_option JStr JUndefined o.

Lemma to_json_fields e : exists o, to_json e = JObj o /\
  field "kind" o = JStr (kind_name (ee_kind e)) /\ field "txHash" o = JStr (ee_txHash e) /\
  field "eventIndex" o = JNum (Fin (ee_eventIndex e * U)) /\
  field "ledgerSeq" o = JNum (Fin (ee_ledgerSeq e * U)) /\
  field "closeTime" o = JStr (ee_closeTime e) /\
  field "contractAddress" o = JStr (ee_contractAddress e) /\ field "slotId" o = JStr (ee_slotId e) /\
  field "bookingIntentId" o = opt_json (ee_bookingIntentId e) /\ field "amount" o = opt_json (ee_amount e).
Proof. eexists. split; [done|]. by destruct (ee_bookingIntentId e), (ee_amount e). Qed.

Lemma optional_string_json test o :
  (forall s, o = Some s -> test s = true) -> optional_string test (opt_json o) = o.
Proof. destruct o as [s|]; simpl; [|done]. intros Ht. by rewrite Ht. Qed.

Lemma string_field_pass (test : string -> bool) s f : test s = true -> string_field test (JStr s) f = Ok s.
Proof. intros Ht. unfold string_field. by rewrite Ht. Qed.

Lemma isEscrowEventKind_name k : isEscrowEventKind (JStr (kind_name k)) = Some k.
Proof. by destruct k. Qed.

Lemma validate_to_json e : wf_event e -> validateEscrowEvent date_parse (to_json e) = Ok e.
Proof.
  intros (Hh & Hi & Hl & Ht & [d Hd] & Hc & Hs & Hb & Ha).
  destruct (to_json_fields e) as (o & -> & Ek & Eh & Ei & El & Et & Ec & Es & Eb & Ea).
  unfold validateEscrowEvent. rewrite Ek, Eh, Ei, El, Et, Ec, Es, Eb, Ea.
  rewrite isEscrowEventKind_name, !string_field_pass by assumption. unfold asNonNegativeInteger.
  rewrite !nonneg_integer_exact by assumption. unfold mbind, result_bind, from_option_or.
  rewrite Hd. unfold throw_if. rewrite bool_decide_eq_false_2 by done.
  rewrite !optional_string_json by done. by destruct e.
Qed.

Lemma validate_events_ok n l es :
  validate_events date_parse n l = Ok es <->
  Forall2 (fun raw e => validateEscrowEvent date_parse raw = Ok e) l es.
Proof.
  revert n es. induction l as [|raw l IH]; intros n es; simpl.
  - split; [intros [= <-]; constructor|]. by intros ->%Forall2_nil_inv_l.
  - split.
    + destruct (validateEscrowEvent date_parse raw) as [e|] eqn:E; [|done].
      intros (es' & Hes' & Hm)%bind_ok. injection Hm as <-. constructor; [done|]. by apply (IH (S n)).
    + intros (e & es' & Hr & Hes' & ->)%Forall2_cons_inv_l. rewrite Hr.
      apply (IH (S n)) in Hes'. by rewrite Hes'.
Qed.

Lemma validate_events_err n l x :
  validate_events date_parse n l = Err x ->
  exists k raw e, l !! k = Some raw /\ validateEscrowEvent date_parse raw = Err e /\
    x = at_index (n + k) e /\
    forall j r, (j < k)%nat -> l !! j = Some r -> exists ev, validateEscrowEvent date_parse r = Ok ev.
Proof.
  revert n. induction l as [|raw l IH]; intros n; simpl; [done|].
  destruct (validateEscrowEvent date_parse raw) as [e|e] eqn:E.
  - destruct (validate_events date_parse (S n) l) as [es|y] eqn:El; [done|]. intros [= <-].
    destruct (IH (S n) El) as (k & r & e' & Hk & He & -> & Hj). exists (S k), r, e'.
    split_and!; [done..|f_equal; lia|]. intros [|j] r' Hlt Hr; simpl in Hr; [simplify_eq; eauto|].
    apply (Hj j); [lia|done].
  - intros [= <-]. exists 0%nat, raw, e. split_and!; [done..|by rewrite Nat.add_0_r|]. lia.
Qed.

Definition batch_json (l : list EscrowEvent) (latest : Z) : Json :=
  JObj [("events", JArr (map to_json l)); ("latestLedgerSeq", JNum (Fin (latest * U)))]%string.

Lemma validate_batch_json es latest :
  Forall wf_event es -> 0 <= latest ->
  validateEscrowEventBatch date_parse (batch_json es latest) = Ok (es, latest).
Proof.
  intros Hes Hl. unfold validateEscrowEventBatch, batch_json.
  change (field "events" _) with (JArr (map to_json es)).
  change (field "latestLedgerSeq" _) with (JNum (Fin (latest * U))). unfold asNonNegativeInteger.
  rewrite nonneg_integer_exact by done. simpl.
  assert (validate_events date_parse 0 (map to_json es) = Ok es) as ->; [|done].
  apply validate_events_ok. induction Hes as [|e es He Hes IH]; simpl; constructor; [|done].
  by apply validate_to_json.
Qed.

(** (C40) A page of events is accepted as a whole or rejected as a whole.  An
    accepted page has all its events, in order, each well formed; a rejected one names the
    first malformed event (or a malformed envelope); and a page of well-formed
    events is accepted unchanged. *)
Theorem validate_batch_correct raw :
  match validateEscrowEventBatch date_parse raw with
  | Ok (es, latest) =>
      exists b l, raw = JObj b /\ field "events" b = JArr l /\ length es = length l /\
        Forall2 (fun r e => validateEscrowEvent date_parse r = Ok e) l es /\ Forall wf_event es /\ 0 <= latest
  | Err (InvalidEventAt k f) =>
      exists b l r e, raw = JObj b /\ field "events" b = JArr l /\ l !! k = Some r /\
        validateEscrowEvent date_parse r = Err e /\
        forall j r', (j < k)%nat -> l !! j = Some r' -> exists ev, validateEscrowEvent date_parse r' = Ok ev
  | Err (EscrowEventValidationError f) =>
      f = None \/ f = Some "events"%string \/ f = Some "latestLedgerSeq"%string
  end /\
  (forall es latest, raw = batch_json es latest -> Forall wf_event es -> 0 <= latest ->
     validateEscrowEventBatch date_parse raw = Ok (es, latest)).
Proof.
  split.
  - unfold validateEscrowEventBatch. destruct raw as [| | | | | |b]; try (by left).
    destruct (field "events" b) as [| | | | |l|] eqn:Eb; try (by right; left).
    destruct (asNonNegativeInteger (field "latestLedgerSeq" b) "latestLedgerSeq") as [latest|x] eqn:En.
    + destruct (validate_events date_parse 0 l) as [es|x] eqn:Ee; simpl; rewrite ?Ee; simpl.
      * apply validate_events_ok in Ee. exists b, l. split_and!; try done.
        -- symmetry. by eapply Forall2_length.
        -- clear -Ee. induction Ee as [|r e l es Hr _ IH]; constructor; [|done].
           by eapply validateEscrowEvent_wf.
        -- by eapply asNonNegativeInteger_ok.
      * apply validate_events_err in Ee as (k & r & e & Hk & He & -> & Hj).
        destruct e; simpl; eauto 10.
    + apply asNonNegativeInteger_err in En as ->. simpl. by right; right.
  - intros es latest ->. apply validate_batch_json.
Qed.

Lemma to_lower_length s : String.length (to_lower s) = String.length s.
Proof. induction s as [|c s IH]; simpl; [done|]. by rewrite IH. Qed.

Lemma matches_length p s : matches p s = true -> String.length s = length p.
Proof.
  revert s. induction p as [|c p IH]; intros [|d s]; simpl; try done.
  intros [_ H]%andb_true_iff. by rewrite (IH s).
Qed.

(** The idempotency key identifies a validated event: two such events have
    the same key exactly when they have the same transaction hash, up to letter
    case, and the same index in the transaction. *)
Theorem eventKey_identity e e' :
  wf_event e -> wf_event e' ->
  eventKey e = eventKey e' <->
  to_lower (ee_txHash e) = to_lower (ee_txHash e') /\ ee_eventIndex e = ee_eventIndex e'.
Proof.
  intros (H1%matches_length & _) (H2%matches_length & _). unfold eventKey. split.
  - intros Heq. apply string_app_inj in Heq as [Hh Heq]; [|by rewrite !to_lower_length, H1, H2].
    split; [done|]. injection Heq as Heq. by apply (inj pretty).
  - by intros [-> ->].
Qed.

End Correctness.

(** ** A concrete event *)

Fixpoint w_repeat (n : nat) (c : ascii) : string :=
  match n with O => EmptyString | S n' => String c (w_repeat n' c) end.

Definition w_parse (s : string) : option Z := Some 0.

Definition w_raw_event (k : EscrowEventKind) (hash : ascii) (index : Z) : EscrowEvent :=
  {| ee_kind := k; ee_txHash := w_repeat 64 hash; ee_eventIndex := index; ee_ledgerSeq := 7;
     ee_closeTime := "2026-01-01T00:00:00Z"; ee_contractAddress := w_repeat 56 "C";
     ee_slotId := "slot-00000000-0000-4000-8000-000000000001"; ee_bookingIntentId := None;
     ee_amount := Some "100"%string |}.

Lemma w_raw_event_wf k hash index : hex hash = true -> 0 <= index -> wf_event w_parse (w_raw_event k hash index).
Proof.
  intros Hh Hi.
  assert (forall n, matches (replicate n hex) (w_repeat n hash) = true) as Hn.
  { induction n as [|n IH]; simpl; [reflexivity|]. by rewrite Hh. }
  split; [exact (Hn 64%nat)|]. split; [exact Hi|]. split; [simpl; lia|].
  split; [vm_compute; reflexivity|]. split; [by exists 0|]. split; [vm_compute; reflexivity|].
  split; [vm_compute; reflexivity|]. split; [discriminate|]. intros a [= <-]. vm_compute. reflexivity.
Qed.

Lemma validate_batch_correct_witness :
  validateEscrowEventBatch w_parse (batch_json [w_raw_event Held "a" 0; w_raw_event Captured "A" 1] 9) =
  Ok ([w_raw_event Held "a" 0; w_raw_event Captured "A" 1], 9).
Proof.
  apply (proj2 (validate_batch_correct w_parse _)); [reflexivity| |lia].
  repeat constructor; apply w_raw_event_wf; reflexivity || lia.
Defined.

Lemma eventKey_identity_witness :
  eventKey (w_raw_event Held "a" 3) = eventKey (w_raw_event Captured "A" 3) <->
  to_lower (w_repeat 64 "a") = to_lower (w_repeat 64 "A") /\ 3 = 3.
Proof. apply (eventKey_identity w_parse (w_raw_event Held "a" 3)); apply w_raw_event_wf; reflexivity || lia. Defined.
