(* ===== verification/BookingParse.v ===== *)
(** * BookingParse: the body of a booking request

    [parseCreateBookingIntentBody] of
    [modules/booking-intents/booking-intent-service.ts] and [sanitizeNote] of
    [utils/redact.ts].  Strings are over the first 256 code points, on which
    NFC normalization is the identity. *)
From stdpp Require Import base list strings.
From Stdlib Require Import ZArith Lia Ascii.
From S2P Require Import Prelude JsNumber Domain BookingService Recurring EscrowEvents.
Local Open Scope Z_scope.

Record CreateRecurringBookingInput : Type := {
  cri_rrule : string;
  cri_note : option string;
  cri_bookingType : option BookingType;
  cri_holdDeadlineMs : option num;
  cri_buyerCurrency : option string
}.

Inductive ParsedBody : Type :=
| SingleBooking (input : CreateBookingIntentInput)
| RecurringBooking (input : CreateRecurringBookingInput).

(** The messages of the 400 responses. *)
Inductive BodyError : Type :=
| not_an_object | invalid_buyerCurrency | invalid_bookingType | invalid_holdDeadlineMs
| rrule_empty | rrule_ambiguous | note_not_string | note_empty | note_too_long
| slotId_required | slotId_format.

(** ** Notes *)

Definition kept_char (c : ascii) : bool :=
  let code := N_of_ascii c in
  let isAllowedC0 := (code =? 9)%N || (code =? 10)%N || (code =? 13)%N in
  let isControl := (code <? 32)%N && negb isAllowedC0 in
  let isC1Control := (128 <=? code)%N && (code <=? 159)%N in
  negb isControl && negb isC1Control.

Fixpoint clean (s : string) : string :=
  match s with
  | EmptyString => EmptyString
  | String c s' => if kept_char c then String c (clean s') else clean s'
  end.

Definition sanitizeNote (note : string) : option string :=
  let cleaned := js_trim (clean note) in
  if is_empty_string cleaned then None else Some cleaned.

(** The note of either kind of request. *)
Definition parse_note (note : Json) : result BodyError (option string) :=
  match note with
  | JUndefined => mret None
  | JStr s =>
      sanitized ← from_option_or (sanitizeNote s) note_empty;
      _ ← throw_if (500 <? Z.of_nat (String.length sanitized)) note_too_long;
      mret (Some sanitized)
  | _ => Err note_not_string
  end.

(** ** The body *)

Definition CURRENCIES : list string := ["USD"; "EUR"; "GBP"; "XLM"]%string.

Definition parse_currency (v : Json) : result BodyError (option string) :=
  match v with
  | JUndefined => mret None
  | JStr s => if bool_decide (s ∈ CURRENCIES) then mret (Some s) else Err invalid_buyerCurrency
  | _ => Err invalid_buyerCurrency
  end.

Definition parse_booking_type (v : Json) : result BodyError (option BookingType) :=
  match v with
  | JUndefined => mret None
  | JStr s => if bool_decide (s = "standard"%string) then mret (Some standard)
              else if bool_decide (s = "refundable_hold"%string) then mret (Some refundable_hold)
              else Err invalid_bookingType
  | _ => Err invalid_bookingType
  end.

Definition parse_deadline (v : Json) : result BodyError (option num) :=
  match v with
  | JUndefined => mret None
  | JNum NaN => Err invalid_holdDeadlineMs
  | JNum n => mret (Some n)
  | _ => Err invalid_holdDeadlineMs
  end.

Definition parseCreateBookingIntentBody (body : Json) : result BodyError ParsedBody :=
  match body with
  | JObj o =>
      buyerCurrency ← parse_currency (field "buyerCurrency" o);
      bookingType ← parse_booking_type (field "bookingType" o);
      holdDeadlineMs ← parse_deadline (field "holdDeadlineMs" o);
      match field "rrule" o with
      | JUndefined =>
          slotId ← match field "slotId" o with
                   | JStr s => if is_empty_string (js_trim s) then Err slotId_required else mret (js_trim s)
                   | _ => Err slotId_required
                   end;
          _ ← throw_if (negb (matches SLOT_ID_PATTERN slotId)) slotId_format;
          note ← parse_note (field "note" o);
          mret (SingleBooking {| ci_slotId := slotId; ci_note := note; ci_bookingType := bookingType;
                                 ci_holdDeadlineMs := holdDeadlineMs; ci_buyerCurrency := buyerCurrency |})
      | JStr s =>
          let rrule := js_trim s in
          _ ← throw_if (is_empty_string rrule) rrule_empty;
          _ ← throw_if (ambiguous_dtstart rrule) rrule_ambiguous;
          note ← parse_note (field "note" o);
          mret (RecurringBooking {| cri_rrule := rrule; cri_note := note; cri_bookingType := bookingType;
                                    cri_holdDeadlineMs := holdDeadlineMs; cri_buyerCurrency := buyerCurrency |})
      | _ => Err rrule_empty
      end
  | _ => Err not_an_object
  end.

(** ** Well-formed requests *)

Fixpoint all_kept (s : string) : bool :=
  match s with EmptyString => true | String c s' => kept_char c && all_kept s' end.

Definition wf_note (o : option string) : Prop :=
  forall n, o = Some n -> all_kept n = true /\ js_trim n = n /\ n <> ""%string /\ Z.of_nat (String.length n) <= 500.

Definition wf_currency (o : option string) : Prop := forall c, o = Some c -> c ∈ CURRENCIES.
Definition wf_deadline (o : option num) : Prop := o <> Some NaN.

Definition wf_body (b : ParsedBody) : Prop :=
  match b with
  | SingleBooking i =>
      js_trim (ci_slotId i) = ci_slotId i /\ matches SLOT_ID_PATTERN (ci_slotId i) = true /\
      wf_note (ci_note i) /\ wf_deadline (ci_holdDeadlineMs i) /\ wf_currency (ci_buyerCurrency i)
  | RecurringBooking i =>
      js_trim (cri_rrule i) = cri_rrule i /\ cri_rrule i <> ""%string /\ ambiguous_dtstart (cri_rrule i) = false /\
      wf_note (cri_note i) /\ wf_deadline (cri_holdDeadlineMs i) /\ wf_currency (cri_buyerCurrency i)
  end.

Lemma all_kept_clean s : all_kept (clean s) = true.
Proof. induction s as [|c s IH]; simpl; [done|]. destruct (kept_char c) eqn:E; simpl; [by rewrite E|done]. Qed.

Lemma clean_kept s : all_kept s = true -> clean s = s.
Proof.
  induction s as [|c s IH]; simpl; [done|]. intros [Hc Hs]%andb_true_iff. by rewrite Hc, (IH Hs).
Qed.

Lemma all_kept_trim s : all_kept s = true -> all_kept (js_trim s) = true.
Proof.
  assert (forall s, all_kept s = true -> all_kept (trim_start s) = true) as Hs.
  { clear. induction s as [|c s IH]; simpl; [done|]. intros [Hc Hs]%andb_true_iff.
    destruct (is_js_space c); [auto|]. simpl. by rewrite Hc. }
  assert (forall s, all_kept s = true -> all_kept (trim_end s) = true) as He.
  { clear. induction s as [|c s IH]; simpl; [done|]. intros [Hc Hs]%andb_true_iff.
    destruct (_ && _); [done|]. simpl. rewrite Hc. auto. }
  intros. by apply He, Hs.
Qed.

Lemma is_empty_false s : is_empty_string s = false <-> s <> ""%string.
Proof. by destruct s. Qed.

Lemma parse_note_wf v o : parse_note v = Ok o -> wf_note o.
Proof.
  destruct v as [| | | |s| |]; simpl; try done; [by intros [= <-]|].
  unfold sanitizeNote. destruct (is_empty_string (js_trim (clean s))) eqn:E; [done|]. simpl.
  destruct (500 <? Z.of_nat (String.length (js_trim (clean s)))) eqn:Hl; [done|]. intros [= <-] n [= <-].
  apply Z.ltb_ge in Hl. split_and!; [|apply js_trim_idem|by apply is_empty_false|done].
  apply all_kept_trim, all_kept_clean.
Qed.

Lemma parse_currency_wf v o : parse_currency v = Ok o -> wf_currency o.
Proof.
  destruct v as [| | | |s| |]; simpl; try done; [by intros [= <-]|].
  case_bool_decide; [|done]. by intros [= <-] c [= <-].
Qed.

Lemma parse_deadline_wf v o : parse_deadline v = Ok o -> wf_deadline o.
Proof. destruct v as [| | |[]| | |]; simpl; try done; by intros [= <-]. Qed.

(** The JSON rendering of a request. *)
Definition opt_str (o : option string) : Json := from_option JStr JUndefined o.
Definition opt_num (o : option num) : Json := from_option JNum JUndefined o.
Definition opt_type (o : option BookingType) : Json :=
  match o with
  | None => JUndefined
  | Some standard => JStr "standard"
  | Some refundable_hold => JStr "refundable_hold"
  end.

Definition body_of (b : ParsedBody) : Json :=
  match b with
  | SingleBooking i =>
      JObj [("slotId", JStr (ci_slotId i)); ("note", opt_str (ci_note i)); ("rrule", JUndefined);
            ("bookingType", opt_type (ci_bookingType i)); ("holdDeadlineMs", opt_num (ci_holdDeadlineMs i));
            ("buyerCurrency", opt_str (ci_buyerCurrency i))]%string
  | RecurringBooking i =>
      JObj [("rrule", JStr (cri_rrule i)); ("note", opt_str (cri_note i));
            ("bookingType", opt_type (cri_bookingType i)); ("holdDeadlineMs", opt_num (cri_holdDeadlineMs i));
            ("buyerCurrency", opt_str (cri_buyerCurrency i))]%string
  end.

Lemma parse_note_render o : wf_note o -> parse_note (opt_str o) = Ok o.
Proof.
  intros Hw. destruct o as [n|]; [|done]. destruct (Hw n eq_refl) as (Hk & Ht & Hne & Hl). simpl.
  unfold sanitizeNote. rewrite (clean_kept n Hk), Ht. apply is_empty_false in Hne. rewrite Hne. simpl.
  by destruct (Z.ltb_spec 500 (Z.of_nat (String.length n))); [lia|].
Qed.

Lemma parse_currency_render o : wf_currency o -> parse_currency (opt_str o) = Ok o.
Proof.
  intros Hw. destruct o as [c|]; [|done]. simpl. by rewrite bool_decide_eq_true_2 by by apply Hw.
Qed.

Lemma parse_deadline_render o : wf_deadline o -> parse_deadline (opt_num o) = Ok o.
Proof. intros Hw. destruct o as [[]|]; done. Qed.

Lemma parse_type_render o : parse_booking_type (opt_type o) = Ok o.
Proof. by destruct o as [[]|]. Qed.

Lemma slot_id_nonempty s : matches SLOT_ID_PATTERN s = true -> is_empty_string s = false.
Proof. by destruct s. Qed.

(** ** What the parser accepts

    How each field of a body determines a field of the request. *)

(** Tab, line feed, carriage return, and everything but the C0 and C1 controls. *)
Definition printable (c : ascii) : bool :=
  let k := N_of_ascii c in
  bool_decide (k ∈ [9; 10; 13]%N) || ((32 <=? k)%N && (k <=? 127)%N) || (160 <=? k)%N.

Definition without_controls (s : string) : string := String.string_of_list_ascii (List.filter printable (String.list_ascii_of_string s)).

Definition reads_note (v : Json) (o : option string) : Prop :=
  match o with
  | None => v = JUndefined
  | Some n => exists s, v = JStr s /\ n = js_trim (without_controls s) /\ n <> ""%string /\ Z.of_nat (String.length n) <= 500
  end.

Definition reads_currency (v : Json) (o : option string) : Prop :=
  match o with None => v = JUndefined | Some c => v = JStr c /\ c ∈ CURRENCIES end.

Definition reads_deadline (v : Json) (o : option num) : Prop :=
  match o with None => v = JUndefined | Some n => v = JNum n /\ n <> NaN end.

Definition reads_type (v : Json) (o : option BookingType) : Prop := v = opt_type o.

(** The body [o] asks for [b]: with a field [rrule] it is a recurring request,
    whose rule is the trimmed text and names its zone; without one it is a single
    request, whose slot identifier is the trimmed text and has the right shape. *)
Definition describes (o : list (string * Json)) (b : ParsedBody) : Prop :=
  match b with
  | SingleBooking i =>
      field "rrule" o = JUndefined /\
      (exists s, field "slotId" o = JStr s /\ ci_slotId i = js_trim s /\ matches SLOT_ID_PATTERN (js_trim s) = true) /\
      reads_note (field "note" o) (ci_note i) /\ reads_type (field "bookingType" o) (ci_bookingType i) /\
      reads_deadline (field "holdDeadlineMs" o) (ci_holdDeadlineMs i) /\
      reads_currency (field "buyerCurrency" o) (ci_buyerCurrency i)
  | RecurringBooking i =>
      (exists s, field "rrule" o = JStr s /\ cri_rrule i = js_trim s /\ js_trim s <> ""%string /\
         ambiguous_dtstart (js_trim s) = false) /\
      reads_note (field "note" o) (cri_note i) /\ reads_type (field "bookingType" o) (cri_bookingType i) /\
      reads_deadline (field "holdDeadlineMs" o) (cri_holdDeadlineMs i) /\
      reads_currency (field "buyerCurrency" o) (cri_buyerCurrency i)
  end.

Lemma kept_printable c : kept_char c = printable c.
Proof. destruct c as [[] [] [] [] [] [] [] []]; vm_compute; reflexivity. Qed.

Lemma clean_controls s : clean s = without_controls s.
Proof.
  unfold without_controls. induction s as [|c s IH]; [done|]. cbn [clean String.list_ascii_of_string List.filter].
  rewrite kept_printable, IH. by destruct (printable c).
Qed.

Lemma parse_note_iff v o : parse_note v = Ok o <-> reads_note v o.
Proof.
  split.
  - destruct v as [| | | |s| |]; simpl; try done; [by intros [= <-]|]. unfold sanitizeNote.
    destruct (is_empty_string (js_trim (clean s))) eqn:E; [done|]. simpl.
    destruct (Z.ltb_spec 500 (Z.of_nat (String.length (js_trim (clean s))))); [done|]. intros [= <-].
    exists s. rewrite <- clean_controls. split_and!; [done..|by apply is_empty_false|done].
  - destruct o as [n|]; simpl; [|by intros ->]. intros (s & -> & -> & Hne & Hl). rewrite <- clean_controls in *. simpl. unfold sanitizeNote.
    apply is_empty_false in Hne. rewrite Hne. simpl. by rewrite (proj2 (Z.ltb_ge _ _)).
Qed.

Lemma parse_currency_iff v o : parse_currency v = Ok o <-> reads_currency v o.
Proof.
  split.
  - destruct v as [| | | |s| |]; simpl; try done; [by intros [= <-]|]. case_bool_decide; [|done]. by intros [= <-].
  - destruct o as [c|]; simpl; [|by intros ->]. intros [-> Hc]. simpl. by rewrite bool_decide_eq_true_2.
Qed.

Lemma parse_deadline_iff v o : parse_deadline v = Ok o <-> reads_deadline v o.
Proof.
  split.
  - destruct v as [| | |[]| | |]; simpl; try done; by intros [= <-].
  - destruct o as [[]|]; simpl; try (by intros [-> ?]); by intros ->.
Qed.

Lemma parse_type_iff v o : parse_booking_type v = Ok o <-> reads_type v o.
Proof.
  split; [|intros ->; apply parse_type_render].
  destruct v as [| | | |s| |]; simpl; try done; [by intros [= <-]|].
  repeat case_bool_decide; try done; subst; by intros [= <-].
Qed.

Lemma parse_accepts body b : parseCreateBookingIntentBody body = Ok b <-> exists o, body = JObj o /\ describes o b.
Proof.
  unfold parseCreateBookingIntentBody. split.
  - destruct body as [| | | | | |o]; try done. intros Hp. exists o. split; [done|].
    apply bind_ok in Hp as (cur & Hc%parse_currency_iff & Hp). apply bind_ok in Hp as (bt & Ht%parse_type_iff & Hp).
    apply bind_ok in Hp as (dl & Hd%parse_deadline_iff & Hp).
    destruct (field "rrule" o) as [| | | |s| |] eqn:Er; try done.
    + apply bind_ok in Hp as (slotId & Hs & Hp). apply bind_ok in Hp as ([] & Hm%throw_if_ok & Hp).
      apply bind_ok in Hp as (note & Hn%parse_note_iff & [= <-]). apply negb_false_iff in Hm.
      destruct (field "slotId" o) as [| | | |s| |] eqn:Es; try done. destruct (is_empty_string (js_trim s)); [done|].
      injection Hs as <-. split; [done|]. split; [by exists s|]. done.
    + apply bind_ok in Hp as ([] & He%throw_if_ok & Hp). apply bind_ok in Hp as ([] & Ha%throw_if_ok & Hp).
      apply bind_ok in Hp as (note & Hn%parse_note_iff & [= <-]). apply is_empty_false in He.
      split; [by exists s|]. done.
  - intros (o & -> & Hb). destruct b as [i|i]; simpl in Hb.
    + destruct Hb as (Hr & (s & Hs & Hi & Hm) & Hn%parse_note_iff & Ht%parse_type_iff & Hd%parse_deadline_iff & Hc%parse_currency_iff).
      rewrite Hc, Ht, Hd, Hr, Hs, Hn. simpl. rewrite (slot_id_nonempty _ Hm). simpl. rewrite Hm. simpl.
      rewrite <- Hi. by destruct i.
    + destruct Hb as ((s & Hs & Hi & Hne & Ha) & Hn%parse_note_iff & Ht%parse_type_iff & Hd%parse_deadline_iff & Hc%parse_currency_iff).
      rewrite Hc, Ht, Hd, Hs, Hn. simpl. apply is_empty_false in Hne. rewrite Hne, Ha. simpl. rewrite <- Hi. by destruct i.
Qed.

Lemma parse_wf body b : parseCreateBookingIntentBody body = Ok b -> wf_body b.
Proof.
  intros (o & -> & Hb)%parse_accepts. destruct b as [i|i]; simpl in *.
  - destruct Hb as (_ & (s & _ & -> & Hm) & Hn%parse_note_iff%parse_note_wf & _ & Hd%parse_deadline_iff%parse_deadline_wf &
      Hc%parse_currency_iff%parse_currency_wf). rewrite js_trim_idem. done.
  - destruct Hb as ((s & _ & -> & Hne & Ha) & Hn%parse_note_iff%parse_note_wf & _ & Hd%parse_deadline_iff%parse_deadline_wf &
      Hc%parse_currency_iff%parse_currency_wf). rewrite js_trim_idem. done.
Qed.

Lemma render_read b : wf_body b -> parseCreateBookingIntentBody (body_of b) = Ok b.
Proof.
  intros Hw. apply parse_accepts. destruct b as [i|i]; simpl in *; eexists; (split; [reflexivity|]).
  - destruct Hw as (Ht & Hm & Hn & Hd & Hc). split; [done|]. split; [exists (ci_slotId i); by rewrite Ht|].
    split; [by apply parse_note_iff, parse_note_render|]. split; [done|].
    split; [by apply parse_deadline_iff, parse_deadline_render|by apply parse_currency_iff, parse_currency_render].
  - destruct Hw as (Ht & Hne & Ha & Hn & Hd & Hc). split; [exists (cri_rrule i); by rewrite Ht|].
    split; [by apply parse_note_iff, parse_note_render|]. split; [done|].
    split; [by apply parse_deadline_iff, parse_deadline_render|by apply parse_currency_iff, parse_currency_render].
Qed.

(** (C38) Parsing is exact.  A body is accepted as a request exactly when it is
    an object that describes it: a rule that is not empty once trimmed and names
    its zone, or else a slot identifier of the right shape once trimmed; a note
    that is absent or text, which is cleaned of control characters and trimmed
    and then has 1 to 500 characters; a booking type and a currency that are
    absent or known; a deadline that is absent or a number other than NaN.
    (Identifiers, rules and notes may thus be accepted in another form than they
    are kept.)  What is read is well formed; a well-formed request, rendered as
    JSON, is read back unchanged; and a rule that was read passes the checks the
    recurrence engine makes itself. *)
Theorem parse_body_exact :
  (forall body b, parseCreateBookingIntentBody body = Ok b <-> exists o, body = JObj o /\ describes o b) /\
  (forall body b, parseCreateBookingIntentBody body = Ok b -> wf_body b) /\
  (forall b, wf_body b -> parseCreateBookingIntentBody (body_of b) = Ok b) /\
  (forall body i expandRule, parseCreateBookingIntentBody body = Ok (RecurringBooking i) ->
     is_ok (expand expandRule (cri_rrule i)) = is_ok (expandRule (cri_rrule i))).
Proof.
  split; [apply parse_accepts|]. split; [apply parse_wf|]. split; [apply render_read|].
  intros body i expandRule (Ht & Hne & Ha & _)%parse_wf. unfold expand. rewrite Ht.
  apply is_empty_false in Hne. rewrite Hne. simpl. rewrite Ha. simpl.
  by destruct (expandRule (cri_rrule i)) as [|[]].
Qed.

(** An identifier with blanks around it and a note with a control character are
    accepted; both are kept in another form. *)
Example accepted_in_another_form :
  parseCreateBookingIntentBody
    (JObj [("slotId", JStr " slot-00000000-0000-4000-8000-000000000001 "); ("note", JStr (String (ascii_of_nat 1) "hi "))])
  = Ok (SingleBooking {| ci_slotId := "slot-00000000-0000-4000-8000-000000000001"; ci_note := Some "hi";
                         ci_bookingType := None; ci_holdDeadlineMs := None; ci_buyerCurrency := None |}).
Proof. vm_compute. reflexivity. Qed.
