(* ===== verification/EscrowProjector.v ===== *)
(** * EscrowProjector: projecting escrow events onto bookings

    [scheduler/escrowStateProjector.ts].  [project] is a program over the events of
    [BookingService], so it also runs concurrently with the booking requests.
    The audit receipt of a captured payment and the reason strings of outcomes
    are not modelled. *)
From stdpp Require Import base list strings gmap relations.
From Stdlib Require Import ZArith Lia.
From S2P Require Import Prelude JsNumber Async Domain Pricing HoldFee Cancellation BookingRepo SlotRepo Scheduling Checkout BookingService BookingLifecycle Recurring EscrowEvents.
Local Open Scope Z_scope.

Inductive ProjectionResultKind : Type :=
| applied | noop_unknown_intent | noop_slot_already | noop_terminal_intent
| noop_illegal_transition | noop_rejected_address.

#[export] Instance ProjectionResultKind_eq_dec : EqDecision ProjectionResultKind.
Proof. solve_decision. Defined.

Record ProjectionOutcome : Type := {
  po_result : ProjectionResultKind;
  po_intent : option BookingIntentRecord;
  po_slotFreed : bool
}.

Definition noop (r : ProjectionResultKind) (i : option BookingIntentRecord) : ProjectionOutcome :=
  {| po_result := r; po_intent := i; po_slotFreed := false |}.

Definition TARGET_BY_KIND (k : EscrowEventKind) : BookingIntentStatus :=
  match k with
  | Held => confirmed
  | Captured => firm
  | Released => cancelled
  | Refunded => cancelled
  | Slashed => expired
  end.

Definition STATUS_TRANSITIONS (st : BookingIntentStatus)
    : list (EscrowEventKind * BookingIntentStatus) :=
  match st with
  | pending => [(Held, confirmed); (Released, cancelled); (Refunded, cancelled); (Slashed, expired)]
  | confirmed => [(Captured, firm); (Released, cancelled); (Refunded, cancelled); (Slashed, expired)]
  | firm => [(Released, cancelled); (Refunded, cancelled); (Slashed, expired)]
  | hold_placed => [(Held, confirmed); (Captured, firm); (Released, cancelled);
                    (Refunded, cancelled); (Slashed, expired)]
  | hold_refunded | cancelled | expired | escrow_held | escrow_released | escrow_refunded
  | escrow_disputed | no_show => []
  end.

Section Projector.
Context (contractAddressAllowList : list string).
(** Whether the repository offers the indexed lookup [findLatestBySlotId]. *)
Context (indexed : bool).

Definition lookupBySlot (slotId : string) : Handler (option BookingIntentRecord) :=
  if indexed then perform (LatestIntentBySlot slotId)
  else
    all ← perform AllIntents;
    mret (latest_of (List.filter (has_slot slotId) all)).

Definition findActiveIntent (event : EscrowEvent) : Handler (option BookingIntentRecord) :=
  match truthy_opt (ee_bookingIntentId event) with
  | Some id =>
      byId ← perform (IntentById id);
      match byId with
      | None => mret None
      | Some i => if bool_decide (bi_slotId i = ee_slotId event) then mret (Some i) else mret None
      end
  | None => lookupBySlot (ee_slotId event)
  end.

Definition tryReleaseSlot (slotId : string) : Handler bool :=
  found ← perform (SlotById slotId);
  match found with
  | None => mret false
  | Some slot =>
      if sl_bookable slot then mret false
      else
        r ← perform (ReleaseSlot slotId);
        match r with
        | Ok _ => mret true
        | Err (SlotNotFoundError _) => mret false
        | Err (SlotNotBookableError _) => mret false
        | Err e => Thr (SchedulingThrew e)
        end
  end.

Definition keeps_slot (st : BookingIntentStatus) : bool :=
  bool_decide (st = confirmed) || bool_decide (st = firm).

Definition transition (intent : BookingIntentRecord) (nextStatus : BookingIntentStatus)
    (event : EscrowEvent) : Handler ProjectionOutcome :=
  updated ← update_status (bi_id intent) nextStatus;
  slotFreed ← (if keeps_slot nextStatus then mret false else tryReleaseSlot (ee_slotId event));
  mret {| po_result := applied; po_intent := Some updated; po_slotFreed := slotFreed |}.

Definition has_edge (st : BookingIntentStatus) (k : EscrowEventKind) : bool :=
  existsb (fun e => bool_decide (fst e = k)) (STATUS_TRANSITIONS st).

Definition project (event : EscrowEvent) : Handler ProjectionOutcome :=
  if negb (existsb (String.eqb (ee_contractAddress event)) contractAddressAllowList) then
    mret (noop noop_rejected_address None)
  else
    found ← findActiveIntent event;
    match found with
    | None => mret (noop noop_unknown_intent None)
    | Some intent =>
        let target := TARGET_BY_KIND (ee_kind event) in
        if bool_decide (bi_status intent = target) then
          mret (noop noop_slot_already (Some intent))
        else if bool_decide (bi_status intent = cancelled) || bool_decide (bi_status intent = expired) then
          mret (noop noop_terminal_intent (Some intent))
        else if negb (has_edge (bi_status intent) (ee_kind event)) then
          mret (noop noop_illegal_transition (Some intent))
        else transition intent target event
    end.

End Projector.

(** ** The abstract projection

    What an event means for a list of intents, as a decision table. *)
Definition target_intent (event : EscrowEvent) (l : list BookingIntentRecord)
    : option BookingIntentRecord :=
  match truthy_opt (ee_bookingIntentId event) with
  | Some id =>
      match find_first (has_id id) l with
      | Some i => if bool_decide (bi_slotId i = ee_slotId event) then Some i else None
      | None => None
      end
  | None => latest_of (List.filter (has_slot (ee_slotId event)) l)
  end.

Definition verdict (st : BookingIntentStatus) (k : EscrowEventKind) : ProjectionResultKind :=
  if bool_decide (st = TARGET_BY_KIND k) then noop_slot_already
  else match st with
       | cancelled | expired => noop_terminal_intent
       | _ => if bool_decide ((k, TARGET_BY_KIND k) ∈ STATUS_TRANSITIONS st) then applied
              else noop_illegal_transition
       end.

Definition decision (allowList : list string) (event : EscrowEvent) (l : list BookingIntentRecord)
    : ProjectionResultKind * option BookingIntentRecord :=
  if bool_decide (ee_contractAddress event ∈ allowList) then
    match target_intent event l with
    | None => (noop_unknown_intent, None)
    | Some i => (verdict (bi_status i) (ee_kind event), Some i)
    end
  else (noop_rejected_address, None).

(** The table has at most one edge per event kind, to that kind's target. *)
Lemma has_edge_spec st k :
  has_edge st k = bool_decide ((k, TARGET_BY_KIND k) ∈ STATUS_TRANSITIONS st).
Proof. by destruct st, k. Qed.

Lemma allow_list_spec a l : existsb (String.eqb a) l = bool_decide (a ∈ l).
Proof.
  symmetry. destruct (existsb _ _) eqn:E.
  - apply bool_decide_eq_true. apply existsb_exists in E as (x & Hin & ->%String.eqb_eq).
    by apply list_elem_of_In.
  - apply bool_decide_eq_false. intros Hin%list_elem_of_In.
    assert (existsb (String.eqb a) l = true) as Ht; [|congruence].
    apply existsb_exists. exists a. split; [done|apply String.eqb_refl].
Qed.

Lemma fold_later_in l x : fold_left later_start l x = x \/ fold_left later_start l x ∈ l.
Proof.
  revert x. induction l as [|y l IH]; intros x; simpl; [by left|].
  destruct (IH (later_start x y)) as [->|Hin]; [|right; by right].
  unfold later_start. destruct (_ <? _); [right; by left|by left].
Qed.

Lemma latest_of_in l i : latest_of l = Some i -> i ∈ l.
Proof.
  destruct l as [|x l]; simpl; [done|]. intros [= <-].
  destruct (fold_later_in l x) as [->|Hin]; [by left|by right].
Qed.

Lemma target_intent_in event l i : target_intent event l = Some i -> i ∈ l /\ bi_slotId i = ee_slotId event.
Proof.
  unfold target_intent. destruct (truthy_opt _) as [id|].
  - destruct (find_first (has_id id) l) as [j|] eqn:E; [|done].
    apply find_first_Some in E as [_ Hin]. case_bool_decide; [|done]. by intros [= <-].
  - intros Hin%latest_of_in. rewrite list_elem_of_In, filter_In in Hin.
    destruct Hin as [Hin Hs]. apply list_elem_of_In in Hin. split; [done|].
    by apply bool_decide_eq_true in Hs.
Qed.

Section ProjectorProofs.
Context {R T : Type} `{BookingIntentRepositoryLaws R} `{SlotRepositoryLaws T}.
Context (o : Outside) (allowList : list string) (indexed : bool).
Implicit Types s : St R T.

(** The slot store after [tryReleaseSlot]. *)
Definition freed (slotId : string) (t : T) : T :=
  match findSlot slotId t with
  | Some slot => if sl_bookable slot then t else released slotId t
  | None => t
  end.

Definition was_reserved (slotId : string) (t : T) : bool :=
  match findSlot slotId t with Some slot => negb (sl_bookable slot) | None => false end.

Lemma run_tryReleaseSlot id s :
  run (handle o) (tryReleaseSlot id) s =
  (Ok (was_reserved id (st_slots s)), MkSt (st_intents s) (freed id (st_slots s))).
Proof.
  unfold tryReleaseSlot, was_reserved, freed. rewrite run_bind, run_perform. cbn [handle fst snd].
  destruct (findSlot id (st_slots s)) as [slot|] eqn:E; [|by destruct s].
  destruct (sl_bookable slot); [by destruct s|]. simpl negb.
  rewrite run_bind, run_perform. cbn [handle fst snd]. unfold releaseSlot, lift_slot, released.
  destruct (law_updateBookable id true (st_slots s)) as (t & -> & _); [by eexists|]. done.
Qed.

Lemma run_findActiveIntent event s :
  run (handle o) (findActiveIntent indexed event) s =
  (Ok (target_intent event (listAll (st_intents s))), s).
Proof.
  unfold findActiveIntent, target_intent, lookupBySlot. destruct (truthy_opt _) as [id|].
  - rewrite run_bind, run_perform. cbn [handle fst snd]. rewrite law_findById.
    destruct (find_first _ _) as [i|]; [|done]. by case_bool_decide.
  - destruct indexed; [rewrite run_perform; cbn [handle fst snd]; by rewrite law_findLatest|].
    rewrite run_bind, run_perform. done.
Qed.

Lemma findById_in i (r : R) : i ∈ listAll r -> exists j, findById (bi_id i) r = Some j.
Proof.
  intros Hin. rewrite law_findById. destruct (find_first (has_id (bi_id i)) (listAll r)) eqn:E; [eauto|].
  apply find_first_None with (x := i) in E; [|done]. unfold has_id in E.
  by apply bool_decide_eq_false in E.
Qed.

(** The abstract projection: what an event may answer and do to the store.
    Only an [applied] verdict writes: then one intent takes the target status
    and the slot is freed exactly when that status gives it up. *)
Definition projects_to event s out s' : Prop :=
  let l := listAll (st_intents s) in
  let target := TARGET_BY_KIND (ee_kind event) in
  po_result out = fst (decision allowList event l) /\
  match decision allowList event l with
  | (applied, Some i) =>
      listAll (st_intents s') = update_first (has_id (bi_id i)) (spread [SetStatus target]) l /\
      st_slots s' = (if keeps_slot target then st_slots s else freed (ee_slotId event) (st_slots s)) /\
      po_slotFreed out = negb (keeps_slot target) && was_reserved (ee_slotId event) (st_slots s)
  | (_, i) => s' = s /\ po_intent out = i /\ po_slotFreed out = false
  end.

Lemma project_spec event s :
  exists out s', run (handle o) (project allowList indexed event) s = (Ok out, s') /\
                 projects_to event s out s'.
Proof.
  unfold projects_to, project, decision. cbv zeta. rewrite allow_list_spec.
  case_bool_decide; simpl negb; cbv iota; [|by eexists _, _].
  rewrite run_bind, run_findActiveIntent.
  destruct (target_intent event (listAll (st_intents s))) as [i|] eqn:Et; [|by eexists _, _].
  apply target_intent_in in Et as [Hin _]. rewrite has_edge_spec. unfold verdict.
  case_bool_decide; [by eexists _, _|].
  destruct (decide (bi_status i = cancelled \/ bi_status i = expired)) as [[Hc|Hc]|Hn].
  1,2: rewrite Hc; by eexists _, _.
  rewrite (bool_decide_eq_false_2 (bi_status i = cancelled)), (bool_decide_eq_false_2 (bi_status i = expired))
    by tauto. simpl orb. cbv iota.
  assert (forall a b c : ProjectionResultKind,
    match bi_status i with cancelled | expired => a | _ => b end = b) as Hmatch
    by (intros; destruct (bi_status i); tauto).
  rewrite (Hmatch _ _ applied). clear Hmatch.
  case_bool_decide; simpl negb; cbv iota; [|by eexists _, _].
  unfold transition, update_status. destruct (findById_in i (st_intents s) Hin) as [j Hj].
  destruct (law_update (bi_id i) [SetStatus (TARGET_BY_KIND (ee_kind event))] _ j Hj) as (r' & Eu & Hl).
  rewrite run_bind, run_bind, run_perform. cbn [handle fst snd]. rewrite law_updateStatus, Eu.
  simpl on_intents. cbn [fst snd]. rewrite run_lift, run_bind.
  destruct (keeps_slot (TARGET_BY_KIND (ee_kind event))).
  - eexists _, _. split; [done|]. by split_and!.
  - rewrite run_tryReleaseSlot. eexists _, _. split; [done|]. by split_and!.
Qed.

(** (C20) The projector implements the decision table on every event and every
    store, with the indexed lookup by slot and with the scan: it never throws,
    and its verdict and its writes are those of [projects_to]. *)
Theorem project_refines event s :
  exists out s', run (handle o) (project allowList indexed event) s = (Ok out, s') /\
                 projects_to event s out s'.
Proof. apply project_spec. Qed.

End ProjectorProofs.

(** ** Replays *)

Definition ids_unique (l : list BookingIntentRecord) : Prop := NoDup (bi_id <$> l).

(** With unique ids, the update of the first intent with an id is the update of
    the intent with that id. *)
Lemma update_first_map id (f : BookingIntentRecord -> BookingIntentRecord) l :
  ids_unique l ->
  update_first (has_id id) f l = map (fun x => if has_id id x then f x else x) l.
Proof.
  unfold ids_unique. induction l as [|x l IH]; simpl; [done|]. intros [Hni Hnd]%NoDup_cons.
  destruct (has_id id x) eqn:E; [|by rewrite IH]. f_equal.
  apply bool_decide_eq_true in E. subst. clear IH Hnd. induction l as [|y l IH]; simpl; [done|].
  rewrite fmap_cons, not_elem_of_cons in Hni. destruct Hni as [Hne Hni].
  unfold has_id at 1. rewrite bool_decide_eq_false_2 by congruence. by rewrite <- IH.
Qed.

Lemma filter_map_comm {A} (p : A -> bool) (g : A -> A) l :
  (forall x, p (g x) = p x) -> List.filter p (map g l) = map g (List.filter p l).
Proof.
  intros Hp. induction l as [|x l IH]; simpl; [done|]. rewrite Hp. destruct (p x); simpl; by rewrite IH.
Qed.

Lemma latest_of_map (g : BookingIntentRecord -> BookingIntentRecord) l :
  (forall x, bi_startTime (g x) = bi_startTime x) -> latest_of (map g l) = g <$> latest_of l.
Proof.
  intros Hg. destruct l as [|x l]; simpl; [done|]. f_equal. revert x.
  induction l as [|y l IH]; intros x; simpl; [done|]. rewrite <- IH. f_equal.
  unfold later_start. rewrite !Hg. by destruct (_ <? _).
Qed.

Lemma spread_startTime st i : bi_startTime (spread [SetStatus st] i) = bi_startTime i.
Proof. by destruct i. Qed.

Lemma target_after_update event l i st :
  ids_unique l -> target_intent event l = Some i ->
  target_intent event (update_first (has_id (bi_id i)) (spread [SetStatus st]) l) =
  Some (spread [SetStatus st] i).
Proof.
  intros Hu Ht. rewrite update_first_map by done.
  set (g := fun x => if has_id (bi_id i) x then spread [SetStatus st] x else x).
  assert (forall x, bi_slotId (g x) = bi_slotId x) as Hslot
    by (intros x; unfold g; destruct (has_id _ x); [apply spread_slotId|done]).
  assert (g i = spread [SetStatus st] i) as Hgi
    by (unfold g, has_id; by rewrite bool_decide_eq_true_2).
  unfold target_intent in *. destruct (truthy_opt _) as [id|].
  - destruct (find_first (has_id id) l) as [j|] eqn:E; [|done].
    case_bool_decide as Hs; [|done]. injection Ht as ->.
    pose proof (find_first_Some _ _ _ E) as [Hid _]. apply bool_decide_eq_true in Hid. subst id.
    assert (find_first (has_id (bi_id i)) (map g l) = Some (spread [SetStatus st] i)) as ->.
    { unfold g. rewrite <- update_first_map by done.
      apply (find_update_first_eq (has_id (bi_id i)) (spread [SetStatus st])); [done|].
      unfold has_id. rewrite spread_id. by apply bool_decide_eq_true. }
    rewrite bool_decide_eq_true_2; [done|]. by rewrite spread_slotId.
  - rewrite filter_map_comm by (intros x; unfold has_slot; by rewrite Hslot).
    rewrite latest_of_map.
    + rewrite Ht. simpl. by rewrite Hgi.
    + intros x. unfold g. destruct (has_id _ x); [apply spread_startTime|done].
Qed.

Section Replay.
Context {R T : Type} `{BookingIntentRepositoryLaws R} `{SlotRepositoryLaws T}.
Context (allowList : list string) (indexed : bool).
Implicit Types s : St R T.

(** Idempotence: once an event has been projected, projecting it again, at
    any later time, changes nothing (neither intents nor slots) and is not
    reported as applied. *)
Theorem project_idempotent o o' event s out s1 :
  ids_unique (listAll (st_intents s)) ->
  run (handle o) (project allowList indexed event) s = (Ok out, s1) ->
  exists out', run (handle o') (project allowList indexed event) s1 = (Ok out', s1) /\
               po_result out' <> applied.
Proof.
  intros Hu Hr. destruct (project_spec o allowList indexed event s) as (out1 & s' & Hr1 & Hres & Hm).
  rewrite Hr in Hr1. simplify_eq.
  destruct (project_spec o' allowList indexed event s') as (out2 & s2 & Hr2 & Hres2 & Hm2).
  exists out2. rewrite Hr2.
  enough (fst (decision allowList event (listAll (st_intents s'))) <> applied) as Hna.
  { rewrite Hres2. split; [|done]. f_equal.
    destruct (decision allowList event (listAll (st_intents s'))) as [[] oi]; [done|by destruct Hm2..]. }
  unfold decision in *. case_bool_decide; [|done].
  destruct (target_intent event (listAll (st_intents s))) as [i|] eqn:Et.
  2:{ destruct Hm as [-> _]. by rewrite Et. }
  destruct (verdict (bi_status i) (ee_kind event)) eqn:Ev; simpl in *;
    try (destruct Hm as [-> _]; rewrite Et; simpl; congruence).
  destruct Hm as [-> _]. rewrite (target_after_update event _ i _ Hu Et). simpl. unfold verdict.
  rewrite spread_status by constructor. by rewrite bool_decide_eq_true_2.
Qed.

Lemma same_start_first l i :
  (forall x y, x ∈ l -> y ∈ l -> bi_startTime x = bi_startTime y) ->
  head l = Some i -> latest_of l = Some i.
Proof.
  destruct l as [|x l]; simpl; [done|]. intros Hs [= <-]. f_equal.
  assert (forall y, y ∈ l -> bi_startTime y = bi_startTime x) as Hy
    by (intros y Hin; apply Hs; set_solver). clear Hs.
  induction l as [|y l IH]; simpl; [done|]. unfold later_start at 2.
  rewrite (Hy y) by set_solver. rewrite Z.ltb_irrefl. apply IH. intros. apply Hy. set_solver.
Qed.

(** An event that names no intent is matched with the oldest intent of the
    slot, not with the active one: the lookup maximises the start time, and all
    intents of a slot share the slot's.  So once the first booking of a slot
    has been cancelled or has expired, such events change nothing, whatever
    active intent the slot has acquired since. *)
Theorem stale_intent_shadows o event s i :
  truthy_opt (ee_bookingIntentId event) = None ->
  (forall x y, x ∈ List.filter (has_slot (ee_slotId event)) (listAll (st_intents s)) ->
               y ∈ List.filter (has_slot (ee_slotId event)) (listAll (st_intents s)) ->
               bi_startTime x = bi_startTime y) ->
  head (List.filter (has_slot (ee_slotId event)) (listAll (st_intents s))) = Some i ->
  bi_status i = cancelled \/ bi_status i = expired ->
  exists out, run (handle o) (project allowList indexed event) s = (Ok out, s) /\
              po_result out <> applied.
Proof.
  intros Hid Hs Hh Hst. destruct (project_spec o allowList indexed event s) as (out & s' & Hr & Hres & Hm).
  exists out. unfold decision in *. case_bool_decide.
  2:{ destruct Hm as [-> _]. simpl in Hres. rewrite Hres. by split. }
  assert (target_intent event (listAll (st_intents s)) = Some i) as Et
    by (unfold target_intent; rewrite Hid; by apply same_start_first).
  rewrite Et in *. simpl in Hres. rewrite Hr, Hres.
  assert (verdict (bi_status i) (ee_kind event) <> applied) as Hv.
  { destruct Hst as [-> | ->], (ee_kind event); done. }
  split; [|done]. f_equal. destruct (verdict _ _); [done|by destruct Hm..].
Qed.

(** ** The projector beside the booking requests *)

Context (expandRule : string -> result RuleFailure (list Z)).

Inductive any_request : Handler unit -> Prop :=
| any_booking p : recurring_request expandRule p -> any_request p
| any_escrow event : any_request (forget (project allowList indexed event)).

Lemma project_writes event : all_events write_ok (project allowList indexed event).
Proof.
  assert (forall k, active_status (TARGET_BY_KIND k) = false) as Hk by by intros [].
  assert (forall id k, all_events write_ok (update_status id (TARGET_BY_KIND k))) as Hup
    by (intros; by apply update_status_ok).
  unfold project, findActiveIntent, lookupBySlot, transition, tryReleaseSlot. events; apply Hup.
Qed.

(** (C6) No double booking with recurring bookings and the escrow listener
    running: the invariant of the booking service also holds when recurring
    requests book series of slots and escrow events are projected in between,
    under any interleaving. *)
Theorem no_double_booking_with_escrow s c' :
  one_active (listAll (st_intents s)) ->
  rtc (step exec any_request) {| cf_state := s; cf_pool := [] |} c' ->
  one_active (listAll (st_intents (cf_state c'))).
Proof.
  intros Hs Hr.
  assert (st_evolves s (cf_state c')) as [He _]; [|by apply He].
  apply (steps_preserve exec any_request write_ok st_evolves _ _ exec_evolves) in Hr; [done| |constructor].
  intros p [q Hq|event]; [by eapply recurring_request_writes|apply all_events_forget, project_writes].
Qed.

End Replay.

(** ** Concrete events *)

Definition w_event (k : EscrowEventKind) (intentId : option string) : EscrowEvent :=
  {| ee_kind := k; ee_txHash := "ab"; ee_eventIndex := 0; ee_ledgerSeq := 7; ee_closeTime := "t";
     ee_contractAddress := "CESCROW"; ee_slotId := "slot-00000000-0000-4000-8000-000000000001"; ee_bookingIntentId := intentId;
     ee_amount := None |}.

Abbreviation w_project e := (project ["CESCROW"%string] true e).

Definition w_held : ProjectionOutcome :=
  match fst (run (handle (w_outside 0)) (w_project (w_event Held None)) w_s1) with
  | Ok out => out
  | Err _ => noop noop_unknown_intent None
  end.

Lemma project_refines_witness :
  exists out s', run (handle (w_outside 0)) (w_project (w_event Held None)) w_s1 = (Ok out, s') /\
    projects_to ["CESCROW"%string] (w_event Held None) w_s1 out s'.
Proof. apply (project_refines (w_outside 0) ["CESCROW"%string] true (w_event Held None) w_s1). Defined.

Lemma project_idempotent_witness :
  exists out', run (handle (w_outside 5)) (w_project (w_event Held None))
      (after (w_outside 0) (w_project (w_event Held None)) w_s1) =
      (Ok out', after (w_outside 0) (w_project (w_event Held None)) w_s1) /\
    po_result out' <> applied.
Proof.
  apply (project_idempotent _ _ (w_outside 0) _ _ w_s1 w_held); [|vm_compute; reflexivity].
  vm_compute. repeat constructor. intros Hin. inversion Hin.
Defined.

(** Alice books and cancels; Mallory books the slot that is free again. *)
Definition w_s3 : MemSt := Eval vm_compute in after (w_outside 0) (cancelIntent "intent-1" alice) w_s1.
Definition w_s4 : MemSt := Eval vm_compute in after (w_outside 0) (createIntent w_env w_input mallory) w_s3.
Definition w_old : BookingIntentRecord := default w_blank (w_first w_s4).

Lemma same_starts (l : list BookingIntentRecord) t :
  Forall (fun z => z = t) (bi_startTime <$> l) ->
  forall x y, x ∈ l -> y ∈ l -> bi_startTime x = bi_startTime y.
Proof.
  rewrite Forall_fmap, Forall_forall. intros Hl x y Hx Hy.
  transitivity t; [exact (Hl x Hx)|symmetry; exact (Hl y Hy)].
Qed.

Lemma stale_intent_shadows_witness :
  (exists out, run (handle (w_outside 0)) (w_project (w_event Held None)) w_s4 = (Ok out, w_s4) /\
               po_result out <> applied) /\
  (bi_status <$> (listAll (st_intents w_s4))) = [cancelled; pending].
Proof.
  split; [|vm_compute; reflexivity].
  apply (stale_intent_shadows _ _ _ _ _ w_old).
  - vm_compute. reflexivity.
  - apply (same_starts _ (100 * HOUR)). vm_compute. repeat constructor.
  - vm_compute. reflexivity.
  - left. vm_compute. reflexivity.
Defined.

(** A booking and a Held event for the same slot, interleaved. *)
Definition w_mixed : Config Ev BookingErr MemSt :=
  follow (fun o => handle o) (map (fun n => (n, w_outside 0)) [0; 1; 0; 1; 1]%nat)
    {| cf_state := w_s1;
       cf_pool := [forget (createIntent w_env w_input mallory); forget (w_project (w_event Held None))] |}.

Lemma no_double_booking_with_escrow_witness :
  one_active (listAll (st_intents (cf_state w_mixed))) /\
  (bi_status <$> (listAll (st_intents (cf_state w_mixed)))) = [confirmed].
Proof.
  split; [|vm_compute; reflexivity].
  apply (no_double_booking_with_escrow ["CESCROW"%string] true w_rule w_s1).
  - intros slotId. vm_compute. destruct (_ : bool); lia.
  - etrans; [|apply follow_steps; intros; apply handle_exec].
    apply (admit_steps _ _ _ [] [_; _]).
    constructor; [apply any_booking; apply rr_single; constructor|]. constructor; [apply any_escrow|constructor].
Defined.
