(* ===== verification/EscrowListener.v ===== *)
(** * EscrowListener: the tick of the escrow event listener

    [runEscrowListenerTick] of [scheduler/escrowEventListener.ts], with the
    cursor store of [scheduler/escrowCursorStore.ts] and the idempotency store
    of [scheduler/escrowIdempotencyStore.ts].  The contract client is a
    parameter: it answers the current tip and a raw page, or fails; the page is
    validated here.  [pageLimit], [finalityDepth] and the tip are integers (a
    tip that is not one counts as a failed call).  Metrics and logging are not
    modelled. *)
From stdpp Require Import base list strings gmap pretty relations.
From Stdlib Require Import ZArith Lia Ascii.
From S2P Require Import Prelude JsNumber Async Domain BookingRepo SlotRepo Scheduling BookingService BookingLifecycle EscrowEvents EscrowProjector.
Local Open Scope Z_scope.

(** The interactions of a tick: the booking stores, the cursor and idempotency
    stores, the contract client (which answers nothing when a call fails) and
    the clock. *)
Inductive LEv : Type -> Type :=
| Booking {X} (ev : Ev X) : LEv X
| CursorGet (instanceId : string) : LEv (option Z)
| CursorSet (instanceId : string) (value : Z) : LEv bool
| GetLatestLedger : LEv (option Z)
| GetEvents (startLedger limit : Z) (contractAddresses : list string) : LEv (option Json)
| Claim (key : string) : LEv bool
| ReleaseClaim (key : string) : LEv unit
| ListenerNow : LEv Z.

Inductive ListenerErr : Type :=
| BadPageLimit | BadFinalityDepth | ContractCallFailed | InvalidPage (e : ValidationError)
| CursorWriteFailed | ProjectionThrew (e : BookingErr).

Abbreviation Listener := (Prog LEv ListenerErr).

(** Run a handler of the booking stores inside the listener, catching what it
    throws. *)
Fixpoint embed {A} (p : Handler A) : Listener (result BookingErr A) :=
  match p with
  | Ret a => Ret (Ok a)
  | Thr e => Ret (Err e)
  | Vis ev k => Vis (Booking ev) (fun x => embed (k x))
  end.

Record ListenerOptions : Type := {
  lo_instanceId : string;
  lo_allowList : list string;
  lo_indexed : bool;
  lo_pageLimit : Z;
  lo_finalityDepth : Z;
  lo_freshnessSloSeconds : num
}.

(** [ProjectionCounts]: how often each verdict was reached. *)
Definition ProjectionCounts : Type := ProjectionResultKind -> nat.

Definition emptyProjectionCounts : ProjectionCounts := fun _ => O.

Definition incrementProjectionCount (counts : ProjectionCounts) (kind : ProjectionResultKind)
    : ProjectionCounts :=
  fun k => if bool_decide (k = kind) then S (counts k) else counts k.

Definition total_count (c : ProjectionCounts) : nat :=
  (c applied + c noop_unknown_intent + c noop_slot_already + c noop_terminal_intent
   + c noop_illegal_transition + c noop_rejected_address)%nat.

Record Progress : Type := {
  pg_maxProcessedSeq : Z;
  pg_appliedEvents : nat;
  pg_duplicateIdempotencyHits : nat;
  pg_projectionCounts : ProjectionCounts;
  pg_freshestAppliedCloseTime : option string
}.

Record TickResult : Type := {
  tr_instanceId : string;
  tr_cursorBefore : option Z;
  tr_cursorAfter : option Z;
  tr_tipLedgerSeq : Z;
  tr_safeTipLedgerSeq : Z;
  tr_fetchedEvents : nat;
  tr_progress : Progress;
  tr_freshnessSeconds : option num;
  tr_freshnessExceededSlo : bool;
  tr_lagSequences : Z
}.

Section Tick.
Context (date_parse : string -> option Z) (opts : ListenerOptions).

(** [freshest === null || Date.parse(closeTime) > Date.parse(freshest)]. *)
Definition fresher (closeTime : string) (freshest : option string) : bool :=
  match freshest with
  | None => true
  | Some f =>
      match date_parse closeTime, date_parse f with
      | Some a, Some b => b <? a
      | _, _ => false
      end
  end.

(** The bookkeeping after a projection. *)
Definition record_outcome (e : EscrowEvent) (maxSeq : Z) (verdict : ProjectionResultKind) (pg : Progress)
    : Progress :=
  let isApplied := bool_decide (verdict = applied) in
  {| pg_maxProcessedSeq := maxSeq;
     pg_appliedEvents := (if isApplied then S (pg_appliedEvents pg) else pg_appliedEvents pg);
     pg_duplicateIdempotencyHits := pg_duplicateIdempotencyHits pg;
     pg_projectionCounts := incrementProjectionCount (pg_projectionCounts pg) verdict;
     pg_freshestAppliedCloseTime :=
       (if isApplied && fresher (ee_closeTime e) (pg_freshestAppliedCloseTime pg)
        then Some (ee_closeTime e) else pg_freshestAppliedCloseTime pg) |}.

(** One iteration of the loop over the page. *)
Definition process_event (safeTip : Z) (e : EscrowEvent) (pg : Progress) : Listener Progress :=
  if safeTip <? ee_ledgerSeq e then mret pg
  else
    let maxSeq := Z.max (pg_maxProcessedSeq pg) (ee_ledgerSeq e) in
    claimed ← perform (Claim (eventKey e));
    if negb claimed then
      mret {| pg_maxProcessedSeq := maxSeq; pg_appliedEvents := pg_appliedEvents pg;
              pg_duplicateIdempotencyHits := S (pg_duplicateIdempotencyHits pg);
              pg_projectionCounts :=
                incrementProjectionCount (pg_projectionCounts pg) noop_slot_already;
              pg_freshestAppliedCloseTime := pg_freshestAppliedCloseTime pg |}
    else
      r ← embed (project (lo_allowList opts) (lo_indexed opts) e);
      match r with
      | Err err =>
          _ ← perform (ReleaseClaim (eventKey e));
          Thr (ProjectionThrew err)
      | Ok out => mret (record_outcome e maxSeq (po_result out) pg)
      end.

Fixpoint process_events (safeTip : Z) (events : list EscrowEvent) (pg : Progress) : Listener Progress :=
  match events with
  | [] => mret pg
  | e :: events' => pg' ← process_event safeTip e pg; process_events safeTip events' pg'
  end.

(** [Math.max(0, (now - Date.parse(closeTime)) / 1000)]. *)
Definition freshness_seconds (now : Z) (closeTime : string) : num :=
  math_max zero (div (match date_parse closeTime with
                      | Some t => sub (of_Z now) (of_Z t)
                      | None => NaN
                      end) (of_Z 1000)).

Definition finalizeTickResult (cursorBefore cursorAfter : option Z) (tip safeTip : Z) (fetched : nat)
    (pg : Progress) (lag : Z) : Listener TickResult :=
  freshness ← match pg_freshestAppliedCloseTime pg with
              | Some closeTime => now ← perform ListenerNow; mret (Some (freshness_seconds now closeTime))
              | None => mret None
              end;
  mret {| tr_instanceId := lo_instanceId opts; tr_cursorBefore := cursorBefore;
          tr_cursorAfter := cursorAfter; tr_tipLedgerSeq := tip; tr_safeTipLedgerSeq := safeTip;
          tr_fetchedEvents := fetched; tr_progress := pg; tr_freshnessSeconds := freshness;
          tr_freshnessExceededSlo :=
            (match freshness with Some f => gtb f (lo_freshnessSloSeconds opts) | None => false end);
          tr_lagSequences := lag |}.

Definition start_progress (cursorBefore : option Z) : Progress :=
  {| pg_maxProcessedSeq := default 0 cursorBefore; pg_appliedEvents := 0;
     pg_duplicateIdempotencyHits := 0; pg_projectionCounts := emptyProjectionCounts;
     pg_freshestAppliedCloseTime := None |}.

Definition runEscrowListenerTick : Listener TickResult :=
  _ ← throw_when (lo_pageLimit opts <=? 0) BadPageLimit;
  _ ← throw_when (lo_finalityDepth opts <? 0) BadFinalityDepth;
  cursorBefore ← perform (CursorGet (lo_instanceId opts));
  info ← perform GetLatestLedger;
  tip ← need info ContractCallFailed;
  _ ← throw_when (tip <? 0) ContractCallFailed;
  let safeTip := Z.max 0 (tip - lo_finalityDepth opts) in
  if match cursorBefore with Some c => safeTip <=? c | None => false end then
    finalizeTickResult cursorBefore cursorBefore tip safeTip 0 (start_progress cursorBefore) 0
  else
    raw ← perform (GetEvents (default 0 cursorBefore + 1) (lo_pageLimit opts) (lo_allowList opts));
    page ← need raw ContractCallFailed;
    batch ← lift_result InvalidPage (validateEscrowEventBatch date_parse page);
    let events := fst batch in
    pg ← process_events safeTip events (start_progress cursorBefore);
    _ ← (if default 0 cursorBefore <? pg_maxProcessedSeq pg then
           written ← perform (CursorSet (lo_instanceId opts) (pg_maxProcessedSeq pg));
           throw_when (negb written) CursorWriteFailed
         else mret tt);
    finalizeTickResult cursorBefore (Some (pg_maxProcessedSeq pg)) tip safeTip (length events) pg
      (Z.max 0 (safeTip - pg_maxProcessedSeq pg)).

End Tick.

(** ** Interpretation *)

Record LOutside : Type := {
  lw_booking : Outside;
  lw_tip : option Z;
  lw_page : Z -> Z -> list string -> option Json;
  lw_cursorWritable : bool;
  lw_now : Z
}.

Record LSt (R T : Type) : Type := MkLSt {
  ls_booking : St R T;
  ls_cursors : gmap string Z;
  ls_claims : gset string
}.
Arguments MkLSt {R T}.
Arguments ls_booking {R T}.
Arguments ls_cursors {R T}.
Arguments ls_claims {R T}.

(** [InMemoryCursorStore.set], which refuses to move a cursor backwards. *)
Definition cursor_set (writable : bool) (instanceId : string) (value : Z) (m : gmap string Z)
    : bool * gmap string Z :=
  if (value <? 0) || negb writable
     || match m !! instanceId with Some c => value <? c | None => false end
  then (false, m) else (true, <[instanceId := value]> m).

(** [InMemoryIdempotencyStore.claim] and [release]. *)
Definition claim (key : string) (claims : gset string) : bool * gset string :=
  if bool_decide (key ∈ claims) then (false, claims) else (true, {[key]} ∪ claims).

Definition release (key : string) (claims : gset string) : gset string := claims ∖ {[key]}.

Section Interp.
Context {R T : Type} `{BookingIntentRepository R} `{SlotRepository T}.
Implicit Types s : LSt R T.

Definition lhandle (w : LOutside) (X : Type) (ev : LEv X) s : X * LSt R T :=
  match ev in LEv X return X * LSt R T with
  | Booking ev =>
      let '(x, b) := handle (lw_booking w) _ ev (ls_booking s) in
      (x, MkLSt b (ls_cursors s) (ls_claims s))
  | CursorGet id => (ls_cursors s !! id, s)
  | CursorSet id v =>
      let '(ok, m) := cursor_set (lw_cursorWritable w) id v (ls_cursors s) in
      (ok, MkLSt (ls_booking s) m (ls_claims s))
  | GetLatestLedger => (lw_tip w, s)
  | GetEvents start limit addresses => (lw_page w start limit addresses, s)
  | Claim key =>
      let '(ok, c) := claim key (ls_claims s) in (ok, MkLSt (ls_booking s) (ls_cursors s) c)
  | ReleaseClaim key => (tt, MkLSt (ls_booking s) (ls_cursors s) (release key (ls_claims s)))
  | ListenerNow => (lw_now w, s)
  end.

Lemma run_embed {A} w (p : Handler A) s :
  run (lhandle w) (embed p) s =
  (Ok (fst (run (handle (lw_booking w)) p (ls_booking s))),
   MkLSt (snd (run (handle (lw_booking w)) p (ls_booking s))) (ls_cursors s) (ls_claims s)).
Proof.
  revert s. induction p as [a|e|X ev k IH]; intros s; simpl; [by destruct s..|].
  destruct (handle (lw_booking w) X ev (ls_booking s)) as [x b]. by rewrite IH.
Qed.

End Interp.

(** ** The batch a tick applies *)

(** Events of a page seen for the first time, in order. *)
Fixpoint fresh (claims : gset string) (l : list EscrowEvent) : list EscrowEvent :=
  match l with
  | [] => []
  | e :: l' => if bool_decide (eventKey e ∈ claims) then fresh claims l'
               else e :: fresh ({[eventKey e]} ∪ claims) l'
  end.

(** Events that have reached finality. *)
Definition settled (safeTip : Z) (l : list EscrowEvent) : list EscrowEvent :=
  List.filter (fun e => negb (safeTip <? ee_ledgerSeq e)) l.

Definition keys (l : list EscrowEvent) : gset string := list_to_set (eventKey <$> l).

Definition max_seq (l : list EscrowEvent) (m : Z) : Z :=
  fold_left (fun m e => Z.max m (ee_ledgerSeq e)) l m.

Lemma max_seq_le l m : m <= max_seq l m.
Proof.
  unfold max_seq. revert m. induction l as [|e l IH]; intros m; simpl; [lia|].
  specialize (IH (Z.max m (ee_ledgerSeq e))). lia.
Qed.

Lemma max_seq_bound l m b :
  m <= b -> Forall (fun e => ee_ledgerSeq e <= b) l -> max_seq l m <= b.
Proof.
  intros Hm Hl. revert m Hm. unfold max_seq. induction Hl as [|e l He Hl IH]; intros m Hm; simpl; [done|].
  apply IH. lia.
Qed.

Lemma settled_bound t l : Forall (fun e => ee_ledgerSeq e <= t) (settled t l).
Proof.
  apply Forall_forall. intros e. unfold settled. rewrite list_elem_of_In, filter_In.
  intros [_ He%negb_true_iff%Z.ltb_ge]. done.
Qed.

Lemma total_increment c k : total_count (incrementProjectionCount c k) = S (total_count c).
Proof. unfold total_count, incrementProjectionCount. destruct k; simpl; lia. Qed.

(** The counters of a tick agree: applied events are counted once each. *)
Definition counted (pg : Progress) : Prop := pg_appliedEvents pg = pg_projectionCounts pg applied.

Section Correctness.
Context {R T : Type} `{BookingIntentRepositoryLaws R} `{SlotRepositoryLaws T}.
Context (date_parse : string -> option Z) (opts : ListenerOptions).
Implicit Types (s : LSt R T) (w : LOutside).

Definition apply_event w (b : St R T) (e : EscrowEvent) : St R T :=
  snd (run (handle (lw_booking w)) (project (lo_allowList opts) (lo_indexed opts) e) b).

Lemma run_project_embedded w e s :
  exists out, run (lhandle w) (embed (project (lo_allowList opts) (lo_indexed opts) e)) s =
    (Ok (Ok out), MkLSt (apply_event w (ls_booking s) e) (ls_cursors s) (ls_claims s)).
Proof.
  rewrite run_embed. unfold apply_event.
  destruct (project_spec (lw_booking w) (lo_allowList opts) (lo_indexed opts) e (ls_booking s))
    as (out & s' & Hr & _). rewrite Hr. by exists out.
Qed.

(** The state after one event. *)
Definition after_event w (t : Z) (e : EscrowEvent) s : LSt R T :=
  if t <? ee_ledgerSeq e then s
  else if bool_decide (eventKey e ∈ ls_claims s) then s
  else MkLSt (apply_event w (ls_booking s) e) (ls_cursors s) ({[eventKey e]} ∪ ls_claims s).

Lemma run_process_event w t e pg s :
  exists pg', run (lhandle w) (process_event date_parse opts t e pg) s = (Ok pg', after_event w t e s) /\
    pg_maxProcessedSeq pg' =
      (if t <? ee_ledgerSeq e then pg_maxProcessedSeq pg
       else Z.max (pg_maxProcessedSeq pg) (ee_ledgerSeq e)) /\
    total_count (pg_projectionCounts pg') =
      (if t <? ee_ledgerSeq e then total_count (pg_projectionCounts pg)
       else S (total_count (pg_projectionCounts pg))) /\
    (counted pg -> counted pg').
Proof.
  unfold process_event, after_event. destruct (t <? ee_ledgerSeq e); [by eexists|].
  rewrite run_bind, run_perform. cbn [lhandle fst snd]. unfold claim.
  case_bool_decide; cbn [fst snd negb].
  { eexists. rewrite run_mret. split; [by destruct s|]. simpl. by rewrite total_increment. }
  rewrite run_bind.
  edestruct (run_project_embedded w e) as (out & Hr). rewrite Hr. eexists. split; [done|].
  unfold counted, record_outcome. simpl. rewrite total_increment.
  split_and!; [done..|]. intros Hc. unfold incrementProjectionCount.
  do 2 case_bool_decide; congruence.
Qed.

Lemma run_process_events w t l pg s :
  exists pg', run (lhandle w) (process_events date_parse opts t l pg) s =
    (Ok pg', MkLSt (fold_left (apply_event w) (fresh (ls_claims s) (settled t l)) (ls_booking s))
                   (ls_cursors s) (ls_claims s ∪ keys (settled t l))) /\
    pg_maxProcessedSeq pg' = max_seq (settled t l) (pg_maxProcessedSeq pg) /\
    total_count (pg_projectionCounts pg') =
      (total_count (pg_projectionCounts pg) + length (settled t l))%nat /\
    (counted pg -> counted pg').
Proof.
  revert pg s. induction l as [|e l IH]; intros pg s; simpl.
  { exists pg. unfold keys. simpl. rewrite union_empty_r_L, Nat.add_0_r. by destruct s. }
  destruct (run_process_event w t e pg s) as (pg1 & Hr & Hm & Hn & Hc). rewrite run_bind, Hr.
  destruct (IH pg1 (after_event w t e s)) as (pg2 & Hr2 & Hm2 & Hn2 & Hc2).
  exists pg2. rewrite Hr2, Hm2, Hm, Hn2, Hn. clear Hr Hm Hr2 Hm2 IH Hn Hn2. unfold after_event.
  destruct (t <? ee_ledgerSeq e); simpl; [split_and!; [done..|by auto]|].
  unfold keys. rewrite fmap_cons, list_to_set_cons.
  case_bool_decide; simpl; (split_and!; [|done|lia|by auto]); do 2 f_equal; set_solver.
Qed.

Lemma run_finalize w before after_ tip safe n pg lag s :
  exists r, run (lhandle w) (finalizeTickResult date_parse opts before after_ tip safe n pg lag) s = (Ok r, s) /\
    tr_progress r = pg /\ tr_fetchedEvents r = n /\ tr_cursorAfter r = after_ /\ tr_lagSequences r = lag.
Proof.
  unfold finalizeTickResult. rewrite run_bind.
  destruct (pg_freshestAppliedCloseTime pg); [rewrite run_bind, run_perform; cbn [lhandle fst snd]|];
    rewrite run_mret; eexists; by rewrite run_mret.
Qed.

(** What a tick does to a state, when the client answers and the cursor can be
    written. *)
Definition tick_spec w (tip : Z) (page : list EscrowEvent) s : LSt R T :=
  let safeTip := Z.max 0 (tip - lo_finalityDepth opts) in
  let before := default 0 (ls_cursors s !! lo_instanceId opts) in
  if match ls_cursors s !! lo_instanceId opts with Some c => safeTip <=? c | None => false end then s
  else
    let batch := settled safeTip page in
    let m := max_seq batch before in
    MkLSt (fold_left (apply_event w) (fresh (ls_claims s) batch) (ls_booking s))
          (if before <? m then <[lo_instanceId opts := m]> (ls_cursors s) else ls_cursors s)
          (ls_claims s ∪ keys batch).

(** The guards of a tick that succeed. *)
Lemma run_tick_prefix w tip s :
  0 < lo_pageLimit opts -> 0 <= lo_finalityDepth opts -> lw_tip w = Some tip -> 0 <= tip ->
  let before := ls_cursors s !! lo_instanceId opts in
  let safeTip := Z.max 0 (tip - lo_finalityDepth opts) in
  run (lhandle w) (runEscrowListenerTick date_parse opts) s =
  if match before with Some c => safeTip <=? c | None => false end then
    run (lhandle w) (finalizeTickResult date_parse opts before before tip safeTip 0 (start_progress before) 0) s
  else match lw_page w (default 0 before + 1) (lo_pageLimit opts) (lo_allowList opts) with
       | None => (Err ContractCallFailed, s)
       | Some page =>
           match validateEscrowEventBatch date_parse page with
           | Err e => (Err (InvalidPage e), s)
           | Ok batch =>
               run (lhandle w)
                 (pg ← process_events date_parse opts safeTip (fst batch) (start_progress before);
                  _ ← (if default 0 before <? pg_maxProcessedSeq pg then
                         written ← perform (CursorSet (lo_instanceId opts) (pg_maxProcessedSeq pg));
                         throw_when (negb written) CursorWriteFailed
                       else mret tt);
                  finalizeTickResult date_parse opts before (Some (pg_maxProcessedSeq pg)) tip safeTip
                    (length (fst batch)) pg (Z.max 0 (safeTip - pg_maxProcessedSeq pg))) s
           end
       end.
Proof.
  intros Hl Hf Ht Htip before safeTip. unfold runEscrowListenerTick.
  rewrite run_bind, run_throw_when. destruct (Z.leb_spec (lo_pageLimit opts) 0); [lia|].
  rewrite run_bind, run_throw_when. destruct (Z.ltb_spec (lo_finalityDepth opts) 0); [lia|].
  rewrite run_bind, run_perform. cbn [lhandle fst snd].
  rewrite run_bind, run_perform. cbn [lhandle fst snd]. rewrite run_bind, Ht, run_need. simpl from_option_or.
  cbv iota. rewrite run_bind, run_throw_when. destruct (Z.ltb_spec tip 0); [lia|]. cbv zeta.
  fold before safeTip. destruct (match before with Some c => safeTip <=? c | None => false end); [done|].
  rewrite run_bind, run_perform. cbn [lhandle fst snd]. rewrite run_bind, run_need.
  destruct (lw_page w _ _ _) as [page|]; [|done]. simpl from_option_or. cbv iota. rewrite run_bind, run_lift.
  by destruct (validateEscrowEventBatch date_parse page).
Qed.

Lemma tick_spec_cursor w tip page s :
  0 <= default 0 (ls_cursors s !! lo_instanceId opts) ->
  default 0 (ls_cursors s !! lo_instanceId opts)
    <= default 0 (ls_cursors (tick_spec w tip page s) !! lo_instanceId opts)
    <= Z.max (Z.max 0 (tip - lo_finalityDepth opts)) (default 0 (ls_cursors s !! lo_instanceId opts)).
Proof.
  intros Hc. unfold tick_spec.
  set (safeTip := Z.max 0 (tip - lo_finalityDepth opts)).
  set (before := default 0 (ls_cursors s !! lo_instanceId opts)) in *.
  destruct (match _ with Some c => safeTip <=? c | None => false end); [unfold before; lia|].
  pose proof (max_seq_le (settled safeTip page) before).
  pose proof (max_seq_bound (settled safeTip page) before (Z.max safeTip before)) as Hb.
  destruct (Z.ltb_spec before (max_seq (settled safeTip page) before)); cbn [ls_cursors].
  - rewrite lookup_insert_eq. simpl. split; [lia|]. apply Hb; [lia|].
    eapply Forall_impl; [apply settled_bound|]. simpl. intros. lia.
  - unfold before. lia.
Qed.

Lemma cursor_set_forward id v m :
  0 <= v -> default 0 (m !! id) <= v -> cursor_set true id v m = (true, <[id := v]> m).
Proof.
  intros Hv Hm. unfold cursor_set. destruct (Z.ltb_spec v 0); [lia|]. simpl.
  destruct (m !! id) as [c|]; [|done]. simpl in Hm. by destruct (Z.ltb_spec v c); [lia|].
Qed.

(** (C21) A tick is the in-order application, exactly once each, of the final
    events of the page not seen before: events past the finality window are
    neither applied nor claimed, events already claimed are skipped, and the
    cursor moves to the highest ledger processed, never past the safe tip and
    never backwards.  The tick does not fail for any event in the page, and its
    counters add up: one verdict per final event, the applied ones counted
    once. *)
Theorem tick_refines w tip raw page latest s :
  0 < lo_pageLimit opts -> 0 <= lo_finalityDepth opts ->
  lw_tip w = Some tip -> 0 <= tip -> lw_cursorWritable w = true ->
  (forall start limit addresses, lw_page w start limit addresses = Some raw) ->
  validateEscrowEventBatch date_parse raw = Ok (page, latest) ->
  0 <= default 0 (ls_cursors s !! lo_instanceId opts) ->
  (exists r, run (lhandle w) (runEscrowListenerTick date_parse opts) s = (Ok r, tick_spec w tip page s) /\
     pg_appliedEvents (tr_progress r) = pg_projectionCounts (tr_progress r) applied /\
     total_count (pg_projectionCounts (tr_progress r)) =
       if match ls_cursors s !! lo_instanceId opts with
          | Some c => Z.max 0 (tip - lo_finalityDepth opts) <=? c | None => false end then 0%nat
       else length (settled (Z.max 0 (tip - lo_finalityDepth opts)) page)) /\
  default 0 (ls_cursors s !! lo_instanceId opts)
    <= default 0 (ls_cursors (tick_spec w tip page s) !! lo_instanceId opts)
    <= Z.max (Z.max 0 (tip - lo_finalityDepth opts)) (default 0 (ls_cursors s !! lo_instanceId opts)).
Proof.
  intros Hl Hf Ht Htip Hw Hp Hv Hc. split; [|by apply tick_spec_cursor].
  rewrite (run_tick_prefix w tip s Hl Hf Ht Htip), Hp, Hv. unfold tick_spec.
  set (safeTip := Z.max 0 (tip - lo_finalityDepth opts)).
  set (before := default 0 (ls_cursors s !! lo_instanceId opts)) in *.
  destruct (match _ with Some c => safeTip <=? c | None => false end).
  { edestruct run_finalize as (r & Hr & Hpg & _). rewrite Hr. exists r. by rewrite Hpg. }
  rewrite run_bind. cbn [fst].
  destruct (run_process_events w safeTip page (start_progress (ls_cursors s !! lo_instanceId opts)) s)
    as (pg & Hr & Hm & Hn & Hcnt).
  rewrite Hr, run_bind. change (pg_maxProcessedSeq (start_progress _)) with before in Hm.
  rewrite Hm. specialize (Hcnt eq_refl).
  assert (forall s', exists r, run (lhandle w) (finalizeTickResult date_parse opts
      (ls_cursors s !! lo_instanceId opts) (Some (max_seq (settled safeTip page) before)) tip safeTip
      (length page) pg (Z.max 0 (safeTip - max_seq (settled safeTip page) before))) s' = (Ok r, s') /\
      pg_appliedEvents (tr_progress r) = pg_projectionCounts (tr_progress r) applied /\
      total_count (pg_projectionCounts (tr_progress r)) = length (settled safeTip page)) as Hfin.
  { intros s'. edestruct run_finalize as (r & Hr' & Hpg & _). rewrite Hr'. exists r. by rewrite Hpg. }
  destruct (Z.ltb_spec before (max_seq (settled safeTip page) before)); [|rewrite run_mret; apply Hfin].
  rewrite run_bind, run_perform. cbn [lhandle fst snd ls_cursors].
  rewrite Hw, cursor_set_forward by (done || lia). cbn [fst snd]. rewrite run_throw_when. apply Hfin.
Qed.

(** A page with one malformed event, or a malformed envelope, stops the
    listener: the tick fails and leaves the bookings, the cursor and the claims as
    they were, so the next tick asks for the same page again; none of the
    well-formed events of the page is applied. *)
Theorem malformed_page_blocks w tip raw e s :
  0 < lo_pageLimit opts -> 0 <= lo_finalityDepth opts -> lw_tip w = Some tip ->
  default 0 (ls_cursors s !! lo_instanceId opts) < tip - lo_finalityDepth opts ->
  0 <= default 0 (ls_cursors s !! lo_instanceId opts) ->
  lw_page w (default 0 (ls_cursors s !! lo_instanceId opts) + 1) (lo_pageLimit opts) (lo_allowList opts)
    = Some raw ->
  validateEscrowEventBatch date_parse raw = Err e ->
  run (lhandle w) (runEscrowListenerTick date_parse opts) s = (Err (InvalidPage e), s).
Proof.
  intros Hl Hf Ht Hlag Hc Hp Hv. rewrite (run_tick_prefix w tip s) by (done || lia). rewrite Hp, Hv.
  destruct (ls_cursors s !! lo_instanceId opts) as [c|]; [|done]. simpl in *.
  destruct (Z.leb_spec (Z.max 0 (tip - lo_finalityDepth opts)) c); [lia|done].
Qed.

End Correctness.

(** ** Events the cursor has passed *)

Section Skipped.
Context {R T : Type} `{BookingIntentRepositoryLaws R} `{SlotRepositoryLaws T}.
Context (date_parse : string -> option Z) (opts : ListenerOptions).
Implicit Types (s : LSt R T) (w : LOutside).

(** The validated events of the page the client serves from a ledger on. *)
Definition serves w (start : Z) (page : list EscrowEvent) : Prop :=
  exists raw latest, lw_page w start (lo_pageLimit opts) (lo_allowList opts) = Some raw /\
    validateEscrowEventBatch date_parse raw = Ok (page, latest).

(** What any tick, failed or not, may do to claims and cursor. *)
Definition tick_moves w s s' : Prop :=
  (ls_claims s' = ls_claims s \/
   exists page t,
     serves w (default 0 (ls_cursors s !! lo_instanceId opts) + 1) page /\
     ls_claims s' = ls_claims s ∪ keys (settled t page)) /\
  (forall c, ls_cursors s !! lo_instanceId opts = Some c ->
     exists c', ls_cursors s' !! lo_instanceId opts = Some c' /\ c <= c').

Lemma tick_moves_refl w s : tick_moves w s s.
Proof. split; [by left|]. intros c Hc. exists c. split; [done|lia]. Qed.

Lemma cursor_set_mono wr id v m ok m' :
  cursor_set wr id v m = (ok, m') ->
  forall c, m !! id = Some c -> exists c', m' !! id = Some c' /\ c <= c'.
Proof.
  unfold cursor_set. intros Hs c Hc. rewrite Hc in Hs.
  destruct (Z.ltb_spec v c); rewrite ?orb_true_r in Hs.
  - simplify_eq. exists c. split; [done|lia].
  - destruct ((v <? 0) || negb wr || false); simplify_eq; [exists c; split; [done|lia]|].
    exists v. rewrite lookup_insert_eq. done.
Qed.

Lemma wp_process_events w t l pg (Q : result ListenerErr Progress -> LSt R T -> Prop) s :
  (forall pg' b, Q (Ok pg') (MkLSt b (ls_cursors s) (ls_claims s ∪ keys (settled t l)))) ->
  wp (lhandle w) (process_events date_parse opts t l pg) Q s.
Proof.
  intros HQ. unfold wp. destruct (run_process_events date_parse opts w t l pg s) as (pg' & Hr & _).
  rewrite Hr. apply HQ.
Qed.

Lemma tick_moves_any w s :
  wp (lhandle w) (runEscrowListenerTick date_parse opts) (fun _ s' => tick_moves w s s') s.
Proof.
  unfold runEscrowListenerTick, finalizeTickResult. pose proof (tick_moves_refl w s).
  repeat (wp_step; cbn [lhandle fst snd]); auto.
  apply wp_process_events. intros pg' b. cbv beta iota.
  match goal with E : validateEscrowEventBatch _ _ = Ok ?x |- _ => destruct x as [page latest] end.
  repeat (wp_step; cbn [lhandle fst snd ls_cursors]);
    try match goal with |- context [cursor_set ?a ?b ?c ?d] =>
          destruct (cursor_set a b c d) as [ok m] eqn:Ec end; simpl in *;
    (split; [right; unfold serves; eauto 10|intros c Hc]);
    first [by eapply cursor_set_mono | exists c; split; [done|lia]].
Qed.

(** A client that honours [startLedger], and whose keys identify events. *)
Definition honest (e : EscrowEvent) w : Prop :=
  forall start page, serves w start page ->
    Forall (fun e' => start <= ee_ledgerSeq e' /\
                      (eventKey e' = eventKey e -> ee_ledgerSeq e' = ee_ledgerSeq e)) page.

Definition tick_step (e : EscrowEvent) s s' : Prop :=
  exists w, honest e w /\ s' = snd (run (lhandle w) (runEscrowListenerTick date_parse opts) s).

(** An event whose ledger the cursor has reached without the event having
    been claimed is lost: no later tick, however many and whatever their outcome,
    claims or applies it, because pages start at the ledger after the cursor. *)
Theorem passed_events_are_lost e s s' c :
  rtc (tick_step e) s s' ->
  ls_cursors s !! lo_instanceId opts = Some c -> ee_ledgerSeq e <= c ->
  eventKey e ∉ ls_claims s ->
  eventKey e ∉ ls_claims s'.
Proof.
  intros Hr. revert c. induction Hr as [s|s s1 s' (w & Hh & ->) _ IH]; intros c Hc Hle Hn; [done|].
  pose proof (tick_moves_any w s) as [Hclaims Hcur]. destruct (Hcur c Hc) as (c' & Hc' & Hcc).
  apply (IH c'); [done|lia|]. destruct Hclaims as [->|(page & t & Hp & ->)]; [done|].
  intros [Hin|Hin]%elem_of_union; [done|]. unfold keys in Hin.
  apply elem_of_list_to_set, list_elem_of_fmap in Hin as (e' & Hk & Hin).
  unfold settled in Hin. rewrite list_elem_of_In, filter_In in Hin. destruct Hin as [Hin _].
  apply list_elem_of_In in Hin. specialize (Hh _ _ Hp). rewrite Forall_forall in Hh.
  destruct (Hh e' Hin) as [Hge Heq]. rewrite Hc in Hge. simpl in Hge. specialize (Heq (eq_sym Hk)). lia.
Qed.

End Skipped.

(** ** A ledger larger than a page *)

Definition w_opts : ListenerOptions :=
  {| lo_instanceId := "listener"; lo_allowList := [w_repeat 56 "C"%char]; lo_indexed := true;
     lo_pageLimit := 1; lo_finalityDepth := 2; lo_freshnessSloSeconds := of_Z 60 |}.

(** Two events in ledger 7: the hold and its capture. *)
Definition w_chain : list EscrowEvent := [w_raw_event Held "a"%char 0; w_raw_event Captured "a"%char 1].

Definition w_client (tip : Z) : LOutside :=
  {| lw_booking := w_outside 0; lw_tip := Some tip;
     lw_page := fun start limit _ =>
       Some (batch_json (take (Z.to_nat limit) (List.filter (fun e => start <=? ee_ledgerSeq e) w_chain)) tip);
     lw_cursorWritable := true; lw_now := 0 |}.

Abbreviation w_tick tip s := (snd (run (lhandle (w_client tip)) (runEscrowListenerTick w_parse w_opts) s)).

Definition w_l0 : LSt InMemoryRepo.t InMemorySlots.t := MkLSt w_s1 ∅ ∅.
Definition w_l1 := w_tick 20 w_l0.
Definition w_l2 := w_tick 21 w_l1.

Lemma w_client_honest tip : 0 <= tip -> honest w_parse w_opts (w_raw_event Captured "a"%char 1) (w_client tip).
Proof.
  intros Htip start page (raw & latest & [= <-] & Hv). revert Hv.
  destruct (Z.leb_spec start 7); rewrite validate_batch_json by
    first [assumption | apply Forall_nil; exact I
          | apply Forall_singleton, w_raw_event_wf; [reflexivity|lia]];
    intros [= <- _]; [|constructor]. apply Forall_singleton. by split.
Qed.

Lemma unclaimed_spec (k : string) (claims : gset string) : fst (claim k claims) = true -> k ∉ claims.
Proof. unfold claim. by case_bool_decide. Qed.

(** The page limit splits ledger 7: the hold is applied, the cursor moves to 7,
    and the capture is lost, here seen after one more tick. *)
Lemma passed_events_are_lost_witness :
  (eventKey (w_raw_event Captured "a"%char 1) ∉ ls_claims w_l2) /\
  ls_cursors w_l1 !! "listener"%string = Some 7 /\
  (bi_status <$> listAll (st_intents (ls_booking w_l2))) = [confirmed].
Proof.
  split_and!; [|vm_compute; reflexivity..].
  apply (passed_events_are_lost w_parse w_opts (w_raw_event Captured "a"%char 1) w_l1 w_l2 7).
  - apply rtc_once. exists (w_client 21). split; [by apply w_client_honest|reflexivity].
  - vm_compute. reflexivity.
  - simpl. lia.
  - apply unclaimed_spec. vm_compute. reflexivity.
Defined.

Definition w_page_client (raw : Json) : LOutside :=
  {| lw_booking := w_outside 0; lw_tip := Some 20; lw_page := fun _ _ _ => Some raw;
     lw_cursorWritable := true; lw_now := 0 |}.

Lemma tick_refines_witness :
  let w := w_page_client (batch_json w_chain 20) in
  (exists r, run (lhandle w) (runEscrowListenerTick w_parse w_opts) w_l0 =
             (Ok r, tick_spec w_opts w 20 w_chain w_l0) /\
     pg_appliedEvents (tr_progress r) = pg_projectionCounts (tr_progress r) applied /\
     total_count (pg_projectionCounts (tr_progress r)) = length (settled 18 w_chain)) /\
  0 <= default 0 (ls_cursors (tick_spec w_opts w 20 w_chain w_l0) !! "listener"%string)
    <= Z.max (Z.max 0 (20 - 2)) 0.
Proof.
  apply (tick_refines w_parse w_opts (w_page_client (batch_json w_chain 20)) 20 (batch_json w_chain 20)
           w_chain 20 w_l0); first [reflexivity | simpl; lia].
Defined.

Lemma malformed_page_blocks_witness :
  run (lhandle (w_page_client JNull)) (runEscrowListenerTick w_parse w_opts) w_l0 =
  (Err (InvalidPage (EscrowEventValidationError None)), w_l0).
Proof.
  apply (malformed_page_blocks w_parse w_opts (w_page_client JNull) 20 JNull); reflexivity || (simpl; lia).
Defined.
