(* ===== verification/EscrowHoldings.v ===== *)
(** * EscrowHoldings: off-chain escrow holds

    [EscrowHoldingsService] of [services/escrowHoldingsService.ts]: one hold per
    booking intent, released to the supplier, refunded to the buyer, or disputed
    and then refunded.  [createHold], [releaseHold], [refundHold] and
    [disputeHold] contain no await, so each is one atomic event;
    [processDueHolds] takes a snapshot and awaits between two releases.  The
    random part of a hold id and the readings of the clock are chosen by the
    environment. *)
From stdpp Require Import base list strings gmap relations.
From Stdlib Require Import ZArith Lia.
From S2P Require Import Prelude JsNumber Async JsMap.
Local Open Scope Z_scope.

Inductive EscrowHoldState : Type := held | released | refunded | disputed.

#[export] Instance EscrowHoldState_eq_dec : EqDecision EscrowHoldState.
Proof. solve_decision. Defined.

(** The [action] "created" is the one that leads to the state [held]. *)
Inductive HoldAction : Type := a_created | a_released | a_refunded | a_disputed.

Record EscrowHoldAuditEntry : Type := {
  ha_action : HoldAction;
  ha_actorId : string;
  ha_atMs : Z;
  ha_reason : string;
  ha_state : EscrowHoldState
}.

Record EscrowHoldRecord : Type := {
  eh_id : string;
  eh_bookingIntentId : string;
  eh_buyerId : string;
  eh_supplierId : string;
  eh_amountCents : num;
  eh_currency : string;
  eh_slotEndTimeMs : num;
  eh_confirmationWindowMs : num;
  eh_scheduledReleaseAtMs : num;
  eh_state : EscrowHoldState;
  eh_createdAtMs : Z;
  eh_updatedAtMs : Z;
  eh_resolvedAtMs : option Z;
  eh_lastReason : string;
  eh_disputeReason : option string;
  eh_auditTrail : list EscrowHoldAuditEntry
}.

Record CreateEscrowHoldInput : Type := {
  ci_bookingIntentId : string;
  ci_amountCents : num;
  ci_currency : string;
  ci_supplierId : string;
  ci_buyerId : string;
  ci_slotEndTimeMs : num;
  ci_confirmationWindowMs : num
}.

Inductive InvalidInput : Type :=
| actorId_required | bookingIntentId_required | amountCents_positive | currency_required
| supplierId_required | hold_buyerId_required | slotEnd_nonneg | window_nonneg
| already_has_hold (bookingIntentId : string).

Inductive HoldError : Type :=
| EscrowHoldNotFoundError (holdId : string)
| EscrowHoldAlreadyResolvedError (holdId : string) (state : EscrowHoldState)
| EscrowHoldInvalidInputError (why : InvalidInput).

Record Holdings : Type := {
  hs_holds : jsmap EscrowHoldRecord;
  hs_bookingIntentIndex : gmap string string
}.

Definition no_holds : Holdings := {| hs_holds := []; hs_bookingIntentIndex := ∅ |}.

(** ** Operations *)

Definition validateActor (actorId : string) : result HoldError unit :=
  throw_if (blank actorId) (EscrowHoldInvalidInputError actorId_required).

Definition validateCreateInput (i : CreateEscrowHoldInput) : result HoldError unit :=
  let bad c why := throw_if c (EscrowHoldInvalidInputError why) in
  _ ← bad (blank (ci_bookingIntentId i)) bookingIntentId_required;
  _ ← bad (negb (is_integer (ci_amountCents i)) || leb (ci_amountCents i) zero) amountCents_positive;
  _ ← bad (blank (ci_currency i)) currency_required;
  _ ← bad (blank (ci_supplierId i)) supplierId_required;
  _ ← bad (blank (ci_buyerId i)) hold_buyerId_required;
  _ ← bad (negb (is_integer (ci_slotEndTimeMs i)) || ltb (ci_slotEndTimeMs i) zero) slotEnd_nonneg;
  bad (negb (is_integer (ci_confirmationWindowMs i)) || ltb (ci_confirmationWindowMs i) zero) window_nonneg.

Definition new_hold (id : string) (now : Z) (i : CreateEscrowHoldInput) (actorId : string)
    : EscrowHoldRecord :=
  {| eh_id := id; eh_bookingIntentId := ci_bookingIntentId i; eh_buyerId := ci_buyerId i;
     eh_supplierId := ci_supplierId i; eh_amountCents := ci_amountCents i;
     eh_currency := js_trim (ci_currency i); eh_slotEndTimeMs := ci_slotEndTimeMs i;
     eh_confirmationWindowMs := ci_confirmationWindowMs i;
     eh_scheduledReleaseAtMs := add (ci_slotEndTimeMs i) (ci_confirmationWindowMs i);
     eh_state := held; eh_createdAtMs := now; eh_updatedAtMs := now; eh_resolvedAtMs := None;
     eh_lastReason := "escrow_held"; eh_disputeReason := None;
     eh_auditTrail := [{| ha_action := a_created; ha_actorId := actorId; ha_atMs := now;
                          ha_reason := "escrow_held"; ha_state := held |}] |}.

(** [id] is [`hold-${cryptoRandomId()}`]. *)
Definition createHold (id : string) (now : Z) (i : CreateEscrowHoldInput) (actorId : string)
    : M Holdings HoldError EscrowHoldRecord :=
  _ ← of_result (validateActor actorId);
  _ ← of_result (validateCreateInput i);
  s ← get;
  _ ← guard (bool_decide (is_Some (hs_bookingIntentIndex s !! ci_bookingIntentId i)))
        (EscrowHoldInvalidInputError (already_has_hold (ci_bookingIntentId i)));
  let hold := new_hold id now i actorId in
  _ ← put {| hs_holds := map_set id hold (hs_holds s);
             hs_bookingIntentIndex := <[ci_bookingIntentId i := id]> (hs_bookingIntentIndex s) |};
  mret hold.

Definition requireHold (holdId : string) : M Holdings HoldError EscrowHoldRecord :=
  s ← get; of_option (map_get holdId (hs_holds s)) (EscrowHoldNotFoundError holdId).

(** The record [{...hold, state, updatedAtMs, lastReason, auditTrail: [..., entry]}]
    the three transitions share; [resolved] is the new [resolvedAtMs]. *)
Definition hold_transition (action : HoldAction) (state : EscrowHoldState) (resolved : option Z)
    (dispute : option string) (actorId : string) (now : Z) (reason : string) (h : EscrowHoldRecord)
    : EscrowHoldRecord :=
  {| eh_id := eh_id h; eh_bookingIntentId := eh_bookingIntentId h; eh_buyerId := eh_buyerId h;
     eh_supplierId := eh_supplierId h; eh_amountCents := eh_amountCents h;
     eh_currency := eh_currency h; eh_slotEndTimeMs := eh_slotEndTimeMs h;
     eh_confirmationWindowMs := eh_confirmationWindowMs h;
     eh_scheduledReleaseAtMs := eh_scheduledReleaseAtMs h; eh_state := state;
     eh_createdAtMs := eh_createdAtMs h; eh_updatedAtMs := now; eh_resolvedAtMs := resolved;
     eh_lastReason := reason; eh_disputeReason := dispute;
     eh_auditTrail := eh_auditTrail h ++
       [{| ha_action := action; ha_actorId := actorId; ha_atMs := now; ha_reason := reason;
           ha_state := state |}] |}.

Definition released_hold (actorId : string) (now : Z) (reason : string) (h : EscrowHoldRecord) :=
  hold_transition a_released released (Some now) (eh_disputeReason h) actorId now reason h.
Definition refunded_hold (actorId : string) (now : Z) (reason : string) (h : EscrowHoldRecord) :=
  hold_transition a_refunded refunded (Some now) (eh_disputeReason h) actorId now reason h.
Definition disputed_hold (actorId : string) (now : Z) (reason : string) (h : EscrowHoldRecord) :=
  hold_transition a_disputed disputed (eh_resolvedAtMs h) (Some reason) actorId now reason h.

Definition releaseHold (now : Z) (holdId actorId : string) (reason : option string)
    : M Holdings HoldError EscrowHoldRecord :=
  hold ← requireHold holdId;
  _ ← guard (negb (bool_decide (eh_state hold = held)))
        (EscrowHoldAlreadyResolvedError holdId (eh_state hold));
  _ ← of_result (validateActor actorId);
  let updated := released_hold actorId now (default "slot_delivery_confirmed"%string reason) hold in
  s ← get;
  _ ← put {| hs_holds := map_set holdId updated (hs_holds s);
             hs_bookingIntentIndex := delete (eh_bookingIntentId hold) (hs_bookingIntentIndex s) |};
  mret updated.

Definition refundHold (now : Z) (holdId actorId : string) (reason : option string)
    : M Holdings HoldError EscrowHoldRecord :=
  hold ← requireHold holdId;
  _ ← guard (negb (bool_decide (eh_state hold = held)) && negb (bool_decide (eh_state hold = disputed)))
        (EscrowHoldAlreadyResolvedError holdId (eh_state hold));
  _ ← of_result (validateActor actorId);
  let updated := refunded_hold actorId now (default "booking_cancelled"%string reason) hold in
  s ← get;
  _ ← put {| hs_holds := map_set holdId updated (hs_holds s);
             hs_bookingIntentIndex := delete (eh_bookingIntentId hold) (hs_bookingIntentIndex s) |};
  mret updated.

Definition disputeHold (now : Z) (holdId actorId : string) (reason : option string)
    : M Holdings HoldError EscrowHoldRecord :=
  hold ← requireHold holdId;
  _ ← guard (negb (bool_decide (eh_state hold = held)))
        (EscrowHoldAlreadyResolvedError holdId (eh_state hold));
  _ ← of_result (validateActor actorId);
  let updated := disputed_hold actorId now (default "delivery_dispute"%string reason) hold in
  s ← get;
  _ ← put {| hs_holds := map_set holdId updated (hs_holds s);
             hs_bookingIntentIndex := hs_bookingIntentIndex s |};
  mret updated.

Definition is_due (nowMs : num) (h : EscrowHoldRecord) : bool :=
  bool_decide (eh_state h = held) && leb (eh_scheduledReleaseAtMs h) nowMs.

Definition due_holds (nowMs : num) (s : Holdings) : list EscrowHoldRecord :=
  List.filter (is_due nowMs) (map_values (hs_holds s)).

Definition getHold (holdId : string) (s : Holdings) : option EscrowHoldRecord :=
  map_get holdId (hs_holds s).

(** [if (!holdId) return undefined]. *)
Definition getHoldByBookingIntent (bookingIntentId : string) (s : Holdings) : option EscrowHoldRecord :=
  match hs_bookingIntentIndex s !! bookingIntentId with
  | Some holdId => if str_truthy holdId then getHold holdId s else None
  | None => None
  end.

(** ** The service as programs: one event per section without an await *)

Inductive HoldEv : Type -> Type :=
| Create (i : CreateEscrowHoldInput) (actorId : string) : HoldEv (result HoldError EscrowHoldRecord)
| Release (holdId actorId : string) (reason : option string) : HoldEv (result HoldError EscrowHoldRecord)
| Refund (holdId actorId : string) (reason : option string) : HoldEv (result HoldError EscrowHoldRecord)
| Dispute (holdId actorId : string) (reason : option string) : HoldEv (result HoldError EscrowHoldRecord)
| DueHolds (nowMs : num) : HoldEv (list EscrowHoldRecord).

Abbreviation HProg := (Prog HoldEv HoldError).

Definition call {A} (ev : HoldEv (result HoldError A)) : HProg A :=
  r ← perform ev; lift_result id r.

Fixpoint release_all (actorId : string) (due : list EscrowHoldRecord) : HProg (list EscrowHoldRecord) :=
  match due with
  | [] => mret []
  | hold :: rest =>
      h ← call (Release (eh_id hold) actorId (Some "scheduled_release_after_confirmation_window"%string));
      hs ← release_all actorId rest;
      mret (h :: hs)
  end.

(** [nowMs] and [actorId] are the arguments, or [Date.now()] and "system". *)
Definition processDueHolds (nowMs : num) (actorId : string) : HProg (list EscrowHoldRecord) :=
  due ← perform (DueHolds nowMs);
  release_all actorId due.

(** One event with the environment's choices: the reading of the clock and the new id. *)
Definition do_event (id : string) (now : Z) {X} (ev : HoldEv X) (s : Holdings) : X * Holdings :=
  match ev in HoldEv X return X * Holdings with
  | Create i a => createHold id now i a s
  | Release h a r => releaseHold now h a r s
  | Refund h a r => refundHold now h a r s
  | Dispute h a r => disputeHold now h a r s
  | DueHolds nowMs => (due_holds nowMs s, s)
  end.

(** The twelve random characters of an id are new: the code relies on it (it
    never checks). *)
Definition exec_event (X : Type) (ev : HoldEv X) (s : Holdings) (x : X) (s' : Holdings) : Prop :=
  exists id now, map_get id (hs_holds s) = None /\ id <> ""%string /\ do_event id now ev s = (x, s').

Inductive hold_request : HProg unit -> Prop :=
| req_call A (ev : HoldEv (result HoldError A)) : hold_request (forget (call ev))
| req_due nowMs actorId : hold_request (forget (processDueHolds nowMs actorId)).

(** ** Invariant

    An open hold is one whose money is still in escrow. *)
Definition is_open (h : EscrowHoldRecord) : bool :=
  bool_decide (eh_state h = held) || bool_decide (eh_state h = disputed).

(** The states a hold in a given state went through. *)
Definition paths (s : EscrowHoldState) : list (list EscrowHoldState) :=
  match s with
  | held => [[held]]
  | released => [[held; released]]
  | disputed => [[held; disputed]]
  | refunded => [[held; refunded]; [held; disputed; refunded]]
  end.

Definition hold_ok (h : EscrowHoldRecord) : Prop :=
  map ha_state (eh_auditTrail h) ∈ paths (eh_state h) /\
  is_integer (eh_amountCents h) = true /\ ltb zero (eh_amountCents h) = true /\
  eh_scheduledReleaseAtMs h = add (eh_slotEndTimeMs h) (eh_confirmationWindowMs h) /\
  (eh_resolvedAtMs h = None <-> is_open h = true).

(** Holds are stored under their id, and the index lists exactly the open holds. *)
Definition consistent (s : Holdings) : Prop :=
  NoDup (map_keys (hs_holds s)) /\
  (forall id h, getHold id s = Some h -> eh_id h = id /\ id <> ""%string /\ hold_ok h) /\
  (forall b id, hs_bookingIntentIndex s !! b = Some id <->
     exists h, getHold id s = Some h /\ eh_bookingIntentId h = b /\ is_open h = true).

(** The transitions of a hold. *)
Inductive hold_step (h : EscrowHoldRecord) : EscrowHoldRecord -> Prop :=
| step_release a now r : eh_state h = held -> hold_step h (released_hold a now r h)
| step_refund a now r : is_open h = true -> hold_step h (refunded_hold a now r h)
| step_dispute a now r : eh_state h = held -> hold_step h (disputed_hold a now r h).

(** The state with [h'] in the place of the hold [id]. *)
Definition with_hold (id : string) (h' : EscrowHoldRecord) (s : Holdings) : Holdings :=
  {| hs_holds := map_set id h' (hs_holds s);
     hs_bookingIntentIndex :=
       if is_open h' then hs_bookingIntentIndex s
       else delete (eh_bookingIntentId h') (hs_bookingIntentIndex s) |}.

(** What one operation does: a hold appears, a hold makes a transition, or nothing. *)
Inductive op_effect (id : string) (now : Z) (s : Holdings) : Holdings -> Prop :=
| eff_none : op_effect id now s s
| eff_create i a :
    validateCreateInput i = Ok tt -> hs_bookingIntentIndex s !! ci_bookingIntentId i = None ->
    op_effect id now s {| hs_holds := map_set id (new_hold id now i a) (hs_holds s);
                          hs_bookingIntentIndex := <[ci_bookingIntentId i := id]> (hs_bookingIntentIndex s) |}
| eff_step k h h' :
    getHold k s = Some h -> hold_step h h' -> op_effect id now s (with_hold k h' s).

Lemma requireHold_eq id s :
  requireHold id s = (from_option_or (getHold id s) (EscrowHoldNotFoundError id), s).
Proof. done. Qed.

(** The three transitions, branch by branch. *)
Lemma releaseHold_eq now id a r s :
  releaseHold now id a r s =
  match getHold id s with
  | None => (Err (EscrowHoldNotFoundError id), s)
  | Some h =>
      if bool_decide (eh_state h = held) then
        if blank a then (Err (EscrowHoldInvalidInputError actorId_required), s)
        else let h' := released_hold a now (default "slot_delivery_confirmed"%string r) h in
             (Ok h', with_hold id h' s)
      else (Err (EscrowHoldAlreadyResolvedError id (eh_state h)), s)
  end.
Proof.
  unfold releaseHold, mbind, M_bind. rewrite requireHold_eq. destruct (getHold id s) as [h|]; [|done].
  simpl. unfold guard, validateActor. destruct (bool_decide (eh_state h = held)); [|done].
  simpl. by destruct (blank a).
Qed.

Lemma refundHold_eq now id a r s :
  refundHold now id a r s =
  match getHold id s with
  | None => (Err (EscrowHoldNotFoundError id), s)
  | Some h =>
      if is_open h then
        if blank a then (Err (EscrowHoldInvalidInputError actorId_required), s)
        else let h' := refunded_hold a now (default "booking_cancelled"%string r) h in
             (Ok h', with_hold id h' s)
      else (Err (EscrowHoldAlreadyResolvedError id (eh_state h)), s)
  end.
Proof.
  unfold refundHold, mbind, M_bind. rewrite requireHold_eq. destruct (getHold id s) as [h|]; [|done].
  simpl. unfold guard, validateActor, is_open. rewrite <- negb_orb.
  destruct (bool_decide (eh_state h = held) || bool_decide (eh_state h = disputed)); [|done].
  simpl. by destruct (blank a).
Qed.

Lemma disputeHold_eq now id a r s :
  disputeHold now id a r s =
  match getHold id s with
  | None => (Err (EscrowHoldNotFoundError id), s)
  | Some h =>
      if bool_decide (eh_state h = held) then
        if blank a then (Err (EscrowHoldInvalidInputError actorId_required), s)
        else let h' := disputed_hold a now (default "delivery_dispute"%string r) h in
             (Ok h', with_hold id h' s)
      else (Err (EscrowHoldAlreadyResolvedError id (eh_state h)), s)
  end.
Proof.
  unfold disputeHold, mbind, M_bind. rewrite requireHold_eq. destruct (getHold id s) as [h|]; [|done].
  simpl. unfold guard, validateActor. destruct (bool_decide (eh_state h = held)); [|done].
  simpl. by destruct (blank a).
Qed.

Lemma createHold_effect id now i a s : op_effect id now s (snd (createHold id now i a s)).
Proof.
  unfold createHold, mbind, M_bind, of_result, validateActor. destruct (blank a); simpl; [constructor|].
  destruct (validateCreateInput i) as [[]|] eqn:Ev; simpl; [|constructor].
  unfold guard. case_bool_decide as Hi; [constructor|]. simpl. constructor; [done|].
  destruct (hs_bookingIntentIndex s !! ci_bookingIntentId i) eqn:E; [|done]. destruct Hi. eauto.
Qed.

Lemma event_effect id now X (ev : HoldEv X) s : op_effect id now s (snd (do_event id now ev s)).
Proof.
  destruct ev as [i a|k a r|k a r|k a r|nowMs]; cbn [do_event].
  - apply createHold_effect.
  - rewrite releaseHold_eq. destruct (getHold k s) as [h|] eqn:E; [|constructor].
    case_bool_decide; [|constructor]. destruct (blank a); [constructor|].
    simpl. by eapply eff_step, step_release.
  - rewrite refundHold_eq. destruct (getHold k s) as [h|] eqn:E; [|constructor].
    destruct (is_open h) eqn:Eo; [|constructor]. destruct (blank a); [constructor|].
    simpl. by eapply eff_step, step_refund.
  - rewrite disputeHold_eq. destruct (getHold k s) as [h|] eqn:E; [|constructor].
    case_bool_decide; [|constructor]. destruct (blank a); [constructor|].
    simpl. by eapply eff_step, step_dispute.
  - constructor.
Qed.

(** ** Preservation *)

Lemma getHold_with_hold id k h s :
  getHold id (with_hold k h s) = if bool_decide (id = k) then Some h else getHold id s.
Proof. apply map_get_set. Qed.

Lemma is_open_held h : eh_state h = held -> is_open h = true.
Proof. unfold is_open. by intros ->. Qed.

Lemma hold_step_open h h' : hold_step h h' -> is_open h = true.
Proof. destruct 1; [by apply is_open_held|done|by apply is_open_held]. Qed.

Lemma is_open_state h : is_open h = true <-> eh_state h = held \/ eh_state h = disputed.
Proof. unfold is_open. rewrite orb_true_iff, !bool_decide_eq_true. done. Qed.

Lemma hold_step_ok h h' : hold_step h h' -> hold_ok h -> hold_ok h'.
Proof.
  intros Hs (Hp & Hi & Hz & Hd & Hr). pose proof (hold_step_open _ _ Hs) as Ho.
  assert (eh_resolvedAtMs h = None) as Hn by (by apply Hr).
  destruct Hs as [a now r Hst|a now r Hst|a now r Hst]; (split; [|split_and!; try done]); simpl.
  - rewrite Hst in Hp. apply list_elem_of_singleton in Hp. rewrite map_app, Hp. simpl. set_solver.
  - apply is_open_state in Ho. rewrite map_app.
    destruct Ho as [E|E]; rewrite E in Hp; apply list_elem_of_singleton in Hp; rewrite Hp; simpl; set_solver.
  - rewrite Hst in Hp. apply list_elem_of_singleton in Hp. rewrite map_app, Hp. simpl. set_solver.
Qed.

Lemma hold_step_id h h' :
  hold_step h h' -> eh_id h' = eh_id h /\ eh_bookingIntentId h' = eh_bookingIntentId h.
Proof. by destruct 1. Qed.

Lemma with_hold_consistent k h h' s :
  getHold k s = Some h -> hold_step h h' -> consistent s -> consistent (with_hold k h' s).
Proof.
  intros Hg Hs (Hnd & Hok & Hix). destruct (hold_step_id _ _ Hs) as [Hid Hb].
  destruct (Hok _ _ Hg) as (Hk & Hne & Hh).
  split; [by apply map_set_nodup|]. split.
  - intros id x. rewrite getHold_with_hold. case_bool_decide as E; [|by apply Hok].
    intros [= <-]. subst id. split; [congruence|]. split; [done|]. by eapply hold_step_ok.
  - intros b id. setoid_rewrite getHold_with_hold.
    pose proof (Hix (eh_bookingIntentId h) k) as [_ Hki].
    specialize (Hki ltac:(exists h; split_and!; try done; by eapply hold_step_open)).
    simpl. destruct (is_open h') eqn:Eo.
    + rewrite (Hix b id). case_bool_decide as E; [subst id|done]. split.
      * intros (x & Hx & Hxb & _). assert (x = h) as -> by congruence. exists h'. split_and!; [done|congruence|done].
      * intros (x & [= <-] & Hxb & _). exists h. split_and!; [done|congruence|by eapply hold_step_open].
    + rewrite lookup_delete_Some, (Hix b id). rewrite Hb. case_bool_decide as E.
      * subst id. split; [|intros (x & [= <-] & _ & ?); congruence].
        intros [Hne' (x & Hx & Hxb & _)]. congruence.
      * split; [by intros [_ ?]|]. intros (x & Hx & Hxb & Hxo). split; [|eauto].
        intros Hbb. assert (hs_bookingIntentIndex s !! b = Some id) as Hi by (apply Hix; eauto).
        congruence.
Qed.

Lemma validated_amount i :
  validateCreateInput i = Ok tt ->
  is_integer (ci_amountCents i) = true /\ ltb zero (ci_amountCents i) = true.
Proof.
  intros H. unfold validateCreateInput in H. inv_ok.
  repeat match goal with H : _ || _ = false |- _ => apply orb_false_iff in H as [? ?] end.
  match goal with H : negb (is_integer (ci_amountCents i)) = false |- _ => apply negb_false_iff in H as Hint end.
  split; [done|]. destruct (ci_amountCents i) as [x| | |]; try done.
  match goal with H : leb (Fin x) zero = false |- _ => unfold zero in H; rewrite leb_fin in H; simpl in * end.
  apply Z.ltb_lt. lia.
Qed.

Lemma create_consistent id now i a s :
  getHold id s = None -> id <> ""%string -> validateCreateInput i = Ok tt ->
  hs_bookingIntentIndex s !! ci_bookingIntentId i = None -> consistent s ->
  consistent {| hs_holds := map_set id (new_hold id now i a) (hs_holds s);
                hs_bookingIntentIndex := <[ci_bookingIntentId i := id]> (hs_bookingIntentIndex s) |}.
Proof.
  intros Hg Hne Hv Hi (Hnd & Hok & Hix). split; [by apply map_set_nodup|]. unfold getHold. simpl. split.
  - intros k x. rewrite map_get_set. case_bool_decide as E; [|by apply Hok]. intros [= <-].
    split; [done|]. split; [congruence|]. destruct (validated_amount i Hv). split_and!; try done. simpl. set_solver.
  - intros b k. setoid_rewrite map_get_set. rewrite lookup_insert_Some, (Hix b k). split.
    + intros [[<- <-]|[Hb (x & Hx & ?)]].
      * rewrite bool_decide_eq_true_2 by done. by exists (new_hold id now i a).
      * rewrite bool_decide_eq_false_2; [eauto|]. intros ->. congruence.
    + case_bool_decide as E; [subst k|].
      * intros (x & [= <-] & <- & _). by left.
      * intros (x & Hx & Hxb & Ho). right. split; [|eauto]. intros Hb.
        assert (hs_bookingIntentIndex s !! b = Some k) by (apply Hix; eauto). congruence.
Qed.

(** ** History

    Holds are never dropped and only make transitions. *)
Definition evolves (s s' : Holdings) : Prop :=
  forall id h, getHold id s = Some h -> exists h', getHold id s' = Some h' /\ rtc hold_step h h'.

(** From a consistent state only consistent states are reached, by transitions. *)
Definition sound_step (s s' : Holdings) : Prop := consistent s -> consistent s' /\ evolves s s'.

#[export] Instance evolves_preorder : PreOrder evolves.
Proof.
  split.
  - intros s id h Hg. by exists h.
  - intros s1 s2 s3 H12 H23 id h (h2 & Hg2 & Hr2)%H12.
    destruct (H23 _ _ Hg2) as (h3 & Hg3 & Hr3). exists h3. split; [done|by etrans].
Qed.

#[export] Instance sound_step_preorder : PreOrder sound_step.
Proof.
  split; [by intros s Hc|]. intros s1 s2 s3 H12 H23 [Hc2 He2]%H12.
  destruct (H23 Hc2) as [Hc3 He3]. split; [done|by etrans].
Qed.

Lemma op_effect_sound id now s s' :
  getHold id s = None -> id <> ""%string -> op_effect id now s s' -> sound_step s s'.
Proof.
  intros Hf Hne He. destruct He as [|i a Hv Hi|k h h' Hg Hs]; [done| |]; intros Hc.
  - split; [by apply create_consistent|]. intros k x Hx. exists x. split; [|done].
    unfold getHold. simpl. rewrite map_get_set_ne; [done|]. intros ->. unfold getHold in *. congruence.
  - split; [by eapply with_hold_consistent|]. intros k' x Hx. rewrite getHold_with_hold.
    case_bool_decide; [|by exists x]. subst k'. exists h'. split; [done|].
    apply rtc_once. congruence.
Qed.

Lemma steps_sound c c' :
  rtc (step exec_event hold_request) c c' -> sound_step (cf_state c) (cf_state c').
Proof.
  assert (forall A (p : HProg A), all_events (fun _ _ => True) p) as Htriv.
  { intros A p. induction p; simpl; auto. }
  intros Hr. eapply (steps_preserve exec_event hold_request (fun _ _ => True) sound_step); [|by auto|exact Hr|by apply Forall_true].
  intros X ev s x s' _ (id & now & Hf & Hne & He).
  apply (op_effect_sound id now); [done..|]. pose proof (event_effect id now X ev s) as H. by rewrite He in H.
Qed.

(** What a hold is about never changes. *)
Definition hold_terms (h : EscrowHoldRecord) :=
  (eh_id h, eh_bookingIntentId h, eh_buyerId h, eh_supplierId h, eh_amountCents h, eh_currency h,
   eh_slotEndTimeMs h, eh_confirmationWindowMs h, eh_scheduledReleaseAtMs h, eh_createdAtMs h).

Lemma hold_steps_keep h h' :
  rtc hold_step h h' -> hold_terms h' = hold_terms h /\ eh_auditTrail h `prefix_of` eh_auditTrail h'.
Proof.
  induction 1 as [h|h1 h2 h3 Hs _ [Ht Hp]]; [done|].
  destruct Hs; (split; [exact Ht|]); (etrans; [|exact Hp]); by eexists.
Qed.

Lemma resolved_stays h h' : is_open h = false -> rtc hold_step h h' -> h' = h.
Proof. intros Ho. destruct 1 as [|h h2 h3 Hs _]; [done|]. apply hold_step_open in Hs. congruence. Qed.

Lemma disputed_stays h h' :
  eh_state h = disputed -> rtc hold_step h h' -> h' = h \/ eh_state h' = refunded.
Proof.
  intros Hd. destruct 1 as [|h h2 h3 Hs Hr]; [by left|]. right.
  destruct Hs as [a now r Hst|a now r Hst|a now r Hst]; [congruence| |congruence].
  by apply resolved_stays in Hr as ->.
Qed.

Definition hold_init : Config HoldEv HoldError Holdings := {| cf_state := no_holds; cf_pool := [] |}.

Lemma no_holds_consistent : consistent no_holds.
Proof.
  split; [constructor|]. split; [done|]. intros b id. simpl. rewrite lookup_empty.
  split; [done|]. by intros (h & Hh & _).
Qed.

(** (C24) Whatever requests are interleaved, a booking intent has at most one
    open hold and the lookup by booking intent finds exactly that one; the money
    of a hold leaves escrow at most once (its audit trail is one of the five legal paths, with
    a positive integer amount), and the scheduled release is the end of the slot
    plus the confirmation window. *)
Theorem one_open_hold c :
  rtc (step exec_event hold_request) hold_init c ->
  let s := cf_state c in
  (forall b h, getHoldByBookingIntent b s = Some h <->
     getHold (eh_id h) s = Some h /\ eh_bookingIntentId h = b /\ is_open h = true) /\
  (forall id1 id2 h1 h2, getHold id1 s = Some h1 -> getHold id2 s = Some h2 ->
     eh_bookingIntentId h1 = eh_bookingIntentId h2 -> is_open h1 = true -> is_open h2 = true -> id1 = id2) /\
  (forall id h, getHold id s = Some h -> hold_ok h).
Proof.
  intros Hr s. destruct (steps_sound _ _ Hr no_holds_consistent) as [(Hnd & Hok & Hix) _]. fold s in Hnd, Hok, Hix.
  split; [|split].
  - intros b h. unfold getHoldByBookingIntent. split.
    + destruct (hs_bookingIntentIndex s !! b) as [k|] eqn:E; [|done].
      apply Hix in E as (x & Hx & Hxb & Hxo). destruct (str_truthy k); [|done].
      rewrite Hx. intros [= <-]. destruct (Hok _ _ Hx) as (-> & _ & _). done.
    + intros (Hg & Hb & Ho). destruct (Hok _ _ Hg) as (_ & Hne & _).
      assert (hs_bookingIntentIndex s !! b = Some (eh_id h)) as -> by (apply Hix; eauto).
      unfold str_truthy. by destruct (eh_id h).
  - intros id1 id2 h1 h2 H1 H2 Hb Ho1 Ho2.
    assert (hs_bookingIntentIndex s !! eh_bookingIntentId h1 = Some id1) by (apply Hix; eauto).
    assert (hs_bookingIntentIndex s !! eh_bookingIntentId h1 = Some id2) by (apply Hix; eauto). congruence.
  - intros id h Hg. by apply (Hok _ _ Hg).
Qed.

(** Over any further execution a hold keeps its parties, amount and
    schedule and its audit trail only grows; a released or refunded hold never
    changes again, and a disputed hold can only be refunded: no request, and not
    the scheduled release either, pays a disputed hold out to the supplier. *)
Theorem hold_history c c' id h :
  rtc (step exec_event hold_request) hold_init c ->
  rtc (step exec_event hold_request) c c' ->
  getHold id (cf_state c) = Some h ->
  exists h', getHold id (cf_state c') = Some h' /\
    hold_terms h' = hold_terms h /\ eh_auditTrail h `prefix_of` eh_auditTrail h' /\
    match eh_state h with
    | held => True
    | disputed => h' = h \/ eh_state h' = refunded
    | released | refunded => h' = h
    end.
Proof.
  intros H0 Hr Hg. destruct (steps_sound _ _ H0 no_holds_consistent) as [Hc _].
  destruct (steps_sound _ _ Hr Hc) as [_ He]. destruct (He _ _ Hg) as (h' & Hg' & Hs).
  exists h'. split; [done|]. destruct (hold_steps_keep _ _ Hs). split_and!; [done..|].
  destruct (eh_state h) eqn:Est; [done| | |by apply disputed_stays];
    (apply resolved_stays; [|done]; unfold is_open; by rewrite Est).
Qed.

(** ** The scheduled release *)

Definition scheduled_reason : string := "scheduled_release_after_confirmation_window".

(** The service alone, at a fixed reading of the clock. *)
Definition alone (now : Z) : forall X, HoldEv X -> Holdings -> X * Holdings :=
  fun X ev s => do_event "hold-unused" now ev s.

Definition release_each (rel : EscrowHoldRecord -> EscrowHoldRecord) (l : list EscrowHoldRecord) (s : Holdings)
    : Holdings :=
  fold_left (fun s h => with_hold (eh_id h) (rel h) s) l s.

Lemma run_call now {A} (ev : HoldEv (result HoldError A)) s :
  run (alone now) (call ev) s = do_event "hold-unused" now ev s.
Proof.
  unfold call. rewrite run_bind, run_perform, run_lift. unfold alone.
  by destruct (do_event _ now ev s) as [[x|e] s'].
Qed.

Lemma run_release_all now actor l s :
  blank actor = false -> NoDup (map eh_id l) ->
  (forall h, h ∈ l -> getHold (eh_id h) s = Some h /\ eh_state h = held) ->
  let rel := released_hold actor now scheduled_reason in
  run (alone now) (release_all actor l) s = (Ok (map rel l), release_each rel l s).
Proof.
  intros Ha Hnd Hl rel. revert s Hl. induction l as [|h l IH]; intros s Hl; [done|].
  simpl in Hnd. apply NoDup_cons in Hnd as [Hn Hnd].
  destruct (Hl h ltac:(by constructor)) as [Hg Hst].
  cbn [release_all]. rewrite run_bind, run_call. cbn [do_event].
  rewrite releaseHold_eq, Hg, bool_decide_eq_true_2, Ha by done. cbv beta iota zeta.
  rewrite run_bind, (IH Hnd); [done|]. intros x Hx. destruct (Hl x ltac:(by constructor)) as [Hgx Hsx].
  split; [|done]. rewrite getHold_with_hold, bool_decide_eq_false_2; [done|]. intros E. apply Hn.
  rewrite <- E. apply list_elem_of_fmap. eauto.
Qed.

Lemma getHold_release_each rel l s id :
  getHold id (release_each rel l s) =
  match find_first (fun h => bool_decide (eh_id h = id)) (reverse l) with
  | Some h => Some (rel h)
  | None => getHold id s
  end.
Proof.
  revert s. induction l as [|h l IH]; intros s; [done|]. simpl. rewrite IH, reverse_cons, find_first_app.
  destruct (find_first _ (reverse l)) as [x|]; [done|]. rewrite getHold_with_hold. simpl.
  repeat case_bool_decide; congruence.
Qed.

Lemma values_ids s : consistent s -> map eh_id (map_values (hs_holds s)) = map_keys (hs_holds s).
Proof.
  intros (Hnd & Hok & _). unfold map_values, map_keys. rewrite map_map. apply map_ext_in.
  intros [k h] Hin%list_elem_of_In. by apply (Hok k h), elem_map_get.
Qed.

Lemma due_hold_spec nowMs s h :
  consistent s -> h ∈ due_holds nowMs s <-> getHold (eh_id h) s = Some h /\ is_due nowMs h = true.
Proof.
  intros (Hnd & Hok & _). unfold due_holds. rewrite list_elem_of_In, filter_In, <- list_elem_of_In.
  unfold map_values. rewrite list_elem_of_fmap. split.
  - intros [([k x] & -> & Hin) Hd]. simpl in *. split; [|done].
    pose proof (elem_map_get _ _ _ Hnd Hin) as Hg. by rewrite (proj1 (Hok _ _ Hg)).
  - intros [Hg Hd]. split; [|done]. exists (eh_id h, h). split; [done|]. by apply map_get_elem.
Qed.

Lemma due_ids_nodup nowMs s : consistent s -> NoDup (map eh_id (due_holds nowMs s)).
Proof.
  intros Hc. pose proof (values_ids s Hc) as E. destruct Hc as (Hnd & _ & _). rewrite <- E in Hnd.
  unfold due_holds. revert Hnd. generalize (map_values (hs_holds s)). intros l.
  induction l as [|h l IH]; simpl; [done|]. intros [Hn Hnd]%NoDup_cons.
  destruct (is_due nowMs h); simpl; [|by apply IH]. apply NoDup_cons. split; [|by apply IH].
  intros Hin. apply Hn. apply list_elem_of_fmap in Hin as (x & Hx & Hin). rewrite Hx.
  apply list_elem_of_fmap. exists x. split; [done|].
  apply list_elem_of_In, filter_In in Hin as [Hin _]. by apply list_elem_of_In.
Qed.

Lemma release_each_nodup rel l s :
  NoDup (map_keys (hs_holds s)) -> NoDup (map_keys (hs_holds (release_each rel l s))).
Proof. revert s. induction l as [|h l IH]; intros s Hnd; [done|]. apply IH. by apply map_set_nodup. Qed.

Lemma run_processDueHolds nowMs actor now s :
  consistent s -> blank actor = false ->
  let rel := released_hold actor now scheduled_reason in
  run (alone now) (processDueHolds nowMs actor) s =
  (Ok (map rel (due_holds nowMs s)), release_each rel (due_holds nowMs s) s).
Proof.
  intros Hc Ha rel. unfold processDueHolds. rewrite run_bind, run_perform. cbn [alone do_event fst snd].
  apply run_release_all; [done|by apply due_ids_nodup|]. intros h [Hg Hd]%due_hold_spec; [|done].
  split; [done|]. unfold is_due in Hd. apply andb_true_iff in Hd as [Hd _]. by apply bool_decide_eq_true in Hd.
Qed.

Lemma getHold_due_released rel nowMs s id :
  consistent s ->
  getHold id (release_each rel (due_holds nowMs s) s) =
  (fun h => if is_due nowMs h then rel h else h) <$> getHold id s.
Proof.
  intros Hc. rewrite getHold_release_each. destruct (find_first _ _) as [x|] eqn:Ef.
  - apply find_first_Some in Ef as [Ex%bool_decide_eq_true Hin]. rewrite elem_of_reverse in Hin.
    apply due_hold_spec in Hin as [Hg Hd]; [|done]. rewrite <- Ex, Hg. simpl. by rewrite Hd.
  - destruct (getHold id s) as [h|] eqn:Eg; [|done]. simpl. destruct (is_due nowMs h) eqn:Ed; [|done].
    destruct Hc as (Hnd & Hok & Hix) eqn:Ec. destruct (Hok _ _ Eg) as (Eid & _ & _). exfalso.
    assert (bool_decide (eh_id h = id) = false) as Hn%bool_decide_eq_false; [|done].
    apply (proj1 (find_first_None _ _) Ef h). rewrite elem_of_reverse. apply due_hold_spec; [done|].
    split; [congruence|done].
Qed.

(** A scheduled release that runs alone, from any reachable state, does
    not fail: it releases exactly the holds whose confirmation window has ended
    and that are neither resolved nor disputed, reports them in the order they
    were created, leaves all other holds as they are, and afterwards nothing is due. *)
Theorem processDueHolds_correct c nowMs actor now :
  rtc (step exec_event hold_request) hold_init c -> blank actor = false ->
  let s := cf_state c in
  let rel := released_hold actor now scheduled_reason in
  let out := run (alone now) (processDueHolds nowMs actor) s in
  fst out = Ok (map rel (due_holds nowMs s)) /\
  (forall id, getHold id (snd out) =
     (fun h => if is_due nowMs h then rel h else h) <$> getHold id s) /\
  due_holds nowMs (snd out) = [].
Proof.
  intros Hr Ha s rel out. destruct (steps_sound _ _ Hr no_holds_consistent) as [Hc _]. fold s in Hc.
  assert (out = _) as -> by (by apply run_processDueHolds). cbn [fst snd]. fold rel.
  split; [done|]. split; [intros id; by apply getHold_due_released|].
  unfold due_holds at 1. apply find_first_filter, find_first_None. intros h Hin.
  unfold map_values in Hin. apply list_elem_of_fmap in Hin as ([k x] & -> & Hin).
  apply elem_map_get in Hin; [|by apply release_each_nodup, Hc].
  change (getHold k (release_each rel (due_holds nowMs s) s) = Some x) in Hin.
  rewrite getHold_due_released in Hin by done. destruct (getHold k s) as [h0|]; [|done].
  injection Hin as <-. simpl. by destruct (is_due nowMs h0) eqn:E.
Qed.

(** ** Executions *)

Definition hold_handle (o : string * Z) (X : Type) (ev : HoldEv X) (s : Holdings) : X * Holdings :=
  do_event o.1 o.2 ev s.

Lemma advance_ok c n id now :
  getHold id (cf_state c) = None -> id <> ""%string ->
  rtc (step exec_event hold_request) c (advance hold_handle c (n, (id, now))).
Proof.
  intros Hf Hne. apply advance_steps. intros X ev. exists id, now. split_and!; [done..|].
  unfold hold_handle. simpl. by destruct (do_event id now ev (cf_state c)).
Qed.

(** One request admitted and its first section run. *)
Definition serve (c : Config HoldEv HoldError Holdings) (p : HProg unit) (id : string) (now : Z)
    : Config HoldEv HoldError Holdings :=
  advance hold_handle {| cf_state := cf_state c; cf_pool := cf_pool c ++ [p] |} (length (cf_pool c), (id, now)).

Lemma serve_steps c p id now :
  hold_request p -> getHold id (cf_state c) = None -> id <> ""%string ->
  rtc (step exec_event hold_request) c (serve c p id now).
Proof.
  intros Hp Hf Hne. destruct c as [s pool]. eapply rtc_l; [by apply step_admit|]. by apply advance_ok.
Qed.

Definition w_input (b : string) (end_ : Z) : CreateEscrowHoldInput :=
  {| ci_bookingIntentId := b; ci_amountCents := of_Z 5000; ci_currency := " USD "; ci_supplierId := "sam";
     ci_buyerId := "bea"; ci_slotEndTimeMs := of_Z end_; ci_confirmationWindowMs := of_Z 100 |}.

(** Two holds, due at 1100 and 1200. *)
Definition w_c2 : Config HoldEv HoldError Holdings :=
  let c1 := serve hold_init (forget (call (Create (w_input "b1" 1000) "bea"))) "hold-1" 10 in
  serve c1 (forget (call (Create (w_input "b2" 1100) "bea"))) "hold-2" 20.

Lemma w_c2_reachable : rtc (step exec_event hold_request) hold_init w_c2.
Proof.
  etrans; [apply (serve_steps _ (forget (call (Create (w_input "b1" 1000) "bea"))) "hold-1" 10)|apply serve_steps];
    try (by vm_compute); apply req_call.
Qed.

(** The first hold is disputed. *)
Definition w_c3 : Config HoldEv HoldError Holdings :=
  serve w_c2 (forget (call (Dispute "hold-1" "bea" None))) "hold-9" 30.

Lemma w_c3_steps : rtc (step exec_event hold_request) w_c2 w_c3.
Proof. apply serve_steps; [apply req_call|by vm_compute..]. Qed.

(** The scheduled release takes its snapshot of both holds; the first is refunded
    before its turn. *)
Definition w_raced : Config HoldEv HoldError Holdings :=
  let c3 := serve w_c2 (forget (processDueHolds (of_Z 5000) "system")) "hold-9" 5000 in
  let c4 := serve c3 (forget (call (Refund "hold-1" "ops" None))) "hold-9" 5001 in
  advance hold_handle c4 (2%nat, ("hold-9"%string, 5002)).

Lemma w_raced_reachable : rtc (step exec_event hold_request) hold_init w_raced.
Proof.
  etrans; [exact w_c2_reachable|]. unfold w_raced.
  etrans; [|apply advance_ok; by vm_compute].
  etrans; [apply (serve_steps _ (forget (processDueHolds (of_Z 5000) "system")) "hold-9" 5000)|apply serve_steps];
    try (by vm_compute); constructor.
Qed.

(** A refund that arrives between the snapshot of a scheduled release and
    the turn of the refunded hold makes the whole run reject: the holds that
    come after it are due but stay held until a later run. *)
Theorem due_run_aborted :
  exists c id h,
    rtc (step exec_event hold_request) hold_init c /\
    cf_pool c !! 2%nat = Some (Thr (EscrowHoldAlreadyResolvedError "hold-1" refunded)) /\
    getHold id (cf_state c) = Some h /\ is_due (of_Z 5000) h = true.
Proof.
  exists w_raced, "hold-2"%string, (new_hold "hold-2" 20 (w_input "b2" 1100) "bea").
  split; [exact w_raced_reachable|]. split_and!; by vm_compute.
Qed.

Lemma one_open_hold_witness :
  getHoldByBookingIntent "b1" (cf_state w_c3) <> None /\
  forall id h, getHold id (cf_state w_c3) = Some h -> hold_ok h.
Proof.
  split; [by vm_compute|]. apply (one_open_hold w_c3). etrans; [exact w_c2_reachable|exact w_c3_steps].
Defined.

Lemma hold_history_witness :
  exists h', getHold "hold-1" (cf_state w_c3) = Some h' /\
    eh_auditTrail (new_hold "hold-1" 10 (w_input "b1" 1000) "bea") `prefix_of` eh_auditTrail h'.
Proof.
  destruct (hold_history w_c2 w_c3 "hold-1" (new_hold "hold-1" 10 (w_input "b1" 1000) "bea")
              w_c2_reachable w_c3_steps ltac:(by vm_compute)) as (h' & Hg & _ & Hp & _).
  exact (ex_intro _ h' (conj Hg Hp)).
Defined.

Lemma processDueHolds_correct_witness :
  length (due_holds (of_Z 5000) (cf_state w_c3)) = 1%nat /\
  due_holds (of_Z 5000) (snd (run (alone 5000) (processDueHolds (of_Z 5000) "system") (cf_state w_c3))) = [].
Proof.
  split; [by vm_compute|].
  apply (processDueHolds_correct w_c3 (of_Z 5000) "system" 5000);
    [etrans; [exact w_c2_reachable|exact w_c3_steps]|by vm_compute].
Defined.
