(* ===== verification/PartialRelease.v ===== *)
(** * PartialRelease: milestone releases of a hold

    [EscrowPartialReleaseService] of [services/escrowPartialRelease.ts].  The
    body of [releasePartial] is synchronous once its turn in the mutation queue
    has come ([_doRelease]), so every operation is a function on the map of
    bookings; the queue fixes the order of the releases and decides nothing
    else.  SHA-256 is a parameter; the time of a release is an argument. *)
From stdpp Require Import base list strings gmap relations.
From Stdlib Require Import ZArith Lia.
From S2P Require Import Prelude JsNumber.
Local Open Scope Z_scope.

Record Milestone : Type := {
  ms_milestoneId : string;
  ms_description : string;
  ms_amountStroops : num;
  ms_released : bool;
  ms_releasedAt : option string;
  ms_releaseTxHash : option string;
  ms_authorizedBy : option string
}.

Record BookingEscrowRecord : Type := {
  be_bookingId : string;
  be_holdAmountStroops : num;
  be_milestones : list Milestone
}.

Record PartialReleaseResult : Type := {
  pr_bookingId : string;
  pr_milestoneId : string;
  pr_amountReleasedStroops : num;
  pr_remainingBalanceStroops : num;
  pr_txHash : string
}.

Inductive ReleaseError : Type :=
| BookingNotFoundError (bookingId : string)
| MilestoneNotFoundError (bookingId milestoneId : string)
| MilestoneAlreadyReleasedError (bookingId milestoneId : string)
| OverReleaseError (bookingId milestoneId : string) (requested remaining : num)
| MilestoneNotAuthorizedError (bookingId milestoneId : string)
| InvalidMilestoneAmountError (milestoneId : string) (amount : num)
| MilestoneAmountExceedsHoldError (bookingId : string) (total hold : num).

(** [bookings]: only looked up, never iterated. *)
Definition Bookings : Type := gmap string BookingEscrowRecord.

Section Service.
Context (sha256 : string -> string).

(** [total.reduce((sum, m) => sum + m.amountStroops, 0)]. *)
Definition sum_amounts (ms : list Milestone) : num :=
  fold_left (fun sum m => add sum (ms_amountStroops m)) ms zero.

(** [{ ...m, released: false }] of an input without the release fields. *)
Definition fresh_milestone (i : string * string * num) : Milestone :=
  let '(milestoneId, description, amount) := i in
  {| ms_milestoneId := milestoneId; ms_description := description; ms_amountStroops := amount;
     ms_released := false; ms_releasedAt := None; ms_releaseTxHash := None; ms_authorizedBy := None |}.

Definition invalid_amount (a : num) : bool := negb (is_integer a) || leb a zero.

Fixpoint check_amounts (ms : list Milestone) : result ReleaseError unit :=
  match ms with
  | [] => mret tt
  | m :: ms' =>
      _ ← throw_if (invalid_amount (ms_amountStroops m))
            (InvalidMilestoneAmountError (ms_milestoneId m) (ms_amountStroops m));
      check_amounts ms'
  end.

Definition registerBooking (bookingId : string) (hold : num) (inputs : list (string * string * num))
    : M Bookings ReleaseError BookingEscrowRecord :=
  let milestones := map fresh_milestone inputs in
  _ ← of_result (check_amounts milestones);
  let total := sum_amounts milestones in
  _ ← guard (gtb total hold) (MilestoneAmountExceedsHoldError bookingId total hold);
  let record := {| be_bookingId := bookingId; be_holdAmountStroops := hold; be_milestones := milestones |} in
  _ ← modify (fun s : Bookings => <[bookingId := record]> s);
  mret record.

Definition requireBooking (bookingId : string) : M Bookings ReleaseError BookingEscrowRecord :=
  s ← get; of_option ((s : Bookings) !! bookingId) (BookingNotFoundError bookingId).

Definition has_id (milestoneId : string) (m : Milestone) : bool :=
  bool_decide (ms_milestoneId m = milestoneId).

Definition requireMilestone (booking : BookingEscrowRecord) (bookingId milestoneId : string)
    : M Bookings ReleaseError Milestone :=
  of_option (find_first (has_id milestoneId) (be_milestones booking))
    (MilestoneNotFoundError bookingId milestoneId).

(** The mutation in place of the milestone that [find] returned. *)
Definition mutate_milestone (bookingId milestoneId : string) (f : Milestone -> Milestone) (s : Bookings)
    : Bookings :=
  alter (fun r => {| be_bookingId := be_bookingId r; be_holdAmountStroops := be_holdAmountStroops r;
                     be_milestones := update_first (has_id milestoneId) f (be_milestones r) |}) bookingId s.

Definition set_authorized (by_ : string) (m : Milestone) : Milestone :=
  {| ms_milestoneId := ms_milestoneId m; ms_description := ms_description m;
     ms_amountStroops := ms_amountStroops m; ms_released := ms_released m;
     ms_releasedAt := ms_releasedAt m; ms_releaseTxHash := ms_releaseTxHash m;
     ms_authorizedBy := Some by_ |}.

Definition set_released (at_ hash : string) (m : Milestone) : Milestone :=
  {| ms_milestoneId := ms_milestoneId m; ms_description := ms_description m;
     ms_amountStroops := ms_amountStroops m; ms_released := true;
     ms_releasedAt := Some at_; ms_releaseTxHash := Some hash;
     ms_authorizedBy := ms_authorizedBy m |}.

Definition authorizeMilestone (bookingId milestoneId authorizedBy : string) : M Bookings ReleaseError unit :=
  booking ← requireBooking bookingId;
  _ ← requireMilestone booking bookingId milestoneId;
  modify (mutate_milestone bookingId milestoneId (set_authorized authorizedBy)).

Definition remaining_of (r : BookingEscrowRecord) : num :=
  sub (be_holdAmountStroops r) (sum_amounts (List.filter ms_released (be_milestones r))).

Definition getRemainingBalance (bookingId : string) : M Bookings ReleaseError num :=
  booking ← requireBooking bookingId; mret (remaining_of booking).

(** [!milestone.authorizedBy]. *)
Definition unauthorized (m : Milestone) : bool :=
  match ms_authorizedBy m with Some a => negb (str_truthy a) | None => true end.

Definition release_hash (bookingId milestoneId : string) : string :=
  sha256 (bookingId +:+ ":" +:+ milestoneId +:+ ":release").

Definition releasePartial (bookingId milestoneId now : string) : M Bookings ReleaseError PartialReleaseResult :=
  booking ← requireBooking bookingId;
  milestone ← requireMilestone booking bookingId milestoneId;
  _ ← guard (ms_released milestone) (MilestoneAlreadyReleasedError bookingId milestoneId);
  _ ← guard (unauthorized milestone) (MilestoneNotAuthorizedError bookingId milestoneId);
  remaining ← getRemainingBalance bookingId;
  _ ← guard (gtb (ms_amountStroops milestone) remaining)
        (OverReleaseError bookingId milestoneId (ms_amountStroops milestone) remaining);
  let hash := release_hash bookingId milestoneId in
  _ ← modify (mutate_milestone bookingId milestoneId (set_released now hash));
  newRemaining ← getRemainingBalance bookingId;
  mret {| pr_bookingId := bookingId; pr_milestoneId := milestoneId;
          pr_amountReleasedStroops := ms_amountStroops milestone;
          pr_remainingBalanceStroops := newRemaining; pr_txHash := hash |}.

(** ** Sums of stroops

    Integer amounts, as integers. *)
Definition stroops (a : num) : Z := match a with Fin x => x / U | _ => 0 end.

Arguments stroops : simpl never.

Definition total_stroops (ms : list Milestone) : Z :=
  fold_right (fun m t => stroops (ms_amountStroops m) + t) 0 ms.

Definition positive_amount (m : Milestone) : Prop :=
  exists n, 0 < n /\ ms_amountStroops m = Fin (n * U).

Lemma stroops_int n : stroops (Fin (n * U)) = n.
Proof. unfold stroops. apply Z.div_mul. pose proof U_pos. lia. Qed.

Lemma valid_positive m : invalid_amount (ms_amountStroops m) = false -> positive_amount m.
Proof.
  unfold invalid_amount. intros [Hi%negb_false_iff Hl]%orb_false_iff. unfold positive_amount.
  destruct (ms_amountStroops m) as [x| | |]; try done. unfold is_integer in Hi. rewrite zmod_eq in Hi.
  unfold zero in Hl. rewrite leb_fin in Hl. pose proof U_pos.
  apply Z.eqb_eq in Hi. apply Z.leb_gt in Hl. apply Z.mod_divide in Hi as [n ->]; [|lia].
  exists n. split; [nia|done].
Qed.

Lemma check_amounts_ok ms : check_amounts ms = Ok tt -> Forall positive_amount ms.
Proof.
  induction ms as [|m ms IH]; [constructor|]. simpl. intros H. inv_ok.
  constructor; [by apply valid_positive|auto].
Qed.

Lemma total_nonneg ms : Forall positive_amount ms -> 0 <= total_stroops ms.
Proof.
  induction 1 as [|m ms (n & Hn & E) _ IH]; simpl; [lia|]. rewrite E, stroops_int. lia.
Qed.

Lemma sum_exact_from ms a :
  Forall positive_amount ms -> 0 <= a -> a + total_stroops ms <= 2 ^ 53 ->
  fold_left (fun sum m => add sum (ms_amountStroops m)) ms (Fin (a * U)) = Fin ((a + total_stroops ms) * U).
Proof.
  intros H. revert a. induction H as [|m ms (n & Hn & E) Hms IH]; intros a Ha Hb; simpl in *.
  - f_equal. lia.
  - rewrite E, stroops_int in *. pose proof (total_nonneg ms Hms).
    rewrite add_cents by lia. rewrite IH by lia. f_equal. lia.
Qed.

(** Within the exact range the computed sum is the sum. *)
Lemma sum_exact ms :
  Forall positive_amount ms -> total_stroops ms <= 2 ^ 53 ->
  sum_amounts ms = Fin (total_stroops ms * U).
Proof. intros H Hb. unfold sum_amounts, zero. apply (sum_exact_from ms 0); [done|lia|lia]. Qed.

(** Once a sum has left the exact range it stays above it. *)
Definition big (a : num) : Prop := ltb a (Fin (2 ^ 53 * U)) = false /\ a <> NInf /\ a <> NaN.

Lemma big_add_fin x n : 2 ^ 53 * U <= x + n * U -> big (add (Fin x) (Fin (n * U))).
Proof.
  intros Hx. pose proof U_pos. pose proof HUGE_pos. unfold add.
  assert (2 ^ 53 * U <= rnd (x + n * U) 1) as Hr.
  { apply rnd_ge; [lia|by apply representable_int|lia]. }
  revert Hr. generalize (rnd (x + n * U) 1). intros z Hr. unfold norm, big.
  destruct (HUGE <=? z); [done|]. destruct (z <=? - HUGE) eqn:E.
  - apply Z.leb_le in E. lia.
  - split; [by apply Z.ltb_ge|done].
Qed.

Lemma big_add a n : big a -> 0 < n -> big (add a (Fin (n * U))).
Proof.
  intros (Hb & H1 & H2) Hn. destruct a as [x| | |]; try done. pose proof U_pos.
  apply Z.ltb_ge in Hb. apply big_add_fin. nia.
Qed.

Lemma big_sum ms a :
  Forall positive_amount ms -> big a -> big (fold_left (fun sum m => add sum (ms_amountStroops m)) ms a).
Proof.
  intros H. revert a. induction H as [|m ms (n & Hn & E) _ IH]; intros a Ha; [done|]. simpl.
  apply IH. rewrite E. by apply big_add.
Qed.

Lemma sum_big_from ms a :
  Forall positive_amount ms -> 0 <= a <= 2 ^ 53 -> 2 ^ 53 < a + total_stroops ms ->
  big (fold_left (fun sum m => add sum (ms_amountStroops m)) ms (Fin (a * U))).
Proof.
  intros H. revert a. induction H as [|m ms (n & Hn & E) Hms IH]; intros a Ha Hb; simpl in *; [lia|].
  rewrite E, stroops_int in *. pose proof U_pos. destruct (decide (a + n <= 2 ^ 53)).
  - rewrite add_cents by lia. apply IH; lia.
  - apply big_sum; [done|]. apply big_add_fin. nia.
Qed.

(** A total the registration accepts is exact and within the hold. *)
Lemma accepted_total ms H :
  Forall positive_amount ms -> 0 <= H < 2 ^ 53 -> gtb (sum_amounts ms) (Fin (H * U)) = false ->
  total_stroops ms <= H.
Proof.
  intros Hms HH Hg. pose proof U_pos. destruct (decide (total_stroops ms <= 2 ^ 53)).
  - rewrite sum_exact in Hg by done. unfold gtb in Hg. simpl in Hg. apply Z.ltb_ge in Hg. nia.
  - destruct (sum_big_from ms 0 Hms) as (Hb & H1 & H2); [lia|lia|].
    change (fold_left _ ms (Fin (0 * U))) with (sum_amounts ms) in *. unfold gtb in Hg.
    destruct (sum_amounts ms) as [x| | |]; try done. simpl in *. apply Z.ltb_ge in Hb, Hg. nia.
Qed.

(** ** Invariant

    A booking whose hold is a safe non-negative integer and whose milestones
    share it out. *)
Definition safe_hold (hold : num) : Prop := exists H, hold = Fin (H * U) /\ 0 <= H < 2 ^ 53.

Definition record_ok (r : BookingEscrowRecord) : Prop :=
  safe_hold (be_holdAmountStroops r) /\ Forall positive_amount (be_milestones r) /\
  total_stroops (be_milestones r) <= stroops (be_holdAmountStroops r).

Definition state_ok (s : Bookings) : Prop := forall b r, s !! b = Some r -> record_ok r.

Definition released_total (r : BookingEscrowRecord) : Z :=
  total_stroops (List.filter ms_released (be_milestones r)).

Lemma released_le_total ms :
  Forall positive_amount ms -> total_stroops (List.filter ms_released ms) <= total_stroops ms.
Proof.
  induction 1 as [|m ms (n & Hn & E) _ IH]; simpl; [lia|].
  destruct (ms_released m); simpl; rewrite E, stroops_int; lia.
Qed.

(** An unreleased milestone fits beside the released ones. *)
Lemma unreleased_fits p ms m :
  Forall positive_amount ms -> find_first p ms = Some m -> ms_released m = false ->
  total_stroops (List.filter ms_released ms) + stroops (ms_amountStroops m) <= total_stroops ms.
Proof.
  induction 1 as [|x ms (n & Hn & E) Hms IH]; simpl; [done|]. destruct (p x).
  - intros [= ->] ->. pose proof (released_le_total ms Hms). lia.
  - intros Hf Hr. specialize (IH Hf Hr). destruct (ms_released x); simpl; rewrite E, stroops_int; lia.
Qed.

Lemma released_after_update p f ms m :
  find_first p ms = Some m -> ms_released m = false ->
  ms_released (f m) = true -> ms_amountStroops (f m) = ms_amountStroops m ->
  total_stroops (List.filter ms_released (update_first p f ms)) =
  total_stroops (List.filter ms_released ms) + stroops (ms_amountStroops m).
Proof.
  intros Hf Hr Hfr Hfa. induction ms as [|x ms IH]; simpl in *; [done|]. destruct (p x) eqn:Ep.
  - injection Hf as ->. simpl. rewrite Hfr, Hr. simpl. rewrite Hfa. lia.
  - simpl. rewrite (IH Hf) || specialize (IH Hf). destruct (ms_released x); simpl; lia.
Qed.

(** Mutations that keep the amounts keep the invariant. *)
Lemma mutate_ok b m f s :
  (forall x, ms_amountStroops (f x) = ms_amountStroops x) ->
  state_ok s -> state_ok (mutate_milestone b m f s).
Proof.
  intros Hf Hs b' r' Hr'. unfold mutate_milestone in Hr'.
  apply lookup_alter_Some in Hr' as [(<- & r & E & ->)|[_ Hr']]; [|by apply (Hs b')].
  destruct (Hs _ _ E) as (Hh & Hp & Ht). unfold record_ok. simpl. split; [done|].
  assert (map ms_amountStroops (update_first (has_id m) f (be_milestones r)) =
          map ms_amountStroops (be_milestones r)) as Hmap by (by apply map_update_first).
  split.
  - revert Hmap. generalize (update_first (has_id m) f (be_milestones r)). clear -Hp. intros l.
    revert l. induction Hp as [|x ms (n & Hn & Ex) _ IH]; intros [|y l]; simpl; try done.
    intros [= Hy Hl]. constructor; [|by apply IH]. exists n. split; [done|congruence].
  - assert (forall l, total_stroops l = fold_right (fun a t => stroops a + t) 0 (map ms_amountStroops l)) as Htot.
    { intros l. induction l as [|x l IH]; simpl; congruence. }
    by rewrite Htot, Hmap, <- Htot.
Qed.

Lemma registerBooking_ok b hold inputs s :
  safe_hold hold -> state_ok s -> state_ok (snd (registerBooking b hold inputs s)).
Proof.
  intros (H & -> & HH) Hs. unfold registerBooking, mbind, M_bind, of_result.
  destruct (check_amounts (map fresh_milestone inputs)) as [[]|e] eqn:Ec; [|done].
  unfold guard. destruct (gtb _ _) eqn:Eg; [done|]. simpl.
  apply check_amounts_ok in Ec. intros b' r'.
  intros [[_ <-]|[_ Hr]]%lookup_insert_Some; [|by eapply Hs]. split; [|split]; simpl.
  - by exists H.
  - done.
  - rewrite stroops_int. by apply accepted_total.
Qed.

(** ** Releases *)

Lemma remaining_exact r :
  record_ok r ->
  remaining_of r = Fin ((stroops (be_holdAmountStroops r) - released_total r) * U).
Proof.
  intros ((H & E & HH) & Hp & Ht). rewrite E, stroops_int in *. unfold remaining_of, released_total.
  assert (Forall positive_amount (List.filter ms_released (be_milestones r))) as Hp'.
  { rewrite List.Forall_forall in *. intros x [Hx _]%filter_In. by apply Hp. }
  pose proof (released_le_total _ Hp). pose proof (total_nonneg _ Hp').
  rewrite E, sum_exact by (done || lia). apply sub_cents. lia.
Qed.

Definition after_release (b m now : string) (s : Bookings) : Bookings :=
  mutate_milestone b m (set_released now (release_hash b m)) s.

Definition with_milestones (l : list Milestone) (r : BookingEscrowRecord) : BookingEscrowRecord :=
  {| be_bookingId := be_bookingId r; be_holdAmountStroops := be_holdAmountStroops r; be_milestones := l |}.

Lemma lookup_mutate b m f s r :
  s !! b = Some r ->
  mutate_milestone b m f s !! b = Some (with_milestones (update_first (has_id m) f (be_milestones r)) r).
Proof. intros Hr. apply lookup_alter_Some. left. eauto. Qed.

(** The guard against over-release never fires: the milestones share out the hold. *)
Lemma over_release_impossible p r x :
  record_ok r -> find_first p (be_milestones r) = Some x -> ms_released x = false ->
  gtb (ms_amountStroops x) (remaining_of r) = false.
Proof.
  intros Hok Hx Hr. rewrite remaining_exact by done. destruct Hok as ((H & EH & HH) & Hp & Ht).
  pose proof (unreleased_fits _ _ _ Hp Hx Hr) as Hfit. apply find_first_Some in Hx as [_ Hin%list_elem_of_In].
  rewrite List.Forall_forall in Hp. destruct (Hp _ Hin) as (n & Hn & En). rewrite En, stroops_int in Hfit. rewrite En.
  unfold gtb, ltb, released_total. pose proof U_pos. apply Z.ltb_ge. nia.
Qed.

Lemma remaining_after_release p f r x :
  record_ok (with_milestones (update_first p f (be_milestones r)) r) ->
  find_first p (be_milestones r) = Some x -> ms_released x = false ->
  ms_released (f x) = true -> ms_amountStroops (f x) = ms_amountStroops x ->
  remaining_of (with_milestones (update_first p f (be_milestones r)) r) =
  Fin ((stroops (be_holdAmountStroops r) - released_total r - stroops (ms_amountStroops x)) * U).
Proof.
  intros Hok Hx Hr Hf Ha. rewrite remaining_exact by done. unfold released_total at 1. simpl.
  rewrite (released_after_update p f _ x) by done. f_equal. unfold released_total. lia.
Qed.

(** What a release does, branch by branch. *)
Definition release_spec (b m now : string) (s : Bookings) : result ReleaseError PartialReleaseResult * Bookings :=
  match s !! b with
  | None => (Err (BookingNotFoundError b), s)
  | Some r =>
      match find_first (has_id m) (be_milestones r) with
      | None => (Err (MilestoneNotFoundError b m), s)
      | Some x =>
          if ms_released x then (Err (MilestoneAlreadyReleasedError b m), s)
          else if unauthorized x then (Err (MilestoneNotAuthorizedError b m), s)
          else (Ok {| pr_bookingId := b; pr_milestoneId := m; pr_amountReleasedStroops := ms_amountStroops x;
                      pr_remainingBalanceStroops :=
                        Fin ((stroops (be_holdAmountStroops r) - released_total r -
                              stroops (ms_amountStroops x)) * U);
                      pr_txHash := release_hash b m |}, after_release b m now s)
      end
  end.

Lemma releasePartial_eq b m now s : state_ok s -> releasePartial b m now s = release_spec b m now s.
Proof.
  intros Hs. unfold release_spec, releasePartial, requireBooking, requireMilestone, getRemainingBalance, requireBooking,
    mbind, M_bind, get, of_option, guard, modify, mret, M_ret.
  destruct (s !! b) as [r|] eqn:Er; [|done]. simpl.
  destruct (find_first (has_id m) (be_milestones r)) as [x|] eqn:Ex; [|done]. simpl.
  destruct (ms_released x) eqn:Erel; [done|]. destruct (unauthorized x); [done|].
  cbv beta iota zeta. rewrite Er. cbn [from_option_or].
  rewrite (over_release_impossible (has_id m) r x) by (done || by eapply Hs).
  fold (after_release b m now s). cbv beta iota zeta.
  pose proof (lookup_mutate b m (set_released now (release_hash b m)) s r Er) as Er'.
  unfold after_release at 1 2. rewrite Er'. cbn [from_option_or].
  rewrite (remaining_after_release _ _ r x); [done| |done..].
  exact (mutate_ok b m (set_released now (release_hash b m)) s (fun _ => eq_refl) Hs b _ Er').
Qed.

(** ** Histories *)

Inductive ReleaseOp : Type :=
| OpRegister (bookingId : string) (hold : num) (inputs : list (string * string * num))
| OpAuthorize (bookingId milestoneId by_ : string)
| OpRelease (bookingId milestoneId now : string).

Definition do_op (o : ReleaseOp) : Bookings -> Bookings :=
  match o with
  | OpRegister b h i => fun s => snd (registerBooking b h i s)
  | OpAuthorize b m a => fun s => snd (authorizeMilestone b m a s)
  | OpRelease b m now => fun s => snd (releasePartial b m now s)
  end.

Definition do_ops (ops : list ReleaseOp) (s : Bookings) : Bookings := fold_left (fun s o => do_op o s) ops s.

(** The stroops one operation pays out for booking [b]. *)
Definition pays (b : string) (o : ReleaseOp) (s : Bookings) : Z :=
  match o with
  | OpRelease b' m now =>
      if bool_decide (b' = b) then
        match fst (releasePartial b' m now s) with
        | Ok r => stroops (pr_amountReleasedStroops r)
        | Err _ => 0
        end
      else 0
  | _ => 0
  end.

Fixpoint total_paid (b : string) (ops : list ReleaseOp) (s : Bookings) : Z :=
  match ops with
  | [] => 0
  | o :: ops' => pays b o s + total_paid b ops' (do_op o s)
  end.

Definition safe_op (o : ReleaseOp) : Prop :=
  match o with OpRegister _ hold _ => safe_hold hold | _ => True end.

Definition registers (b : string) (o : ReleaseOp) : bool :=
  match o with OpRegister b' _ _ => bool_decide (b' = b) | _ => false end.

Lemma authorizeMilestone_state b m a s :
  snd (authorizeMilestone b m a s) = s \/
  snd (authorizeMilestone b m a s) = mutate_milestone b m (set_authorized a) s.
Proof.
  unfold authorizeMilestone, requireBooking, requireMilestone, mbind, M_bind, get, of_option.
  destruct (s !! b) as [r|]; simpl; [|by left]. destruct (find_first _ _); simpl; [by right|by left].
Qed.

Lemma releasePartial_state b m now s :
  state_ok s ->
  snd (releasePartial b m now s) = s \/ snd (releasePartial b m now s) = after_release b m now s.
Proof.
  intros Hs. rewrite releasePartial_eq by done. unfold release_spec. repeat case_match; simpl; auto.
Qed.

Lemma do_op_ok o s : safe_op o -> state_ok s -> state_ok (do_op o s).
Proof.
  intros Ho Hs. destruct o as [b h i|b m a|b m now]; simpl in *.
  - by apply registerBooking_ok.
  - destruct (authorizeMilestone_state b m a s) as [->| ->]; [done|]. by apply mutate_ok.
  - destruct (releasePartial_state b m now s Hs) as [->| ->]; [done|]. by apply mutate_ok.
Qed.

Lemma do_ops_ok ops s : Forall safe_op ops -> state_ok s -> state_ok (do_ops ops s).
Proof.
  intros H. revert s. induction H as [|o ops Ho _ IH]; intros s Hs; [done|]. apply IH. by apply do_op_ok.
Qed.

(** A mutation of a milestone that does not touch [released] releases nothing. *)
Lemma update_keeps_released p f ms :
  (forall x, ms_released (f x) = ms_released x /\ ms_amountStroops (f x) = ms_amountStroops x) ->
  total_stroops (List.filter ms_released (update_first p f ms)) = total_stroops (List.filter ms_released ms).
Proof.
  intros Hf. induction ms as [|x ms IH]; simpl; [done|]. destruct (p x); simpl.
  - destruct (Hf x) as [-> Ha]. destruct (ms_released x); simpl; by rewrite ?Ha.
  - destruct (ms_released x); simpl; by rewrite IH.
Qed.

Lemma lookup_mutate_ne b b' m f s : b <> b' -> mutate_milestone b m f s !! b' = s !! b'.
Proof. intros. by apply lookup_alter_ne. Qed.

(** One operation moves exactly what it pays from the remaining balance. *)
Lemma do_op_conserves b o s r :
  state_ok s -> registers b o = false -> s !! b = Some r ->
  exists r', do_op o s !! b = Some r' /\ be_holdAmountStroops r' = be_holdAmountStroops r /\
    released_total r' = released_total r + pays b o s.
Proof.
  intros Hs Hreg Hr. destruct o as [b' h i|b' m a|b' m now]; cbn [do_op pays registers] in *.
  - exists r. split_and!; [|done|lia]. apply bool_decide_eq_false in Hreg.
    unfold registerBooking, mbind, M_bind, of_result, guard. destruct (check_amounts _) as [[]|]; [|done].
    destruct (gtb _ _); [done|]. simpl. rewrite <- Hr. by apply lookup_insert_ne.
  - destruct (authorizeMilestone_state b' m a s) as [->| ->]; [exists r; split_and!; [done|done|lia]|].
    destruct (decide (b' = b)) as [->|Hne].
    + rewrite (lookup_mutate b m _ s r Hr). eexists. split_and!; [done..|].
      unfold released_total. simpl. rewrite update_keeps_released by done. lia.
    + rewrite lookup_mutate_ne by done. exists r. split_and!; [done|done|lia].
  - rewrite (releasePartial_eq b' m now s Hs). unfold release_spec. case_bool_decide as Hb.
    + subst b'. rewrite Hr. destruct (find_first _ _) as [x|] eqn:Ex; [|exists r; simpl; split_and!; [done|done|lia]].
      destruct (ms_released x) eqn:Erel; [exists r; simpl; split_and!; [done|done|lia]|].
      destruct (unauthorized x); [exists r; simpl; split_and!; [done|done|lia]|]. cbn [fst snd pr_amountReleasedStroops].
      unfold after_release. rewrite (lookup_mutate b m _ s r Hr). eexists. split_and!; [done..|].
      unfold released_total. simpl. by rewrite (released_after_update _ _ _ x).
    + exists r. split_and!; [|done|lia]. repeat case_match; simpl; try done.
      unfold after_release. by rewrite lookup_mutate_ne.
Qed.

(** From any history of registrations with safe integer holds,
    authorisations and releases, a release has exactly the outcome of the table
    [release_spec]: it pays an authorised, unreleased milestone in full and
    reports the exact balance that remains, which is never negative; the guard against
    over-release never fires. *)
Theorem releasePartial_exact ops b m now :
  Forall safe_op ops ->
  let s := do_ops ops ∅ in
  releasePartial b m now s = release_spec b m now s /\
  match fst (releasePartial b m now s) with
  | Ok r => exists k, 0 <= k /\ pr_remainingBalanceStroops r = Fin (k * U)
  | Err (OverReleaseError _ _ _ _) => False
  | Err _ => snd (releasePartial b m now s) = s
  end.
Proof.
  intros Hops s. assert (state_ok s) as Hs by (by apply do_ops_ok).
  rewrite releasePartial_eq by done. split; [done|]. unfold release_spec.
  destruct (s !! b) as [r|] eqn:Er; [|done].
  destruct (find_first (has_id m) (be_milestones r)) as [x|] eqn:Ex; [|done].
  destruct (ms_released x) eqn:Erel; [done|]. destruct (unauthorized x); [done|].
  cbn [fst pr_remainingBalanceStroops]. eexists. split; [|done].
  destruct (Hs _ _ Er) as (_ & Hp & Ht). pose proof (unreleased_fits _ _ _ Hp Ex Erel).
  unfold released_total. lia.
Qed.

Lemma total_paid_conserves b ops s r :
  Forall safe_op ops -> Forall (fun o => registers b o = false) ops -> state_ok s -> s !! b = Some r ->
  exists r', do_ops ops s !! b = Some r' /\ be_holdAmountStroops r' = be_holdAmountStroops r /\
    released_total r' = released_total r + total_paid b ops s.
Proof.
  intros Hs. revert s r. induction Hs as [|o ops Ho _ IH]; intros s r Hreg Hok Hr.
  - exists r. split_and!; [done|done|simpl; lia].
  - apply Forall_cons in Hreg as [Hreg Hregs]. destruct (do_op_conserves b o s r) as (r1 & Hr1 & Hh1 & Ht1); [done..|].
    destruct (IH (do_op o s) r1) as (r' & Hr' & Hh' & Ht'); [done|by apply do_op_ok|done|].
    exists r'. split_and!; [done|congruence|simpl; lia].
Qed.

Lemma pays_nonneg b o s : state_ok s -> 0 <= pays b o s.
Proof.
  intros Hs. destruct o as [| |b' m now]; cbn [pays]; [lia..|]. case_bool_decide; [|lia].
  rewrite releasePartial_eq by done. unfold release_spec. destruct (s !! b') as [r|] eqn:Er; [|done].
  destruct (find_first _ _) as [x|] eqn:Ex; [|done]. destruct (ms_released x); [done|].
  destruct (unauthorized x); [done|]. cbn [fst pr_amountReleasedStroops].
  apply find_first_Some in Ex as [_ Hin%list_elem_of_In]. destruct (Hs _ _ Er) as (_ & Hp & _).
  rewrite List.Forall_forall in Hp. destruct (Hp _ Hin) as (n & Hn & ->). rewrite stroops_int. lia.
Qed.

Lemma total_paid_nonneg b ops s : Forall safe_op ops -> state_ok s -> 0 <= total_paid b ops s.
Proof.
  intros H. revert s. induction H as [|o ops Ho _ IH]; intros s Hs; simpl; [lia|].
  pose proof (pays_nonneg b o s Hs). specialize (IH (do_op o s) (do_op_ok o s Ho Hs)). lia.
Qed.

(** As long as a booking is not registered again, every stroop paid out
    for it is accounted for: the released total grows by exactly what the
    releases pay, and never exceeds the hold. *)
Theorem partial_release_conserves ops0 ops b r :
  Forall safe_op ops0 -> Forall safe_op ops -> Forall (fun o => registers b o = false) ops ->
  do_ops ops0 ∅ !! b = Some r ->
  exists r', do_ops ops (do_ops ops0 ∅) !! b = Some r' /\
    be_holdAmountStroops r' = be_holdAmountStroops r /\
    released_total r' = released_total r + total_paid b ops (do_ops ops0 ∅) /\
    0 <= total_paid b ops (do_ops ops0 ∅) /\
    released_total r' <= stroops (be_holdAmountStroops r) /\
    remaining_of r' = Fin ((stroops (be_holdAmountStroops r) - released_total r') * U).
Proof.
  intros H0 H1 Hreg Hr. assert (state_ok (do_ops ops0 ∅)) as Hok by (by apply do_ops_ok).
  destruct (total_paid_conserves b ops _ r H1 Hreg Hok Hr) as (r' & Hr' & Hh & Ht). exists r'.
  assert (record_ok r') as Hok' by (eapply do_ops_ok; [exact H1|exact Hok|exact Hr']).
  split_and!; [done|done|done| | |rewrite <- Hh; by apply remaining_exact].
  - by apply total_paid_nonneg.
  - destruct Hok' as (_ & Hp & Hle). pose proof (released_le_total _ Hp). unfold released_total. rewrite <- Hh. lia.
Qed.

End Service.

(** ** Executions *)

Section Executions.
Local Open Scope string_scope.

Definition w_hash (s : string) : string := s.

Definition w_safe (n : Z) : 0 <= n < 2 ^ 53 -> safe_hold (Fin (n * U)) :=
  fun H => ex_intro _ n (conj eq_refl H).

Definition w_register : ReleaseOp :=
  OpRegister "bk" (Fin (100 * U)) [("m1", "first hour", Fin (60 * U)); ("m2", "second hour", Fin (40 * U))].

Definition w_pay (m : string) : list ReleaseOp := [OpAuthorize "bk" m "ada"; OpRelease "bk" m "2026-01-01"].

Lemma w_register_safe : Forall safe_op [w_register].
Proof. constructor; [apply w_safe; lia|constructor]. Defined.

(** Registering a booking again replaces its record and forgets what was
    released: the same milestones can be paid a second time, beyond the hold. *)
Theorem reregistration_pays_twice :
  exists ops b r,
    Forall safe_op ops /\ do_ops w_hash ops ∅ !! b = Some r /\
    total_paid w_hash b ops ∅ = 2 * stroops (be_holdAmountStroops r) /\
    0 < stroops (be_holdAmountStroops r).
Proof.
  exists ([w_register] ++ w_pay "m1" ++ w_pay "m2" ++ [w_register] ++ w_pay "m1" ++ w_pay "m2")%list, "bk".
  eexists. split; [|split; [vm_compute; reflexivity|split; vm_compute; reflexivity]].
  repeat (apply Forall_app; split); try apply w_register_safe; by repeat constructor.
Qed.

(** The hold is not validated: with NaN every comparison is false, and any
    milestones are accepted and released. *)
Example nan_hold_releases :
  is_ok (fst (releasePartial w_hash "bk" "m" "2026-01-01"
    (do_ops w_hash [OpRegister "bk" NaN [("m", "all", Fin (5 * U))]; OpAuthorize "bk" "m" "ada"] ∅))) = true.
Proof. by vm_compute. Qed.

Definition w_authorized : list ReleaseOp := [w_register; OpAuthorize "bk" "m2" "ada"].

Lemma w_authorized_safe : Forall safe_op w_authorized.
Proof. constructor; [apply w_safe; lia|by repeat constructor]. Defined.

Lemma releasePartial_exact_witness :
  releasePartial w_hash "bk" "m2" "2026-01-02" (do_ops w_hash w_authorized ∅) =
  release_spec w_hash "bk" "m2" "2026-01-02" (do_ops w_hash w_authorized ∅) /\
  fst (release_spec w_hash "bk" "m2" "2026-01-02" (do_ops w_hash w_authorized ∅)) =
  Ok {| pr_bookingId := "bk"; pr_milestoneId := "m2"; pr_amountReleasedStroops := Fin (40 * U);
        pr_remainingBalanceStroops := Fin (60 * U); pr_txHash := "bk:m2:release" |}.
Proof.
  split; [|vm_compute; reflexivity].
  destruct (releasePartial_exact w_hash w_authorized "bk" "m2" "2026-01-02" w_authorized_safe) as [H _].
  exact H.
Defined.

Lemma partial_release_conserves_witness :
  exists r', do_ops w_hash (w_pay "m1") (do_ops w_hash [w_register] ∅) !! "bk" = Some r' /\
    released_total r' <= 100.
Proof.
  edestruct (partial_release_conserves w_hash [w_register] (w_pay "m1") "bk") as (r' & Hr & _ & _ & _ & Hle & _);
    [apply w_register_safe|by repeat constructor|by repeat constructor|vm_compute; reflexivity|].
  exists r'. split; [exact Hr|]. etrans; [exact Hle|]. vm_compute. discriminate.
Defined.

End Executions.
