(* ===== verification/DualControl.v ===== *)
(** * DualControl: the four-eyes rule

    What the slashing service and the refund-approval service promise: an item
    is opened by one person, takes effect only after another person approved it,
    at most once, and may be closed without effect.  The rule is a transition
    system on items; a service implements it by a view of its state as items
    whose changes are transitions of the rule.  The theorems about the services
    are proved from the rule. *)
From stdpp Require Import base list strings relations.

(** [Opened by], [Approved by and], [Effected by and], [Closed by]. *)
Inductive item : Type :=
| Opened (opener : string)
| Approved (opener approver : string)
| Effected (opener approver : string)
| Closed (opener : string).

Inductive item_step : item -> item -> Prop :=
| item_approve o a : o <> a -> item_step (Opened o) (Approved o a)
| item_effect o a : item_step (Approved o a) (Effected o a)
| item_close o : item_step (Opened o) (Closed o).

Definition opener (i : item) : string :=
  match i with Opened o | Approved o _ | Effected o _ | Closed o => o end.

Definition approver (i : item) : option string :=
  match i with Approved _ a | Effected _ a => Some a | _ => None end.

(** The rule's invariant: an approver is somebody else. *)
Definition four_eyes (i : item) : Prop := forall a, approver i = Some a -> a <> opener i.

(** What a change of one item may be: it appears opened, or it makes transitions. *)
Inductive allowed : option item -> option item -> Prop :=
| allowed_same i : allowed i i
| allowed_open o : allowed None (Some (Opened o))
| allowed_step i i' : item_step i i' -> allowed (Some i) (Some i').

Class DualControlled (S : Type) (R : relation S) := {
  view : S -> string -> option item;
  view_step s s' id : R s s' -> allowed (view s id) (view s' id)
}.

Lemma item_step_four_eyes i i' : item_step i i' -> four_eyes i -> four_eyes i'.
Proof. destruct 1; intros Hf b; simpl; intros Hb; [congruence|by apply Hf|done]. Qed.

Lemma item_steps_opener i i' : rtc item_step i i' -> opener i' = opener i.
Proof. induction 1 as [|i1 i2 i3 Hs _ IH]; [done|]. rewrite IH. by destruct Hs. Qed.

Lemma item_steps_approver i i' a : rtc item_step i i' -> approver i = Some a -> approver i' = Some a.
Proof. induction 1 as [|i1 i2 i3 Hs _ IH]; [done|]. intros Ha. apply IH. by destruct Hs. Qed.

Lemma item_final i i' :
  rtc item_step i i' -> match i with Effected _ _ | Closed _ => i' = i | _ => True end.
Proof. destruct 1 as [i|i1 i2 i3 Hs _]; [by destruct i|by destruct Hs]. Qed.

Section Rule.
Context {S : Type} {R : relation S} `{!DualControlled S R}.

(** In every reachable state every approval was given by a second person. *)
Lemma reachable_four_eyes s0 s id i :
  (forall k, view s0 k = None) -> rtc R s0 s -> view s id = Some i -> four_eyes i.
Proof.
  intros H0 Hr. revert id i. assert (forall id i, view s0 id = Some i -> four_eyes i) as Hinv.
  { intros id i. by rewrite H0. }
  clear H0. induction Hr as [s|s1 s2 s3 Hs _ IH]; [done|]. apply IH. intros id i Hi.
  pose proof (view_step s1 s2 id Hs) as Ha. rewrite Hi in Ha. inversion Ha as [j E|o E|j j' Hj E]; subst.
  - eauto.
  - by intros a.
  - eapply item_step_four_eyes; eauto.
Qed.

(** An item once present makes transitions only. *)
Lemma reachable_item_steps s s' id i :
  rtc R s s' -> view s id = Some i -> exists i', view s' id = Some i' /\ rtc item_step i i'.
Proof.
  intros Hr. revert i. induction Hr as [s|s1 s2 s3 Hs _ IH]; intros i Hi; [by exists i|].
  pose proof (view_step s1 s2 id Hs) as Ha. rewrite Hi in Ha. inversion Ha as [j E|o E|j j' Hj E E']; subst.
  - by apply IH.
  - destruct (IH j') as (i' & Hv & Hst); [done|]. exists i'. split; [done|by eapply rtc_l].
Qed.

End Rule.
