(* ===== verification/Slashing.v ===== *)
(** * Slashing: forfeiting a fraudulent supplier's stake

    [EscrowSlashingService] of [services/escrowSlashing.ts].  Each operation is
    a section without an await that changes the proposal, then the audit
    sink's [log], which may reject.  The sink, the UUID and the clock are answers
    of the environment, SHA-256 is a parameter.  The service is shown to
    implement the four-eyes rule of [DualControl.v]. *)
From stdpp Require Import base list strings relations.
From Stdlib Require Import ZArith.
From S2P Require Import Prelude JsNumber Async JsMap DualControl.

Inductive SlashProposalStatus : Type := pending_approval | approved | executed.

#[export] Instance SlashProposalStatus_eq_dec : EqDecision SlashProposalStatus.
Proof. solve_decision. Defined.

Record SlashProposal : Type := {
  sp_proposalId : string;
  sp_bookingId : string;
  sp_supplierAddress : string;
  sp_slashAmountStroops : num;
  sp_insurancePoolAddress : string;
  sp_proposedBy : string;
  sp_proposedAt : string;
  sp_approvedBy : option string;
  sp_approvedAt : option string;
  sp_sweepTxHash : option string;
  sp_executedAt : option string;
  sp_status : SlashProposalStatus;
  sp_fraudReason : string
}.

Record SlashParams : Type := {
  sq_bookingId : string;
  sq_supplierAddress : string;
  sq_slashAmountStroops : num;
  sq_insurancePoolAddress : string;
  sq_proposedBy : string;
  sq_fraudReason : string
}.

Record SlashResult : Type := {
  sr_proposalId : string;
  sr_sweepTxHash : string;
  sr_slashAmountStroops : num;
  sr_insurancePoolAddress : string
}.

(** [SinkRejected] stands for whatever the audit sink throws. *)
Inductive SlashError : Type :=
| SlashProposalNotFoundError (proposalId : string)
| SlashSelfApprovalError (adminId : string)
| SlashAlreadyApprovedError (proposalId : string)
| SlashNotApprovedError (proposalId : string)
| SlashAlreadyExecutedError (proposalId : string)
| InvalidSlashAmountError (amount : num)
| SinkRejected.

Definition Proposals : Type := jsmap SlashProposal.

Section Service.
Context (sha256 : string -> string).

(** ** The sections without an await *)

Definition new_proposal (proposalId now : string) (p : SlashParams) : SlashProposal :=
  {| sp_proposalId := proposalId; sp_bookingId := sq_bookingId p; sp_supplierAddress := sq_supplierAddress p;
     sp_slashAmountStroops := sq_slashAmountStroops p;
     sp_insurancePoolAddress := sq_insurancePoolAddress p; sp_proposedBy := sq_proposedBy p;
     sp_proposedAt := now; sp_approvedBy := None; sp_approvedAt := None; sp_sweepTxHash := None;
     sp_executedAt := None; sp_status := pending_approval; sp_fraudReason := sq_fraudReason p |}.

Definition propose_section (proposalId now : string) (p : SlashParams) : M Proposals SlashError SlashProposal :=
  _ ← guard (negb (is_integer (sq_slashAmountStroops p)) || leb (sq_slashAmountStroops p) zero)
        (InvalidSlashAmountError (sq_slashAmountStroops p));
  let proposal := new_proposal proposalId now p in
  _ ← modify (map_set proposalId proposal);
  mret proposal.

Definition requireProposal (proposalId : string) : M Proposals SlashError SlashProposal :=
  s ← get; of_option (map_get proposalId s) (SlashProposalNotFoundError proposalId).

Definition set_approved (by_ now : string) (p : SlashProposal) : SlashProposal :=
  {| sp_proposalId := sp_proposalId p; sp_bookingId := sp_bookingId p;
     sp_supplierAddress := sp_supplierAddress p; sp_slashAmountStroops := sp_slashAmountStroops p;
     sp_insurancePoolAddress := sp_insurancePoolAddress p; sp_proposedBy := sp_proposedBy p;
     sp_proposedAt := sp_proposedAt p; sp_approvedBy := Some by_; sp_approvedAt := Some now;
     sp_sweepTxHash := sp_sweepTxHash p; sp_executedAt := sp_executedAt p; sp_status := approved;
     sp_fraudReason := sp_fraudReason p |}.

Definition approve_section (now proposalId approvedBy : string) : M Proposals SlashError SlashProposal :=
  proposal ← requireProposal proposalId;
  _ ← guard (bool_decide (sp_status proposal = executed)) (SlashAlreadyExecutedError proposalId);
  _ ← guard (bool_decide (sp_status proposal = approved)) (SlashAlreadyApprovedError proposalId);
  _ ← guard (bool_decide (sp_proposedBy proposal = approvedBy)) (SlashSelfApprovalError approvedBy);
  let proposal' := set_approved approvedBy now proposal in
  _ ← modify (map_set proposalId proposal');
  mret proposal'.

(** [_requiresTwoAdminApproval]: [!!proposal.approvedBy] is a non-empty string. *)
Definition requiresTwoAdminApproval (p : SlashProposal) : bool :=
  bool_decide (sp_status p = approved) &&
  match sp_approvedBy p with
  | Some a => str_truthy a && negb (bool_decide (a = sp_proposedBy p))
  | None => false
  end.

Definition sweep_hash (proposalId bookingId : string) : string :=
  sha256 ("slash:" +:+ proposalId +:+ ":" +:+ bookingId).

Definition set_executed (hash now : string) (p : SlashProposal) : SlashProposal :=
  {| sp_proposalId := sp_proposalId p; sp_bookingId := sp_bookingId p;
     sp_supplierAddress := sp_supplierAddress p; sp_slashAmountStroops := sp_slashAmountStroops p;
     sp_insurancePoolAddress := sp_insurancePoolAddress p; sp_proposedBy := sp_proposedBy p;
     sp_proposedAt := sp_proposedAt p; sp_approvedBy := sp_approvedBy p; sp_approvedAt := sp_approvedAt p;
     sp_sweepTxHash := Some hash; sp_executedAt := Some now; sp_status := executed;
     sp_fraudReason := sp_fraudReason p |}.

Definition execute_section (now proposalId : string) : M Proposals SlashError SlashProposal :=
  proposal ← requireProposal proposalId;
  _ ← guard (bool_decide (sp_status proposal = executed)) (SlashAlreadyExecutedError proposalId);
  _ ← guard (negb (requiresTwoAdminApproval proposal)) (SlashNotApprovedError proposalId);
  let proposal' := set_executed (sweep_hash proposalId (sp_bookingId proposal)) now proposal in
  _ ← modify (map_set proposalId proposal');
  mret proposal'.

(** ** The operations *)

Inductive AuditAction : Type := slash_proposed | slash_approved | slash_executed (executedBy : string).

(** [AuditLog] answers whether the sink resolved; [Stored] reads the proposal
    object after the await. *)
Inductive SlashEv : Type -> Type :=
| ProposeEv (p : SlashParams) : SlashEv (result SlashError SlashProposal)
| ApproveEv (proposalId approvedBy : string) : SlashEv (result SlashError SlashProposal)
| ExecuteEv (proposalId : string) : SlashEv (result SlashError SlashProposal)
| AuditLog (action : AuditAction) (proposal : SlashProposal) : SlashEv bool
| Stored (proposalId : string) : SlashEv (option SlashProposal).

Abbreviation SProg := (Prog SlashEv SlashError).

Definition audit (action : AuditAction) (proposal : SlashProposal) : SProg unit :=
  ok ← perform (AuditLog action proposal); throw_when (negb ok) SinkRejected.

(** [return { ...proposal }]: proposals are never removed. *)
Definition read_back (proposal : SlashProposal) : SProg SlashProposal :=
  p ← perform (Stored (sp_proposalId proposal)); mret (default proposal p).

Definition proposeSlash (p : SlashParams) : SProg SlashProposal :=
  r ← perform (ProposeEv p);
  proposal ← lift_result id r;
  _ ← audit slash_proposed proposal;
  read_back proposal.

Definition approveSlash (proposalId approvedBy : string) : SProg SlashProposal :=
  r ← perform (ApproveEv proposalId approvedBy);
  proposal ← lift_result id r;
  _ ← audit slash_approved proposal;
  read_back proposal.

Definition slash_result (hash : string) (p : SlashProposal) : SlashResult :=
  {| sr_proposalId := sp_proposalId p; sr_sweepTxHash := hash;
     sr_slashAmountStroops := sp_slashAmountStroops p;
     sr_insurancePoolAddress := sp_insurancePoolAddress p |}.

Definition executeSlash (proposalId executedBy : string) : SProg SlashResult :=
  r ← perform (ExecuteEv proposalId);
  proposal ← lift_result id r;
  _ ← audit (slash_executed executedBy) proposal;
  mret (slash_result (sweep_hash proposalId (sp_bookingId proposal)) proposal).

Definition getProposal (proposalId : string) (s : Proposals) : option SlashProposal := map_get proposalId s.
Definition listProposals (s : Proposals) : list SlashProposal := map_values s.

(** The environment answers with a UUID, the time and whether the sink accepts. *)
Record Env : Type := { en_uuid : string; en_now : string; en_sink_ok : bool }.

Definition do_event (e : Env) (X : Type) (ev : SlashEv X) (s : Proposals) : X * Proposals :=
  match ev in SlashEv X return X * Proposals with
  | ProposeEv p => propose_section (en_uuid e) (en_now e) p s
  | ApproveEv i a => approve_section (en_now e) i a s
  | ExecuteEv i => execute_section (en_now e) i s
  | AuditLog _ _ => (en_sink_ok e, s)
  | Stored i => (getProposal i s, s)
  end.

(** UUIDs are fresh. *)
Definition exec_event (X : Type) (ev : SlashEv X) (s : Proposals) (x : X) (s' : Proposals) : Prop :=
  exists e, getProposal (en_uuid e) s = None /\ do_event e X ev s = (x, s').

Inductive slash_request : SProg unit -> Prop :=
| req_propose p : slash_request (forget (proposeSlash p))
| req_approve i a : slash_request (forget (approveSlash i a))
| req_execute i x : slash_request (forget (executeSlash i x)).

Definition slash_init : Config SlashEv SlashError Proposals := {| cf_state := []; cf_pool := [] |}.

(** ** Effects *)

(** The changes of a proposal. *)
Inductive proposal_step (p : SlashProposal) : SlashProposal -> Prop :=
| step_approve a now :
    sp_status p = pending_approval -> sp_proposedBy p <> a -> proposal_step p (set_approved a now p)
| step_execute now :
    requiresTwoAdminApproval p = true ->
    proposal_step p (set_executed (sweep_hash (sp_proposalId p) (sp_bookingId p)) now p).

Inductive op_effect (s : Proposals) : Proposals -> Prop :=
| eff_none : op_effect s s
| eff_propose i now q :
    getProposal i s = None ->
    is_integer (sq_slashAmountStroops q) = true -> leb (sq_slashAmountStroops q) zero = false ->
    op_effect s (map_set i (new_proposal i now q) s)
| eff_step i p p' :
    getProposal i s = Some p -> (sp_proposalId p = i -> proposal_step p p') -> op_effect s (map_set i p' s).

Lemma approve_section_eq now i a s :
  approve_section now i a s =
  match getProposal i s with
  | None => (Err (SlashProposalNotFoundError i), s)
  | Some p =>
      match sp_status p with
      | executed => (Err (SlashAlreadyExecutedError i), s)
      | approved => (Err (SlashAlreadyApprovedError i), s)
      | pending_approval =>
          if bool_decide (sp_proposedBy p = a) then (Err (SlashSelfApprovalError a), s)
          else (Ok (set_approved a now p), map_set i (set_approved a now p) s)
      end
  end.
Proof.
  unfold approve_section, requireProposal, mbind, M_bind, get, of_option, getProposal.
  destruct (map_get i s) as [p|]; [|done]. simpl. unfold guard.
  destruct (sp_status p); simpl; try done. by case_bool_decide.
Qed.

Lemma execute_section_eq now i s :
  execute_section now i s =
  match getProposal i s with
  | None => (Err (SlashProposalNotFoundError i), s)
  | Some p =>
      if bool_decide (sp_status p = executed) then (Err (SlashAlreadyExecutedError i), s)
      else if requiresTwoAdminApproval p then
        let p' := set_executed (sweep_hash i (sp_bookingId p)) now p in (Ok p', map_set i p' s)
      else (Err (SlashNotApprovedError i), s)
  end.
Proof.
  unfold execute_section, requireProposal, mbind, M_bind, get, of_option, getProposal.
  destruct (map_get i s) as [p|]; [|done]. simpl. unfold guard.
  case_bool_decide; [done|]. simpl. by destruct (requiresTwoAdminApproval p).
Qed.

Lemma slash_event_effect X (ev : SlashEv X) s x s' : exec_event X ev s x s' -> op_effect s s'.
Proof.
  intros (e & Hf & He). destruct ev as [q|i a|i|action p|i]; cbn [do_event] in He.
  - unfold propose_section, mbind, M_bind, guard in He. destruct (_ || _) eqn:Eg in He; simplify_eq/=; [constructor|].
    apply orb_false_iff in Eg as [Hi%negb_false_iff Hl]. injection He as _ <-. by constructor.
  - rewrite approve_section_eq in He. destruct (getProposal i s) as [p|] eqn:Ep; [|simplify_eq; constructor].
    destruct (sp_status p) eqn:Est; [|simplify_eq; constructor..].
    case_bool_decide; simplify_eq; [constructor|]. eapply eff_step; [done|]. intros _. by constructor.
  - rewrite execute_section_eq in He. destruct (getProposal i s) as [p|] eqn:Ep; [|simplify_eq; constructor].
    case_bool_decide; [simplify_eq; constructor|]. destruct (requiresTwoAdminApproval p) eqn:Er; cbv zeta in He; simplify_eq; [|constructor].
    eapply eff_step; [done|]. intros <-. by constructor.
  - simplify_eq. constructor.
  - simplify_eq. constructor.
Qed.

(** ** Invariant *)

Definition proposal_ok (i : string) (p : SlashProposal) : Prop :=
  sp_proposalId p = i /\
  is_integer (sp_slashAmountStroops p) = true /\ leb (sp_slashAmountStroops p) zero = false /\
  match sp_status p with
  | pending_approval => sp_approvedBy p = None /\ sp_sweepTxHash p = None
  | approved => is_Some (sp_approvedBy p) /\ sp_sweepTxHash p = None
  | executed => (exists a, sp_approvedBy p = Some a /\ a <> ""%string) /\
                sp_sweepTxHash p = Some (sweep_hash i (sp_bookingId p))
  end.

Definition slash_inv (s : Proposals) : Prop := forall i p, getProposal i s = Some p -> proposal_ok i p.

Definition terms (p : SlashProposal) :=
  (sp_proposalId p, sp_bookingId p, sp_supplierAddress p, sp_slashAmountStroops p,
   sp_insurancePoolAddress p, sp_proposedBy p, sp_proposedAt p, sp_fraudReason p).

Lemma approval_facts p :
  requiresTwoAdminApproval p = true ->
  sp_status p = approved /\ exists a, sp_approvedBy p = Some a /\ a <> ""%string /\ a <> sp_proposedBy p.
Proof.
  unfold requiresTwoAdminApproval. intros [Hs%bool_decide_eq_true Ha]%andb_true_iff. split; [done|].
  destruct (sp_approvedBy p) as [a|]; [|done]. apply andb_true_iff in Ha as [Ht Hn]. exists a.
  split; [done|]. split; [by destruct a|]. apply negb_true_iff in Hn. by apply bool_decide_eq_false in Hn.
Qed.

Lemma proposal_step_ok i p p' : proposal_step p p' -> proposal_ok i p -> proposal_ok i p'.
Proof.
  intros Hs (Hid & Hint & Hpos & Hst). destruct Hs as [a now Hp Hne|now Hr].
  - rewrite Hp in Hst. destruct Hst as [_ Hh]. split_and!; try done.
  - apply approval_facts in Hr as (Hap & a & Ha & Hne & _). rewrite Hap in Hst.
    split; [done|]. split; [done|]. split; [done|]. simpl. split; [by exists a|by rewrite <- Hid].
Qed.

Lemma op_effect_inv s s' : op_effect s s' -> slash_inv s -> slash_inv s'.
Proof.
  destruct 1 as [|i now q Hf Hi Hp|i p p' Hg Hs]; intros Hinv; [done| |]; intros k x Hx; unfold getProposal in Hx;
    rewrite map_get_set in Hx; case_bool_decide; [|by apply Hinv| |by apply Hinv]; simplify_eq.
  - by split_and!.
  - eapply proposal_step_ok; [|by apply Hinv]. by apply Hs, Hinv.
Qed.

Definition evolves (s s' : Proposals) : Prop :=
  slash_inv s -> slash_inv s' /\
  forall i p, getProposal i s = Some p -> exists p', getProposal i s' = Some p' /\ rtc proposal_step p p'.

#[global] Instance slash_evolves_preorder : PreOrder evolves.
Proof.
  split; [intros s Hi; split; [done|]; intros i p Hp; by exists p|].
  intros s1 s2 s3 H12 H23 Hi. destruct (H12 Hi) as [Hi2 He2]. destruct (H23 Hi2) as [Hi3 He3].
  split; [done|]. intros i p (p2 & Hp2 & Hr2)%He2. destruct (He3 _ _ Hp2) as (p3 & Hp3 & Hr3).
  exists p3. split; [done|by etrans].
Qed.

Lemma op_effect_evolves s s' : op_effect s s' -> evolves s s'.
Proof.
  intros He Hi. split; [by eapply op_effect_inv|]. intros k x Hx.
  destruct He as [|i now q Hf _ _|i p p' Hg Hs]; [by exists x|..]; unfold getProposal in *; rewrite map_get_set;
    case_bool_decide; simplify_eq; [by exists x| |by exists x].
  exists p'. split; [done|]. apply rtc_once. by apply Hs, Hi.
Qed.

Lemma all_events_trivial A (p : SProg A) : all_events (fun _ _ => True) p.
Proof. induction p; simpl; auto. Qed.

Lemma steps_evolve c c' : rtc (step exec_event slash_request) c c' -> evolves (cf_state c) (cf_state c').
Proof.
  intros Hr. apply (steps_preserve exec_event slash_request (fun _ _ => True) evolves c c');
    [|intros; apply all_events_trivial|done|apply Forall_true; intros; apply all_events_trivial].
  intros X ev s x s' _ He. by eapply op_effect_evolves, slash_event_effect.
Qed.

(** ** The four-eyes rule *)

Definition item_of (p : SlashProposal) : item :=
  match sp_status p with
  | pending_approval => Opened (sp_proposedBy p)
  | approved => Approved (sp_proposedBy p) (default ""%string (sp_approvedBy p))
  | executed => Effected (sp_proposedBy p) (default ""%string (sp_approvedBy p))
  end.

Lemma proposal_step_item p p' : proposal_step p p' -> item_step (item_of p) (item_of p').
Proof.
  destruct 1 as [a now Hp Hne|now Hr]; unfold item_of; simpl; [rewrite Hp; by constructor|].
  apply approval_facts in Hr as (-> & _). constructor.
Qed.

(** A change of a state that satisfies the invariant. *)
Definition change (s s' : Proposals) : Prop := slash_inv s /\ op_effect s s'.

#[global] Instance slashing_dual_control : DualControlled Proposals change.
Proof.
  refine {| view := fun s i => item_of <$> getProposal i s |}.
  intros s s' k [Hinv He]. destruct He as [|i now q Hf _ _|i p p' Hg Hs]; [constructor|..]; unfold getProposal in *;
    rewrite map_get_set; case_bool_decide; simplify_eq; try constructor.
  - rewrite Hf. constructor.
  - rewrite Hg. constructor. apply proposal_step_item. by apply Hs, Hinv.
Defined.

Lemma steps_changes c c' :
  rtc (step exec_event slash_request) c c' -> slash_inv (cf_state c) -> rtc change (cf_state c) (cf_state c').
Proof.
  induction 1 as [|c1 c2 c3 Hs Hr IH]; [done|]. intros Hi.
  destruct Hs as [s s' l r X ev k x Hx|s pool p Hp]; simpl in *; [|by apply IH].
  apply slash_event_effect in Hx. eapply rtc_l; [by split|]. apply IH. by eapply op_effect_inv.
Qed.

(** Whatever requests are interleaved and whatever the audit sink
    answers, a stake is swept only after two distinct administrators agreed: an executed proposal
    carries a non-empty approver other than its proposer, a positive integer
    amount and the sweep hash of its booking; it keeps the terms it was proposed
    with and never changes again, so it is executed at most once. *)
Theorem slash_needs_two_admins c c' i p :
  rtc (step exec_event slash_request) slash_init c ->
  rtc (step exec_event slash_request) c c' ->
  getProposal i (cf_state c) = Some p ->
  exists p', getProposal i (cf_state c') = Some p' /\ terms p' = terms p /\
    (sp_status p = executed -> p' = p) /\
    (sp_status p' = executed ->
       (exists a, sp_approvedBy p' = Some a /\ a <> ""%string /\ a <> sp_proposedBy p') /\
       sp_sweepTxHash p' = Some (sweep_hash i (sp_bookingId p')) /\
       is_integer (sp_slashAmountStroops p') = true /\ leb (sp_slashAmountStroops p') zero = false).
Proof.
  intros H0 Hr Hp. assert (slash_inv []) as Hnil by done.
  destruct (steps_evolve _ _ H0 Hnil) as [Hinv _]. destruct (steps_evolve _ _ Hr Hinv) as [Hinv' He].
  destruct (He _ _ Hp) as (p' & Hp' & Hs). exists p'. split; [done|]. split_and!.
  - clear -Hs. induction Hs as [|p1 p2 p3 H12 _ IH]; [done|]. rewrite IH. by destruct H12.
  - intros Hx. destruct Hs as [|p1 p2 p3 H12 _]; [done|]. destruct H12 as [a now Hst|now Hst]; [congruence|].
    apply approval_facts in Hst as [? _]. congruence.
  - intros Hx. destruct (Hinv' _ _ Hp') as (_ & Hint & Hpos & Hst). rewrite Hx in Hst.
    destruct Hst as [(a & Ha & Hne) Hh]. split_and!; try done. exists a. split_and!; [done..|].
    assert (rtc change [] (cf_state c')) as Hch by (eapply (steps_changes slash_init); [by etrans|done]).
    assert (view (R := change) (cf_state c') i = Some (item_of p')) as Hv by (simpl; by rewrite Hp').
    pose proof (reachable_four_eyes (R := change) [] (cf_state c') i (item_of p') (fun _ => eq_refl) Hch Hv) as Hf.
    unfold four_eyes, item_of in Hf. rewrite Hx, Ha in Hf. by apply Hf.
Qed.

(** ** Two ways a proposal gets stuck or misreported *)

(** The service alone, with a sink that accepts or rejects. *)
Definition alone (e : Env) : forall X, SlashEv X -> Proposals -> X * Proposals := do_event e.

(** When the audit sink rejects, [executeSlash] reports an error although
    the stake has been swept: the proposal is executed all the same, and the
    retry the error invites is refused as a duplicate. *)
Theorem sweep_survives_audit_failure e i by_ s p :
  getProposal i s = Some p -> requiresTwoAdminApproval p = true -> en_sink_ok e = false ->
  let p' := set_executed (sweep_hash i (sp_bookingId p)) (en_now e) p in
  let s' := map_set i p' s in
  run (alone e) (executeSlash i by_) s = (Err SinkRejected, s') /\
  forall e2 by2, run (alone e2) (executeSlash i by2) s' = (Err (SlashAlreadyExecutedError i), s').
Proof.
  intros Hg Ha Hk p' s'. split.
  - unfold executeSlash. rewrite run_bind, run_perform. cbn [alone do_event].
    rewrite execute_section_eq, Hg, Ha.
    rewrite bool_decide_eq_false_2 by (intros E; apply approval_facts in Ha as [? _]; congruence).
    cbn [fst snd]. rewrite run_bind, run_lift. cbv beta iota. rewrite run_bind. unfold audit.
    rewrite run_bind, run_perform. cbn [alone do_event fst snd]. by rewrite Hk.
  - intros e2 by2. unfold executeSlash. rewrite run_bind, run_perform. cbn [alone do_event].
    rewrite execute_section_eq. unfold getProposal, s'. by rewrite map_get_set_eq.
Qed.

(** The identity of the approver is not checked: an approval in the name
    of the empty string is recorded, but the proposal can then neither be
    executed nor approved by anyone else, in any further execution. *)
Theorem empty_approver_strands c c' i p :
  rtc (step exec_event slash_request) slash_init c ->
  rtc (step exec_event slash_request) c c' ->
  getProposal i (cf_state c) = Some p -> sp_status p = approved -> sp_approvedBy p = Some ""%string ->
  getProposal i (cf_state c') = Some p.
Proof.
  intros H0 Hr Hp Hst Ha. assert (slash_inv []) as Hnil by done.
  destruct (steps_evolve _ _ H0 Hnil) as [Hinv _]. destruct (steps_evolve _ _ Hr Hinv) as [_ He].
  destruct (He _ _ Hp) as (p' & Hp' & Hs). rewrite Hp'. f_equal.
  destruct Hs as [|p1 p2 p3 H12 _]; [done|]. destruct H12 as [a now Hst'|now Hst']; [congruence|].
  apply approval_facts in Hst' as (_ & a & Ha' & Hne & _). congruence.
Qed.

(** ** Executions *)

Lemma slash_advance_ok c n e :
  getProposal (en_uuid e) (cf_state c) = None ->
  rtc (step exec_event slash_request) c (advance do_event c (n, e)).
Proof.
  intros Hf. apply advance_steps. intros X ev. exists e. split; [done|]. simpl.
  by destruct (do_event e X ev (cf_state c)).
Qed.

(** A request admitted, and its section without an await run. *)
Definition serve (p : SProg unit) (e : Env) (c : Config SlashEv SlashError Proposals)
    : Config SlashEv SlashError Proposals :=
  advance do_event {| cf_state := cf_state c; cf_pool := cf_pool c ++ [p] |} (length (cf_pool c), e).

Lemma slash_serve_steps c p e :
  slash_request p -> getProposal (en_uuid e) (cf_state c) = None ->
  rtc (step exec_event slash_request) c (serve p e c).
Proof. intros Hp Hf. destruct c as [s pool]. eapply rtc_l; [by apply step_admit|]. by apply slash_advance_ok. Qed.

End Service.

Section Executions.
Local Open Scope string_scope.

Definition w_sha (s : string) : string := s.
Definition w_env (uuid : string) (ok : bool) : Env := {| en_uuid := uuid; en_now := "2026-01-01"; en_sink_ok := ok |}.

Definition w_params : SlashParams :=
  {| sq_bookingId := "bk"; sq_supplierAddress := "GSUP"; sq_slashAmountStroops := of_Z 500;
     sq_insurancePoolAddress := "CPOOL"; sq_proposedBy := "ada"; sq_fraudReason := "double sold" |}.

Definition w_proposed := serve w_sha (forget (proposeSlash w_params)) (w_env "u1" true) slash_init.
Definition w_approved := serve w_sha (forget (approveSlash "u1" "bob")) (w_env "u2" true) w_proposed.
Definition w_executed := serve w_sha (forget (executeSlash w_sha "u1" "cleo")) (w_env "u3" true) w_approved.
Definition w_blank := serve w_sha (forget (approveSlash "u1" "")) (w_env "u2" true) w_proposed.

Lemma w_proposed_steps : rtc (step (exec_event w_sha) (slash_request w_sha)) slash_init w_proposed.
Proof. apply slash_serve_steps; [constructor|by vm_compute]. Qed.

Lemma w_approved_steps : rtc (step (exec_event w_sha) (slash_request w_sha)) slash_init w_approved.
Proof. etrans; [exact w_proposed_steps|]. apply slash_serve_steps; [constructor|by vm_compute]. Qed.

Lemma w_executed_steps : rtc (step (exec_event w_sha) (slash_request w_sha)) w_approved w_executed.
Proof. apply slash_serve_steps; [constructor|by vm_compute]. Qed.

Lemma w_blank_steps : rtc (step (exec_event w_sha) (slash_request w_sha)) slash_init w_blank.
Proof. etrans; [exact w_proposed_steps|]. apply slash_serve_steps; [constructor|by vm_compute]. Qed.

Definition w_pending : SlashProposal := new_proposal "u1" "2026-01-01" w_params.

Lemma slash_needs_two_admins_witness :
  exists p', getProposal "u1" (cf_state w_executed) = Some p' /\
    terms p' = terms (set_approved "bob" "2026-01-01" w_pending).
Proof.
  destruct (slash_needs_two_admins w_sha w_approved w_executed "u1" (set_approved "bob" "2026-01-01" w_pending)
              w_approved_steps w_executed_steps ltac:(by vm_compute)) as (p' & Hp & Ht & _).
  exact (ex_intro _ p' (conj Hp Ht)).
Defined.

Lemma sweep_survives_audit_failure_witness :
  fst (run (alone w_sha (w_env "u9" false)) (executeSlash w_sha "u1" "cleo") (cf_state w_approved)) =
  Err SinkRejected.
Proof.
  destruct (sweep_survives_audit_failure w_sha (w_env "u9" false) "u1" "cleo" (cf_state w_approved)
              (set_approved "bob" "2026-01-01" w_pending) ltac:(by vm_compute) ltac:(by vm_compute) eq_refl) as [H _].
  by rewrite H.
Defined.

Lemma empty_approver_strands_witness :
  getProposal "u1" (cf_state w_blank) = Some (set_approved "" "2026-01-01" w_pending).
Proof.
  apply (empty_approver_strands w_sha w_blank w_blank "u1" (set_approved "" "2026-01-01" w_pending)
           w_blank_steps (rtc_refl _ _)); by vm_compute.
Defined.

End Executions.
