(* ===== verification/RefundApproval.v ===== *)
(** * RefundApproval: sign-off of large partial refunds

    [PartialRefundApprovalService] of [services/partialRefundApprovalService.ts].
    Every operation completes its reads and writes of the store before its only
    await, the audit logger's [log] (which never throws and answers nothing), so
    an operation is a function on the store.  Ids and the readings of the clock
    are arguments; an operation that reads the clock twice takes both readings.
    The service is shown to implement the four-eyes rule of [DualControl.v]. *)
From stdpp Require Import base list strings gmap relations.
From Stdlib Require Import ZArith Lia.
From S2P Require Import Prelude JsNumber JsMap DualControl.
Local Open Scope Z_scope.

Record CreateRefundRequest : Type := {
  rq_paymentId : string;
  rq_amountCents : num;
  rq_currency : option string;
  rq_reason : option string;
  rq_refundedBy : option string
}.

Inductive ApprovalStatus : Type := pending | approved | denied | expired.

#[export] Instance ApprovalStatus_eq_dec : EqDecision ApprovalStatus.
Proof. solve_decision. Defined.

Record PendingApprovalRequest : Type := {
  pa_id : string;
  pa_refundRequest : CreateRefundRequest;
  pa_initiatorId : string;
  pa_status : ApprovalStatus;
  pa_createdAt : Z;
  pa_expiresAt : Z;
  pa_approverId : option string;
  pa_deniedById : option string;
  pa_deniedReason : option string;
  pa_resolvedAt : option Z
}.

Inductive ApprovalError : Type := INVALID_INPUT | SELF_APPROVAL | NOT_FOUND | ALREADY_RESOLVED | EXPIRED.

(** The constructor's options, merged over the defaults. *)
Record ApprovalConfig : Type := {
  ac_thresholds : gmap string num;
  ac_approvalTtlMs : Z
}.

Definition DEFAULT_APPROVAL_TTL_MS : Z := 30 * 60 * 1000.

Definition DEFAULT_THRESHOLDS : gmap string num :=
  list_to_map [("USD"%string, of_Z 1000000); ("EUR"%string, of_Z 1000000);
               ("GBP"%string, of_Z 800000); ("XLM"%string, of_Z 100000000000)].

Definition make_config (thresholds : option (gmap string num)) (ttl : option Z) : ApprovalConfig :=
  {| ac_thresholds := default ∅ thresholds ∪ DEFAULT_THRESHOLDS;
     ac_approvalTtlMs := default DEFAULT_APPROVAL_TTL_MS ttl |}.

Definition Store : Type := jsmap PendingApprovalRequest.

Section Service.
Context (cfg : ApprovalConfig).

Definition thresholdFor (currency : string) : num := default PInf (ac_thresholds cfg !! to_upper currency).

Definition requiresApproval (r : CreateRefundRequest) : bool :=
  geb (rq_amountCents r) (thresholdFor (default "USD"%string (rq_currency r))).

Definition new_request (id : string) (now : Z) (r : CreateRefundRequest) (initiatorId : string)
    : PendingApprovalRequest :=
  {| pa_id := id; pa_refundRequest := r; pa_initiatorId := initiatorId; pa_status := pending;
     pa_createdAt := now; pa_expiresAt := now + ac_approvalTtlMs cfg; pa_approverId := None;
     pa_deniedById := None; pa_deniedReason := None; pa_resolvedAt := None |}.

(** [inl r]: auto-approved; [inr p]: the pending request. *)
Definition initiate (id : string) (now : Z) (r : CreateRefundRequest) (initiatorId : string)
    : M Store ApprovalError (CreateRefundRequest + PendingApprovalRequest) :=
  _ ← guard (blank initiatorId) INVALID_INPUT;
  if negb (requiresApproval r) then mret (inl r)
  else
    let p := new_request id now r initiatorId in
    _ ← modify (map_set id p);
    mret (inr p).

Definition resolve (st : ApprovalStatus) (approverId deniedById reason : option string) (at_ : Z)
    (p : PendingApprovalRequest) : PendingApprovalRequest :=
  {| pa_id := pa_id p; pa_refundRequest := pa_refundRequest p; pa_initiatorId := pa_initiatorId p;
     pa_status := st; pa_createdAt := pa_createdAt p; pa_expiresAt := pa_expiresAt p;
     pa_approverId := approverId; pa_deniedById := deniedById; pa_deniedReason := reason;
     pa_resolvedAt := Some at_ |}.

Definition expire (p : PendingApprovalRequest) : PendingApprovalRequest :=
  resolve expired (pa_approverId p) (pa_deniedById p) (pa_deniedReason p) (pa_expiresAt p) p.

Definition overdue (now : Z) (p : PendingApprovalRequest) : bool :=
  bool_decide (pa_status p = pending) && (pa_expiresAt p <=? now).

(** A lookup also resolves a request whose time is over. *)
Definition getById (now : Z) (approvalId : string) (s : Store) : option PendingApprovalRequest * Store :=
  match map_get approvalId s with
  | None => (None, s)
  | Some p => if overdue now p then (Some (expire p), map_set approvalId (expire p) s) else (Some p, s)
  end.

Definition requirePending (now : Z) (approvalId : string) : M Store ApprovalError PendingApprovalRequest :=
  fun s =>
    match getById now approvalId s with
    | (None, s') => (Err NOT_FOUND, s')
    | (Some p, s') =>
        match pa_status p with
        | expired => (Err EXPIRED, s')
        | pending => (Ok p, s')
        | _ => (Err ALREADY_RESOLVED, s')
        end
    end.

Definition approve (now now' : Z) (approvalId approverId : string)
    : M Store ApprovalError (PendingApprovalRequest * CreateRefundRequest) :=
  request ← requirePending now approvalId;
  _ ← guard (bool_decide (approverId = pa_initiatorId request)) SELF_APPROVAL;
  let resolved := resolve approved (Some approverId) (pa_deniedById request) (pa_deniedReason request) now' request in
  _ ← modify (map_set approvalId resolved);
  mret (resolved, pa_refundRequest request).

Definition deny (now now' : Z) (approvalId deniedById : string) (reason : option string)
    : M Store ApprovalError PendingApprovalRequest :=
  request ← requirePending now approvalId;
  let resolved := resolve denied (pa_approverId request) (Some deniedById) reason now' request in
  _ ← modify (map_set approvalId resolved);
  mret resolved.

(** The loop over the keys: replacing the value of a present key does not move it. *)
Fixpoint list_from (now : Z) (filter : option ApprovalStatus) (keys : list string) (s : Store)
    : list PendingApprovalRequest * Store :=
  match keys with
  | [] => ([], s)
  | id :: keys' =>
      let '(r, s1) := getById now id s in
      let '(rest, s2) := list_from now filter keys' s1 in
      match r with
      | Some p =>
          if match filter with None => true | Some st => bool_decide (pa_status p = st) end
          then (p :: rest, s2) else (rest, s2)
      | None => (rest, s2)
      end
  end.

Definition list_requests (now : Z) (filter : option ApprovalStatus) (s : Store)
    : list PendingApprovalRequest * Store :=
  list_from now filter (map_keys s) s.

(** ** Effects *)

Inductive request_step (p : PendingApprovalRequest) : PendingApprovalRequest -> Prop :=
| step_expire : pa_status p = pending -> request_step p (expire p)
| step_approve a now now' :
    pa_status p = pending -> now < pa_expiresAt p -> a <> pa_initiatorId p ->
    request_step p (resolve approved (Some a) (pa_deniedById p) (pa_deniedReason p) now' p)
| step_deny d reason now now' :
    pa_status p = pending -> now < pa_expiresAt p ->
    request_step p (resolve denied (pa_approverId p) (Some d) reason now' p).

(** What an operation does to the store: nothing, a new request, or steps of stored ones. *)
Inductive op_effect (s : Store) : Store -> Prop :=
| eff_none : op_effect s s
| eff_open id now r i :
    map_get id s = None -> requiresApproval r = true -> blank i = false ->
    op_effect s (map_set id (new_request id now r i) s)
| eff_step id p p' : map_get id s = Some p -> request_step p p' -> op_effect s (map_set id p' s).

Inductive ApprovalOp : Type :=
| OpInitiate (id : string) (now : Z) (r : CreateRefundRequest) (initiatorId : string)
| OpApprove (now now' : Z) (approvalId approverId : string)
| OpDeny (now now' : Z) (approvalId deniedById : string) (reason : option string)
| OpGet (now : Z) (approvalId : string)
| OpList (now : Z) (filter : option ApprovalStatus).

Definition do_op (o : ApprovalOp) (s : Store) : Store :=
  match o with
  | OpInitiate id now r i => snd (initiate id now r i s)
  | OpApprove now now' id a => snd (approve now now' id a s)
  | OpDeny now now' id d reason => snd (deny now now' id d reason s)
  | OpGet now id => snd (getById now id s)
  | OpList now f => snd (list_requests now f s)
  end.

(** Generated ids are new. *)
Definition fresh_op (o : ApprovalOp) (s : Store) : Prop :=
  match o with OpInitiate id _ _ _ => map_get id s = None | _ => True end.

Inductive history : Store -> Store -> Prop :=
| history_nil s : history s s
| history_cons o s s' : fresh_op o s -> history (do_op o s) s' -> history s s'.

Lemma getById_effect now id s : op_effect s (snd (getById now id s)).
Proof.
  unfold getById. destruct (map_get id s) as [p|] eqn:E; [|constructor].
  destruct (overdue now p) eqn:Eo; [|constructor]. eapply eff_step; [done|]. constructor.
  unfold overdue in Eo. apply andb_true_iff in Eo as [Eo _]. by apply bool_decide_eq_true in Eo.
Qed.

(** A request that passes [requirePending] is stored, pending and not overdue. *)
Lemma requirePending_spec now id s :
  (exists e, requirePending now id s = (Err e, snd (getById now id s))) \/
  exists p, requirePending now id s = (Ok p, s) /\ map_get id s = Some p /\
    pa_status p = pending /\ now < pa_expiresAt p.
Proof.
  unfold requirePending, getById. destruct (map_get id s) as [p|] eqn:E; [|left; by eexists].
  destruct (overdue now p) eqn:Eo; [left; by eexists|]. unfold overdue in Eo.
  destruct (pa_status p) eqn:Est; [|left; by eexists..]. right. exists p. split_and!; try done.
  simpl in Eo. lia.
Qed.

Lemma approve_effect now now' id a s : op_effect s (snd (approve now now' id a s)).
Proof.
  unfold approve, mbind, M_bind. destruct (requirePending_spec now id s) as [[e ->]|(p & -> & Hg & Hst & Hlt)].
  - simpl. apply getById_effect.
  - unfold guard. case_bool_decide; [constructor|]. simpl. eapply eff_step; [done|]. by apply (step_approve p a now now').
Qed.

Lemma deny_effect now now' id d reason s : op_effect s (snd (deny now now' id d reason s)).
Proof.
  unfold deny, mbind, M_bind. destruct (requirePending_spec now id s) as [[e ->]|(p & -> & Hg & Hst & Hlt)].
  - simpl. apply getById_effect.
  - simpl. eapply eff_step; [done|]. by apply (step_deny p d reason now now').
Qed.

Lemma initiate_effect id now r i s : map_get id s = None -> op_effect s (snd (initiate id now r i s)).
Proof.
  intros Hf. unfold initiate, mbind, M_bind, guard. destruct (blank i) eqn:Eb; [constructor|]. simpl.
  destruct (requiresApproval r) eqn:Er; simpl; [by constructor|constructor].
Qed.

Lemma list_effects now f keys s : rtc op_effect s (snd (list_from now f keys s)).
Proof.
  revert s. induction keys as [|id keys IH]; intros s; [done|]. simpl.
  pose proof (getById_effect now id s) as He. destruct (getById now id s) as [r s1]. specialize (IH s1).
  destruct (list_from now f keys s1) as [rest s2]. simpl in *.
  eapply rtc_l; [exact He|]. destruct r; [by case_match|done].
Qed.

Lemma history_effects s s' : history s s' -> rtc op_effect s s'.
Proof.
  induction 1 as [|o s s' Hf _ IH]; [done|]. etrans; [|exact IH].
  destruct o; simpl in *; [|..|apply list_effects]; apply rtc_once;
    auto using initiate_effect, approve_effect, deny_effect, getById_effect.
Qed.

(** ** The four-eyes rule *)

Definition item_of (p : PendingApprovalRequest) : item :=
  match pa_status p with
  | pending => Opened (pa_initiatorId p)
  | approved => Approved (pa_initiatorId p) (default ""%string (pa_approverId p))
  | denied | expired => Closed (pa_initiatorId p)
  end.

Lemma request_step_item p p' : request_step p p' -> item_step (item_of p) (item_of p').
Proof. destruct 1 as [Hs|a now now' Hs Hlt Hne|d reason now now' Hs Hlt]; unfold item_of; rewrite Hs; simpl; constructor; congruence. Qed.

#[global] Instance approval_dual_control : DualControlled Store op_effect.
Proof.
  refine {| view := fun s id => item_of <$> map_get id s |}.
  intros s s' k He. destruct He as [|id now r i Hf _ _|id p p' Hg Hs]; [constructor|..];
    rewrite map_get_set; case_bool_decide; simplify_eq; try constructor.
  - rewrite Hf. constructor.
  - rewrite Hg. constructor. by apply request_step_item.
Defined.

(** ** Histories *)

Definition request_ok (id : string) (p : PendingApprovalRequest) : Prop :=
  pa_id p = id /\ requiresApproval (pa_refundRequest p) = true /\ blank (pa_initiatorId p) = false /\
  match pa_status p with
  | pending => pa_approverId p = None /\ pa_resolvedAt p = None
  | approved => is_Some (pa_approverId p) /\ is_Some (pa_resolvedAt p)
  | denied => pa_approverId p = None /\ is_Some (pa_deniedById p)
  | expired => pa_approverId p = None /\ pa_resolvedAt p = Some (pa_expiresAt p)
  end.

Definition store_ok (s : Store) : Prop :=
  NoDup (map_keys s) /\ forall id p, map_get id s = Some p -> request_ok id p.

Lemma request_step_ok id p p' : request_step p p' -> request_ok id p -> request_ok id p'.
Proof.
  intros Hs (Hid & Hr & Hb & Hst). destruct Hs as [Hp|a now now' Hp _ _|d reason now now' Hp _];
    rewrite Hp in Hst; destruct Hst as [Ha Hres]; (split; [|split; [|split]]); try done; by split.
Qed.

Lemma op_effect_ok s s' : op_effect s s' -> store_ok s -> store_ok s'.
Proof.
  intros He [Hnd Hok]. destruct He as [|id now r i Hf Hr Hb|id p p' Hg Hs]; [done|..];
    (split; [by apply map_set_nodup|]); intros k x; rewrite map_get_set; case_bool_decide; [|by apply Hok| |by apply Hok];
    intros [= <-]; subst k; [by split_and!|]. eapply request_step_ok; [done|by apply Hok].
Qed.

Lemma effects_ok s s' : rtc op_effect s s' -> store_ok s -> store_ok s'.
Proof. induction 1 as [|s1 s2 s3 He _ IH]; [done|]. intros Hs. apply IH. by eapply op_effect_ok. Qed.

Lemma effects_step s s' id p :
  rtc op_effect s s' -> map_get id s = Some p ->
  exists p', map_get id s' = Some p' /\ rtc request_step p p'.
Proof.
  intros Hr. revert p. induction Hr as [s|s1 s2 s3 He _ IH]; intros p Hp; [by exists p|].
  enough (exists p2, map_get id s2 = Some p2 /\ rtc request_step p p2) as (p2 & Hp2 & H2).
  { destruct (IH _ Hp2) as (p3 & Hp3 & H3). exists p3. split; [done|by etrans]. }
  destruct He as [|k now r i Hf _ _|k q q' Hg Hs]; [by exists p|..]; rewrite map_get_set; case_bool_decide;
    simplify_eq; try by exists p. exists q'. split; [done|by apply rtc_once].
Qed.

Lemma empty_store_ok : store_ok [].
Proof. split; [constructor|done]. Qed.

(** (C25) Over any history a stored request keeps its refund, initiator and
    deadline; once approved, denied or expired it never changes again; and an
    approved request reached its currency's threshold and was approved by
    somebody other than its (non-blank) initiator. *)
Theorem refund_needs_second_admin s s' id p :
  history [] s -> history s s' -> map_get id s = Some p ->
  exists p', map_get id s' = Some p' /\
    pa_refundRequest p' = pa_refundRequest p /\ pa_initiatorId p' = pa_initiatorId p /\
    pa_expiresAt p' = pa_expiresAt p /\
    (pa_status p <> pending -> p' = p) /\
    (pa_status p' = approved ->
       requiresApproval (pa_refundRequest p') = true /\ blank (pa_initiatorId p') = false /\
       exists a, pa_approverId p' = Some a /\ a <> pa_initiatorId p').
Proof.
  intros H0 Hr Hp. apply history_effects in H0, Hr. destruct (effects_step _ _ _ _ Hr Hp) as (p' & Hp' & Hst).
  assert (rtc op_effect [] s') as H0' by (by etrans).
  destruct (effects_ok _ _ H0' empty_store_ok) as [_ Hok]. destruct (Hok _ _ Hp') as (_ & Hreq & Hb & Hs').
  exists p'. split; [done|].
  assert (pa_refundRequest p' = pa_refundRequest p /\ pa_initiatorId p' = pa_initiatorId p /\
          pa_expiresAt p' = pa_expiresAt p) as (? & ? & ?).
  { clear -Hst. induction Hst as [|p1 p2 p3 H12 _ (-> & -> & ->)]; [done|]. by destruct H12. }
  split_and!; [done..| |].
  - intros Hn. destruct Hst as [|p1 p2 p3 H12 _]; [done|]. by destruct H12.
  - intros Ha. rewrite Ha in Hs'. destruct Hs' as [[a Ea] _]. split_and!; [done..|]. exists a. split; [done|].
    assert (view (R := op_effect) s' id = Some (item_of p')) as Hv by (simpl; by rewrite Hp').
    pose proof (reachable_four_eyes (R := op_effect) [] s' id _ (fun _ => eq_refl) H0' Hv) as Hf.
    unfold four_eyes, item_of in Hf. rewrite Ha, Ea in Hf. by apply Hf.
Qed.

(** The outcome of an approval on every branch; an approval after the
    deadline is refused and leaves the request expired. *)
Theorem approve_exact now now' id a s :
  approve now now' id a s =
  match map_get id s with
  | None => (Err NOT_FOUND, s)
  | Some p =>
      match pa_status p with
      | approved | denied => (Err ALREADY_RESOLVED, s)
      | expired => (Err EXPIRED, s)
      | pending =>
          if pa_expiresAt p <=? now then (Err EXPIRED, map_set id (expire p) s)
          else if bool_decide (a = pa_initiatorId p) then (Err SELF_APPROVAL, s)
          else let p' := resolve approved (Some a) (pa_deniedById p) (pa_deniedReason p) now' p in
               (Ok (p', pa_refundRequest p), map_set id p' s)
      end
  end.
Proof.
  unfold approve, mbind, M_bind, requirePending, getById, overdue, guard.
  destruct (map_get id s) as [p|]; [|done]. destruct (pa_status p) eqn:Est; simpl; rewrite ?Est; try done.
  destruct (pa_expiresAt p <=? now); simpl; [done|]. rewrite Est. by case_bool_decide.
Qed.

(** ** Listing *)

Definition settle (now : Z) (p : PendingApprovalRequest) : PendingApprovalRequest :=
  if overdue now p then expire p else p.

Definition settle_all (now : Z) (s : Store) : Store := map (fun kv => (kv.1, settle now kv.2)) s.

Definition selected (f : option ApprovalStatus) (p : PendingApprovalRequest) : bool :=
  match f with None => true | Some st => bool_decide (pa_status p = st) end.

(** One lookup in the middle of the store. *)
Lemma getById_middle now l k p r :
  k ∉ map_keys l -> k ∉ map_keys r ->
  getById now k (l ++ (k, p) :: r) = (Some (settle now p), l ++ (k, settle now p) :: r).
Proof.
  intros Hl Hr. apply map_get_None in Hl. unfold map_get in Hl. apply fmap_None in Hl.
  assert (map_get k (l ++ (k, p) :: r) = Some p) as Hg.
  { unfold map_get. rewrite find_first_app, Hl. simpl. unfold at_key. by rewrite bool_decide_eq_true_2. }
  unfold getById, settle. rewrite Hg. destruct (overdue now p); [|done]. f_equal. unfold map_set. rewrite Hg.
  clear Hg. induction l as [|x l IH]; simpl in *; [unfold at_key; by rewrite bool_decide_eq_true_2|].
  destruct (at_key k x); [done|]. f_equal. by apply IH.
Qed.

Lemma list_from_settles now f l r :
  NoDup (map_keys (l ++ r)) ->
  list_from now f (map_keys r) (l ++ r) =
  (List.filter (selected f) (map (settle now) (map_values r)), l ++ settle_all now r).
Proof.
  revert l. induction r as [|[k p] r IH]; intros l Hnd; [by simpl; rewrite app_nil_r|].
  assert ((k ∉ map_keys l) /\ (k ∉ map_keys r)) as [Hl Hr].
  { unfold map_keys in *. rewrite map_app in Hnd. simpl in Hnd. apply NoDup_app in Hnd as (_ & Hd & Hn).
    apply NoDup_cons in Hn as [Hn _]. split; [|done]. intros Hin. apply (Hd k Hin). constructor. }
  change (map_keys ((k, p) :: r)) with (k :: map_keys r). cbn [list_from]. rewrite (getById_middle now l k p r Hl Hr).
  specialize (IH (l ++ [(k, settle now p)])). rewrite <- app_assoc in IH. simpl in IH. rewrite IH.
  - simpl. rewrite <- app_assoc. unfold selected. destruct f as [st|]; [by case_bool_decide|done].
  - revert Hnd. unfold map_keys. rewrite !map_app. done.
Qed.

(** Listing settles exactly the requests whose time is over and returns
    the settled requests of the wanted status in the order they were made. *)
Theorem list_requests_correct now f s :
  history [] s ->
  list_requests now f s =
  (List.filter (selected f) (map (settle now) (map_values s)), settle_all now s).
Proof.
  intros Hh. apply history_effects in Hh. destruct (effects_ok _ _ Hh empty_store_ok) as [Hnd _].
  by apply (list_from_settles now f []).
Qed.

End Service.

Section Executions.
Local Open Scope string_scope.

Definition w_cfg : ApprovalConfig := make_config None None.

Definition w_refund : CreateRefundRequest :=
  {| rq_paymentId := "pay"; rq_amountCents := of_Z 1500000; rq_currency := Some "eur"; rq_reason := None;
     rq_refundedBy := None |}.

Definition w_s1 : Store := do_op w_cfg (OpInitiate "rap_1" 1000 w_refund "ada") [].
Definition w_s2 : Store := do_op w_cfg (OpApprove 2000 2001 "rap_1" "bob") w_s1.

Lemma w_s1_history : history w_cfg [] w_s1.
Proof. eapply (history_cons w_cfg (OpInitiate "rap_1" 1000 w_refund "ada")); [done|constructor]. Qed.

Lemma w_s2_history : history w_cfg w_s1 w_s2.
Proof. eapply (history_cons w_cfg (OpApprove 2000 2001 "rap_1" "bob")); [done|constructor]. Qed.

Lemma refund_needs_second_admin_witness :
  exists p', map_get "rap_1" w_s2 = Some p' /\ pa_refundRequest p' = w_refund.
Proof.
  destruct (refund_needs_second_admin w_cfg w_s1 w_s2 "rap_1" (new_request w_cfg "rap_1" 1000 w_refund "ada")
              w_s1_history w_s2_history ltac:(by vm_compute)) as (p' & Hp & Hr & _).
  exact (ex_intro _ p' (conj Hp Hr)).
Defined.

Lemma list_requests_correct_witness :
  fst (list_requests 9000000 (Some expired) w_s1) = [expire (new_request w_cfg "rap_1" 1000 w_refund "ada")].
Proof. rewrite (list_requests_correct w_cfg 9000000 (Some expired) w_s1 w_s1_history). by vm_compute. Defined.

End Executions.
