(* ===== verification/Refunds.v ===== *)
(** * Refunds: partial refunds of a paid checkout session

    [RefundService] of [services/refund.ts] over the statements of
    [modules/checkout/pg-refund-repository.ts] and the constraints of the table
    [refund_entries].  A refund reads the session, reads the sum refunded so far,
    and inserts a row: three statements, each atomic, with awaits between them. *)
From stdpp Require Import base list strings gmap relations.
From Stdlib Require Import ZArith Lia.
From S2P Require Import Prelude JsNumber Async Checkout RefundApproval.
Local Open Scope Z_scope.

(** A row; the status is always "completed". *)
Record RefundEntry : Type := {
  re_id : string;
  re_paymentId : string;
  re_amountCents : Z;
  re_currency : string;
  re_reason : option string;
  re_refundedBy : option string;
  re_createdAt : Z
}.

Inductive RefundError : Type :=
| REFUND_SESSION_NOT_FOUND
| REFUND_INVALID_SESSION_STATE (currentState : CheckoutSessionStatus)
| REFUND_EXCEEDS_REMAINING (captured refunded remaining requested : num)
| DatabaseError.

(** The sessions, which refunds only read, and the rows in order of insertion
    (which is the order of [created_at]). *)
Record RefundDb : Type := { rd_sessions : Table; rd_entries : list RefundEntry }.

Section Service.

(** [accepts] decides the constraints on the columns other than the amount and
    the payment: the length of the currency, the reference to the users table. *)
Context (accepts : CreateRefundRequest -> bool).

(** ** Statements *)

Definition of_payment (paymentId : string) (e : RefundEntry) : bool := bool_decide (re_paymentId e = paymentId).

Definition findByPaymentId (paymentId : string) (db : RefundDb) : list RefundEntry :=
  List.filter (of_payment paymentId) (rd_entries db).

(** [SELECT COALESCE(SUM(amount_cents), 0)]. *)
Definition sumRefundedCents (paymentId : string) (db : RefundDb) : Z :=
  fold_right (fun e t => re_amountCents e + t) 0 (findByPaymentId paymentId db).

(** [amount_cents INTEGER CHECK (amount_cents > 0)]. *)
Definition column_amount (a : num) : option Z :=
  match a with
  | Fin x => if is_integer a && (0 <? x) && (x <? 2 ^ 31 * U) then Some (x / U) else None
  | _ => None
  end.

(** The insertion, or an error of the database when a constraint fails; [id]
    and [now] are the defaults the database draws. *)
Definition repo_create_refund (id : string) (now : Z) (r : CreateRefundRequest) (db : RefundDb)
    : option RefundEntry * RefundDb :=
  match column_amount (rq_amountCents r), rd_sessions db !! rq_paymentId r with
  | Some cents, Some _ =>
      if accepts r then
        let e := {| re_id := id; re_paymentId := rq_paymentId r; re_amountCents := cents;
                    re_currency := default "USD"%string (rq_currency r); re_reason := rq_reason r;
                    re_refundedBy := rq_refundedBy r; re_createdAt := now |} in
        (Some e, {| rd_sessions := rd_sessions db; rd_entries := rd_entries db ++ [e] |})
      else (None, db)
  | _, _ => (None, db)
  end.

(** ** The service *)

Inductive RefundEv : Type -> Type :=
| FindSession (id : string) : RefundEv (option CheckoutSession)
| SumRefunded (paymentId : string) : RefundEv Z
| FindRefunds (paymentId : string) : RefundEv (list RefundEntry)
| InsertRefund (r : CreateRefundRequest) : RefundEv (option RefundEntry).

Abbreviation RProg := (Prog RefundEv RefundError).

Definition createRefund (r : CreateRefundRequest) : RProg RefundEntry :=
  found ← perform (FindSession (rq_paymentId r));
  session ← need found REFUND_SESSION_NOT_FOUND;
  _ ← throw_when (negb (bool_decide (cs_status session = COMPLETED)))
        (REFUND_INVALID_SESSION_STATE (cs_status session));
  let capturedAmount := amount (cs_payment session) in
  sum ← perform (SumRefunded (rq_paymentId r));
  let currentRefunded := of_Z sum in
  let remaining := sub capturedAmount currentRefunded in
  _ ← throw_when (gtb (rq_amountCents r) remaining)
        (REFUND_EXCEEDS_REMAINING capturedAmount currentRefunded remaining (rq_amountCents r));
  created ← perform (InsertRefund r);
  need created DatabaseError.

Record PaymentTrace : Type := {
  pt_session : CheckoutSession;
  pt_refunds : list RefundEntry;
  pt_totalRefundedCents : num;
  pt_remainingCents : num
}.

Definition total_refunded (l : list RefundEntry) : num :=
  fold_left (fun sum e => add sum (of_Z (re_amountCents e))) l zero.

Definition getPaymentTrace (paymentId : string) : RProg PaymentTrace :=
  found ← perform (FindSession paymentId);
  session ← need found REFUND_SESSION_NOT_FOUND;
  refunds ← perform (FindRefunds paymentId);
  let total := total_refunded refunds in
  mret {| pt_session := session; pt_refunds := refunds; pt_totalRefundedCents := total;
          pt_remainingCents := sub (amount (cs_payment session)) total |}.

(** The database draws an id and a time. *)
Definition do_statement (o : string * Z) (X : Type) (ev : RefundEv X) (db : RefundDb) : X * RefundDb :=
  match ev in RefundEv X return X * RefundDb with
  | FindSession id => (rd_sessions db !! id, db)
  | SumRefunded id => (sumRefundedCents id db, db)
  | FindRefunds id => (findByPaymentId id db, db)
  | InsertRefund r => repo_create_refund o.1 o.2 r db
  end.

Definition exec_statement (X : Type) (ev : RefundEv X) (db : RefundDb) (x : X) (db' : RefundDb) : Prop :=
  exists o, do_statement o X ev db = (x, db').

Inductive refund_request : RProg unit -> Prop :=
| rr_create r : refund_request (forget (createRefund r))
| rr_trace id : refund_request (forget (getPaymentTrace id)).

(** ** Bounds *)

(** Captured amounts are integers of cents below 2^50, and no more than them was
    refunded; amounts in rows are positive. *)
Definition captured (s : CheckoutSession) : Z := match amount (cs_payment s) with Fin x => x / U | _ => 0 end.

Definition sessions_ok (t : Table) : Prop :=
  forall id s, t !! id = Some s -> exists c, amount (cs_payment s) = Fin (c * U) /\ 0 <= c <= 2 ^ 50.

Definition within_captured (db : RefundDb) : Prop :=
  Forall (fun e => 0 < re_amountCents e) (rd_entries db) /\
  forall id s, rd_sessions db !! id = Some s -> sumRefundedCents id db <= captured s.

Lemma captured_int s c : amount (cs_payment s) = Fin (c * U) -> captured s = c.
Proof. unfold captured. intros ->. apply Z.div_mul. pose proof U_pos. lia. Qed.

Lemma column_amount_spec a n : column_amount a = Some n -> a = Fin (n * U) /\ 0 < n < 2 ^ 31.
Proof.
  unfold column_amount. destruct a as [x| | |]; try done.
  destruct (is_integer (Fin x) && (0 <? x) && (x <? 2 ^ 31 * U)) eqn:E; [|done]. intros [= <-].
  apply andb_true_iff in E as [[Hi H0]%andb_true_iff H1]. unfold is_integer in Hi. rewrite zmod_eq in Hi.
  apply Z.eqb_eq in Hi. apply Z.ltb_lt in H0, H1. pose proof U_pos.
  apply Z.mod_divide in Hi as [n ->]; [|lia]. rewrite Z.div_mul by lia. split; [done|nia].
Qed.

Lemma column_amount_int n : 0 < n < 2 ^ 31 -> column_amount (Fin (n * U)) = Some n.
Proof.
  intros Hn. pose proof U_pos. unfold column_amount. rewrite is_integer_int.
  rewrite (proj2 (Z.ltb_lt 0 (n * U))) by nia. rewrite (proj2 (Z.ltb_lt (n * U) (2 ^ 31 * U))) by nia.
  simpl. rewrite Z.div_mul by lia. done.
Qed.

Lemma sum_nonneg id db : Forall (fun e => 0 < re_amountCents e) (rd_entries db) -> 0 <= sumRefundedCents id db.
Proof.
  unfold sumRefundedCents, findByPaymentId. induction 1 as [|e l He _ IH]; simpl; [lia|].
  destruct (of_payment id e); simpl; lia.
Qed.

Lemma sum_insert id db e :
  sumRefundedCents id {| rd_sessions := rd_sessions db; rd_entries := rd_entries db ++ [e] |} =
  sumRefundedCents id db + (if of_payment id e then re_amountCents e else 0).
Proof.
  unfold sumRefundedCents, findByPaymentId. simpl. induction (rd_entries db) as [|x l IH]; simpl.
  - destruct (of_payment id e); simpl; lia.
  - destruct (of_payment id x); simpl; lia.
Qed.

Lemma insert_within id now r db e db' s :
  repo_create_refund id now r db = (Some e, db') -> within_captured db ->
  rd_sessions db !! rq_paymentId r = Some s ->
  sumRefundedCents (rq_paymentId r) db + re_amountCents e <= captured s -> within_captured db'.
Proof.
  unfold repo_create_refund. intros H [Hpos Hle] Hs Hb.
  destruct (column_amount (rq_amountCents r)) as [n|] eqn:En; [|done]. rewrite Hs in H.
  destruct (accepts r); [|done]. injection H as <- <-. apply column_amount_spec in En as [_ Hn]. split.
  - apply Forall_app. split; [done|]. by constructor; [simpl; lia|].
  - intros k x Hx. rewrite sum_insert. unfold of_payment. simpl in *. case_bool_decide as Hk.
    + subst k. assert (x = s) as -> by congruence. done.
    + specialize (Hle k x Hx). lia.
Qed.

(** ** One refund at a time *)

(** What [createRefund] decides, and leaves in the table. *)
Definition refund_spec (o : string * Z) (r : CreateRefundRequest) (db : RefundDb)
    : result RefundError RefundEntry * RefundDb :=
  match rd_sessions db !! rq_paymentId r with
  | None => (Err REFUND_SESSION_NOT_FOUND, db)
  | Some s =>
      if negb (bool_decide (cs_status s = COMPLETED)) then (Err (REFUND_INVALID_SESSION_STATE (cs_status s)), db)
      else
        let left_ := captured s - sumRefundedCents (rq_paymentId r) db in
        if gtb (rq_amountCents r) (Fin (left_ * U)) then
          (Err (REFUND_EXCEEDS_REMAINING (amount (cs_payment s)) (Fin (sumRefundedCents (rq_paymentId r) db * U))
                  (Fin (left_ * U)) (rq_amountCents r)), db)
        else match repo_create_refund o.1 o.2 r db with
             | (Some e, db') => (Ok e, db')
             | (None, _) => (Err DatabaseError, db)
             end
  end.

Lemma createRefund_run o r db :
  sessions_ok (rd_sessions db) -> within_captured db ->
  run (do_statement o) (createRefund r) db = refund_spec o r db.
Proof.
  intros Hs [Hpos Hle]. unfold createRefund, refund_spec. rewrite run_bind, run_perform. cbn [do_statement fst snd].
  rewrite run_bind, run_need. destruct (rd_sessions db !! rq_paymentId r) as [s|] eqn:Es; [|done]. cbn [from_option_or].
  rewrite run_bind, run_throw_when. destruct (negb _); [done|].
  rewrite run_bind, run_perform. cbn [do_statement fst snd].
  destruct (Hs _ _ Es) as (c & Hc & Hb). specialize (Hle _ _ Es). pose proof (sum_nonneg (rq_paymentId r) db Hpos) as Hnn.
  rewrite (captured_int _ _ Hc) in *. rewrite Hc, of_Z_exact, sub_cents by lia.
  rewrite run_bind, run_throw_when. destruct (gtb _ _); [done|].
  rewrite run_bind, run_perform. cbn [do_statement]. unfold repo_create_refund.
  destruct (column_amount _); [|done]. rewrite Es. by destruct (accepts r).
Qed.

Lemma refund_spec_within o r db :
  sessions_ok (rd_sessions db) -> within_captured db ->
  within_captured (snd (refund_spec o r db)) /\ rd_sessions (snd (refund_spec o r db)) = rd_sessions db.
Proof.
  intros Hs Hw. unfold refund_spec. destruct (rd_sessions db !! rq_paymentId r) as [s|] eqn:Es; [|done].
  destruct (negb _); [done|]. cbv zeta. destruct (gtb _ _) eqn:Eg; [done|].
  destruct (repo_create_refund o.1 o.2 r db) as [[e|] db'] eqn:Ei; [|done]. simpl.
  pose proof Ei as Ei'. unfold repo_create_refund in Ei'.
  destruct (column_amount (rq_amountCents r)) as [n|] eqn:En; [|done]. rewrite Es in Ei'.
  destruct (accepts r); [|done]. injection Ei' as <- <-. split; [|done].
  eapply insert_within; [exact Ei|done|done|]. simpl. apply column_amount_spec in En as [En Hn].
  rewrite En in Eg. unfold gtb, ltb in Eg. apply Z.ltb_ge in Eg. pose proof U_pos. nia.
Qed.

(** A history of refunds that do not overlap. *)
Definition refund_history (l : list ((string * Z) * CreateRefundRequest)) (db : RefundDb) : RefundDb :=
  fold_left (fun db or => snd (run (do_statement or.1) (createRefund or.2) db)) l db.

Lemma refund_history_within l db :
  sessions_ok (rd_sessions db) -> within_captured db ->
  within_captured (refund_history l db) /\ rd_sessions (refund_history l db) = rd_sessions db.
Proof.
  revert db. induction l as [|[o r] l IH]; intros db Hs Hw; [done|].
  change (refund_history ((o, r) :: l) db) with (refund_history l (snd (run (do_statement o) (createRefund r) db))).
  rewrite createRefund_run by done. destruct (refund_spec_within o r db Hs Hw) as [Hw' He].
  destruct (IH (snd (refund_spec o r db))) as [? ?]; [by rewrite He|done|]. split; [done|congruence].
Qed.

(** (C26) Refunds made one after the other never exceed the captured amount,
    and each has exactly the outcome of [refund_spec]: a refund of at most what is left
    of a completed session goes through when the row satisfies the table's
    constraints, every other one fails and stores nothing. *)
Theorem sequential_refunds_bounded l o r sessions :
  sessions_ok sessions ->
  let db := refund_history l {| rd_sessions := sessions; rd_entries := [] |} in
  run (do_statement o) (createRefund r) db = refund_spec o r db /\
  forall id s, sessions !! id = Some s ->
    0 <= sumRefundedCents id (snd (run (do_statement o) (createRefund r) db)) <= captured s.
Proof.
  intros Hs db. assert (within_captured {| rd_sessions := sessions; rd_entries := [] |}) as H0.
  { split; [constructor|]. intros id s Hid. destruct (Hs _ _ Hid) as (c & Hc & Hb).
    rewrite (captured_int _ _ Hc). unfold sumRefundedCents. simpl. lia. }
  destruct (refund_history_within l {| rd_sessions := sessions; rd_entries := [] |} Hs H0) as [Hw He]. fold db in Hw, He. simpl in He.
  assert (sessions_ok (rd_sessions db)) as Hs' by (by rewrite He).
  rewrite createRefund_run by done. split; [done|]. intros id s Hid.
  destruct (refund_spec_within o r db Hs' Hw) as [[Hp Hle] He']. split; [by apply sum_nonneg|].
  apply Hle. by rewrite He', He.
Qed.

(** ** The trace of a payment *)

Lemma total_refunded_from l a :
  Forall (fun e => 0 < re_amountCents e) l -> 0 <= a ->
  a + fold_right (fun e t => re_amountCents e + t) 0 l <= 2 ^ 53 ->
  fold_left (fun sum e => add sum (of_Z (re_amountCents e))) l (Fin (a * U)) =
  Fin ((a + fold_right (fun e t => re_amountCents e + t) 0 l) * U).
Proof.
  intros H. revert a. induction H as [|e l He Hl IH]; intros a Ha Hb; simpl in *; [f_equal; lia|].
  assert (0 <= fold_right (fun e t => re_amountCents e + t) 0 l).
  { clear -Hl. induction Hl; simpl; lia. }
  rewrite of_Z_exact, add_cents by lia. rewrite IH by lia. f_equal. lia.
Qed.

(** The trace of a payment lists exactly its refunds, and its totals are
    exact: what was captured is what was refunded plus what remains, which is not negative as
    long as refunds are made one after the other. *)
Theorem trace_balances l o id s sessions :
  sessions_ok sessions -> sessions !! id = Some s ->
  let db := refund_history l {| rd_sessions := sessions; rd_entries := [] |} in
  let sum := sumRefundedCents id db in
  run (do_statement o) (getPaymentTrace id) db =
  (Ok {| pt_session := s; pt_refunds := findByPaymentId id db; pt_totalRefundedCents := Fin (sum * U);
         pt_remainingCents := Fin ((captured s - sum) * U) |}, db) /\ sum <= captured s.
Proof.
  intros Hs Hid db sum. assert (within_captured {| rd_sessions := sessions; rd_entries := [] |}) as H0.
  { split; [constructor|]. intros k x Hk. destruct (Hs _ _ Hk) as (c & Hc & Hb).
    rewrite (captured_int _ _ Hc). unfold sumRefundedCents. simpl. lia. }
  destruct (refund_history_within l {| rd_sessions := sessions; rd_entries := [] |} Hs H0) as [[Hp Hle] He].
  fold db in Hp, Hle, He. simpl in He. assert (rd_sessions db !! id = Some s) as Hdb by (by rewrite He).
  specialize (Hle _ _ Hdb). split; [|done]. destruct (Hs _ _ Hid) as (c & Hc & Hb).
  pose proof (sum_nonneg id db Hp). unfold getPaymentTrace.
  rewrite run_bind, run_perform. cbn [do_statement fst snd]. rewrite Hdb, run_bind, run_need. cbn [from_option_or].
  rewrite run_bind, run_perform. cbn [do_statement fst snd]. rewrite run_mret.
  rewrite (captured_int _ _ Hc) in *. assert (total_refunded (findByPaymentId id db) = Fin (sum * U)) as ->.
  { unfold total_refunded, zero. change (Fin 0) with (Fin (0 * U)). rewrite total_refunded_from; [done| |lia|].
    - rewrite List.Forall_forall in *. intros x [Hx _]%filter_In. by apply Hp.
    - fold (sumRefundedCents id db). lia. }
  rewrite Hc, sub_cents by lia. done.
Qed.

End Service.

(** ** Overlapping refunds *)

Section Executions.
Local Open Scope string_scope.

Definition w_session : CheckoutSession :=
  {| cs_id := "cs"; cs_payment := {| amount := Fin (100 * U); currency := "USD"; paymentMethod := "card";
                                     pay_description := None; asset := None |};
     cs_customerId := "bea"; cs_status := COMPLETED; cs_createdAt := 0; cs_expiresAt := 10; cs_metadata := None;
     cs_successUrl := None; cs_cancelUrl := None; cs_paymentToken := None; cs_updatedAt := 0 |}.

Definition w_sessions : Table := {[ "cs" := w_session ]}.
Definition w_all (r : CreateRefundRequest) : bool := true.

Definition w_ask (n : Z) : CreateRefundRequest :=
  {| rq_paymentId := "cs"; rq_amountCents := Fin (n * U); rq_currency := None; rq_reason := None;
     rq_refundedBy := None |}.

Lemma w_sessions_ok : sessions_ok w_sessions.
Proof.
  intros id s Hs. unfold w_sessions in Hs. apply lookup_singleton_Some in Hs as [<- <-]. exists 100. split; [done|lia].
Qed.

Definition w_empty : RefundDb := {| rd_sessions := w_sessions; rd_entries := [] |}.

(** Both requests read the sum before either inserts its row. *)
Definition w_both : Config RefundEv RefundError RefundDb :=
  follow (do_statement w_all)
    [(0, ("", 0%Z)); (1, ("", 0%Z)); (0, ("", 0%Z)); (1, ("", 0%Z)); (0, ("r1", 5%Z)); (1, ("r2", 6%Z))]%nat
    {| cf_state := w_empty; cf_pool := [forget (createRefund (w_ask 80)); forget (createRefund (w_ask 80))] |}.

Lemma w_both_steps :
  rtc (step (exec_statement w_all) refund_request) {| cf_state := w_empty; cf_pool := [] |} w_both.
Proof.
  etrans; [apply (admit_steps _ _ w_empty [] [forget (createRefund (w_ask 80)); forget (createRefund (w_ask 80))])|].
  - repeat constructor.
  - apply follow_steps. intros o X ev db. exists o. by destruct (do_statement w_all o X ev db).
Qed.

(** The bound does not survive concurrency: of a payment of 100, two
    overlapping requests of 80 both pass the check and both are recorded as completed, 160 in all. *)
Theorem concurrent_refunds_exceed_captured :
  exists c, rtc (step (exec_statement w_all) refund_request) {| cf_state := w_empty; cf_pool := [] |} c /\
    cf_pool c = [Ret tt; Ret tt] /\
    captured w_session = 100 /\ sumRefundedCents "cs" (cf_state c) = 160.
Proof. exists w_both. split; [exact w_both_steps|]. split_and!; by vm_compute. Qed.

Lemma sequential_refunds_bounded_witness :
  fst (run (do_statement w_all ("r2", 6%Z)) (createRefund (w_ask 80))
         (refund_history w_all [(("r1", 5%Z), w_ask 80)] w_empty)) <> Ok (Build_RefundEntry "r2" "cs" 80 "USD" None None 6).
Proof.
  destruct (sequential_refunds_bounded w_all [(("r1", 5%Z), w_ask 80)] ("r2", 6%Z) (w_ask 80) w_sessions
              w_sessions_ok) as [H _].
  change {| rd_sessions := w_sessions; rd_entries := [] |} with w_empty in H. rewrite H. vm_compute. discriminate.
Defined.

Lemma trace_balances_witness :
  sumRefundedCents "cs" (refund_history w_all [(("r1", 5%Z), w_ask 80)] w_empty) <= 100.
Proof.
  destruct (trace_balances w_all [(("r1", 5%Z), w_ask 80)] ("", 0%Z) "cs" w_session w_sessions w_sessions_ok
              (lookup_singleton_eq _ _)) as [_ H].
  etrans; [exact H|]. vm_compute. discriminate.
Defined.

End Executions.
