(* ===== verification/TaxRefund.v ===== *)
(** * TaxRefund: tax-adjusted partial refunds

    [services/taxRefundCalculator.ts]: rules per jurisdiction with effective
    dates, and the refund of every tax line in proportion to the refunded
    subtotal, rounded down.  [Date.parse] is a parameter (its answer is [NaN] on
    invalid input); the clock is an argument.  The checks of run-time types that
    the types of the model already express are not repeated. *)
From stdpp Require Import base list strings gmap.
From Stdlib Require Import ZArith Lia.
From S2P Require Import Prelude JsNumber.
Local Open Scope Z_scope.

Inductive TaxRefundStrategy : Type := full_proportional | prorated.

#[export] Instance TaxRefundStrategy_eq_dec : EqDecision TaxRefundStrategy.
Proof. solve_decision. Defined.

Record JurisdictionTaxRule : Type := {
  jr_jurisdictionCode : string;
  jr_strategy : TaxRefundStrategy;
  jr_prorateCoefficient : option num;
  jr_effectiveFrom : string;
  jr_effectiveTo : option string;
  jr_metadata : option (gmap string string)
}.

Record TaxLine : Type := {
  tl_label : string;
  tl_amountCents : num;
  tl_jurisdictionCode : string
}.

Record TaxRefundInput : Type := {
  ti_capturedAmountCents : num;
  ti_subtotalCents : num;
  ti_taxLines : list TaxLine;
  ti_refundSubtotalCents : num;
  ti_asOf : option string
}.

Record TaxLineRefund : Type := {
  tr_label : string;
  tr_jurisdictionCode : string;
  tr_proportionalTaxCents : num;
  tr_refundableTaxCents : num;
  tr_strategyApplied : TaxRefundStrategy;
  tr_prorateCoefficient : option num;
  tr_appliedRule : JurisdictionTaxRule
}.

Record TaxAdjustedRefundRecord : Type := {
  ta_refundSubtotalCents : num;
  ta_taxLineRefunds : list TaxLineRefund;
  ta_totalTaxRefundCents : num;
  ta_totalRefundCents : num;
  ta_calculatedAt : num
}.

Inductive TaxError : Type :=
| INVALID_RULE (field : string)
| INVALID_TAX_INPUT (field : string)
| NO_RULE_FOUND (jurisdictionCode : string).

Section Calculator.
Context (parse : string -> num).

(** [isNaN]. *)
Definition is_nan (a : num) : bool := match a with NaN => true | _ => false end.

(** [r.effectiveTo ? new Date(r.effectiveTo).getTime() : Infinity]. *)
Definition effective_to (r : JurisdictionTaxRule) : num :=
  match jr_effectiveTo r with Some t => if str_truthy t then parse t else PInf | None => PInf end.

Definition active_at (asOf : num) (r : JurisdictionTaxRule) : bool :=
  leb (parse (jr_effectiveFrom r)) asOf && ltb asOf (effective_to r).

Definition exact_code (code : string) (r : JurisdictionTaxRule) : bool := bool_decide (jr_jurisdictionCode r = code).

Definition prefix_code (code : string) (r : JurisdictionTaxRule) : bool :=
  negb (bool_decide (jr_jurisdictionCode r = code)) && String.prefix (jr_jurisdictionCode r +:+ "-") code.

Definition later_rule (best r : JurisdictionTaxRule) : JurisdictionTaxRule :=
  if gtb (parse (jr_effectiveFrom r)) (parse (jr_effectiveFrom best)) then r else best.

(** [candidates.reduce(...)] without an initial value. *)
Definition latest_rule (l : list JurisdictionTaxRule) : option JurisdictionTaxRule :=
  match l with [] => None | r :: l' => Some (fold_left later_rule l' r) end.

Definition resolveRule (rules : list JurisdictionTaxRule) (code : string) (asOf : num)
    : option JurisdictionTaxRule :=
  let active := List.filter (active_at asOf) rules in
  let exactMatches := List.filter (exact_code code) active in
  let prefixMatches := List.filter (prefix_code code) active in
  let candidates := match exactMatches with [] => prefixMatches | _ => exactMatches end in
  latest_rule candidates.

Definition validateRule (r : JurisdictionTaxRule) : result TaxError unit :=
  _ ← throw_if (is_empty_string (jr_jurisdictionCode r)) (INVALID_RULE "jurisdictionCode");
  _ ← throw_if (bool_decide (jr_strategy r = prorated) &&
                match jr_prorateCoefficient r with Some c => ltb c zero || gtb c one | None => true end)
        (INVALID_RULE "prorateCoefficient");
  _ ← throw_if (is_empty_string (jr_effectiveFrom r) || is_nan (parse (jr_effectiveFrom r)))
        (INVALID_RULE "effectiveFrom");
  _ ← throw_if (match jr_effectiveTo r with Some t => is_nan (parse t) | None => false end)
        (INVALID_RULE "effectiveTo");
  throw_if (match jr_effectiveTo r with
            | Some t => str_truthy t && leb (parse t) (parse (jr_effectiveFrom r))
            | None => false
            end) (INVALID_RULE "effectiveTo").

(** The constructor: every rule is validated, in order. *)
Fixpoint make_calculator (rules : list JurisdictionTaxRule) : result TaxError (list JurisdictionTaxRule) :=
  match rules with
  | [] => mret []
  | r :: rules' => _ ← validateRule r; l ← make_calculator rules'; mret (r :: l)
  end.

Definition addRule (r : JurisdictionTaxRule) (rules : list JurisdictionTaxRule)
    : result TaxError (list JurisdictionTaxRule) :=
  _ ← validateRule r; mret (rules ++ [r]).

Definition not_count (a : num) : bool := negb (is_integer a) || ltb a zero.

Fixpoint validate_lines (l : list TaxLine) : result TaxError unit :=
  match l with
  | [] => mret tt
  | line :: l' =>
      _ ← throw_if (not_count (tl_amountCents line)) (INVALID_TAX_INPUT (tl_label line)); validate_lines l'
  end.

Definition validateInput (i : TaxRefundInput) : result TaxError unit :=
  _ ← throw_if (not_count (ti_capturedAmountCents i)) (INVALID_TAX_INPUT "capturedAmountCents");
  _ ← throw_if (not_count (ti_subtotalCents i)) (INVALID_TAX_INPUT "subtotalCents");
  _ ← throw_if (not_count (ti_refundSubtotalCents i)) (INVALID_TAX_INPUT "refundSubtotalCents");
  _ ← throw_if (gtb (ti_refundSubtotalCents i) (ti_subtotalCents i)) (INVALID_TAX_INPUT "refundSubtotalCents");
  _ ← validate_lines (ti_taxLines i);
  throw_if (match ti_asOf i with Some t => is_nan (parse t) | None => false end) (INVALID_TAX_INPUT "asOf").

Definition proportional (i : TaxRefundInput) (line : TaxLine) : num :=
  if eqb (ti_subtotalCents i) zero then zero
  else math_floor (div (mul (tl_amountCents line) (ti_refundSubtotalCents i)) (ti_subtotalCents i)).

Definition refundable (rule : JurisdictionTaxRule) (proportionalTaxCents : num) : num :=
  match jr_strategy rule with
  | full_proportional => proportionalTaxCents
  | prorated => math_floor (mul proportionalTaxCents (default zero (jr_prorateCoefficient rule)))
  end.

Definition line_refund (i : TaxRefundInput) (rule : JurisdictionTaxRule) (line : TaxLine) : TaxLineRefund :=
  {| tr_label := tl_label line; tr_jurisdictionCode := tl_jurisdictionCode line;
     tr_proportionalTaxCents := proportional i line;
     tr_refundableTaxCents := refundable rule (proportional i line);
     tr_strategyApplied := jr_strategy rule;
     tr_prorateCoefficient := match jr_strategy rule with prorated => jr_prorateCoefficient rule | _ => None end;
     tr_appliedRule := rule |}.

(** The loop over the tax lines, with the running total. *)
Fixpoint refund_lines (rules : list JurisdictionTaxRule) (asOf : num) (i : TaxRefundInput) (l : list TaxLine)
    (total : num) : result TaxError (list TaxLineRefund * num) :=
  match l with
  | [] => mret ([], total)
  | line :: l' =>
      rule ← from_option_or (resolveRule rules (tl_jurisdictionCode line) asOf) (NO_RULE_FOUND (tl_jurisdictionCode line));
      let x := line_refund i rule line in
      '(rest, t) ← refund_lines rules asOf i l' (add total (tr_refundableTaxCents x));
      mret (x :: rest, t)
  end.

(** [asOf ? new Date(asOf) : new Date()]; [now] is the time the record carries. *)
Definition as_of (now : num) (i : TaxRefundInput) : num :=
  match ti_asOf i with Some t => if str_truthy t then parse t else now | None => now end.

Definition calculate (now : num) (rules : list JurisdictionTaxRule) (i : TaxRefundInput)
    : result TaxError TaxAdjustedRefundRecord :=
  _ ← validateInput i;
  '(lines, total) ← refund_lines rules (as_of now i) i (ti_taxLines i) zero;
  mret {| ta_refundSubtotalCents := ti_refundSubtotalCents i; ta_taxLineRefunds := lines;
          ta_totalTaxRefundCents := total; ta_totalRefundCents := add (ti_refundSubtotalCents i) total;
          ta_calculatedAt := now |}.
End Calculator.

(** ** Exact quotients

    The double below an integer, and how close it is. *)
Lemma pred_double n :
  0 < n < 2 ^ 53 -> exists z, representable z /\ z < n * U /\ (n * U - z) * 2 ^ 52 <= n * U.
Proof.
  intros Hn. set (k := Z.log2 n). assert (2 ^ k <= n < 2 ^ Z.succ k) as Hk by (apply Z.log2_spec; lia).
  assert (0 <= k <= 52) as Hk52.
  { split; [apply Z.log2_nonneg|]. enough (k < 53) by lia. apply Z.log2_lt_pow2; lia. }
  assert (U = 2 ^ (52 - k) * 2 ^ (1022 + k)) as HU.
  { rewrite U_pow, <- Z.pow_add_r by lia. f_equal. lia. }
  pose proof (pow2_pos (52 - k) ltac:(lia)). pose proof (pow2_pos (1022 + k) ltac:(lia)) as He.
  pose proof (pow2_pos k ltac:(lia)).
  assert (2 ^ Z.succ k * 2 ^ (52 - k) = 2 ^ 53) as H53.
  { rewrite <- Z.pow_add_r by lia. f_equal. lia. }
  assert (2 ^ k * 2 ^ (52 - k) = 2 ^ 52) as H52.
  { rewrite <- Z.pow_add_r by lia. f_equal. lia. }
  exists ((n * 2 ^ (52 - k) - 1) * 2 ^ (1022 + k)). split; [|split].
  - exists (n * 2 ^ (52 - k) - 1), (1022 + k). split_and!; [lia| |done].
    assert (n * 2 ^ (52 - k) <= 2 ^ 53) by (rewrite <- H53; apply Z.mul_le_mono_nonneg_r; lia).
    assert (1 <= n * 2 ^ (52 - k)) by nia. rewrite Z.abs_eq; lia.
  - rewrite HU. nia.
  - rewrite HU. replace (n * (2 ^ (52 - k) * 2 ^ (1022 + k)) - (n * 2 ^ (52 - k) - 1) * 2 ^ (1022 + k))
      with (2 ^ (1022 + k)) by lia. rewrite <- H52. nia.
Qed.

(** [Math.floor(x / y)] is the integer quotient when the operands are small enough. *)
Lemma floor_quotient x y :
  0 <= x -> 0 < y -> x + y <= 2 ^ 52 ->
  math_floor (div (Fin (x * U)) (Fin (y * U))) = Fin (x / y * U).
Proof.
  intros Hx Hy Hb. pose proof U_pos. pose proof HUGE_pos. unfold div.
  destruct (Z.eqb_spec (y * U) 0) as [|_]; [nia|]. destruct (Z.ltb_spec 0 (y * U)) as [Hyu|]; [|nia].
  set (n := x / y). assert (n * y <= x < (n + 1) * y) as Hn.
  { unfold n. pose proof (Z.div_mod x y ltac:(lia)). pose proof (Z.mod_pos_bound x y Hy). nia. }
  assert (0 <= n) by (apply Z.div_pos; lia). assert ((n + 1) * y <= 2 ^ 52) by nia.
  assert (n + 1 <= 2 ^ 52) by nia.
  destruct (pred_double (n + 1)) as (z & Hz & Hlt & Hgap); [lia|].
  assert (n * U <= rnd (x * U * U) (y * U)) as Hlo.
  { apply rnd_ge; [nia|apply representable_int; lia|]. nia. }
  assert (rnd (x * U * U) (y * U) <= z) as Hhi.
  { apply rnd_le; [nia|done|]. enough (x * U <= z * y) by nia.
    assert (((n + 1) * U - z) * y <= U); [|nia].
    assert (((n + 1) * U - z) * 2 ^ 52 * y <= (n + 1) * U * y) by (apply Z.mul_le_mono_nonneg_r; lia).
    assert ((n + 1) * U * y <= 2 ^ 52 * U) by nia. lia. }
  assert (Z.abs (rnd (x * U * U) (y * U)) < HUGE) as Hh.
  { assert (2 ^ 52 * U < HUGE) by (vm_compute; reflexivity). nia. }
  rewrite norm_fin by done. unfold math_floor. rewrite zdiv_eq. do 2 f_equal.
  symmetry. apply (Z.div_unique _ _ _ (rnd (x * U * U) (y * U) - n * U)); [left; lia|lia].
Qed.

(** ** The rule that applies *)

Lemma leb_total a b : a <> NaN -> b <> NaN -> gtb a b = false -> leb a b = true.
Proof.
  destruct a as [x| | |], b as [y| | |]; try done. intros _ _ H. rewrite leb_fin. unfold gtb in H.
  simpl in H. apply Z.leb_le. apply Z.ltb_ge in H. lia.
Qed.

Lemma gtb_leb a b : gtb a b = true -> leb b a = true.
Proof. unfold gtb, leb. by intros ->. Qed.

Lemma leb_not_nan a b : leb a b = true -> a <> NaN.
Proof. by destruct a. Qed.

Section Resolve.
Context (parse : string -> num).

Notation from r := (parse (jr_effectiveFrom r)).

(** The fold keeps the best of what it has seen. *)
Lemma fold_latest l r0 :
  (forall r, r ∈ r0 :: l -> from r <> NaN) ->
  fold_left (later_rule parse) l r0 ∈ r0 :: l /\
  forall r, r ∈ r0 :: l -> leb (from r) (from (fold_left (later_rule parse) l r0)) = true.
Proof.
  revert r0. induction l as [|x l IH]; intros r0 Hn.
  - simpl. split; [constructor|]. intros r Hr%list_elem_of_singleton. subst r. apply leb_refl, Hn. constructor.
  - simpl. assert (later_rule parse r0 x = r0 \/ later_rule parse r0 x = x) as Hc.
    { unfold later_rule. destruct (gtb _ _); auto. }
    assert (leb (from r0) (from (later_rule parse r0 x)) = true /\ leb (from x) (from (later_rule parse r0 x)) = true) as [H0 Hx].
    { unfold later_rule. destruct (gtb (from x) (from r0)) eqn:E.
      - split; [by apply gtb_leb|apply leb_refl, Hn; set_solver].
      - split; [apply leb_refl, Hn; set_solver|apply leb_total; [apply Hn; set_solver..|done]]. }
    destruct (IH (later_rule parse r0 x)) as [Hin Hle]; [destruct Hc as [-> | ->]; set_solver|].
    split; [clear -Hin Hc; destruct Hc as [E|E]; rewrite E in Hin |- *; set_solver|].
    pose proof (Hle (later_rule parse r0 x) ltac:(constructor)) as Hb.
    intros r [->|[->|Hr]%elem_of_cons]%elem_of_cons; [by eapply leb_trans..|]. apply Hle. by constructor.
Qed.

Lemma latest_rule_spec l :
  (forall r, r ∈ l -> from r <> NaN) ->
  match latest_rule parse l with
  | Some r => r ∈ l /\ forall r', r' ∈ l -> leb (from r') (from r) = true
  | None => l = []
  end.
Proof. destruct l as [|r l]; simpl; [done|]. apply fold_latest. Qed.

Lemma elem_of_filter_bool {A} (p : A -> bool) l x : x ∈ List.filter p l <-> x ∈ l /\ p x = true.
Proof. by rewrite !list_elem_of_In, filter_In. Qed.

Lemma latest_in l : match latest_rule parse l with Some r => r ∈ l | None => True end.
Proof.
  destruct l as [|r l]; simpl; [done|]. revert r. induction l as [|x l IH]; intros r; simpl; [constructor|].
  specialize (IH (later_rule parse r x)). unfold later_rule in *. destruct (gtb _ _); set_solver.
Qed.

(** The rule that governs a tax line is in force at the evaluation date;
    a rule for exactly its jurisdiction is preferred to one for the country it belongs to;
    among rules of equal specificity none in force was enacted later; and there is
    no rule only if none in force matches. *)
Theorem resolveRule_correct rules code asOf :
  let applicable r := active_at parse asOf r = true in
  match resolveRule parse rules code asOf with
  | Some r =>
      r ∈ rules /\ applicable r /\
      (exact_code code r = true \/
       prefix_code code r = true /\ forall r', r' ∈ rules -> applicable r' -> exact_code code r' = false) /\
      (forall r', r' ∈ rules -> applicable r' -> exact_code code r' = exact_code code r ->
         prefix_code code r' = prefix_code code r -> leb (from r') (from r) = true)
  | None => forall r, r ∈ rules -> applicable r -> exact_code code r = false /\ prefix_code code r = false
  end.
Proof.
  intros applicable. unfold resolveRule. set (act := List.filter (active_at parse asOf) rules).
  assert (forall r, r ∈ act <-> r ∈ rules /\ applicable r) as Hact by (intros r; apply elem_of_filter_bool).
  assert (forall p r, r ∈ List.filter p act -> from r <> NaN) as Hnan.
  { intros p r [[_ Hr]%Hact _]%elem_of_filter_bool. unfold applicable, active_at in Hr.
    apply andb_true_iff in Hr as [Hr _]. by eapply leb_not_nan. }
  destruct (List.filter (exact_code code) act) as [|e0 es] eqn:Ee.
  - assert (forall r, r ∈ rules -> applicable r -> exact_code code r = false) as Hno.
    { intros r Hr Ha. destruct (exact_code code r) eqn:E; [|done].
      assert (r ∈ List.filter (exact_code code) act) as Hin by (apply elem_of_filter_bool; split; [by apply Hact|done]).
      rewrite Ee in Hin. by apply elem_of_nil in Hin. }
    pose proof (latest_rule_spec _ (Hnan (prefix_code code))) as Hl.
    destruct (latest_rule parse (List.filter (prefix_code code) act)) as [r|].
    + destruct Hl as [[[Hr Ha]%Hact Hp]%elem_of_filter_bool Hle]. split_and!; [done|done|by right|].
      intros r' Hr' Ha' _ Hpp. apply Hle, elem_of_filter_bool. split; [by apply Hact|congruence].
    + intros r Hr Ha. split; [by apply Hno|]. destruct (prefix_code code r) eqn:E; [|done].
      assert (r ∈ List.filter (prefix_code code) act) as Hin by (apply elem_of_filter_bool; split; [by apply Hact|done]).
      rewrite Hl in Hin. by apply elem_of_nil in Hin.
  - pose proof (latest_rule_spec _ (Hnan (exact_code code))) as Hl. rewrite Ee in Hl.
    destruct (latest_rule parse (e0 :: es)) as [r|]; [|done]. destruct Hl as [Hin Hle].
    rewrite <- Ee in Hin. apply elem_of_filter_bool in Hin as [[Hr Ha]%Hact Hx]. split_and!; [done|done|by left|].
    intros r' Hr' Ha' Hxx _. apply Hle. rewrite <- Ee. apply elem_of_filter_bool. split; [by apply Hact|congruence].
Qed.

Lemma resolveRule_in_rules rules code asOf :
  match resolveRule parse rules code asOf with Some r => r ∈ rules | None => True end.
Proof.
  pose proof (latest_in (List.filter (exact_code code) (List.filter (active_at parse asOf) rules))) as He.
  pose proof (latest_in (List.filter (prefix_code code) (List.filter (active_at parse asOf) rules))) as Hp.
  unfold resolveRule. destruct (List.filter (exact_code code) _) as [|r0 rs] eqn:Ee.
  - clear He. destruct (latest_rule parse (List.filter (prefix_code code) (List.filter (active_at parse asOf) rules)))
      as [r|]; [|done]. by apply elem_of_filter_bool in Hp as [[? _]%elem_of_filter_bool _].
  - destruct (latest_rule parse (r0 :: rs)) as [r|]; [|done]. rewrite <- Ee in He.
    by apply elem_of_filter_bool in He as [[? _]%elem_of_filter_bool _].
Qed.

End Resolve.

(** ** Amounts *)

(** A rule of a calculator, with a coefficient that is a number. *)
Definition usable_rule (parse : string -> num) (r : JurisdictionTaxRule) : Prop :=
  validateRule parse r = Ok tt /\ jr_prorateCoefficient r <> Some NaN.

Lemma refundable_range parse r k :
  usable_rule parse r -> 0 <= k <= 2 ^ 53 ->
  exists j, refundable r (Fin (k * U)) = Fin (j * U) /\ 0 <= j <= k /\ (jr_strategy r = full_proportional -> j = k).
Proof.
  intros [Hv Hnan] Hk. unfold refundable. destruct (jr_strategy r) eqn:Es; [exists k; split; [done|split; [lia|done]]|].
  unfold validateRule in Hv. inv_ok. rewrite Es in *. simpl in *.
  match goal with H : match jr_prorateCoefficient r with _ => _ end = false |- _ => rename H into Hc end.
  destruct (jr_prorateCoefficient r) as [c|]; [|done]. apply orb_false_iff in Hc as [Hc0 Hc1].
  pose proof U_pos. destruct c as [x| | |]; try done.
  unfold gtb, one, zero, ltb in Hc0, Hc1. apply Z.ltb_ge in Hc0, Hc1.
  destruct (mul_ratio (k * U) x) as (y & Hy & _ & Hb); [apply dbl_int; lia|nia|lia|].
  change (default zero (Some (Fin x))) with (Fin x). rewrite Hy. unfold math_floor. rewrite zdiv_eq.
  exists (y / U). split; [done|]. split; [|done]. split; [apply Z.div_pos; lia|]. apply Z.div_le_upper_bound; lia.
Qed.

Lemma mul_cents a b : 0 <= a * b <= 2 ^ 53 -> mul (Fin (a * U)) (Fin (b * U)) = Fin (a * b * U).
Proof.
  intros H. pose proof U_pos. unfold mul. replace (a * U * (b * U)) with (a * b * U * U) by lia.
  rewrite rnd_exact; [|done|apply representable_int; lia]. apply norm_fin. by apply dbl_int; lia.
Qed.

(** The share of a tax line, as integers. *)
Definition share (T R S : Z) : Z := if S =? 0 then 0 else T * R / S.

Lemma proportional_exact i line T R S :
  tl_amountCents line = Fin (T * U) -> ti_refundSubtotalCents i = Fin (R * U) -> ti_subtotalCents i = Fin (S * U) ->
  0 <= T -> 0 <= R <= S -> T * R + S <= 2 ^ 52 ->
  proportional i line = Fin (share T R S * U) /\ 0 <= share T R S <= T.
Proof.
  intros HT HR HS HT0 HRS Hb. unfold proportional, share. rewrite HT, HR, HS. pose proof U_pos.
  unfold eqb, zero. destruct (Z.eqb_spec S 0) as [->|Hne].
  - simpl. split; [done|lia].
  - destruct (Z.eqb_spec (S * U) 0); [nia|]. rewrite mul_cents by nia. rewrite floor_quotient by nia.
    split; [done|]. split; [apply Z.div_pos; nia|]. apply Z.div_le_upper_bound; nia.
Qed.

(** The inputs the bounds are claimed for: integers of cents, the refunded part
    within the subtotal, and products small enough for exact quotients. *)
Record sized (i : TaxRefundInput) (R S : Z) (Ts : list Z) : Prop := {
  sz_captured : not_count (ti_capturedAmountCents i) = false;
  sz_refund : ti_refundSubtotalCents i = Fin (R * U);
  sz_subtotal : ti_subtotalCents i = Fin (S * U);
  sz_lines : Forall2 (fun line T => tl_amountCents line = Fin (T * U) /\ 0 <= T /\ T * R + S <= 2 ^ 52) (ti_taxLines i) Ts;
  sz_range : 0 <= R <= S;
  sz_total : R + fold_right Z.add 0 Ts <= 2 ^ 52
}.

Lemma not_count_int n : 0 <= n -> not_count (Fin (n * U)) = false.
Proof.
  intros Hn. unfold not_count. rewrite is_integer_int, orb_false_l. unfold zero, ltb.
  apply Z.ltb_ge. pose proof U_pos. nia.
Qed.

Lemma validate_lines_ok l : Forall (fun line => not_count (tl_amountCents line) = false) l -> validate_lines l = Ok tt.
Proof. induction 1 as [|line l Hl _ IH]; [done|]. cbn [validate_lines]. rewrite Hl. exact IH. Qed.

Lemma sized_valid parse i R S Ts :
  sized i R S Ts -> match ti_asOf i with Some t => is_nan (parse t) = false | None => True end ->
  validateInput parse i = Ok tt.
Proof.
  intros [Hc HR HS Hl Hrange _] Hd. pose proof U_pos.
  assert (not_count (ti_subtotalCents i) = false) as H1 by (rewrite HS; apply not_count_int; lia).
  assert (not_count (ti_refundSubtotalCents i) = false) as H2 by (rewrite HR; apply not_count_int; lia).
  assert (gtb (ti_refundSubtotalCents i) (ti_subtotalCents i) = false) as H3.
  { rewrite HR, HS. unfold gtb, ltb. apply Z.ltb_ge. nia. }
  assert (validate_lines (ti_taxLines i) = Ok tt) as H4.
  { apply validate_lines_ok. clear -Hl. induction Hl as [|line T l Ts' (HT & HT0 & _) _ IH]; constructor; [|done].
    rewrite HT. by apply not_count_int. }
  unfold validateInput. rewrite Hc, H1, H2, H3, H4. destruct (ti_asOf i); [|done].
  unfold mbind, result_bind, throw_if. by rewrite Hd.
Qed.

(** What one tax line gets back. *)
Definition line_ok (parse : string -> num) (rules : list JurisdictionTaxRule) (asOf : num) (R S : Z)
    (line : TaxLine) (T : Z) (x : TaxLineRefund) (j : Z) : Prop :=
  resolveRule parse rules (tl_jurisdictionCode line) asOf = Some (tr_appliedRule x) /\
  tr_proportionalTaxCents x = Fin (share T R S * U) /\
  tr_refundableTaxCents x = Fin (j * U) /\ 0 <= j <= share T R S /\ share T R S <= T /\
  (jr_strategy (tr_appliedRule x) = full_proportional -> j = share T R S).

Lemma resolve_in parse rules code asOf r : resolveRule parse rules code asOf = Some r -> r ∈ rules.
Proof. intros H. pose proof (resolveRule_in_rules parse rules code asOf) as Hr. by rewrite H in Hr. Qed.

Lemma refund_lines_exact parse rules asOf i R S lines Ts t :
  Forall (usable_rule parse) rules ->
  ti_refundSubtotalCents i = Fin (R * U) -> ti_subtotalCents i = Fin (S * U) -> 0 <= R <= S ->
  Forall2 (fun line T => tl_amountCents line = Fin (T * U) /\ 0 <= T /\ T * R + S <= 2 ^ 52) lines Ts ->
  Forall (fun line => is_Some (resolveRule parse rules (tl_jurisdictionCode line) asOf)) lines ->
  0 <= t -> t + fold_right Z.add 0 Ts <= 2 ^ 52 ->
  exists xs js, refund_lines parse rules asOf i lines (Fin (t * U)) = Ok (xs, Fin ((t + fold_right Z.add 0 js) * U)) /\
    Forall2 (fun lT xj => line_ok parse rules asOf R S lT.1 lT.2 xj.1 xj.2) (zip lines Ts) (zip xs js) /\
    length xs = length lines /\ length js = length lines /\
    0 <= fold_right Z.add 0 js <= fold_right Z.add 0 Ts.
Proof.
  intros Hru HR HS HRS Hl. revert t. induction Hl as [|line T lines Ts (HT & HT0 & Hb) Hl IH]; intros t Hres Ht Hsum.
  - exists [], []. simpl. rewrite Z.add_0_r. split_and!; try done; constructor.
  - apply Forall_cons in Hres as [[r Hr] Hres]. cbn [fold_right] in Hsum.
    assert (0 <= fold_right Z.add 0 Ts) as HTs.
    { clear -Hl. induction Hl as [|? ? ? ? (_ & ? & _) _ IH]; simpl; lia. }
    destruct (proportional_exact i line T R S HT HR HS HT0 HRS Hb) as [Hp Hsh].
    destruct (refundable_range parse r (share T R S)) as (j & Hj & Hjb & Hjf); [|lia|].
    { rewrite List.Forall_forall in Hru. apply Hru, list_elem_of_In. by eapply resolve_in. }
    destruct (IH (t + j)) as (xs & js & Hx & Hf & Hlx & Hlj & Hjs); [done|lia|lia|].
    exists (line_refund i r line :: xs), (j :: js). cbn [refund_lines]. rewrite Hr. cbn [from_option_or].
    unfold mbind, result_bind. cbn [line_refund tr_refundableTaxCents]. rewrite Hp, Hj, add_cents by lia. rewrite Hx.
    cbn [fold_right]. split_and!; [| |simpl; lia|simpl; lia|lia|lia].
    + unfold mret, result_ret. do 3 f_equal. lia.
    + simpl. constructor; [|done]. unfold line_ok. simpl. rewrite Hp, Hj. split_and!; done || lia.
Qed.

Lemma make_calculator_valid parse rules l :
  make_calculator parse rules = Ok l -> l = rules /\ Forall (fun r => validateRule parse r = Ok tt) rules.
Proof.
  revert l. induction rules as [|r rules IH]; intros l; cbn [make_calculator].
  - intros [= <-]. done.
  - intros H. apply bind_ok in H as ([] & Hv & H). apply bind_ok in H as (l' & Hl & H). injection H as <-.
    destruct (IH _ Hl) as [-> Hf]. split; [done|]. by constructor.
Qed.

(** Refunding the whole subtotal under rules that refund in full returns every tax. *)
Lemma full_refund_sum parse rules asOf S lines Ts xs js :
  0 < S -> length xs = length lines -> length js = length lines -> length Ts = length lines ->
  Forall (fun r => jr_strategy r = full_proportional) rules ->
  Forall2 (fun lT xj => line_ok parse rules asOf S S lT.1 lT.2 xj.1 xj.2) (zip lines Ts) (zip xs js) ->
  fold_right Z.add 0 js = fold_right Z.add 0 Ts.
Proof.
  intros HS Hx Hj HT Hall. revert Ts xs js Hx Hj HT.
  induction lines as [|line lines IH]; intros [|T Ts] [|x xs] [|j js]; simpl; try done.
  intros [= Hx] [= Hj] [= HT] [Hl Hf]%Forall2_cons. f_equal; [|by apply (IH Ts xs js)]. simpl in Hl.
  destruct Hl as (Hr & _ & _ & _ & _ & Hfull). apply resolve_in in Hr. rewrite List.Forall_forall in Hall.
  rewrite (Hfull (Hall _ (proj1 (list_elem_of_In _ _) Hr))). unfold share.
  destruct (Z.eqb_spec S 0); [lia|]. apply Z.div_mul. lia.
Qed.

(** With validated rules and amounts in range, the calculator returns a
    record in which every tax line is refunded under the rule that governs it:
    its proportional tax is exactly the floor of tax times refunded share, the refundable part lies between
    0 and it (and equals it under the full strategy), and the totals are exact
    and at most the tax charged; refunding the whole subtotal under full rules
    returns exactly the tax charged. *)
Theorem tax_refund_exact parse now rules i R S Ts :
  make_calculator parse rules = Ok rules -> Forall (fun r => jr_prorateCoefficient r <> Some NaN) rules ->
  sized i R S Ts -> match ti_asOf i with Some t => is_nan (parse t) = false | None => True end ->
  Forall (fun line => is_Some (resolveRule parse rules (tl_jurisdictionCode line) (as_of parse now i))) (ti_taxLines i) ->
  exists rec js,
    calculate parse now rules i = Ok rec /\
    Forall2 (fun lT xj => line_ok parse rules (as_of parse now i) R S lT.1 lT.2 xj.1 xj.2)
      (zip (ti_taxLines i) Ts) (zip (ta_taxLineRefunds rec) js) /\
    length (ta_taxLineRefunds rec) = length (ti_taxLines i) /\ length js = length (ti_taxLines i) /\
    ta_totalTaxRefundCents rec = Fin (fold_right Z.add 0 js * U) /\
    ta_totalRefundCents rec = Fin ((R + fold_right Z.add 0 js) * U) /\
    0 <= fold_right Z.add 0 js <= fold_right Z.add 0 Ts /\
    (R = S -> 0 < S -> Forall (fun r => jr_strategy r = full_proportional) rules ->
     fold_right Z.add 0 js = fold_right Z.add 0 Ts).
Proof.
  intros Hm Hnan Hsz Hd Hres. apply make_calculator_valid in Hm as [_ Hv].
  pose proof (sized_valid parse i R S Ts Hsz Hd) as Hok. destruct Hsz as [_ HR HS Hl Hrange Htot].
  destruct (refund_lines_exact parse rules (as_of parse now i) i R S (ti_taxLines i) Ts 0)
    as (xs & js & Hx & Hf & Hlx & Hlj & Hsum); [|done..|lia|lia|].
  { apply Forall_forall. intros r Hr. rewrite Forall_forall in Hv, Hnan. split; auto. }
  rewrite Z.add_0_l, Z.mul_0_l in Hx. fold zero in Hx.
  eexists {| ta_taxLineRefunds := xs |}, js. split.
  - unfold calculate. rewrite Hok. unfold mbind, result_bind. rewrite Hx. reflexivity.
  - cbn [ta_taxLineRefunds ta_totalTaxRefundCents ta_totalRefundCents]. rewrite HR, add_cents by lia.
    split_and!; try done; [lia..|]. intros -> HS0 Hall.
    eapply (full_refund_sum parse rules (as_of parse now i) S (ti_taxLines i)); try done.
    symmetry. by eapply Forall2_length.
Qed.

(** ** Executions *)

Section Executions.
Local Open Scope string_scope.

(** Dates as numbers of characters. *)
Definition w_parse (s : string) : num := of_Z (Z.of_nat (String.length s)).

Definition w_rule (code : string) (st : TaxRefundStrategy) (c : option num) : JurisdictionTaxRule :=
  {| jr_jurisdictionCode := code; jr_strategy := st; jr_prorateCoefficient := c; jr_effectiveFrom := "d";
     jr_effectiveTo := None; jr_metadata := None |}.

Definition w_rules : list JurisdictionTaxRule :=
  [w_rule "US" full_proportional None; w_rule "US-CA" prorated (Some (lit 1 2))].

Definition w_input : TaxRefundInput :=
  {| ti_capturedAmountCents := Fin (1300 * U); ti_subtotalCents := Fin (1000 * U);
     ti_taxLines := [{| tl_label := "CA"; tl_amountCents := Fin (101 * U); tl_jurisdictionCode := "US-CA" |};
                     {| tl_label := "NY"; tl_amountCents := Fin (199 * U); tl_jurisdictionCode := "US-NY" |}];
     ti_refundSubtotalCents := Fin (500 * U); ti_asOf := None |}.

Lemma w_input_sized : sized w_input 500 1000 [101; 199].
Proof.
  constructor; [apply (not_count_int 1300); lia|done|done| |lia|simpl; lia].
  repeat constructor; (done || lia).
Qed.

Lemma tax_refund_exact_witness :
  exists rec js, calculate w_parse (of_Z 100) w_rules w_input = Ok rec /\
    length js = 2%nat /\ ta_totalRefundCents rec = Fin ((500 + fold_right Z.add 0 js) * U).
Proof.
  destruct (tax_refund_exact w_parse (of_Z 100) w_rules w_input 500 1000 [101; 199]) as
    (rec & js & Hc & _ & _ & Hl & _ & Ht & _); [by vm_compute| |exact w_input_sized|exact I| |].
  - constructor; [vm_compute; discriminate|constructor; [vm_compute; discriminate|constructor]].
  - constructor; [|constructor; [|constructor]]; (eexists; vm_compute; reflexivity).
  - exists rec, js. split; [exact Hc|]. split; [exact Hl|exact Ht].
Defined.

(** The comparisons with a coefficient that is not a number are all false: such
    a rule is accepted, and the refund computed under it is not a number. *)
Example nan_coefficient_accepted :
  validateRule w_parse (w_rule "US" prorated (Some NaN)) = Ok tt /\
  refundable (w_rule "US" prorated (Some NaN)) (of_Z 5) = NaN.
Proof. split; by vm_compute. Qed.

(** The captured amount is validated and then never used: a refund may exceed it. *)
Example refund_beyond_captured :
  exists rec, calculate w_parse (of_Z 100) [w_rule "US" full_proportional None]
    {| ti_capturedAmountCents := of_Z 1; ti_subtotalCents := of_Z 1000;
       ti_taxLines := []; ti_refundSubtotalCents := of_Z 1000; ti_asOf := None |} = Ok rec /\
    gtb (ta_totalRefundCents rec) (of_Z 1) = true.
Proof. eexists. split; vm_compute; reflexivity. Qed.

End Executions.
