(* ===== verification/Strikes.v ===== *)
(** * Strikes: no-show strikes and buyer suspension

    [StrikeService] of [services/strikeService.ts].  Its per-buyer mutex makes
    every operation atomic (no operation awaits inside the critical section),
    so an operation is a function on the service's maps.  [uuidv4()] is an
    argument; counts, thresholds and times are integers; audit events are not
    modelled. *)
From stdpp Require Import base list strings gmap pretty relations.
From Stdlib Require Import ZArith Lia.
From S2P Require Import Prelude.
Local Open Scope Z_scope.

Inductive StrikeStatus : Type := active | decayed | appealed | rescinded.

#[export] Instance StrikeStatus_eq_dec : EqDecision StrikeStatus.
Proof. solve_decision. Defined.

Inductive Decision : Type := UPHELD | OVERTURNED.

#[export] Instance Decision_eq_dec : EqDecision Decision.
Proof. solve_decision. Defined.

(** The optional fields that are always set together are one option:
    [sk_appeal] is [appealedAt], [appealReason] and [appealEvidence] (no evidence
    is the empty list), [sk_arbitration] the three [arbitration...] fields,
    [sk_rescission] the three [rescinded...] fields. *)
Record Strike : Type := {
  sk_id : string;
  sk_buyerId : string;
  sk_intentId : option string;
  sk_slotId : option string;
  sk_reason : string;
  sk_issuedAt : Z;
  sk_expiresAt : Z;
  sk_status : StrikeStatus;
  sk_appeal : option (Z * string * list string);
  sk_escalatedAt : option Z;
  sk_arbitration : option (Decision * string * Z);
  sk_rescission : option (Z * string * string)
}.

(** [aq_decided] is [decision], [decidedBy] and [decidedAt]; the [status] is
    "decided" exactly when they are present. *)
Record ArbitrationQueueItem : Type := {
  aq_strikeId : string;
  aq_buyerId : string;
  aq_intentId : option string;
  aq_slotId : option string;
  aq_appealReason : string;
  aq_appealEvidence : list string;
  aq_appealedAt : Z;
  aq_escalatedAt : Z;
  aq_decided : option (Decision * string * Z)
}.

(** [bs_suspended] is [suspendedAt], [suspensionReason] and
    [activeStrikesAtSuspension]; [bs_reinstated] is [reinstatedAt],
    [reinstatedBy] and [reinstatementReason]. *)
Record BuyerSuspensionRecord : Type := {
  bs_buyerId : string;
  bs_isSuspended : bool;
  bs_suspended : option (Z * string * Z);
  bs_reinstated : option (Z * string * string)
}.

Record StrikeConfig : Type := {
  maxStrikesThreshold : Z;
  decayWindowMs : Z;
  autoSuspendEnabled : bool
}.

Definition DEFAULT_STRIKE_CONFIG : StrikeConfig :=
  {| maxStrikesThreshold := 3; decayWindowMs := 30 * 24 * 60 * 60 * 1000; autoSuspendEnabled := true |}.

Record Service : Type := {
  sv_config : StrikeConfig;
  sv_strikes : gmap string Strike;
  sv_index : gmap string (list string);
  sv_suspensions : gmap string BuyerSuspensionRecord;
  sv_queue : list ArbitrationQueueItem
}.

Inductive StrikeError : Type :=
| threshold_not_positive | decay_not_positive | buyerId_required | strikeId_required
| appealReason_required | strike_not_found | strike_not_active | strike_not_appealed
| already_escalated | not_escalated | queue_item_not_found | already_decided.

Definition with_strikes (m : gmap string Strike) (s : Service) : Service :=
  {| sv_config := sv_config s; sv_strikes := m; sv_index := sv_index s;
     sv_suspensions := sv_suspensions s; sv_queue := sv_queue s |}.
Definition with_index (m : gmap string (list string)) (s : Service) : Service :=
  {| sv_config := sv_config s; sv_strikes := sv_strikes s; sv_index := m;
     sv_suspensions := sv_suspensions s; sv_queue := sv_queue s |}.
Definition with_suspensions (m : gmap string BuyerSuspensionRecord) (s : Service) : Service :=
  {| sv_config := sv_config s; sv_strikes := sv_strikes s; sv_index := sv_index s;
     sv_suspensions := m; sv_queue := sv_queue s |}.
Definition with_queue (q : list ArbitrationQueueItem) (s : Service) : Service :=
  {| sv_config := sv_config s; sv_strikes := sv_strikes s; sv_index := sv_index s;
     sv_suspensions := sv_suspensions s; sv_queue := q |}.

Definition with_status (st : StrikeStatus) (k : Strike) : Strike :=
  {| sk_id := sk_id k; sk_buyerId := sk_buyerId k; sk_intentId := sk_intentId k;
     sk_slotId := sk_slotId k; sk_reason := sk_reason k;
     sk_issuedAt := sk_issuedAt k; sk_expiresAt := sk_expiresAt k; sk_status := st;
     sk_appeal := sk_appeal k; sk_escalatedAt := sk_escalatedAt k;
     sk_arbitration := sk_arbitration k; sk_rescission := sk_rescission k |}.

Definition updateConfig (threshold decay : option Z) (auto : option bool) (s : Service)
    : result StrikeError Service :=
  _ ← throw_if (match threshold with Some t => t <=? 0 | None => false end) threshold_not_positive;
  _ ← throw_if (match decay with Some d => d <=? 0 | None => false end) decay_not_positive;
  mret {| sv_config := {| maxStrikesThreshold := default (maxStrikesThreshold (sv_config s)) threshold;
                          decayWindowMs := default (decayWindowMs (sv_config s)) decay;
                          autoSuspendEnabled := default (autoSuspendEnabled (sv_config s)) auto |};
          sv_strikes := sv_strikes s; sv_index := sv_index s; sv_suspensions := sv_suspensions s;
          sv_queue := sv_queue s |}.

Definition ids_of (buyerId : string) (s : Service) : list string := default [] (sv_index s !! buyerId).

Definition decay_strike (now : Z) (k : Strike) : Strike :=
  if bool_decide (sk_status k = active) && (sk_expiresAt k <=? now) then with_status decayed k else k.

(** The mutation in place of every strike of a list of ids. *)
Definition map_strikes (f : Strike -> Strike) (ids : list string) (m : gmap string Strike)
    : gmap string Strike :=
  fold_left (fun m id => alter f id m) ids m.

Definition evaluateDecayForBuyer (buyerId : string) (now : Z) (s : Service) : Service :=
  with_strikes (map_strikes (decay_strike now) (ids_of buyerId s) (sv_strikes s)) s.

Definition counts (now : Z) (k : Strike) : bool :=
  bool_decide (sk_status k = active) && (now <? sk_expiresAt k).

Definition strikes_of (buyerId : string) (s : Service) : list Strike :=
  omap (fun id => sv_strikes s !! id) (ids_of buyerId s).

Definition getActiveStrikes (buyerId : string) (now : Z) (s : Service) : list Strike * Service :=
  let s' := evaluateDecayForBuyer buyerId now s in
  (List.filter (counts now) (strikes_of buyerId s'), s').

Definition getBuyerStrikes (buyerId : string) (now : Z) (s : Service) : list Strike * Service :=
  let s' := evaluateDecayForBuyer buyerId now s in (strikes_of buyerId s', s').

Definition not_suspended (buyerId : string) : BuyerSuspensionRecord :=
  {| bs_buyerId := buyerId; bs_isSuspended := false; bs_suspended := None; bs_reinstated := None |}.

Definition lift_suspension (now : Z) (by_ reason : string) (b : BuyerSuspensionRecord)
    : BuyerSuspensionRecord :=
  {| bs_buyerId := bs_buyerId b; bs_isSuspended := false; bs_suspended := bs_suspended b;
     bs_reinstated := Some (now, by_, reason) |}.

Definition suspension_of (buyerId : string) (s : Service) : BuyerSuspensionRecord :=
  default (not_suspended buyerId) (sv_suspensions s !! buyerId).

Definition getBuyerSuspensionStatus (buyerId : string) (now : Z) (s : Service)
    : (BuyerSuspensionRecord * Z) * Service :=
  let '(l, s') := getActiveStrikes buyerId now s in
  ((suspension_of buyerId s', Z.of_nat (length l)), s').

Record IssueParams : Type := {
  ip_buyerId : string;
  ip_intentId : option string;
  ip_slotId : option string;
  ip_reason : option string;
  ip_issuedAt : Z
}.

Definition new_strike (uuid : string) (p : IssueParams) (c : StrikeConfig) : Strike :=
  {| sk_id := uuid; sk_buyerId := ip_buyerId p; sk_intentId := ip_intentId p; sk_slotId := ip_slotId p;
     sk_reason := default "No-show penalty strike"%string (ip_reason p);
     sk_issuedAt := ip_issuedAt p; sk_expiresAt := ip_issuedAt p + decayWindowMs c;
     sk_status := active; sk_appeal := None; sk_escalatedAt := None; sk_arbitration := None;
     sk_rescission := None |}.

Definition auto_suspension (p : IssueParams) (activeCount threshold : Z) : BuyerSuspensionRecord :=
  let reason := "Automated suspension: reached " +:+ pretty activeCount +:+
                " active no-show strike(s) (threshold: " +:+ pretty threshold +:+ ")" in
  {| bs_buyerId := ip_buyerId p; bs_isSuspended := true;
     bs_suspended := Some (ip_issuedAt p, reason, activeCount); bs_reinstated := None |}.

Definition issueStrike (uuid : string) (p : IssueParams) (s : Service)
    : result StrikeError ((Strike * BuyerSuspensionRecord * bool) * Service) :=
  _ ← throw_if (blank (ip_buyerId p)) buyerId_required;
  let strike := new_strike uuid p (sv_config s) in
  let s1 := with_strikes (<[uuid := strike]> (sv_strikes s)) s in
  let s2 := with_index (<[ip_buyerId p := ids_of (ip_buyerId p) s1 ++ [uuid]]> (sv_index s1)) s1 in
  let s3 := evaluateDecayForBuyer (ip_buyerId p) (ip_issuedAt p) s2 in
  let '(activeStrikes, s4) := getActiveStrikes (ip_buyerId p) (ip_issuedAt p) s3 in
  let activeCount := Z.of_nat (length activeStrikes) in
  let suspension := suspension_of (ip_buyerId p) s4 in
  let stored := default strike (sv_strikes s4 !! uuid) in
  if autoSuspendEnabled (sv_config s) && (maxStrikesThreshold (sv_config s) <=? activeCount)
     && negb (bs_isSuspended suspension) then
    let suspension' := auto_suspension p activeCount (maxStrikesThreshold (sv_config s)) in
    mret ((stored, suspension', true),
          with_suspensions (<[ip_buyerId p := suspension']> (sv_suspensions s4)) s4)
  else mret ((stored, suspension, false), s4).

Definition appeal_lift_reason (activeCount threshold : Z) : string :=
  "Suspension automatically lifted after successful strike appeal (active strikes: " +:+
  pretty activeCount +:+ " < threshold: " +:+ pretty threshold +:+ ")".

Definition appealStrike (strikeId appealReason : string) (evidence : list string) (now : Z) (s : Service)
    : result StrikeError ((Strike * BuyerSuspensionRecord * bool) * Service) :=
  _ ← throw_if (blank strikeId) strikeId_required;
  _ ← throw_if (blank appealReason) appealReason_required;
  strike ← from_option_or (sv_strikes s !! strikeId) strike_not_found;
  _ ← throw_if (negb (bool_decide (sk_status strike = active))) strike_not_active;
  let appealed_strike :=
    {| sk_id := sk_id strike; sk_buyerId := sk_buyerId strike; sk_intentId := sk_intentId strike;
       sk_slotId := sk_slotId strike; sk_reason := sk_reason strike;
       sk_issuedAt := sk_issuedAt strike; sk_expiresAt := sk_expiresAt strike; sk_status := appealed;
       sk_appeal := Some (now, js_trim appealReason, evidence);
       sk_escalatedAt := sk_escalatedAt strike; sk_arbitration := sk_arbitration strike;
       sk_rescission := sk_rescission strike |} in
  let s1 := with_strikes (<[strikeId := appealed_strike]> (sv_strikes s)) s in
  let buyerId := sk_buyerId strike in
  let '(activeStrikes, s2) := getActiveStrikes buyerId now s1 in
  let activeCount := Z.of_nat (length activeStrikes) in
  let suspension := suspension_of buyerId s2 in
  let stored := default appealed_strike (sv_strikes s2 !! strikeId) in
  if bs_isSuspended suspension && (activeCount <? maxStrikesThreshold (sv_config s)) then
    let suspension' := lift_suspension now "system.appeal"
                         (appeal_lift_reason activeCount (maxStrikesThreshold (sv_config s))) suspension in
    mret ((stored, suspension', true),
          with_suspensions (<[buyerId := suspension']> (sv_suspensions s2)) s2)
  else mret ((stored, suspension, false), s2).

Definition with_escalation (now : Z) (k : Strike) : Strike :=
  {| sk_id := sk_id k; sk_buyerId := sk_buyerId k; sk_intentId := sk_intentId k;
     sk_slotId := sk_slotId k; sk_reason := sk_reason k;
     sk_issuedAt := sk_issuedAt k; sk_expiresAt := sk_expiresAt k; sk_status := sk_status k;
     sk_appeal := sk_appeal k; sk_escalatedAt := Some now; sk_arbitration := sk_arbitration k;
     sk_rescission := sk_rescission k |}.

(** [if (strike.escalatedToArbitrationAt)]: a timestamp is truthy unless 0. *)
Definition escalated (k : Strike) : bool :=
  match sk_escalatedAt k with Some t => negb (t =? 0) | None => false end.

Definition escalateToArbitration (strikeId : string) (now : Z) (s : Service)
    : result StrikeError (ArbitrationQueueItem * Service) :=
  strike ← from_option_or (sv_strikes s !! strikeId) strike_not_found;
  _ ← throw_if (negb (bool_decide (sk_status strike = appealed))) strike_not_appealed;
  _ ← throw_if (escalated strike) already_escalated;
  let '(at_, reason, evidence) := default (now, "", []) (sk_appeal strike) in
  let item := {| aq_strikeId := sk_id strike; aq_buyerId := sk_buyerId strike;
                 aq_intentId := sk_intentId strike; aq_slotId := sk_slotId strike;
                 aq_appealReason := reason; aq_appealEvidence := evidence; aq_appealedAt := at_;
                 aq_escalatedAt := now; aq_decided := None |} in
  mret (item, with_queue (sv_queue s ++ [item])
                (with_strikes (<[strikeId := with_escalation now strike]> (sv_strikes s)) s)).

Definition with_arbitration (d : Decision * string * Z) (k : Strike) : Strike :=
  {| sk_id := sk_id k; sk_buyerId := sk_buyerId k; sk_intentId := sk_intentId k;
     sk_slotId := sk_slotId k; sk_reason := sk_reason k;
     sk_issuedAt := sk_issuedAt k; sk_expiresAt := sk_expiresAt k; sk_status := sk_status k;
     sk_appeal := sk_appeal k; sk_escalatedAt := sk_escalatedAt k; sk_arbitration := Some d;
     sk_rescission := sk_rescission k |}.

Definition is_item (strikeId : string) (i : ArbitrationQueueItem) : bool :=
  bool_decide (aq_strikeId i = strikeId).

Definition decide_item (d : Decision * string * Z) (i : ArbitrationQueueItem) : ArbitrationQueueItem :=
  {| aq_strikeId := aq_strikeId i; aq_buyerId := aq_buyerId i; aq_intentId := aq_intentId i;
     aq_slotId := aq_slotId i; aq_appealReason := aq_appealReason i;
     aq_appealEvidence := aq_appealEvidence i; aq_appealedAt := aq_appealedAt i;
     aq_escalatedAt := aq_escalatedAt i; aq_decided := Some d |}.

Definition overturned_reason (decidedBy : string) : string :=
  "Strike overturned by arbitration (" +:+ decidedBy +:+ ")".

Definition decideArbitration (strikeId : string) (decision : Decision) (decidedBy : string) (now : Z)
    (s : Service) : result StrikeError ((Strike * ArbitrationQueueItem) * Service) :=
  strike ← from_option_or (sv_strikes s !! strikeId) strike_not_found;
  _ ← throw_if (negb (escalated strike)) not_escalated;
  item ← from_option_or (find_first (is_item strikeId) (sv_queue s)) queue_item_not_found;
  _ ← throw_if (bool_decide (is_Some (aq_decided item))) already_decided;
  let d := (decision, decidedBy, now) in
  let strike' := with_arbitration d strike in
  let s1 := with_queue (update_first (is_item strikeId) (decide_item d) (sv_queue s))
              (with_strikes (<[strikeId := strike']> (sv_strikes s)) s) in
  let s2 :=
    match decision with
    | UPHELD => s1
    | OVERTURNED =>
        match sv_suspensions s1 !! sk_buyerId strike with
        | Some b =>
            if bs_isSuspended b then
              with_suspensions (<[sk_buyerId strike :=
                lift_suspension now decidedBy (overturned_reason decidedBy) b]> (sv_suspensions s1)) s1
            else s1
        | None => s1
        end
    end in
  mret ((strike', decide_item d item), s2).

Definition rescind (now : Z) (reason adminId : string) (k : Strike) : Strike :=
  {| sk_id := sk_id k; sk_buyerId := sk_buyerId k; sk_intentId := sk_intentId k;
     sk_slotId := sk_slotId k; sk_reason := sk_reason k;
     sk_issuedAt := sk_issuedAt k; sk_expiresAt := sk_expiresAt k; sk_status := rescinded;
     sk_appeal := sk_appeal k; sk_escalatedAt := sk_escalatedAt k;
     sk_arbitration := sk_arbitration k; sk_rescission := Some (now, reason, adminId) |}.

(** The clearing loop of [reinstateBuyer], with its counter. *)
Fixpoint rescind_all (now : Z) (reason adminId : string) (ids : list string) (m : gmap string Strike)
    : gmap string Strike * Z :=
  match ids with
  | [] => (m, 0)
  | id :: ids' =>
      match m !! id with
      | Some k =>
          if bool_decide (sk_status k = active) then
            let '(m', n) := rescind_all now reason adminId ids' (<[id := rescind now reason adminId k]> m) in
            (m', n + 1)
          else rescind_all now reason adminId ids' m
      | None => rescind_all now reason adminId ids' m
      end
  end.

Definition reinstateBuyer (buyerId : string) (adminId reason : option string)
    (clearActiveStrikes : option bool) (now : Z) (s : Service)
    : result StrikeError ((BuyerSuspensionRecord * Z) * Service) :=
  _ ← throw_if (blank buyerId) buyerId_required;
  let adminId := default "admin"%string adminId in
  let reason := default "Admin reinstatement"%string reason in
  let shouldClear := negb (bool_decide (clearActiveStrikes = Some false)) in
  let '(strikes, rescindedCount) :=
    if shouldClear then rescind_all now reason adminId (ids_of buyerId s) (sv_strikes s)
    else (sv_strikes s, 0) in
  let s1 := with_strikes strikes s in
  let suspension := {| bs_buyerId := buyerId; bs_isSuspended := false; bs_suspended := None;
                       bs_reinstated := Some (now, adminId, reason) |} in
  mret ((suspension, rescindedCount),
        with_suspensions (<[buyerId := suspension]> (sv_suspensions s1)) s1).

Definition getStrike (strikeId : string) (s : Service) : option Strike := sv_strikes s !! strikeId.

Definition getArbitrationQueue (decided : option bool) (s : Service) : list ArbitrationQueueItem :=
  match decided with
  | Some d => List.filter (fun i => Bool.eqb (bool_decide (is_Some (aq_decided i))) d) (sv_queue s)
  | None => sv_queue s
  end.

Definition getBuyerArbitrationItems (buyerId : string) (s : Service) : list ArbitrationQueueItem :=
  List.filter (fun i => bool_decide (aq_buyerId i = buyerId)) (sv_queue s).

Definition resetState : Service :=
  {| sv_config := DEFAULT_STRIKE_CONFIG; sv_strikes := ∅; sv_index := ∅; sv_suspensions := ∅;
     sv_queue := [] |}.

(** ** Operations as steps *)

Inductive op_step (s : Service) : Service -> Prop :=
| op_config t d a s' : updateConfig t d a s = Ok s' -> op_step s s'
| op_issue uuid p out s' :
    sv_strikes s !! uuid = None -> issueStrike uuid p s = Ok (out, s') -> op_step s s'
| op_appeal id reason ev now out s' : appealStrike id reason ev now s = Ok (out, s') -> op_step s s'
| op_escalate id now out s' : escalateToArbitration id now s = Ok (out, s') -> op_step s s'
| op_decide id d by_ now out s' : decideArbitration id d by_ now s = Ok (out, s') -> op_step s s'
| op_reinstate b a r c now out s' : reinstateBuyer b a r c now s = Ok (out, s') -> op_step s s'
| op_read b now : op_step s (evaluateDecayForBuyer b now s).

(** ** Strikes are never reactivated *)

(** A strike keeps its identity and dates; its status changes only while it is
    active. *)
Definition strike_evolves (k k' : Strike) : Prop :=
  sk_id k' = sk_id k /\ sk_buyerId k' = sk_buyerId k /\ sk_issuedAt k' = sk_issuedAt k /\
  sk_expiresAt k' = sk_expiresAt k /\ (sk_status k <> active -> sk_status k' = sk_status k).

#[global] Instance strike_evolves_preorder : PreOrder strike_evolves.
Proof.
  split; [by intros k|]. intros k1 k2 k3 (?&?&?&?&Ha) (?&?&?&?&Hb). unfold strike_evolves.
  split_and!; try congruence. intros Hn. rewrite <- (Ha Hn). apply Hb. by rewrite (Ha Hn).
Qed.

Definition strikes_evolve (m m' : gmap string Strike) : Prop :=
  forall id k, m !! id = Some k -> exists k', m' !! id = Some k' /\ strike_evolves k k'.

#[global] Instance strikes_evolve_preorder : PreOrder strikes_evolve.
Proof.
  split.
  - intros m id k Hk. by exists k.
  - intros m1 m2 m3 H1 H2 id k Hk. destruct (H1 id k Hk) as (k2 & E2 & R2).
    destruct (H2 id k2 E2) as (k3 & E3 & R3). exists k3. split; [done|by etrans].
Qed.

Lemma insert_evolves id k k' m :
  m !! id = Some k -> strike_evolves k k' -> strikes_evolve m (<[id := k']> m).
Proof.
  intros Hk He i x Hx. destruct (decide (i = id)) as [->|Hne].
  - rewrite lookup_insert_eq. simplify_eq. by exists k'.
  - rewrite lookup_insert_ne by done. by exists x.
Qed.

Lemma insert_fresh_evolves id k m : m !! id = None -> strikes_evolve m (<[id := k]> m).
Proof. intros Hn i x Hx. rewrite lookup_insert_ne by congruence. by exists x. Qed.

Lemma decay_evolves now k : strike_evolves k (decay_strike now k).
Proof.
  unfold decay_strike. destruct (bool_decide _ && _) eqn:E; [|done].
  apply andb_true_iff in E as [E%bool_decide_eq_true _]. by split_and!.
Qed.

Lemma map_strikes_evolve f ids m : (forall k, strike_evolves k (f k)) -> strikes_evolve m (map_strikes f ids m).
Proof.
  intros Hf. unfold map_strikes. revert m. induction ids as [|id ids IH]; intros m; simpl; [done|].
  etrans; [|apply IH]. intros i k Hk. destruct (decide (i = id)) as [->|Hne].
  - rewrite lookup_alter_eq, Hk. simpl. by exists (f k).
  - rewrite lookup_alter_ne by done. by exists k.
Qed.

Lemma rescind_all_evolve now r a ids m : strikes_evolve m (fst (rescind_all now r a ids m)).
Proof.
  revert m. induction ids as [|id ids IH]; intros m; simpl; [done|].
  destruct (m !! id) as [k|] eqn:Ek; [|apply IH]. case_bool_decide; [|apply IH].
  specialize (IH (<[id := rescind now r a k]> m)).
  destruct (rescind_all now r a ids (<[id := rescind now r a k]> m)) as [m' n]. simpl in *.
  etrans; [|exact IH]. eapply insert_evolves; [done|]. by split_and!.
Qed.

Lemma decay_service_evolves b now s :
  strikes_evolve (sv_strikes s) (sv_strikes (evaluateDecayForBuyer b now s)).
Proof. apply map_strikes_evolve. intros. apply decay_evolves. Qed.

#[local] Hint Resolve decay_service_evolves : core.

Lemma issue_evolves uuid p s out s' :
  sv_strikes s !! uuid = None -> issueStrike uuid p s = Ok (out, s') ->
  strikes_evolve (sv_strikes s) (sv_strikes s').
Proof.
  intros Hn Hi. unfold issueStrike, getActiveStrikes in Hi. apply bind_ok in Hi as ([] & _ & Hi).
  apply if_mret in Hi.
  assert (strikes_evolve (sv_strikes s) (sv_strikes s')) as He; [|done].
  match type of Hi with _ = (if ?c then _ else _) => destruct c end; injection Hi as _ ->; simpl;
    (etrans; [by apply (insert_fresh_evolves uuid)|]);
    (etrans; [|apply map_strikes_evolve; intros; apply decay_evolves]);
    (apply map_strikes_evolve; intros; apply decay_evolves).
Qed.

Lemma appeal_evolves id r ev now s out s' :
  appealStrike id r ev now s = Ok (out, s') -> strikes_evolve (sv_strikes s) (sv_strikes s').
Proof.
  unfold appealStrike, getActiveStrikes. intros Ha.
  apply bind_ok in Ha as ([] & _ & Ha). apply bind_ok in Ha as ([] & _ & Ha).
  apply bind_ok in Ha as (k & Hk%from_option_or_ok & Ha).
  apply bind_ok in Ha as ([] & Hs%throw_if_ok & Ha).
  apply negb_false_iff, bool_decide_eq_true in Hs. apply if_mret in Ha.
  match type of Ha with _ = (if ?c then _ else _) => destruct c end; injection Ha as _ ->; simpl;
    (etrans; [|apply map_strikes_evolve; intros; apply decay_evolves]);
    (eapply insert_evolves; [done|]; by split_and!).
Qed.

Lemma op_step_evolves s s' : op_step s s' -> strikes_evolve (sv_strikes s) (sv_strikes s').
Proof.
  intros [t d a s1 Hc|uuid p out s1 Hn Hi|id r ev now out s1 Ha|id now out s1 He|id d by_ now out s1 Hd
         |b a r c now out s1 Hr|b now].
  - unfold updateConfig in Hc. apply bind_ok in Hc as ([] & _ & Hc).
    apply bind_ok in Hc as ([] & _ & Hc). by injection Hc as <-.
  - by eapply issue_evolves.
  - by eapply appeal_evolves.
  - unfold escalateToArbitration in He. apply bind_ok in He as (k & Hk%from_option_or_ok & He).
    apply bind_ok in He as ([] & _ & He). apply bind_ok in He as ([] & _ & He).
    destruct (default _ (sk_appeal k)) as [[at_ reason] ev].
    injection He as _ <-. simpl. eapply insert_evolves; [done|]. by split_and!.
  - unfold decideArbitration in Hd. apply bind_ok in Hd as (k & Hk%from_option_or_ok & Hd).
    apply bind_ok in Hd as ([] & _ & Hd). apply bind_ok in Hd as (it & _ & Hd).
    apply bind_ok in Hd as ([] & _ & Hd). injection Hd as _ <-.
    assert (strikes_evolve (sv_strikes s) (<[id := with_arbitration (d, by_, now) k]> (sv_strikes s))) as He
      by (eapply insert_evolves; [done|]; by split_and!).
    destruct d; simpl; [done|]. destruct (sv_suspensions s !! sk_buyerId k) as [b|]; [|done].
    by destruct (bs_isSuspended b).
  - unfold reinstateBuyer in Hr. apply bind_ok in Hr as ([] & _ & Hr).
    destruct (negb _).
    + pose proof (rescind_all_evolve now (default "Admin reinstatement"%string r)
        (default "admin"%string a) (ids_of b s) (sv_strikes s)) as He.
      destruct (rescind_all _ _ _ _ _) as [m n]. injection Hr as _ <-. done.
    + injection Hr as _ <-. done.
  - apply decay_service_evolves.
Qed.

(** Over any sequence of operations a strike is never lost, keeps its buyer
    and dates, and never becomes active again once it has decayed, been
    appealed or been rescinded; in particular an appeal that is rejected in arbitration does
    not restore it. *)
Theorem strikes_never_reactivated s s' id k :
  rtc op_step s s' -> sv_strikes s !! id = Some k ->
  exists k', sv_strikes s' !! id = Some k' /\ strike_evolves k k'.
Proof.
  intros Hr. enough (strikes_evolve (sv_strikes s) (sv_strikes s')) as He by apply He.
  induction Hr as [s|s s1 s' Hs _ IH]; [done|]. etrans; [by apply op_step_evolves|done].
Qed.

(** ** Counting active strikes *)

(** The index lists each buyer's strikes, once each. *)
Definition indexed (s : Service) : Prop :=
  (forall b, NoDup (ids_of b s)) /\
  (forall b id, id ∈ ids_of b s -> exists k, sv_strikes s !! id = Some k /\ sk_buyerId k = b).

Definition live_count (b : string) (now : Z) (s : Service) : Z :=
  Z.of_nat (length (List.filter (counts now) (strikes_of b s))).

Lemma lookup_map_strikes f ids m id :
  NoDup ids -> map_strikes f ids m !! id = if bool_decide (id ∈ ids) then f <$> m !! id else m !! id.
Proof.
  unfold map_strikes. revert m. induction ids as [|i ids IH]; intros m Hnd; simpl; [done|].
  apply NoDup_cons in Hnd as [Hni Hnd]. rewrite IH by done.
  destruct (decide (id = i)) as [->|Hne].
  - rewrite (bool_decide_eq_false_2 (i ∈ ids)) by done.
    rewrite bool_decide_eq_true_2 by set_solver. by rewrite lookup_alter_eq.
  - rewrite lookup_alter_ne by done. case_bool_decide as H1; case_bool_decide as H2; set_solver.
Qed.

Lemma strikes_of_decay b now s :
  indexed s -> strikes_of b (evaluateDecayForBuyer b now s) = map (decay_strike now) (strikes_of b s).
Proof.
  intros [Hnd Hin]. unfold strikes_of. change (ids_of b (evaluateDecayForBuyer b now s)) with (ids_of b s).
  simpl. assert (forall l, (forall id, id ∈ l -> id ∈ ids_of b s) ->
    omap (fun id => map_strikes (decay_strike now) (ids_of b s) (sv_strikes s) !! id) l =
    map (decay_strike now) (omap (fun id => sv_strikes s !! id) l)) as Hl; [|by apply Hl].
  intros l. induction l as [|i l IH]; intros Hl; [done|]. cbn [omap list_omap].
  rewrite lookup_map_strikes by apply Hnd. rewrite bool_decide_eq_true_2 by (apply Hl; set_solver).
  rewrite IH by (intros; apply Hl; set_solver). by destruct (sv_strikes s !! i).
Qed.

Lemma counts_decay now k : counts now (decay_strike now k) = counts now k.
Proof.
  unfold counts, decay_strike. destruct (bool_decide (sk_status k = active)) eqn:E; simpl; [|by rewrite E].
  destruct (Z.leb_spec (sk_expiresAt k) now); simpl; [|by rewrite E].
  symmetry. by apply Z.ltb_ge.
Qed.

Lemma filter_map_length {A} (p : A -> bool) (g : A -> A) l :
  (forall x, p (g x) = p x) -> length (List.filter p (map g l)) = length (List.filter p l).
Proof. intros Hp. induction l as [|x l IH]; simpl; [done|]. rewrite Hp. destruct (p x); simpl; lia. Qed.

Lemma live_count_decay b now s :
  indexed s -> live_count b now (evaluateDecayForBuyer b now s) = live_count b now s.
Proof.
  intros Hi. unfold live_count. rewrite strikes_of_decay by done.
  by rewrite filter_map_length by (intros; apply counts_decay).
Qed.

Lemma indexed_frame s s' :
  (forall b, ids_of b s' = ids_of b s) -> strikes_evolve (sv_strikes s) (sv_strikes s') ->
  indexed s -> indexed s'.
Proof.
  intros Hids Hev [Hnd Hin]. split; intros b; rewrite Hids; [done|].
  intros id (k & Hk & Hb)%Hin. destruct (Hev id k Hk) as (k' & Hk' & _ & Hb' & _).
  exists k'. split; [done|]. congruence.
Qed.

Lemma indexed_decay b now s : indexed s -> indexed (evaluateDecayForBuyer b now s).
Proof. by apply indexed_frame. Qed.

(** Recording a new strike. *)
Definition recorded (uuid : string) (k : Strike) (s : Service) : Service :=
  with_index (<[sk_buyerId k := ids_of (sk_buyerId k) s ++ [uuid]]> (sv_index s))
    (with_strikes (<[uuid := k]> (sv_strikes s)) s).

Lemma recorded_ids uuid k s b :
  ids_of b (recorded uuid k s) =
  if bool_decide (b = sk_buyerId k) then ids_of b s ++ [uuid] else ids_of b s.
Proof.
  unfold ids_of at 1, recorded. simpl. case_bool_decide as Hb.
  - subst. by rewrite lookup_insert_eq.
  - by rewrite lookup_insert_ne.
Qed.

Lemma indexed_recorded uuid k s :
  indexed s -> sv_strikes s !! uuid = None -> indexed (recorded uuid k s).
Proof.
  intros [Hnd Hin] Hn.
  assert (forall b, uuid ∉ ids_of b s) as Hfresh.
  { intros b (k' & Hk' & _)%Hin. congruence. }
  split; intros b; rewrite recorded_ids; case_bool_decide as Hb.
  - apply NoDup_app. split_and!; [done| |apply NoDup_singleton].
    intros x Hx ->%list_elem_of_singleton. by apply (Hfresh b).
  - done.
  - intros id [Hid| ->%list_elem_of_singleton]%elem_of_app; simpl.
    + destruct (Hin b id Hid) as (k' & Hk' & Hbk). exists k'.
      rewrite lookup_insert_ne by (intros ->; by apply (Hfresh b)). done.
    + exists k. rewrite lookup_insert_eq. done.
  - intros id Hid. simpl. destruct (Hin b id Hid) as (k' & Hk' & Hbk). exists k'.
    rewrite lookup_insert_ne by (intros ->; by apply (Hfresh b)). done.
Qed.

(** Looking up a list of ids in two maps that agree on it. *)
Lemma omap_agree (m m' : gmap string Strike) (l : list string) :
  (forall id, id ∈ l -> m' !! id = m !! id) ->
  omap (fun id => m' !! id) l = omap (fun id => m !! id) l.
Proof.
  induction l as [|i l IH]; intros Hm; [done|]. cbn [omap list_omap].
  rewrite Hm by set_solver. rewrite IH by (intros; apply Hm; set_solver). done.
Qed.

Lemma live_count_recorded uuid k s now :
  indexed s -> sv_strikes s !! uuid = None -> counts now k = true ->
  live_count (sk_buyerId k) now (recorded uuid k s) = live_count (sk_buyerId k) now s + 1.
Proof.
  intros [Hnd Hin] Hn Hc. unfold live_count, strikes_of. rewrite recorded_ids.
  rewrite bool_decide_eq_true_2 by done. simpl sv_strikes. rewrite omap_app.
  rewrite (omap_agree (sv_strikes s)).
  - simpl. rewrite lookup_insert_eq. rewrite List.filter_app, length_app. simpl. rewrite Hc. simpl. lia.
  - intros id Hid. apply lookup_insert_ne. intros ->.
    destruct (Hin (sk_buyerId k) id) as (k' & Hk' & _); [done|congruence].
Qed.

Lemma suspension_insert b b' r s :
  suspension_of b' (with_suspensions (<[b := r]> (sv_suspensions s)) s) =
  if bool_decide (b' = b) then r else suspension_of b' s.
Proof.
  unfold suspension_of. simpl. case_bool_decide as Hb.
  - subst. by rewrite lookup_insert_eq.
  - by rewrite lookup_insert_ne.
Qed.

Lemma decay_unexpired now k : now < sk_expiresAt k -> decay_strike now k = k.
Proof.
  intros Hlt. unfold decay_strike. destruct (Z.leb_spec (sk_expiresAt k) now); [lia|].
  by rewrite andb_false_r.
Qed.

Section Issue.
Context (uuid : string) (p : IssueParams) (s : Service).
Hypothesis Hidx : indexed s.
Hypothesis Hfresh : sv_strikes s !! uuid = None.
Hypothesis Hbuyer : blank (ip_buyerId p) = false.
Hypothesis Hwindow : 0 < decayWindowMs (sv_config s).

Let k := new_strike uuid p (sv_config s).
Let decays t := evaluateDecayForBuyer (ip_buyerId p) (ip_issuedAt p) t.
Let s4 := decays (decays (recorded uuid k s)).

Lemma issue_indexed : indexed s4.
Proof. by apply indexed_decay, indexed_decay, indexed_recorded. Qed.

Lemma issue_count : live_count (ip_buyerId p) (ip_issuedAt p) s4 = live_count (ip_buyerId p) (ip_issuedAt p) s + 1.
Proof.
  unfold s4, decays. rewrite !live_count_decay by (by repeat apply indexed_decay; apply indexed_recorded).
  apply (live_count_recorded uuid k); [done|done|]. unfold counts. simpl.
  apply Z.ltb_lt. lia.
Qed.

Lemma issue_stored : sv_strikes s4 !! uuid = Some k.
Proof.
  assert (forall t, indexed t -> uuid ∈ ids_of (ip_buyerId p) t -> sv_strikes t !! uuid = Some k ->
            sv_strikes (decays t) !! uuid = Some k) as Hd.
  { intros t [Hnd _] Hin Hk. simpl. rewrite lookup_map_strikes by done.
    rewrite bool_decide_eq_true_2, Hk by done. simpl. rewrite decay_unexpired; [done|]. simpl. lia. }
  assert (uuid ∈ ids_of (ip_buyerId p) (recorded uuid k s)) as Hin.
  { rewrite recorded_ids, bool_decide_eq_true_2 by done. set_solver. }
  apply Hd; [by apply indexed_decay, indexed_recorded|done|].
  apply Hd; [by apply indexed_recorded|done|]. apply lookup_insert_eq.
Qed.

(** A strike against a buyer is always recorded, active, with the
    configured expiry; it raises the buyer's count of live strikes by one (expired
    ones having decayed); and the buyer is suspended by it exactly when
    automatic suspension is on, the count has reached the threshold and the buyer was not
    suspended already.  No other buyer's suspension changes. *)
Theorem issueStrike_correct :
  let b := ip_buyerId p in
  let n := live_count b (ip_issuedAt p) s + 1 in
  exists susp auto s',
    issueStrike uuid p s = Ok ((k, susp, auto), s') /\ indexed s' /\
    sv_strikes s' !! uuid = Some k /\
    live_count b (ip_issuedAt p) s' = n /\
    auto = autoSuspendEnabled (sv_config s) && (maxStrikesThreshold (sv_config s) <=? n)
           && negb (bs_isSuspended (suspension_of b s)) /\
    bs_isSuspended (suspension_of b s') = auto || bs_isSuspended (suspension_of b s) /\
    (forall b', b' <> b -> suspension_of b' s' = suspension_of b' s).
Proof.
  intros b n. pose proof issue_stored as Hk. pose proof issue_count as Hc.
  assert (issueStrike uuid p s =
    if autoSuspendEnabled (sv_config s) && (maxStrikesThreshold (sv_config s) <=? n)
       && negb (bs_isSuspended (suspension_of b s)) then
      let r := auto_suspension p n (maxStrikesThreshold (sv_config s)) in
      Ok ((k, r, true), with_suspensions (<[b := r]> (sv_suspensions s4)) s4)
    else Ok ((k, suspension_of b s, false), s4)) as ->.
  { unfold issueStrike. rewrite Hbuyer. simpl throw_if. unfold getActiveStrikes.
    change (with_index _ _) with (recorded uuid k s). fold (decays (recorded uuid k s)).
    fold (decays (decays (recorded uuid k s))). fold s4. cbv zeta.
    change (Z.of_nat (length (List.filter (counts (ip_issuedAt p)) (strikes_of (ip_buyerId p) s4))))
      with (live_count (ip_buyerId p) (ip_issuedAt p) s4).
    fold k. rewrite Hc, Hk. done. }
  destruct (_ && _ && _) eqn:Ec; do 3 eexists; (split; [done|]).
  - split_and!; try done; [apply issue_indexed|by rewrite suspension_insert, bool_decide_eq_true_2|].
    intros b' Hb. by rewrite suspension_insert, bool_decide_eq_false_2.
  - split_and!; try done. apply issue_indexed.
Qed.
End Issue.

(** An appeal takes the strike out of the count, and lifts the suspension of
    its buyer exactly when the buyer was suspended and fewer live strikes than
    the threshold remain. *)
Theorem appealStrike_correct id reason ev now s k' susp lifted s' :
  appealStrike id reason ev now s = Ok ((k', susp, lifted), s') ->
  exists k, sv_strikes s !! id = Some k /\ sk_status k = active /\
    sv_strikes s' !! id = Some k' /\ sk_status k' = appealed /\
    lifted = bs_isSuspended (suspension_of (sk_buyerId k) s)
             && (live_count (sk_buyerId k) now s' <? maxStrikesThreshold (sv_config s)) /\
    bs_isSuspended (suspension_of (sk_buyerId k) s') =
      bs_isSuspended (suspension_of (sk_buyerId k) s) && negb lifted.
Proof.
  intros Ha. pose proof Ha as Hev. unfold appealStrike, getActiveStrikes in Ha.
  apply bind_ok in Ha as ([] & _ & Ha). apply bind_ok in Ha as ([] & _ & Ha).
  apply bind_ok in Ha as (k & Hk%from_option_or_ok & Ha).
  apply bind_ok in Ha as ([] & Hs%throw_if_ok & Ha).
  apply negb_false_iff, bool_decide_eq_true in Hs. apply if_mret in Ha.
  set (s1 := with_strikes _ s) in Ha.
  set (s2 := evaluateDecayForBuyer (sk_buyerId k) now s1) in Ha.
  assert (exists k2, sv_strikes s2 !! id = Some k2 /\ sk_status k2 = appealed) as (k2 & Hk2 & Hst).
  { destruct (decay_service_evolves (sk_buyerId k) now s1 id _ (lookup_insert_eq _ _ _))
      as (k2 & Hk2 & _ & _ & _ & _ & Hst). exists k2. split; [done|]. by apply Hst. }
  exists k. rewrite Hk2 in Ha. simpl default in Ha.
  change (Z.of_nat (length (List.filter (counts now) (strikes_of (sk_buyerId k) s2))))
    with (live_count (sk_buyerId k) now s2) in Ha.
  change (suspension_of (sk_buyerId k) s2) with (suspension_of (sk_buyerId k) s) in Ha.
  destruct (bs_isSuspended (suspension_of (sk_buyerId k) s)) eqn:Eb; simpl in Ha |- *.
  - destruct (Z.ltb_spec (live_count (sk_buyerId k) now s2) (maxStrikesThreshold (sv_config s)));
      injection Ha as -> -> -> ->; split_and!; try done.
    + symmetry. by apply Z.ltb_lt.
    + unfold suspension_of. simpl. by rewrite lookup_insert_eq.
    + symmetry. by apply Z.ltb_ge.
  - injection Ha as -> -> -> ->. by split_and!.
Qed.

(** An overturned arbitration reinstates the buyer without looking at the
    buyer's other strikes, and leaves the strike in status "appealed": it is not
    rescinded.  An upheld one changes neither the status nor the suspension. *)
Theorem decideArbitration_correct id d by_ now s k' item s' :
  decideArbitration id d by_ now s = Ok ((k', item), s') ->
  exists k, sv_strikes s !! id = Some k /\ sv_strikes s' !! id = Some k' /\
    sk_status k' = sk_status k /\ sk_arbitration k' = Some (d, by_, now) /\
    suspension_of (sk_buyerId k) s' =
      (if bool_decide (d = OVERTURNED) && bs_isSuspended (suspension_of (sk_buyerId k) s)
       then lift_suspension now by_ (overturned_reason by_) (suspension_of (sk_buyerId k) s)
       else suspension_of (sk_buyerId k) s) /\
    (forall q, decideArbitration id q by_ now s' = Err already_decided).
Proof.
  intros Hd. unfold decideArbitration in Hd. apply bind_ok in Hd as (k & Hk%from_option_or_ok & Hd).
  apply bind_ok in Hd as ([] & Hesc%throw_if_ok & Hd). apply bind_ok in Hd as (it & Hit%from_option_or_ok & Hd).
  apply bind_ok in Hd as ([] & _ & Hd). cbv zeta in Hd. injection Hd as <- _ <-. exists k.
  set (s1 := with_queue _ _).
  assert (forall m, (with_suspensions m s1) = with_suspensions m s1 /\
    sv_strikes s1 !! id = Some (with_arbitration (d, by_, now) k)) as Hs1.
  { intros m. split; [done|]. apply lookup_insert_eq. }
  assert (forall q t, sv_strikes t = sv_strikes s1 -> sv_queue t = sv_queue s1 ->
            decideArbitration id q by_ now t = Err already_decided) as Hagain.
  { intros q t Et Eq. unfold decideArbitration. rewrite Et, Eq. simpl sv_strikes.
    rewrite lookup_insert_eq. simpl from_option_or. unfold mbind at 1, result_bind. cbv iota.
    apply negb_false_iff in Hesc. change (escalated (with_arbitration (d, by_, now) k)) with (escalated k).
    rewrite Hesc. simpl sv_queue.
    rewrite (find_update_first_eq (is_item id) (decide_item (d, by_, now)) (sv_queue s) it Hit); [done|].
    by apply find_first_Some in Hit as [? _]. }
  split; [done|]. destruct d; simpl bool_decide; simpl andb; cbv iota.
  - split_and!; try done; [apply lookup_insert_eq|]. intros q. by apply Hagain.
  - unfold suspension_of. simpl. destruct (sv_suspensions s !! sk_buyerId k) as [b|] eqn:Eb; simpl.
    + destruct (bs_isSuspended b) eqn:Es; simpl; rewrite ?lookup_insert_eq, ?Eb; simpl;
        (split_and!; try done); intros q; by apply Hagain.
    + rewrite lookup_insert_eq, Eb. simpl. split_and!; try done. intros q. by apply Hagain.
Qed.

(** ** A concrete buyer *)

Definition w_issue (t : Z) : IssueParams := 
  {| ip_buyerId := "alice"; ip_intentId := Some "i1"%string; ip_slotId := None; ip_reason := None;
     ip_issuedAt := t |}.

Definition w_then {A} (r : result StrikeError (A * Service)) (s : Service) : Service :=
  match r with Ok (_, s') => s' | Err _ => s end.

Definition w_v1 : Service := w_then (issueStrike "k1" (w_issue 1) resetState) resetState.
Definition w_v2 : Service := w_then (issueStrike "k2" (w_issue 2) w_v1) w_v1.
Definition w_v3 : Service := w_then (issueStrike "k3" (w_issue 3) w_v2) w_v2.
Definition w_v4 : Service := w_then (issueStrike "k4" (w_issue 4) w_v3) w_v3.
Definition w_v5 : Service := w_then (appealStrike "k1" "late train" [] 5 w_v4) w_v4.
Definition w_v6 : Service := w_then (escalateToArbitration "k1" 6 w_v5) w_v5.
Definition w_v7 : Service := w_then (decideArbitration "k1" OVERTURNED "judge" 7 w_v6) w_v6.

Lemma resetState_indexed : indexed resetState.
Proof. split; [intros b; constructor|]. intros b id Hin. by apply elem_of_nil in Hin. Qed.

Lemma issueStrike_correct_witness :
  exists susp auto s',
    issueStrike "k1" (w_issue 1) resetState = Ok ((new_strike "k1" (w_issue 1) DEFAULT_STRIKE_CONFIG, susp, auto), s') /\
    indexed s' /\ sv_strikes s' !! "k1"%string = Some (new_strike "k1" (w_issue 1) DEFAULT_STRIKE_CONFIG) /\
    live_count "alice" 1 s' = 1 /\ auto = false /\ bs_isSuspended (suspension_of "alice" s') = auto || false /\
    (forall b', b' <> "alice"%string -> suspension_of b' s' = suspension_of b' resetState).
Proof. apply (issueStrike_correct "k1" (w_issue 1) resetState); [apply resetState_indexed|reflexivity..]. Defined.

Lemma strikes_never_reactivated_witness :
  exists k', sv_strikes w_v7 !! "k1"%string = Some k' /\
    strike_evolves (new_strike "k1" (w_issue 1) DEFAULT_STRIKE_CONFIG) k'.
Proof.
  apply (strikes_never_reactivated w_v4); [|vm_compute; reflexivity].
  eapply rtc_l; [eapply (op_appeal w_v4 "k1" "late train" [] 5); vm_compute; reflexivity|].
  eapply rtc_l; [eapply (op_escalate w_v5 "k1" 6); vm_compute; reflexivity|].
  eapply rtc_l; [eapply (op_decide w_v6 "k1" OVERTURNED "judge" 7); vm_compute; reflexivity|]. apply rtc_refl.
Defined.

Definition w_k1a : Strike := default (new_strike "" (w_issue 0) DEFAULT_STRIKE_CONFIG) (sv_strikes w_v5 !! "k1"%string).

(** Four strikes, one appealed: three live ones remain, so the suspension stands;
    overturning the appealed strike lifts it all the same. *)
Lemma appealStrike_correct_witness :
  exists k, sv_strikes w_v4 !! "k1"%string = Some k /\ sk_status k = active /\
    sv_strikes w_v5 !! "k1"%string = Some w_k1a /\ sk_status w_k1a = appealed /\
    false = bs_isSuspended (suspension_of (sk_buyerId k) w_v4)
            && (live_count (sk_buyerId k) 5 w_v5 <? maxStrikesThreshold (sv_config w_v4)) /\
    bs_isSuspended (suspension_of (sk_buyerId k) w_v5) =
      bs_isSuspended (suspension_of (sk_buyerId k) w_v4) && negb false.
Proof.
  apply (appealStrike_correct "k1" "late train" [] 5 w_v4 w_k1a (suspension_of "alice" w_v4)).
  vm_compute. reflexivity.
Defined.

Definition w_k1 : Strike := default (new_strike "" (w_issue 0) DEFAULT_STRIKE_CONFIG) (sv_strikes w_v7 !! "k1"%string).

Lemma decideArbitration_correct_witness :
  (exists k, sv_strikes w_v6 !! "k1"%string = Some k /\ sv_strikes w_v7 !! "k1"%string = Some w_k1 /\
    sk_status w_k1 = sk_status k /\ sk_arbitration w_k1 = Some (OVERTURNED, "judge"%string, 7) /\
    suspension_of (sk_buyerId k) w_v7 =
      (if bool_decide (OVERTURNED = OVERTURNED) && bs_isSuspended (suspension_of (sk_buyerId k) w_v6)
       then lift_suspension 7 "judge" (overturned_reason "judge") (suspension_of (sk_buyerId k) w_v6)
       else suspension_of (sk_buyerId k) w_v6) /\
    (forall q, decideArbitration "k1" q "judge" 7 w_v7 = Err already_decided)) /\
  bs_isSuspended (suspension_of "alice" w_v7) = false /\ live_count "alice" 7 w_v7 = 3 /\
  sk_status w_k1 = appealed.
Proof.
  split_and!; [|vm_compute; reflexivity..].
  eapply (decideArbitration_correct "k1" OVERTURNED "judge" 7 w_v6). vm_compute. reflexivity.
Defined.
