(* ===== verification/RefundLedger.v ===== *)
(** * RefundLedger: supplier cancellations and their hash-chained ledger

    [handleSupplierCancelBeforeSlotStart], the refund ledger, its verification
    and its settlement marks, from [SchedulingService]
    ([services/schedulingService.ts]), over a repository whose lookups are
    synchronous, as the in-memory one's are (the handler does not await them).  SHA-256, the rendering of numbers in
    template strings, [toISOString] and [randomUUID] are parameters.  The
    ledger array and the two maps share entry objects: an entry is stored once,
    in the array, and the maps hold its position.  The emitted events are not
    modelled. *)
From stdpp Require Import base list strings gmap pretty.
From Stdlib Require Import ZArith Lia Ascii.
From S2P Require Import Prelude JsNumber Domain BookingRepo SlotRepo Scheduling HashChain.
Local Open Scope Z_scope.

Inductive EscrowRefundStatus : Type := requested | ledger_written | chain_settling | completed | failed.

#[export] Instance EscrowRefundStatus_eq_dec : EqDecision EscrowRefundStatus.
Proof. solve_decision. Defined.

Record EscrowRefundLedgerEntry : Type := {
  le_id : string;
  le_bookingIntentId : string;
  le_buyerId : option string;
  le_supplierId : option string;
  le_refundRequestId : string;
  le_escrowHoldId : string;
  le_grossAmountCents : num;
  le_platformFeeReversedCents : num;
  le_prepaidTaxReversedCents : num;
  le_netRefundCents : num;
  le_currency : string;
  le_cancelledBySupplierAt : Z;
  le_slotStartTime : Z;
  le_hoursBeforeStart : num;
  le_chainTxId : option string;
  le_status : EscrowRefundStatus;
  le_ledgerHash : string;
  le_prevLedgerHash : string;
  le_createdAt : Z
}.

Definition REFUND_LEDGER_GENESIS_HASH : string := "".

Inductive LedgerError : Type :=
| IntentMissing (bookingIntentId : string)
| CancellationAfterSlotStartError (bookingIntentId : string) (slotStartTime cancelledAt : Z)
| ReleaseFailed (e : SchedulingError)
| UnknownRefundRequest (refundRequestId : string).

Section Ledger.
Context (sha256 : string -> string) (show : num -> string) (toISOString : Z -> string).

(** The template string that is hashed. *)
Definition hash_input (refundRequestId prevHash : string)
    (grossAmount feeReversed taxReversed netRefund : num) (createdAtIso : string) : string :=
  refundRequestId +:+ "|" +:+ prevHash +:+ "|" +:+ show grossAmount +:+ "|" +:+ show feeReversed
    +:+ "|" +:+ show taxReversed +:+ "|" +:+ show netRefund +:+ "|" +:+ createdAtIso.

Definition deriveRefundLedgerHash (refundRequestId prevHash : string)
    (grossAmount feeReversed taxReversed netRefund : num) (createdAtIso : string) : string :=
  sha256 (hash_input refundRequestId prevHash grossAmount feeReversed taxReversed netRefund createdAtIso).

Definition entry_input (e : EscrowRefundLedgerEntry) : string :=
  hash_input (le_refundRequestId e) (le_prevLedgerHash e) (le_grossAmountCents e)
    (le_platformFeeReversedCents e) (le_prepaidTaxReversedCents e) (le_netRefundCents e)
    (toISOString (le_createdAt e)).

Definition entry_hash (e : EscrowRefundLedgerEntry) : string :=
  deriveRefundLedgerHash (le_refundRequestId e) (le_prevLedgerHash e) (le_grossAmountCents e)
    (le_platformFeeReversedCents e) (le_prepaidTaxReversedCents e) (le_netRefundCents e)
    (toISOString (le_createdAt e)).

Record ChainCheck : Type := { cc_valid : bool; cc_firstBrokenIndex : Z; cc_entriesChecked : Z }.

Fixpoint verify_from (i : Z) (expectedPrev : string) (l : list EscrowRefundLedgerEntry) : ChainCheck :=
  match l with
  | [] => {| cc_valid := true; cc_firstBrokenIndex := -1; cc_entriesChecked := i |}
  | e :: l' =>
      if negb (bool_decide (le_prevLedgerHash e = expectedPrev))
         || negb (bool_decide (le_ledgerHash e = entry_hash e))
      then {| cc_valid := false; cc_firstBrokenIndex := i; cc_entriesChecked := i + 1 |}
      else verify_from (i + 1) (le_ledgerHash e) l'
  end.

Definition verifyRefundLedgerChain (l : list EscrowRefundLedgerEntry) : ChainCheck :=
  verify_from 0 REFUND_LEDGER_GENESIS_HASH l.

Section Service.
Context {R T : Type} `{BookingIntentRepository R} `{SlotRepository T}.

Record LState : Type := {
  rl_sched : Sched T;
  rl_ledger : list EscrowRefundLedgerEntry;
  rl_byRequestId : gmap string nat;
  rl_byIntentId : gmap string (list nat)
}.

Definition with_sched (s : Sched T) (st : LState) : LState :=
  {| rl_sched := s; rl_ledger := rl_ledger st; rl_byRequestId := rl_byRequestId st;
     rl_byIntentId := rl_byIntentId st |}.

(** A call of a slot operation of the same service. *)
Definition sched_call {A} (m : M (Sched T) SchedulingError A) : M LState LedgerError A :=
  fun st => match m (rl_sched st) with
            | (Ok a, s) => (Ok a, with_sched s st)
            | (Err e, s) => (Err (ReleaseFailed e), with_sched s st)
            end.

Definition tail_hash (l : list EscrowRefundLedgerEntry) : string :=
  match last l with Some e => le_ledgerHash e | None => REFUND_LEDGER_GENESIS_HASH end.

(** Push an entry and index it. *)
Definition append_entry (e : EscrowRefundLedgerEntry) (st : LState) : LState :=
  let pos := length (rl_ledger st) in
  {| rl_sched := rl_sched st;
     rl_ledger := rl_ledger st ++ [e];
     rl_byRequestId := <[le_refundRequestId e := pos]> (rl_byRequestId st);
     rl_byIntentId := <[le_bookingIntentId e :=
        default [] (rl_byIntentId st !! le_bookingIntentId e) ++ [pos]]> (rl_byIntentId st) |}.

Record SupplierPreSlotCancelResult : Type := {
  sc_refundRequestId : string;
  sc_ledgerEntry : EscrowRefundLedgerEntry;
  sc_releasedSlots : list string;
  sc_grossRefund : num;
  sc_platformFeeReversed : num;
  sc_taxReversed : num;
  sc_netRefund : num
}.

(** The snapshot type has no currency, fee or tax field, so the defaults of the
    [??] expressions apply.  [uuid1], [uuid2] are the two [randomUUID()]s. *)
Definition refund_entry (uuid1 uuid2 prevHash : string) (intent : BookingIntentRecord)
    (bookingIntentId : string) (cancelledAt : Z) (chainTxId : option string) : EscrowRefundLedgerEntry :=
  let gross := match bi_pricingSnapshot intent with Some p => ps_resolvedPrice p | None => zero end in
  let fee := math_round (mul gross (lit 5 100)) in
  let tax := math_round (mul gross (lit 8 100)) in
  let net := add gross tax in
  let refundRequestId := "refund_" +:+ uuid1 in
  {| le_id := uuid2; le_bookingIntentId := bookingIntentId; le_buyerId := bi_buyerId intent;
     le_supplierId := bi_supplierId intent; le_refundRequestId := refundRequestId;
     le_escrowHoldId := default ("hold_" +:+ bookingIntentId) (bi_escrowHoldId intent);
     le_grossAmountCents := gross; le_platformFeeReversedCents := fee;
     le_prepaidTaxReversedCents := tax; le_netRefundCents := net; le_currency := "USD";
     le_cancelledBySupplierAt := cancelledAt; le_slotStartTime := bi_startTime intent;
     le_hoursBeforeStart :=
       div (sub (of_Z (bi_startTime intent)) (of_Z cancelledAt)) (of_Z (1000 * 60 * 60));
     le_chainTxId := chainTxId;
     le_status := match chainTxId with
                  | Some t => if str_truthy t then chain_settling else ledger_written
                  | None => ledger_written
                  end;
     le_ledgerHash := deriveRefundLedgerHash refundRequestId prevHash gross fee tax net
                        (toISOString cancelledAt);
     le_prevLedgerHash := prevHash; le_createdAt := cancelledAt |}.

Definition handleSupplierCancelBeforeSlotStart (intents : R) (uuid1 uuid2 bookingIntentId : string)
    (cancelledAt : Z) (chainTxId : option string) : M LState LedgerError SupplierPreSlotCancelResult :=
  intent ← of_option (findById bookingIntentId intents) (IntentMissing bookingIntentId);
  _ ← guard (bi_startTime intent <=? cancelledAt)
        (CancellationAfterSlotStartError bookingIntentId (bi_startTime intent) cancelledAt);
  let slotIds := default [] (bi_slotIds intent) in
  _ ← sched_call (for_each release_call slotIds);
  st ← get;
  _ ← match bi_bundleId intent with
      | Some b => if str_truthy b && bool_decide (is_Some (sc_reservedBundles (rl_sched st) !! b))
                  then sched_call (releaseBundle b) else mret tt
      | None => mret tt
      end;
  st1 ← get;
  let entry := refund_entry uuid1 uuid2 (tail_hash (rl_ledger st1)) intent bookingIntentId
                 cancelledAt chainTxId in
  _ ← modify (append_entry entry);
  mret {| sc_refundRequestId := le_refundRequestId entry; sc_ledgerEntry := entry;
          sc_releasedSlots := slotIds; sc_grossRefund := le_grossAmountCents entry;
          sc_platformFeeReversed := le_platformFeeReversedCents entry;
          sc_taxReversed := le_prepaidTaxReversedCents entry;
          sc_netRefund := le_netRefundCents entry |}.

Definition findRefundByRequestId (refundRequestId : string) (st : LState)
    : option EscrowRefundLedgerEntry :=
  i ← rl_byRequestId st !! refundRequestId; rl_ledger st !! i.

Definition findRefundsByIntentId (bookingIntentId : string) (st : LState)
    : list EscrowRefundLedgerEntry :=
  omap (fun i => rl_ledger st !! i) (default [] (rl_byIntentId st !! bookingIntentId)).

Definition mark (status : EscrowRefundStatus) (tx : option string) (e : EscrowRefundLedgerEntry)
    : EscrowRefundLedgerEntry :=
  {| le_id := le_id e; le_bookingIntentId := le_bookingIntentId e; le_buyerId := le_buyerId e;
     le_supplierId := le_supplierId e; le_refundRequestId := le_refundRequestId e;
     le_escrowHoldId := le_escrowHoldId e; le_grossAmountCents := le_grossAmountCents e;
     le_platformFeeReversedCents := le_platformFeeReversedCents e;
     le_prepaidTaxReversedCents := le_prepaidTaxReversedCents e;
     le_netRefundCents := le_netRefundCents e; le_currency := le_currency e;
     le_cancelledBySupplierAt := le_cancelledBySupplierAt e;
     le_slotStartTime := le_slotStartTime e; le_hoursBeforeStart := le_hoursBeforeStart e;
     le_chainTxId := match tx with Some t => Some t | None => le_chainTxId e end;
     le_status := status; le_ledgerHash := le_ledgerHash e;
     le_prevLedgerHash := le_prevLedgerHash e; le_createdAt := le_createdAt e |}.

(** The mutation in place of the entry the request-id map designates. *)
Definition mark_entry (refundRequestId : string) (status : EscrowRefundStatus) (tx : option string)
    : M LState LedgerError EscrowRefundLedgerEntry :=
  st ← get;
  i ← of_option (rl_byRequestId st !! refundRequestId) (UnknownRefundRequest refundRequestId);
  e ← of_option (rl_ledger st !! i) (UnknownRefundRequest refundRequestId);
  _ ← modify (fun st => {| rl_sched := rl_sched st; rl_ledger := <[i := mark status tx e]> (rl_ledger st);
                           rl_byRequestId := rl_byRequestId st; rl_byIntentId := rl_byIntentId st |});
  mret (mark status tx e).

Definition markRefundSettled (refundRequestId chainTxId : string)
    : M LState LedgerError EscrowRefundLedgerEntry :=
  mark_entry refundRequestId completed (Some chainTxId).

Definition markRefundFailed (refundRequestId : string) : M LState LedgerError EscrowRefundLedgerEntry :=
  mark_entry refundRequestId failed None.

End Service.
End Ledger.

Arguments LState : clear implicits.

(** ** The chain *)

Section ChainProofs.
Context (sha256 : string -> string) (show : num -> string) (toISOString : Z -> string).

Abbreviation ehash := (entry_hash sha256 show toISOString).
Abbreviation verify := (verifyRefundLedgerChain sha256 show toISOString).

Abbreviation chain_ok := (chain_ok sha256 le_prevLedgerHash le_ledgerHash (entry_input show toISOString)).

(** The verifier decides the chain property, and reports the first broken entry. *)
Lemma verify_from_spec i prev l :
  let c := verify_from sha256 show toISOString i prev l in
  (cc_valid c = true /\ chain_ok prev l /\ cc_firstBrokenIndex c = -1 /\
   cc_entriesChecked c = i + Z.of_nat (length l)) \/
  (cc_valid c = false /\ exists n e, l !! n = Some e /\ cc_firstBrokenIndex c = i + Z.of_nat n /\
     chain_ok prev (take n l) /\ ~ chain_ok prev (take (S n) l)).
Proof.
  revert i prev. induction l as [|e l IH]; intros i prev; simpl.
  { left. split_and!; try done. lia. }
  destruct (decide (le_prevLedgerHash e = prev)) as [Hp|Hp].
  2:{ rewrite bool_decide_eq_false_2 by done. simpl. right. split; [done|]. exists 0%nat, e. simpl.
      split_and!; try done; [lia|]. tauto. }
  rewrite bool_decide_eq_true_2 by done. simpl.
  destruct (decide (le_ledgerHash e = ehash e)) as [Hh|Hh].
  2:{ rewrite bool_decide_eq_false_2 by done. simpl. right. split; [done|]. exists 0%nat, e. simpl.
      split_and!; try done; [lia|]. tauto. }
  rewrite bool_decide_eq_true_2 by done. simpl.
  destruct (IH (i + 1) (le_ledgerHash e)) as [(Hv & Hc & Hb & Hn)|(Hv & n & e' & Hl & Hb & Ht & Hs)].
  - left. split_and!; try done. lia.
  - right. split; [done|]. exists (S n), e'. split_and!; try done; [lia|].
    intros (_ & _ & Hbad). by apply Hs.
Qed.

Lemma verify_valid l : cc_valid (verify l) = true <-> chain_ok REFUND_LEDGER_GENESIS_HASH l.
Proof.
  destruct (verify_from_spec 0 REFUND_LEDGER_GENESIS_HASH l) as [(Hv & Hc & _)|(Hv & n & e & Hl & _ & Ht & Hs)];
    unfold verifyRefundLedgerChain; rewrite Hv; [done|]. split; [done|]. intros Hc. exfalso. apply Hs.
  rewrite <- (take_drop (S n) l) in Hc. by apply chain_ok_app in Hc as [? _].
Qed.

Definition ids_ok (l : list EscrowRefundLedgerEntry) : Prop :=
  Forall (fun e => no_bar (le_refundRequestId e) = true) l.

Section Commitment.
Hypothesis sha256_injective : forall x y, sha256 x = sha256 y -> x = y.
Hypothesis sha256_hex : forall x, sha256 x <> ""%string /\ no_bar (sha256 x) = true.

Lemma entry_prev_committed e1 e2 :
  no_bar (le_refundRequestId e1) = true /\ no_bar (le_prevLedgerHash e1) = true ->
  no_bar (le_refundRequestId e2) = true /\ no_bar (le_prevLedgerHash e2) = true ->
  entry_input show toISOString e1 = entry_input show toISOString e2 ->
  le_prevLedgerHash e1 = le_prevLedgerHash e2.
Proof.
  intros [I1 J1] [I2 J2] Heq. apply split_at_bar in Heq as [_ Heq]; [|done..].
  by apply split_at_bar in Heq as [Heq _].
Qed.

(** The tail hash commits to the whole history: if the hash function has no
    collisions (and yields hexadecimal digests), two ledgers that verify and
    end in the same hash record the same refunds, entry by entry. *)
Theorem tail_hash_commits l1 l2 :
  ids_ok l1 -> ids_ok l2 ->
  cc_valid (verify l1) = true -> cc_valid (verify l2) = true ->
  tail_hash l1 = tail_hash l2 ->
  map (entry_input show toISOString) l1 = map (entry_input show toISOString) l2.
Proof.
  rewrite !verify_valid. intros I1 I2 C1 C2 Ht.
  apply (tail_commits sha256 le_prevLedgerHash le_ledgerHash (entry_input show toISOString))
    with (genesis := ""%string) (P := fun e => no_bar (le_refundRequestId e) = true /\ no_bar (le_prevLedgerHash e) = true);
    try done; [apply sha256_hex|apply entry_prev_committed|apply Forall_and..];
    (split; [done|]; eapply (chain_ok_prevs sha256 _ _ _ (fun s => no_bar s = true)); [| |done]; [done|apply sha256_hex]).
Qed.
End Commitment.

End ChainProofs.

(** ** The ledger over time *)

Section LedgerProofs.
Context (sha256 : string -> string) (show : num -> string) (toISOString : Z -> string).
Context {R T : Type} `{BookingIntentRepositoryLaws R} `{SlotRepositoryLaws T}.
Implicit Types st : LState T.

Abbreviation chain_ok := (chain_ok sha256 le_prevLedgerHash le_ledgerHash (entry_input show toISOString)).
Abbreviation supplier_cancel := (handleSupplierCancelBeforeSlotStart sha256 show toISOString).

(** One call of a ledger operation, successful or not. *)
Inductive ledger_step st : LState T -> Prop :=
| ls_cancel (intents : R) u1 u2 id t tx r st' :
    supplier_cancel intents u1 u2 id t tx st = (r, st') -> ledger_step st st'
| ls_settled rid tx r st' : markRefundSettled rid tx st = (r, st') -> ledger_step st st'
| ls_failed rid r st' : markRefundFailed rid st = (r, st') -> ledger_step st st'.

(** What settlement may change in an entry: its status and transaction id. *)
Definition same_record (e e' : EscrowRefundLedgerEntry) : Prop :=
  exists s tx, e' = mark s tx e.

Definition ledger_grows (l l' : list EscrowRefundLedgerEntry) : Prop :=
  (chain_ok REFUND_LEDGER_GENESIS_HASH l -> chain_ok REFUND_LEDGER_GENESIS_HASH l') /\
  forall n e, l !! n = Some e -> exists e', l' !! n = Some e' /\ (e' = e \/ same_record e e').

Lemma ledger_grows_refl l : ledger_grows l l.
Proof. split; [done|]. intros n e He. exists e. by split; [|left]. Qed.

Lemma ledger_grows_trans l1 l2 l3 : ledger_grows l1 l2 -> ledger_grows l2 l3 -> ledger_grows l1 l3.
Proof.
  intros [C1 G1] [C2 G2]. split; [auto|]. intros n e He.
  destruct (G1 n e He) as (e2 & E2 & R2). destruct (G2 n e2 E2) as (e3 & E3 & R3).
  exists e3. split; [done|].
  destruct R2 as [->|(s2 & t2 & ->)], R3 as [->|(s3 & t3 & ->)]; auto; right; [by eexists _, _..|].
  exists s3, (match t3 with Some t => Some t | None => t2 end). unfold mark. simpl. f_equal. by destruct t3.
Qed.

Lemma mark_entry_grows rid s tx st r st' :
  mark_entry rid s tx st = (r, st') -> ledger_grows (rl_ledger st) (rl_ledger st').
Proof.
  unfold mark_entry, mbind, M_bind, get, of_option. simpl.
  destruct (rl_byRequestId st !! rid) as [i|]; simpl; [|intros [= _ <-]; apply ledger_grows_refl].
  destruct (rl_ledger st !! i) as [e|] eqn:Ei; simpl; [|intros [= _ <-]; apply ledger_grows_refl].
  intros [= _ <-]. simpl. split; [intros; by apply chain_ok_insert with e|].
  intros n x Hx. destruct (decide (n = i)) as [->|Hne].
  - simplify_eq. rewrite list_lookup_insert_eq by (by eapply lookup_lt_Some). eexists. split; [done|].
    right. by eexists _, _.
  - rewrite list_lookup_insert_ne by done. exists x. by split; [|left].
Qed.

Lemma sched_call_ledger {A} (m : M (Sched T) SchedulingError A) st r st' :
  sched_call m st = (r, st') -> rl_ledger st' = rl_ledger st.
Proof. unfold sched_call. destruct (m (rl_sched st)) as [[a|e] s]; by intros [= _ <-]. Qed.

Lemma append_grows u1 u2 i id t tx st :
  ledger_grows (rl_ledger st) (rl_ledger (append_entry
    (refund_entry sha256 show toISOString u1 u2 (tail_hash (rl_ledger st)) i id t tx) st)).
Proof.
  simpl. split.
  - intros Hc. apply chain_ok_app. split; [done|]. simpl. split_and!; done.
  - intros n e He. exists e. split; [by apply lookup_app_l_Some|by left].
Qed.

Lemma cancel_grows (intents : R) u1 u2 id t tx st r st' :
  supplier_cancel intents u1 u2 id t tx st = (r, st') -> ledger_grows (rl_ledger st) (rl_ledger st').
Proof.
  unfold handleSupplierCancelBeforeSlotStart, mbind, M_bind, of_option, get. simpl.
  destruct (findById id intents) as [i|]; simpl; [|intros [= _ <-]; apply ledger_grows_refl].
  unfold guard, raise. destruct (bi_startTime i <=? t); simpl; [intros [= _ <-]; apply ledger_grows_refl|].
  destruct (sched_call (for_each release_call (default [] (bi_slotIds i))) st) as [[u|e] st1] eqn:E1;
    apply sched_call_ledger in E1.
  2:{ intros [= _ <-]. rewrite E1. apply ledger_grows_refl. }
  match goal with |- context [match ?m st1 with _ => _ end] =>
    assert (rl_ledger (snd (m st1)) = rl_ledger st) as E2 end.
  { destruct (bi_bundleId i) as [b|]; [|by rewrite <- E1]. destruct (_ && _); [|by rewrite <- E1].
    destruct (sched_call (releaseBundle b) st1) as [r2 st2] eqn:Eb. apply sched_call_ledger in Eb.
    simpl. congruence. }
  match goal with |- context [match ?m st1 with _ => _ end] => destruct (m st1) as [[v|e] st2] end;
    simpl in E2; intros [= _ <-]; rewrite <- E2; [apply append_grows|apply ledger_grows_refl].
Qed.

(** The refund ledger always verifies and is append-only: after any
    sequence of supplier cancellations and settlement marks, successful or
    not, the hash chain is intact if it was, and every earlier entry is still
    at its place with its amounts, parties and hashes; only its status and
    transaction id may have changed. *)
Theorem refund_ledger_append_only st st' :
  rtc ledger_step st st' ->
  cc_valid (verifyRefundLedgerChain sha256 show toISOString (rl_ledger st)) = true ->
  cc_valid (verifyRefundLedgerChain sha256 show toISOString (rl_ledger st')) = true /\
  forall n e, rl_ledger st !! n = Some e ->
    exists e', rl_ledger st' !! n = Some e' /\ (e' = e \/ same_record e e').
Proof.
  intros Hr Hv. rewrite verify_valid in *.
  enough (ledger_grows (rl_ledger st) (rl_ledger st')) as [Hc Hg] by (split; [by apply Hc|done]).
  clear Hv. induction Hr as [st|st st1 st' Hs _ IH]; [apply ledger_grows_refl|].
  eapply ledger_grows_trans; [|exact IH].
  destruct Hs as [intents u1 u2 id t tx r st1 Hs|rid tx r st1 Hs|rid r st1 Hs];
    [by eapply cancel_grows|by eapply mark_entry_grows..].
Qed.

(** A supplier cancellation of an ordinary booking (one slot, no bundle):
    before the start it always succeeds, refunds the price plus 8% tax and
    appends one ledger entry.  It touches neither the intent nor any slot, so the
    slot stays reserved, and it can be repeated: every further call before the
    start books the full refund again. *)
Theorem supplier_cancel_single_slot (intents : R) u1 u2 id t tx i st :
  findById id intents = Some i -> t < bi_startTime i ->
  bi_slotIds i = None -> bi_bundleId i = None ->
  exists r e, supplier_cancel intents u1 u2 id t tx st = (Ok r, append_entry e st) /\
    sc_ledgerEntry r = e /\ le_bookingIntentId e = id /\ sc_releasedSlots r = [] /\
    rl_sched (append_entry e st) = rl_sched st /\
    rl_ledger (append_entry e st) = rl_ledger st ++ [e] /\
    le_grossAmountCents e = match bi_pricingSnapshot i with Some p => ps_resolvedPrice p | None => zero end /\
    sc_netRefund r = add (le_grossAmountCents e) (math_round (mul (le_grossAmountCents e) (lit 8 100))).
Proof.
  intros Hf Ht Hs Hb. unfold handleSupplierCancelBeforeSlotStart, mbind, M_bind, of_option, get. simpl.
  rewrite Hf. simpl. unfold guard. destruct (Z.leb_spec (bi_startTime i) t); [lia|]. simpl.
  rewrite Hs, Hb. unfold sched_call, with_sched. simpl.
  destruct st as [sch l br bi]. simpl. do 2 eexists. split; [done|]. by split_and!.
Qed.

End LedgerProofs.

(** ** A concrete ledger *)

Definition w_show (n : num) : string := "n".
Definition w_iso (t : Z) : string := pretty t.

Definition w_intent : BookingIntentRecord :=
  {| bi_id := "i1"; bi_slotId := "a"; bi_professional := "bob"; bi_customerId := "alice";
     bi_startTime := 100; bi_endTime := 200; bi_status := confirmed; bi_note := None;
     bi_tokenAsset := None; bi_mintTxHash := None; bi_createdAt := ""; bi_slotIds := None;
     bi_bundleId := None; bi_supplierId := None; bi_buyerId := None; bi_escrowHoldId := None;
     bi_bookingType := Some standard; bi_holdUntilMs := None; bi_holdPlacedAt := None;
     bi_refundedAt := None; bi_refundMetadata := None; bi_pricingSnapshot := None;
     bi_cancellationPolicySnapshot := None; bi_holdFeePolicySnapshot := None;
     bi_fxRateSnapshot := None |}.

Definition w_intents : InMemoryRepo.t := {| InMemoryRepo.intents := [w_intent]; InMemoryRepo.sequence := 2 |}.

Definition w_ledger0 : LState InMemorySlots.t :=
  {| rl_sched := w_sched false true true ∅; rl_ledger := []; rl_byRequestId := ∅; rl_byIntentId := ∅ |}.

Abbreviation w_cancel u t := (handleSupplierCancelBeforeSlotStart w_sha w_show w_iso w_intents u "e" "i1" t None).

Definition w_ledger1 := snd (w_cancel "1" 10 w_ledger0).
Definition w_ledger2 := snd (w_cancel "2" 20 w_ledger1).
Definition w_ledger3 := snd (markRefundSettled "refund_1" "tx" w_ledger2).

Lemma refund_ledger_append_only_witness :
  cc_valid (verifyRefundLedgerChain w_sha w_show w_iso (rl_ledger w_ledger3)) = true /\
  forall n e, rl_ledger w_ledger1 !! n = Some e ->
    exists e', rl_ledger w_ledger3 !! n = Some e' /\ (e' = e \/ same_record e e').
Proof.
  apply (refund_ledger_append_only (R := InMemoryRepo.t) w_sha w_show w_iso w_ledger1 w_ledger3).
  - apply (rtc_l _ _ w_ledger2).
    { apply (ls_cancel w_sha w_show w_iso w_ledger1 w_intents "2" "e" "i1" 20 None
               (fst (w_cancel "2" 20 w_ledger1))). apply surjective_pairing. }
    apply rtc_once, (ls_settled w_sha w_show w_iso w_ledger2 "refund_1" "tx"
               (fst (markRefundSettled "refund_1" "tx" w_ledger2))). apply surjective_pairing.
  - vm_compute. reflexivity.
Defined.

Lemma tail_hash_commits_witness :
  map (entry_input w_show w_iso) (rl_ledger w_ledger2) = map (entry_input w_show w_iso) (rl_ledger w_ledger3).
Proof.
  apply (tail_hash_commits w_sha w_show w_iso w_sha_injective w_sha_hex).
  - vm_compute. repeat constructor.
  - vm_compute. repeat constructor.
  - vm_compute. reflexivity.
  - vm_compute. reflexivity.
  - vm_compute. reflexivity.
Defined.

Lemma supplier_cancel_single_slot_witness :
  exists r e, w_cancel "2" 20 w_ledger1 = (Ok r, append_entry e w_ledger1) /\
    sc_ledgerEntry r = e /\ le_bookingIntentId e = "i1"%string /\ sc_releasedSlots r = [] /\
    rl_sched (append_entry e w_ledger1) = rl_sched w_ledger1 /\
    rl_ledger (append_entry e w_ledger1) = rl_ledger w_ledger1 ++ [e] /\
    le_grossAmountCents e = zero /\
    sc_netRefund r = add (le_grossAmountCents e) (math_round (mul (le_grossAmountCents e) (lit 8 100))).
Proof. apply (supplier_cancel_single_slot w_sha w_show w_iso w_intents _ _ _ _ _ w_intent); reflexivity || (simpl; lia). Defined.
