(* ===== verification/Reversal.v ===== *)
(** * Reversal: the cancellation-reversal ledger

    [modules/cancellation/cancellation-reversal-service.ts] and the two
    repositories of [modules/cancellation/pg-cancellation-reversal-repository.ts]:
    the in-memory one, and the PostgreSQL one over the table of
    [db/migrations/013_create_cancellation_reversal_ledger.ts].  The handler
    [appendEntry] is a program whose events are its awaits; SHA-256,
    [toISOString] and the rendering of numbers are parameters; the checkout lookup, the
    refund lookup, the escrow release, clocks and UUIDs are answers of events.
    Releases of escrow are recorded in the world, because they cannot be
    undone.  Audit events are left out. *)
From stdpp Require Import base list strings gmap pretty.
From Stdlib Require Import ZArith Lia Ascii.
From S2P Require Import Prelude JsNumber Async JsMap HashChain Domain.
Local Open Scope Z_scope.

Record CancellationReversalEntry : Type := {
  rv_id : string;
  rv_bookingIntentId : string;
  rv_paymentId : string;
  rv_originalRefundId : option string;
  rv_amountCents : num;
  rv_currency : string;
  rv_escrowReleased : bool;
  rv_escrowReleasedAmountCents : num;
  rv_escrowReleaseTxId : option string;
  rv_reason : string;
  rv_idempotencyKey : string;
  rv_policyVersionId : string;
  rv_actor : string;
  rv_metadata : option (list (string * Json));
  rv_entryHash : string;
  rv_prevHash : string;
  rv_createdAt : Z
}.

Record InsertCancellationReversalInput : Type := {
  ri_bookingIntentId : string;
  ri_paymentId : string;
  ri_originalRefundId : option string;
  ri_amountCents : num;
  ri_currency : string;
  ri_escrowReleased : bool;
  ri_escrowReleasedAmountCents : num;
  ri_escrowReleaseTxId : option string;
  ri_reason : string;
  ri_idempotencyKey : string;
  ri_policyVersionId : string;
  ri_actor : string;
  ri_metadata : option (list (string * Json))
}.

Inductive InsertError : Type :=
| IdempotencyConflict (key : string)
| EntryHashCollision (hash : string)
| ConstraintViolation (constraint : string).

Inductive ReversalError : Type :=
| TenantPausedError (tenantId : string)
| SessionNotFound (paymentId : string)
| CurrencyMismatch (paymentId expected provided : string)
| InvalidReversalAmount
| InvalidEscrowAmount
| NetRefundNotRegistered (bookingIntentId currency : string)
| InvariantViolation (bookingIntentId currency : string) (sum expected : num)
| InsertFailed (e : InsertError).

(** ** Hash derivation *)

(** [value.replace(/\|/g, "\u0000")]. *)
Fixpoint sanitise (value : string) : string :=
  match value with
  | EmptyString => EmptyString
  | String c s => String (if bool_decide (c = "|"%char) then "000"%char else c) (sanitise s)
  end.

Section Hash.
Context (sha256 : string -> string) (show : num -> string) (toISOString : Z -> string).

Definition canonicalisePayload (e : CancellationReversalEntry) (createdAtIso : string) : string :=
  String.concat "|"
    [sanitise (rv_bookingIntentId e); sanitise (rv_paymentId e);
     sanitise (default "" (rv_originalRefundId e)); show (rv_amountCents e);
     sanitise (rv_currency e); if rv_escrowReleased e then "1" else "0";
     show (rv_escrowReleasedAmountCents e); sanitise (default "" (rv_escrowReleaseTxId e));
     sanitise (rv_reason e); sanitise (rv_policyVersionId e); sanitise (rv_actor e);
     sanitise (rv_idempotencyKey e); sanitise (rv_prevHash e); createdAtIso]%string.

Definition payload (e : CancellationReversalEntry) : string :=
  canonicalisePayload e (toISOString (rv_createdAt e)).

Definition deriveReversalEntryHash (e : CancellationReversalEntry) : string := sha256 (payload e).

Definition verifyChain (entries : list CancellationReversalEntry) : VerificationResult :=
  HashChain.verifyChain sha256 rv_prevHash rv_entryHash payload entries.

End Hash.

(** ** Repositories *)

(** [dbId] and [dbNow] are the defaults the database fills in. *)
Class ReversalRepository (R : Type) : Type := {
  insert : forall (dbId : string) (dbNow : Z), CancellationReversalEntry -> R ->
             result InsertError CancellationReversalEntry * R;
  findByIdempotencyKey : string -> R -> option CancellationReversalEntry;
  findByPaymentId : string -> R -> list CancellationReversalEntry;
  findByBookingIntentId : string -> R -> list CancellationReversalEntry
}.

Definition has_key (key : string) (e : CancellationReversalEntry) : bool :=
  bool_decide (rv_idempotencyKey e = key).
Definition has_hash (hash : string) (e : CancellationReversalEntry) : bool :=
  bool_decide (rv_entryHash e = hash).
Definition of_payment (paymentId : string) (e : CancellationReversalEntry) : bool :=
  bool_decide (rv_paymentId e = paymentId).
Definition of_booking (bookingIntentId : string) (e : CancellationReversalEntry) : bool :=
  bool_decide (rv_bookingIntentId e = bookingIntentId).

(** What the service relies on: the repository is a list of entries in order of
    insertion, an insertion of an entry with a new id stores it as it is unless
    its key or hash is taken, and searches filter the list.  The in-memory
    repository keeps these laws; [PgReversals] below, the one the admin routes
    use, does not: its statement stores an id and a date of the database, and its
    constraints refuse entries these laws accept. *)
Class ReversalRepositoryLaws (R : Type) `{ReversalRepository R} : Type := {
  rows : R -> list CancellationReversalEntry;
  repo_ok : R -> Prop;
  find_key_rows r k : repo_ok r -> findByIdempotencyKey k r = find_first (has_key k) (rows r);
  find_payment_rows r p : repo_ok r -> findByPaymentId p r = List.filter (of_payment p) (rows r);
  find_booking_rows r b : repo_ok r -> findByBookingIntentId b r = List.filter (of_booking b) (rows r);
  insert_rows r dbId dbNow e :
    repo_ok r -> (forall e', e' ∈ rows r -> rv_id e' <> rv_id e) ->
    find_first (has_key (rv_idempotencyKey e)) (rows r) = None ->
    match find_first (has_hash (rv_entryHash e)) (rows r) with
    | Some _ => insert dbId dbNow e r = (Err (EntryHashCollision (rv_entryHash e)), r)
    | None => exists r', insert dbId dbNow e r = (Ok e, r') /\ repo_ok r' /\ rows r' = rows r ++ [e]
    end
}.

(** *** [InMemoryCancellationReversalRepository] *)
Module InMemoryReversals.

(** [byId] is a [Map], iterated in order of first insertion. *)
Record t : Type := {
  byId : jsmap CancellationReversalEntry;
  byPayment : gmap string (list string);
  byBooking : gmap string (list string)
}.

Definition appendIntoIndex (index : gmap string (list string)) (key id : string)
    : gmap string (list string) :=
  <[key := default [] (index !! key) ++ [id]]> index.

(** The first stored entry that clashes decides the error. *)
Fixpoint clash (input : CancellationReversalEntry) (l : list CancellationReversalEntry)
    : option InsertError :=
  match l with
  | [] => None
  | e :: l' =>
      if has_key (rv_idempotencyKey input) e then Some (IdempotencyConflict (rv_idempotencyKey input))
      else if has_hash (rv_entryHash input) e then Some (EntryHashCollision (rv_entryHash input))
      else clash input l'
  end.

Definition insert (input : CancellationReversalEntry) (r : t)
    : result InsertError CancellationReversalEntry * t :=
  match clash input (map snd (byId r)) with
  | Some err => (Err err, r)
  | None => (Ok input, {| byId := map_set (rv_id input) input (byId r);
                          byPayment := appendIntoIndex (byPayment r) (rv_paymentId input) (rv_id input);
                          byBooking := appendIntoIndex (byBooking r) (rv_bookingIntentId input) (rv_id input) |})
  end.

Definition findByIdempotencyKey (key : string) (r : t) : option CancellationReversalEntry :=
  find_first (has_key key) (map snd (byId r)).

Definition by_index (index : gmap string (list string)) (key : string) (r : t)
    : list CancellationReversalEntry :=
  omap (fun id => map_get id (byId r)) (default [] (index !! key)).

Definition findByPaymentId (paymentId : string) (r : t) : list CancellationReversalEntry :=
  by_index (byPayment r) paymentId r.

Definition findByBookingIntentId (bookingIntentId : string) (r : t) : list CancellationReversalEntry :=
  by_index (byBooking r) bookingIntentId r.

Definition empty : t := {| byId := []; byPayment := ∅; byBooking := ∅ |}.

End InMemoryReversals.

#[export] Instance mem_reversals : ReversalRepository InMemoryReversals.t := {|
  insert _ _ := InMemoryReversals.insert;
  findByIdempotencyKey := InMemoryReversals.findByIdempotencyKey;
  findByPaymentId := InMemoryReversals.findByPaymentId;
  findByBookingIntentId := InMemoryReversals.findByBookingIntentId
|}.

(** *** [PgCancellationReversalRepository]

    The table as the list of its rows in order of insertion.  The [INSERT] of
    the source names neither [id] nor [created_at], so the database fills them
    in.  [references_exist] stands for the foreign keys. *)
Module PgReversals.
Section Pg.

Definition t : Type := list CancellationReversalEntry.

Definition SUPPORTED_CURRENCIES : list string := ["USD"; "EUR"; "GBP"; "XLM"]%string.

Definition isSupportedCurrency (value : string) : bool := bool_decide (value ∈ SUPPORTED_CURRENCIES).

Definition is_bigint (n : num) : bool :=
  is_integer n && geb n (of_Z (- 2 ^ 63)) && ltb n (of_Z (2 ^ 63)).

(** The [CHECK] constraints and column types of the table. *)
Definition checks (e : CancellationReversalEntry) : bool :=
  is_bigint (rv_amountCents e) && negb (eqb (rv_amountCents e) zero) &&
  isSupportedCurrency (rv_currency e) &&
  is_bigint (rv_escrowReleasedAmountCents e) && geb (rv_escrowReleasedAmountCents e) zero.

Definition is_genesis (e : CancellationReversalEntry) : bool := bool_decide (rv_prevHash e = ""%string).

(** The row the statement stores and returns. *)
Definition stored_row (dbId : string) (dbNow : Z) (e : CancellationReversalEntry)
    : CancellationReversalEntry :=
  {| rv_id := dbId; rv_bookingIntentId := rv_bookingIntentId e; rv_paymentId := rv_paymentId e;
     rv_originalRefundId := rv_originalRefundId e; rv_amountCents := rv_amountCents e;
     rv_currency := rv_currency e; rv_escrowReleased := rv_escrowReleased e;
     rv_escrowReleasedAmountCents := rv_escrowReleasedAmountCents e;
     rv_escrowReleaseTxId := rv_escrowReleaseTxId e; rv_reason := rv_reason e;
     rv_idempotencyKey := rv_idempotencyKey e; rv_policyVersionId := rv_policyVersionId e;
     rv_actor := rv_actor e; rv_metadata := rv_metadata e; rv_entryHash := rv_entryHash e;
     rv_prevHash := rv_prevHash e; rv_createdAt := dbNow |}.

Context (references_exist : CancellationReversalEntry -> bool).

Definition insert (dbId : string) (dbNow : Z) (input : CancellationReversalEntry) (tbl : t)
    : result InsertError CancellationReversalEntry * t :=
  if negb (checks input) then (Err (ConstraintViolation "check"), tbl)
  else if existsb (fun e => bool_decide (rv_id e = dbId)) tbl then
    (Err (ConstraintViolation "cancellation_reversal_entries_pkey"), tbl)
  else if existsb (has_key (rv_idempotencyKey input)) tbl then
    (Err (IdempotencyConflict (rv_idempotencyKey input)), tbl)
  else if existsb (has_hash (rv_entryHash input)) tbl then
    (Err (EntryHashCollision (rv_entryHash input)), tbl)
  else if is_genesis input && existsb is_genesis tbl then
    (Err (ConstraintViolation "idx_cancellation_reversal_genesis"), tbl)
  else if negb (references_exist input) then (Err (ConstraintViolation "foreign key"), tbl)
  else (Ok (stored_row dbId dbNow input), tbl ++ [stored_row dbId dbNow input]).

(** [ORDER BY created_at ASC, id ASC]. *)
Definition later (a b : CancellationReversalEntry) : bool :=
  (rv_createdAt b <? rv_createdAt a) ||
  ((rv_createdAt b =? rv_createdAt a) && String.ltb (rv_id b) (rv_id a)).

Definition findByIdempotencyKey (key : string) (tbl : t) : option CancellationReversalEntry :=
  find_first (has_key key) tbl.
Definition findByPaymentId (paymentId : string) (tbl : t) : list CancellationReversalEntry :=
  js_sort later (List.filter (of_payment paymentId) tbl).
Definition findByBookingIntentId (bookingIntentId : string) (tbl : t) : list CancellationReversalEntry :=
  js_sort later (List.filter (of_booking bookingIntentId) tbl).

Definition repository : ReversalRepository t := {|
  Reversal.insert := insert;
  Reversal.findByIdempotencyKey := findByIdempotencyKey;
  Reversal.findByPaymentId := findByPaymentId;
  Reversal.findByBookingIntentId := findByBookingIntentId
|}.

End Pg.
End PgReversals.

(** ** The service *)

Inductive ReversalEv : Type -> Type :=
| IsTenantPaused (tenantId : string) : ReversalEv bool
| GetCurrency (paymentId : string) : ReversalEv (option string)
| FindByKey (key : string) : ReversalEv (option CancellationReversalEntry)
| FindByPayment (paymentId : string) : ReversalEv (list CancellationReversalEntry)
| FindByBooking (bookingIntentId : string) : ReversalEv (list CancellationReversalEntry)
| ReleaseEscrow (paymentId bookingIntentId : string) (amountCents : num) (currency : string)
    : ReversalEv string
| NewDate : ReversalEv Z
| RandomUuid : ReversalEv string
| GetNetRefund (bookingIntentId currency : string) : ReversalEv (option num)
| Insert (e : CancellationReversalEntry)
    : ReversalEv (result InsertError CancellationReversalEntry).

Abbreviation Service := (Prog ReversalEv ReversalError).

(** [reduce((s, e) => s + e.amountCents, 0)]. *)
Definition sum_cents (l : list CancellationReversalEntry) : num :=
  fold_left (fun s e => add s (rv_amountCents e)) l zero.

Definition in_currency (currency : string) (e : CancellationReversalEntry) : bool :=
  bool_decide (rv_currency e = currency).

(** An absent [metadata], or one without a non-empty string [tenantId], names
    no tenant. *)
Definition tenantIdFor (input : InsertCancellationReversalInput) : string :=
  match ri_metadata input with
  | Some o => match field "tenantId" o with JStr t => t | _ => "" end
  | None => ""
  end.

Record InvariantCheckResult : Type := {
  ic_valid : bool;
  ic_bookingIntentId : string;
  ic_currency : string;
  ic_sumReversalCents : num;
  ic_expectedNegationOfNetRefund : num;
  ic_unregistered : bool
}.

Record RefundRow : Type := {
  rr_id : string; rr_amountCents : num; rr_reason : option string; rr_status : string; rr_createdAt : num
}.

Record PaymentReversalTrace : Type := {
  pt_paymentId : string;
  pt_paymentCurrency : string;
  pt_refunds : list RefundRow;
  pt_reversals : list CancellationReversalEntry;
  pt_netAcrossOriginalAndReversalCents : num;
  pt_invariantStatus : list InvariantCheckResult;
  pt_invariantValid : bool
}.

Section Service.
Context (sha256 : string -> string) (show : num -> string) (toISOString : Z -> string).
(** Whether a [NetRefundLookup] is configured. *)
Context (netRefundLookup : bool).

Definition assertPreWriteInvariant (input : InsertCancellationReversalInput) : Service unit :=
  existing ← perform (FindByBooking (ri_bookingIntentId input));
  let existingSum := sum_cents (List.filter (in_currency (ri_currency input)) existing) in
  let projectedSum := add existingSum (ri_amountCents input) in
  if netRefundLookup then
    found ← perform (GetNetRefund (ri_bookingIntentId input) (ri_currency input));
    netRefund ← need found (NetRefundNotRegistered (ri_bookingIntentId input) (ri_currency input));
    throw_when (negb (eqb projectedSum (neg netRefund)))
      (InvariantViolation (ri_bookingIntentId input) (ri_currency input) projectedSum (neg netRefund))
  else mret tt.

Definition entry_shell (input : InsertCancellationReversalInput) (id prevHash : string)
    (escrowReleaseTxId : option string) (createdAt : Z) (entryHash : string)
    : CancellationReversalEntry :=
  {| rv_id := id; rv_bookingIntentId := ri_bookingIntentId input; rv_paymentId := ri_paymentId input;
     rv_originalRefundId := ri_originalRefundId input; rv_amountCents := ri_amountCents input;
     rv_currency := ri_currency input; rv_escrowReleased := ri_escrowReleased input;
     rv_escrowReleasedAmountCents := ri_escrowReleasedAmountCents input;
     rv_escrowReleaseTxId := escrowReleaseTxId; rv_reason := ri_reason input;
     rv_idempotencyKey := ri_idempotencyKey input; rv_policyVersionId := ri_policyVersionId input;
     rv_actor := ri_actor input; rv_metadata := ri_metadata input; rv_entryHash := entryHash;
     rv_prevHash := prevHash; rv_createdAt := createdAt |}.

(** The hash does not read the [entryHash] field of the shell. *)
Definition build_entry (input : InsertCancellationReversalInput) (id prevHash : string)
    (escrowReleaseTxId : option string) (createdAt : Z) : CancellationReversalEntry :=
  entry_shell input id prevHash escrowReleaseTxId createdAt
    (deriveReversalEntryHash sha256 show toISOString
       (entry_shell input id prevHash escrowReleaseTxId createdAt "")).

Definition resolve_escrow_tx (input : InsertCancellationReversalInput) : Service (option string) :=
  if ri_escrowReleased input then
    match ri_escrowReleaseTxId input with
    | Some tx => mret (Some tx)
    | None =>
        tx ← perform (ReleaseEscrow (ri_paymentId input) (ri_bookingIntentId input)
                        (ri_escrowReleasedAmountCents input) (ri_currency input));
        mret (Some tx)
    end
  else mret None.

Definition persist (input : InsertCancellationReversalInput) (entry : CancellationReversalEntry)
    : Service CancellationReversalEntry :=
  r ← perform (Insert entry);
  match r with
  | Ok persisted => mret persisted
  | Err (IdempotencyConflict k) =>
      winner ← perform (FindByKey (ri_idempotencyKey input));
      match winner with Some w => mret w | None => Thr (InsertFailed (IdempotencyConflict k)) end
  | Err e => Thr (InsertFailed e)
  end.

Definition appendEntry (input : InsertCancellationReversalInput) : Service CancellationReversalEntry :=
  _ ← (if str_truthy (tenantIdFor input) then
         paused ← perform (IsTenantPaused (tenantIdFor input));
         throw_when paused (TenantPausedError (tenantIdFor input))
       else mret tt);
  found ← perform (GetCurrency (ri_paymentId input));
  sessionCurrency ← need found (SessionNotFound (ri_paymentId input));
  _ ← throw_when (negb (bool_decide (sessionCurrency = ri_currency input)))
        (CurrencyMismatch (ri_paymentId input) sessionCurrency (ri_currency input));
  _ ← throw_when (negb (is_integer (ri_amountCents input)) || eqb (ri_amountCents input) zero)
        InvalidReversalAmount;
  _ ← throw_when (ltb (ri_escrowReleasedAmountCents input) zero) InvalidEscrowAmount;
  existing ← perform (FindByKey (ri_idempotencyKey input));
  match existing with
  | Some e => mret e
  | None =>
      chainForPayment ← perform (FindByPayment (ri_paymentId input));
      let prevHash := tail_from rv_entryHash "" chainForPayment in
      escrowReleaseTxId ← resolve_escrow_tx input;
      createdAt ← perform NewDate;
      id ← perform RandomUuid;
      let entry := build_entry input id prevHash escrowReleaseTxId createdAt in
      _ ← assertPreWriteInvariant input;
      persist input entry
  end.

Definition verifyChainForPayment (paymentId : string) : Service VerificationResult :=
  entries ← perform (FindByPayment paymentId);
  mret (verifyChain sha256 show toISOString entries).

Definition checkInvariantForBooking (bookingIntentId currency : string) : Service InvariantCheckResult :=
  entries ← perform (FindByBooking bookingIntentId);
  let sumReversalCents := sum_cents (List.filter (in_currency currency) entries) in
  expected ← (if netRefundLookup then
                netRefund ← perform (GetNetRefund bookingIntentId currency);
                mret (neg <$> netRefund)
              else mret (Some zero));
  mret {| ic_valid := match expected with Some x => eqb sumReversalCents x | None => false end;
          ic_bookingIntentId := bookingIntentId; ic_currency := currency;
          ic_sumReversalCents := sumReversalCents;
          ic_expectedNegationOfNetRefund := default zero expected;
          ic_unregistered := negb (bool_decide (is_Some expected)) |}.

(** The distinct (booking, currency) pairs in order of first occurrence: the
    values of the [Map] keyed by their concatenation. *)
Fixpoint add_tuple (t : string * string) (l : list (string * (string * string)))
    : list (string * (string * string)) :=
  let key := (fst t +:+ "|" +:+ snd t)%string in
  match l with
  | [] => [(key, t)]
  | (k, u) :: l' => if bool_decide (k = key) then (k, t) :: l' else (k, u) :: add_tuple t l'
  end.

Definition tuples (reversals : list CancellationReversalEntry) : list (string * string) :=
  map snd (fold_left (fun acc r => add_tuple (rv_bookingIntentId r, rv_currency r) acc) reversals []).

Fixpoint check_all (l : list (string * string)) : Service (list InvariantCheckResult) :=
  match l with
  | [] => mret []
  | (b, c) :: l' =>
      s ← checkInvariantForBooking b c;
      rest ← check_all l';
      mret (s :: rest)
  end.

Definition buildPaymentReversalTrace (paymentId : string) (paymentsCurrency : option string)
    (refunds : list RefundRow) : Service PaymentReversalTrace :=
  reversals ← perform (FindByPayment paymentId);
  let totalRefundsCents := fold_left (fun s r => add s (rr_amountCents r)) refunds zero in
  let totalReversalsCents := sum_cents reversals in
  invariantStatus ← check_all (tuples reversals);
  chain ← verifyChainForPayment paymentId;
  mret {| pt_paymentId := paymentId;
          pt_paymentCurrency := default "USD"%string paymentsCurrency;
          pt_refunds := refunds; pt_reversals := reversals;
          pt_netAcrossOriginalAndReversalCents := add totalRefundsCents totalReversalsCents;
          pt_invariantStatus := invariantStatus;
          pt_invariantValid := forallb ic_valid invariantStatus && vr_valid chain |}.

End Service.

(** ** The world around the service *)

(** The answers of everything outside of the repository. *)
Record Surroundings : Type := {
  su_paused : string -> bool;
  su_currency : string -> option string;
  su_netRefund : string -> string -> option num;
  su_txId : string;
  su_now : Z;
  su_uuid : string;
  su_dbId : string;
  su_dbNow : Z
}.

Record Release : Type := {
  es_paymentId : string; es_bookingIntentId : string; es_amountCents : num; es_currency : string
}.

Record World (R : Type) : Type := { w_repo : R; w_released : list Release }.
Arguments w_repo {R} _.
Arguments w_released {R} _.

Section World.
Context {R : Type} `{ReversalRepository R}.

Definition handle (o : Surroundings) X (ev : ReversalEv X) (w : World R) : X * World R :=
  match ev with
  | IsTenantPaused t => (su_paused o t, w)
  | GetCurrency p => (su_currency o p, w)
  | FindByKey k => (findByIdempotencyKey k (w_repo w), w)
  | FindByPayment p => (findByPaymentId p (w_repo w), w)
  | FindByBooking b => (findByBookingIntentId b (w_repo w), w)
  | ReleaseEscrow p b a c =>
      (su_txId o, {| w_repo := w_repo w;
                     w_released := w_released w ++
                       [{| es_paymentId := p; es_bookingIntentId := b; es_amountCents := a;
                           es_currency := c |}] |})
  | NewDate => (su_now o, w)
  | RandomUuid => (su_uuid o, w)
  | GetNetRefund b c => (su_netRefund o b c, w)
  | Insert e =>
      let '(r, repo') := insert (su_dbId o) (su_dbNow o) e (w_repo w) in
      (r, {| w_repo := repo'; w_released := w_released w |})
  end.

End World.

(** ** The in-memory repository satisfies the laws *)

Module InMemoryReversalsLaws.
Import InMemoryReversals.

Definition rows (r : t) : list CancellationReversalEntry := map snd (byId r).

Definition indexed (index : gmap string (list string)) (key : CancellationReversalEntry -> string)
    (l : list CancellationReversalEntry) : Prop :=
  forall k, default [] (index !! k) = map rv_id (List.filter (fun e => bool_decide (key e = k)) l).

Record ok (r : t) : Prop := {
  ok_ids : map fst (byId r) = map rv_id (rows r);
  ok_nodup : NoDup (map rv_id (rows r));
  ok_payment : indexed (byPayment r) rv_paymentId (rows r);
  ok_booking : indexed (byBooking r) rv_bookingIntentId (rows r)
}.

Lemma map_get_row l (e : CancellationReversalEntry) :
  map fst l = map rv_id (map snd l) -> NoDup (map rv_id (map snd l)) -> e ∈ map snd l ->
  map_get (rv_id e) l = Some e.
Proof.
  intros Hid Hnd ([k x] & -> & Hin)%list_elem_of_fmap. apply elem_map_get; [by rewrite <- Hid in Hnd|].
  assert (forall p, p ∈ l -> p.1 = rv_id p.2) as Hk; [|by rewrite <- (Hk _ Hin)].
  clear -Hid. induction l as [|q l IH]; simpl in *; [by intros p ?%elem_of_nil|]. injection Hid as Hq Hid.
  intros p [->|Hp]%elem_of_cons; [done|by apply IH].
Qed.

Lemma omap_map_get l (l' : list CancellationReversalEntry) :
  (forall e, e ∈ l' -> map_get (rv_id e) l = Some e) ->
  omap (fun id => map_get id l) (map rv_id l') = l'.
Proof.
  induction l' as [|e l' IH]; intros He; simpl; [done|]. rewrite He by constructor.
  f_equal. apply IH. intros x Hx. apply He. by constructor.
Qed.

Lemma by_index_rows r index key k :
  ok r -> indexed index key (rows r) ->
  by_index index k r = List.filter (fun e => bool_decide (key e = k)) (rows r).
Proof.
  intros Hok Hi. unfold by_index. rewrite Hi. apply omap_map_get.
  intros e [_ He]%list_elem_of_In%filter_In%and_comm. apply map_get_row; [apply Hok..|].
  by apply list_elem_of_In.
Qed.

Lemma clash_none input l :
  find_first (has_key (rv_idempotencyKey input)) l = None ->
  clash input l = match find_first (has_hash (rv_entryHash input)) l with
                  | Some _ => Some (EntryHashCollision (rv_entryHash input))
                  | None => None
                  end.
Proof.
  induction l as [|e l IH]; simpl; [done|]. destruct (has_key _ e); [done|]. intros Hk.
  destruct (has_hash _ e); [done|]. by apply IH.
Qed.

Lemma indexed_append index key l e :
  indexed index key l -> indexed (appendIntoIndex index (key e) (rv_id e)) key (l ++ [e]).
Proof.
  intros Hi k. unfold appendIntoIndex. rewrite List.filter_app, map_app. simpl.
  destruct (decide (key e = k)) as [<-|Hne].
  - rewrite lookup_insert_eq. simpl. by rewrite Hi, bool_decide_eq_true_2.
  - rewrite lookup_insert_ne by done. rewrite bool_decide_eq_false_2 by done. simpl.
    by rewrite app_nil_r.
Qed.

Lemma insert_fresh (r : t) (e : CancellationReversalEntry) :
  ok r -> (forall e', e' ∈ rows r -> rv_id e' <> rv_id e) ->
  find_first (has_key (rv_idempotencyKey e)) (rows r) = None ->
  match find_first (has_hash (rv_entryHash e)) (rows r) with
  | Some _ => insert e r = (Err (EntryHashCollision (rv_entryHash e)), r)
  | None => exists r', insert e r = (Ok e, r') /\ ok r' /\ rows r' = rows r ++ [e]
  end.
Proof.
  intros Hok Hid Hk. unfold insert. fold (rows r). rewrite (clash_none _ _ Hk).
  destruct (find_first (has_hash (rv_entryHash e)) (rows r)) as [x|]; [done|]. cbv beta iota zeta.
  assert (map_set (rv_id e) e (byId r) = byId r ++ [(rv_id e, e)]) as Hset.
  { apply map_set_fresh. unfold map_keys. rewrite (ok_ids r Hok). intros Hin.
    apply list_elem_of_fmap in Hin as (e' & He' & Hin). by apply (Hid e'). }
  eexists. split; [done|].
  assert (rows {| byId := map_set (rv_id e) e (byId r);
                  byPayment := appendIntoIndex (byPayment r) (rv_paymentId e) (rv_id e);
                  byBooking := appendIntoIndex (byBooking r) (rv_bookingIntentId e) (rv_id e) |}
          = rows r ++ [e]) as Hrows by (unfold rows; simpl; by rewrite Hset, map_app).
  split; [|done]. constructor; rewrite Hrows; simpl.
  - rewrite Hset, !map_app. simpl. by rewrite (ok_ids r Hok).
  - rewrite map_app. apply NoDup_app. split; [apply Hok|]. split; [|apply NoDup_singleton].
    intros i (e' & -> & Hin)%list_elem_of_fmap Hi. apply list_elem_of_singleton in Hi. by apply (Hid e').
  - apply indexed_append, Hok.
  - apply indexed_append, Hok.
Qed.

End InMemoryReversalsLaws.

#[export] Instance mem_reversals_laws : ReversalRepositoryLaws InMemoryReversals.t.
Proof.
  refine {| rows := InMemoryReversalsLaws.rows; repo_ok := InMemoryReversalsLaws.ok |}.
  - done.
  - intros r p Hok. by apply InMemoryReversalsLaws.by_index_rows, Hok.
  - intros r b Hok. by apply InMemoryReversalsLaws.by_index_rows, Hok.
  - intros r dbId dbNow e. apply InMemoryReversalsLaws.insert_fresh.
Defined.

(** ** Appending, as a decision on the list of entries *)

Section Append.
Context (sha256 : string -> string) (show : num -> string) (toISOString : Z -> string).
Context (lookup : bool).
Context {R : Type} `{ReversalRepositoryLaws R}.
Implicit Types (o : Surroundings) (w : World R) (input : InsertCancellationReversalInput)
  (l : list CancellationReversalEntry).

Abbreviation append := (appendEntry sha256 show toISOString lookup).

(** The checks that come before any interaction with the ledger. *)
Definition refusal o input : option ReversalError :=
  let t := tenantIdFor input in
  if str_truthy t && su_paused o t then Some (TenantPausedError t)
  else match su_currency o (ri_paymentId input) with
       | None => Some (SessionNotFound (ri_paymentId input))
       | Some c =>
           if negb (bool_decide (c = ri_currency input))
           then Some (CurrencyMismatch (ri_paymentId input) c (ri_currency input))
           else if negb (is_integer (ri_amountCents input)) || eqb (ri_amountCents input) zero
           then Some InvalidReversalAmount
           else if ltb (ri_escrowReleasedAmountCents input) zero then Some InvalidEscrowAmount
           else None
       end.

Definition booked (b c : string) l : list CancellationReversalEntry :=
  List.filter (in_currency c) (List.filter (of_booking b) l).

(** The check of the ledger invariant. *)
Definition unbalanced o input l : option ReversalError :=
  let b := ri_bookingIntentId input in
  let c := ri_currency input in
  let projected := add (sum_cents (booked b c l)) (ri_amountCents input) in
  if lookup then
    match su_netRefund o b c with
    | None => Some (NetRefundNotRegistered b c)
    | Some n => if eqb projected (neg n) then None else Some (InvariantViolation b c projected (neg n))
    end
  else None.

Definition escrow_tx o input : option string :=
  if ri_escrowReleased input then Some (default (su_txId o) (ri_escrowReleaseTxId input)) else None.

Definition releases input : list Release :=
  match ri_escrowReleased input, ri_escrowReleaseTxId input with
  | true, None => [{| es_paymentId := ri_paymentId input; es_bookingIntentId := ri_bookingIntentId input;
                      es_amountCents := ri_escrowReleasedAmountCents input;
                      es_currency := ri_currency input |}]
  | _, _ => []
  end.

Definition chain_of (p : string) l : list CancellationReversalEntry := List.filter (of_payment p) l.

Definition next_entry o input l : CancellationReversalEntry :=
  build_entry sha256 show toISOString input (su_uuid o)
    (tail_from rv_entryHash "" (chain_of (ri_paymentId input) l)) (escrow_tx o input) (su_now o).

(** Result, entries appended, escrow released. *)
Definition append_outcome o input l
    : result ReversalError CancellationReversalEntry * list CancellationReversalEntry * list Release :=
  match refusal o input with
  | Some e => (Err e, [], [])
  | None =>
      match find_first (has_key (ri_idempotencyKey input)) l with
      | Some e => (Ok e, [], [])
      | None =>
          match unbalanced o input l with
          | Some e => (Err e, [], releases input)
          | None =>
              let e := next_entry o input l in
              match find_first (has_hash (rv_entryHash e)) l with
              | Some _ => (Err (InsertFailed (EntryHashCollision (rv_entryHash e))), [], releases input)
              | None => (Ok e, [e], releases input)
              end
          end
      end
  end.

Definition fresh_uuid o w : Prop := forall e, e ∈ rows (w_repo w) -> rv_id e <> su_uuid o.

Definition released (rel : list Release) w : World R :=
  {| w_repo := w_repo w; w_released := w_released w ++ rel |}.

Lemma released_nil w : released [] w = w.
Proof. destruct w. unfold released. simpl. by rewrite app_nil_r. Qed.

Lemma run_resolve_escrow_tx o input w :
  run (handle o) (resolve_escrow_tx input) w = (Ok (escrow_tx o input), released (releases input) w).
Proof.
  unfold resolve_escrow_tx, escrow_tx, releases.
  destruct (ri_escrowReleased input), (ri_escrowReleaseTxId input); simpl; by rewrite ?released_nil.
Qed.

Lemma run_assertPreWriteInvariant o input w :
  repo_ok (w_repo w) ->
  run (handle o) (assertPreWriteInvariant lookup input) w =
  (match unbalanced o input (rows (w_repo w)) with Some e => Err e | None => Ok tt end, w).
Proof.
  intros Hok. unfold assertPreWriteInvariant, unbalanced, booked. rewrite run_bind, run_perform. simpl.
  rewrite find_booking_rows by done. destruct lookup; [|done]. simpl.
  destruct (su_netRefund _ _ _) as [n|]; simpl; [|done]. by destruct (eqb _ _).
Qed.

Lemma run_persist o input e w :
  repo_ok (w_repo w) -> (forall e', e' ∈ rows (w_repo w) -> rv_id e' <> rv_id e) ->
  rv_idempotencyKey e = ri_idempotencyKey input ->
  find_first (has_key (ri_idempotencyKey input)) (rows (w_repo w)) = None ->
  match find_first (has_hash (rv_entryHash e)) (rows (w_repo w)) with
  | Some _ => run (handle o) (persist input e) w = (Err (InsertFailed (EntryHashCollision (rv_entryHash e))), w)
  | None => exists w', run (handle o) (persist input e) w = (Ok e, w') /\ repo_ok (w_repo w') /\
              rows (w_repo w') = rows (w_repo w) ++ [e] /\ w_released w' = w_released w
  end.
Proof.
  intros Hok Hid Hkey Hk. unfold persist. rewrite run_bind, run_perform. simpl.
  rewrite <- Hkey in Hk. pose proof (insert_rows (w_repo w) (su_dbId o) (su_dbNow o) e Hok Hid Hk) as Hins.
  destruct (find_first (has_hash (rv_entryHash e)) (rows (w_repo w))).
  - rewrite Hins. simpl. by destruct w.
  - destruct Hins as (r' & -> & Hok' & Hrows). simpl. eexists. split; [done|]. by split_and!.
Qed.

(** The guards, up to the first interaction with the ledger. *)
Lemma run_append_guards o input w :
  run (handle o) (append input) w =
  match refusal o input with
  | Some e => (Err e, w)
  | None =>
      match findByIdempotencyKey (ri_idempotencyKey input) (w_repo w) with
      | Some e => (Ok e, w)
      | None =>
          run (handle o)
            (chainForPayment ← perform (FindByPayment (ri_paymentId input));
             escrowReleaseTxId ← resolve_escrow_tx input;
             createdAt ← perform NewDate;
             id ← perform RandomUuid;
             _ ← assertPreWriteInvariant lookup input;
             persist input (build_entry sha256 show toISOString input id
                (tail_from rv_entryHash "" chainForPayment) escrowReleaseTxId createdAt)) w
      end
  end.
Proof.
  unfold appendEntry, refusal. rewrite run_bind.
  destruct (str_truthy (tenantIdFor input)); simpl.
  2: destruct (su_currency _ _) as [c|]; simpl; [|done].
  1: destruct (su_paused _ _); simpl; [done|]; destruct (su_currency _ _) as [c|]; simpl; [|done].
  all: destruct (bool_decide (c = _)); simpl; [|done].
  all: destruct (negb (is_integer _) || _); simpl; [done|].
  all: destruct (ltb _ zero); simpl; [done|].
  all: by destruct (findByIdempotencyKey _ _).
Qed.

Lemma append_decided o input w :
  repo_ok (w_repo w) -> fresh_uuid o w ->
  let '(r, new, rel) := append_outcome o input (rows (w_repo w)) in
  exists w', run (handle o) (append input) w = (r, w') /\ repo_ok (w_repo w') /\
    rows (w_repo w') = rows (w_repo w) ++ new /\ w_released w' = w_released w ++ rel.
Proof.
  intros Hok Hid. rewrite run_append_guards. unfold append_outcome.
  destruct (refusal o input) as [e|]; [exists w; by rewrite !app_nil_r|].
  rewrite find_key_rows by done.
  destruct (find_first (has_key _) _) as [e|] eqn:Hk; [exists w; by rewrite !app_nil_r|].
  rewrite run_bind, run_perform. cbn [handle fst snd]. rewrite find_payment_rows by done.
  rewrite run_bind, run_resolve_escrow_tx. rewrite run_bind, run_perform. cbn [handle fst snd].
  rewrite run_bind, run_perform. cbn [handle fst snd].
  rewrite run_bind, run_assertPreWriteInvariant by done. simpl.
  destruct (unbalanced o input _) as [e|]; simpl.
  { eexists. split; [done|]. simpl. by rewrite app_nil_r. }
  fold (chain_of (ri_paymentId input) (rows (w_repo w))). fold (next_entry o input (rows (w_repo w))).
  pose proof (run_persist o input (next_entry o input (rows (w_repo w))) (released (releases input) w)
    Hok Hid eq_refl Hk) as Hp. simpl in Hp.
  destruct (find_first (has_hash _) _); [|done]. rewrite Hp. eexists. split; [done|]. simpl.
  by rewrite app_nil_r.
Qed.

(** ** The ledger over time *)

(** The hash chain of every payment is intact, and the reversals of every
    booking and currency that has any add up to the refund owed. *)
Definition balanced (net : string -> string -> option num) (b c : string) l : Prop :=
  booked b c l <> [] -> exists n, net b c = Some n /\ eqb (sum_cents (booked b c l)) (neg n) = true.

Record sound (net : string -> string -> option num) l : Prop := {
  sound_chains p : chain_ok sha256 rv_prevHash rv_entryHash (payload show toISOString) "" (chain_of p l);
  sound_balance b c : balanced net b c l;
  sound_keys : NoDup (map rv_idempotencyKey l)
}.

Lemma sum_cents_snoc l e : sum_cents (l ++ [e]) = add (sum_cents l) (rv_amountCents e).
Proof. unfold sum_cents. by rewrite fold_left_app. Qed.

Lemma booked_snoc b c l e :
  booked b c (l ++ [e]) =
  if bool_decide (rv_bookingIntentId e = b) && bool_decide (rv_currency e = c)
  then booked b c l ++ [e] else booked b c l.
Proof.
  unfold booked, of_booking, in_currency. rewrite !List.filter_app. simpl.
  destruct (bool_decide (rv_bookingIntentId e = b)); simpl; [|by rewrite app_nil_r].
  destruct (bool_decide (rv_currency e = c)); simpl; by rewrite ?app_nil_r.
Qed.

Lemma sound_append net o input l :
  lookup = true -> su_netRefund o = net ->
  find_first (has_key (ri_idempotencyKey input)) l = None -> unbalanced o input l = None ->
  sound net l -> sound net (l ++ [next_entry o input l]).
Proof.
  intros Hl Hnet Hk Hu Hs. constructor.
  - intros p. unfold chain_of. rewrite List.filter_app. simpl. unfold of_payment at 2. simpl.
    case_bool_decide as Hp; [|rewrite app_nil_r; apply Hs].
    apply chain_ok_snoc. split; [apply Hs|]. subst p. by split.
  - intros b c. unfold balanced. rewrite booked_snoc. simpl.
    destruct (bool_decide _ && bool_decide _) eqn:Hbc; [|apply Hs].
    apply andb_true_iff in Hbc as [Hb%bool_decide_eq_true Hc%bool_decide_eq_true]. intros _.
    rewrite sum_cents_snoc. simpl. unfold unbalanced in Hu. rewrite Hb, Hc, Hnet in Hu.
    rewrite Hl in Hu. destruct (net b c) as [n|]; [|done]. exists n. split; [done|]. by destruct (eqb _ _).
  - rewrite map_app. apply NoDup_app. split; [apply Hs|]. split; [|apply NoDup_singleton].
    intros k (e & -> & He)%list_elem_of_fmap Hin. apply list_elem_of_singleton in Hin.
    rewrite find_first_None in Hk. specialize (Hk e He). unfold has_key in Hk.
    by apply bool_decide_eq_false in Hk.
Qed.

(** One request, with any input and surroundings in which the refund owed is
    as [net] says and the UUID is new. *)
Definition append_step (net : string -> string -> option num) w w' : Prop :=
  exists o input, su_netRefund o = net /\ fresh_uuid o w /\ w' = snd (run (handle o) (append input) w).

Lemma append_step_sound net w w' :
  lookup = true -> append_step net w w' -> repo_ok (w_repo w) -> sound net (rows (w_repo w)) ->
  repo_ok (w_repo w') /\ sound net (rows (w_repo w')) /\
  exists new, rows (w_repo w') = rows (w_repo w) ++ new.
Proof.
  intros Hl (o & input & Hnet & Hid & ->) Hok Hs.
  pose proof (append_decided o input w Hok Hid) as Hd. revert Hd. unfold append_outcome.
  destruct (refusal o input); [|destruct (find_first (has_key _) _) eqn:Hk;
    [|destruct (unbalanced o input _) eqn:Hu; [|destruct (find_first (has_hash _) _)]]];
    intros (w' & -> & Hok' & Hrows & _); simpl; rewrite Hrows;
    (split; [done|]; split; [|by eexists]); rewrite ?app_nil_r; try done.
  by apply sound_append.
Qed.

Lemma append_steps_sound net w w' :
  lookup = true -> rtc (append_step net) w w' -> repo_ok (w_repo w) -> sound net (rows (w_repo w)) ->
  repo_ok (w_repo w') /\ sound net (rows (w_repo w')) /\
  exists new, rows (w_repo w') = rows (w_repo w) ++ new.
Proof.
  intros Hl Hr. induction Hr as [w|w w1 w' Hs _ IH]; intros Hok Hsound.
  { split_and!; try done. exists []. by rewrite app_nil_r. }
  destruct (append_step_sound net w w1 Hl Hs Hok Hsound) as (Hok1 & Hs1 & new1 & Hr1).
  destruct (IH Hok1 Hs1) as (Hok2 & Hs2 & new2 & Hr2). split_and!; try done.
  exists (new1 ++ new2). by rewrite Hr2, Hr1, app_assoc.
Qed.

Lemma sound_nil net : sound net [].
Proof. constructor; [done| |constructor]. intros b c Hne. by destruct Hne. Qed.

(** *** The trace of a payment *)

Lemma add_tuple_values x t acc : x ∈ map snd (add_tuple t acc) -> x = t \/ x ∈ map snd acc.
Proof.
  induction acc as [|[k u] acc IH]; simpl.
  { intros Hx. apply list_elem_of_singleton in Hx. auto. }
  case_bool_decide; simpl; rewrite !elem_of_cons; [tauto|]. intros [->|Hx]; [auto|].
  destruct (IH Hx); auto.
Qed.

Lemma tuples_of_entries x l :
  x ∈ tuples l -> exists e, e ∈ l /\ x = (rv_bookingIntentId e, rv_currency e).
Proof.
  unfold tuples. induction l as [|e l IH] using rev_ind; simpl; [by intros ?%elem_of_nil|].
  rewrite fold_left_app. simpl. intros [->|Hx]%add_tuple_values.
  - exists e. split; [|done]. apply elem_of_app. right. by constructor.
  - destruct (IH Hx) as (e' & He' & ->). exists e'. split; [|done]. apply elem_of_app. by left.
Qed.

Lemma run_checkInvariant net o w b c :
  lookup = true -> su_netRefund o = net -> repo_ok (w_repo w) -> balanced net b c (rows (w_repo w)) ->
  booked b c (rows (w_repo w)) <> [] ->
  exists s, run (handle o) (checkInvariantForBooking lookup b c) w = (Ok s, w) /\ ic_valid s = true.
Proof.
  intros Hl Hnet Hok Hb Hne. destruct (Hb Hne) as (n & Hn & Heq). unfold checkInvariantForBooking. rewrite Hl.
  rewrite run_bind, run_perform. simpl. rewrite find_booking_rows by done. rewrite Hnet, Hn. simpl.
  eexists. split; [done|]. simpl. by unfold booked in Heq.
Qed.

Lemma run_check_all net o w ts :
  lookup = true -> su_netRefund o = net -> repo_ok (w_repo w) ->
  (forall b c, balanced net b c (rows (w_repo w))) ->
  (forall t, t ∈ ts -> booked (fst t) (snd t) (rows (w_repo w)) <> []) ->
  exists ss, run (handle o) (check_all lookup ts) w = (Ok ss, w) /\ forallb ic_valid ss = true.
Proof.
  intros Hl Hnet Hok Hb. induction ts as [|[b c] ts IH]; intros Hts; cbn [check_all]; [by eexists|].
  destruct (run_checkInvariant net o w b c Hl Hnet Hok (Hb b c) (Hts (b, c) ltac:(constructor)))
    as (s & Hs & Hv).
  destruct IH as (ss & Hss & Hvs); [intros t Ht; apply Hts; by constructor|].
  rewrite run_bind, Hs. rewrite run_bind, Hss. simpl. eexists. split; [done|]. simpl. by rewrite Hv.
Qed.

Lemma run_trace net o w p cur refunds :
  lookup = true -> su_netRefund o = net -> repo_ok (w_repo w) -> sound net (rows (w_repo w)) ->
  exists t, run (handle o) (buildPaymentReversalTrace sha256 show toISOString lookup p cur refunds) w = (Ok t, w) /\
    pt_reversals t = chain_of p (rows (w_repo w)) /\ pt_invariantValid t = true.
Proof.
  intros Hl Hnet Hok Hs. unfold buildPaymentReversalTrace. rewrite run_bind, run_perform. cbn [handle fst snd].
  rewrite find_payment_rows by done.
  destruct (run_check_all net o w (tuples (chain_of p (rows (w_repo w)))) Hl Hnet Hok (sound_balance _ _ Hs))
    as (ss & Hss & Hv).
  { intros t (e & He & ->)%tuples_of_entries. apply list_elem_of_In, filter_In in He as [He _].
    intros Hnil. simpl in Hnil. apply (List.in_nil (a := e)). rewrite <- Hnil. unfold booked.
    rewrite !filter_In. unfold in_currency, of_booking. by rewrite !bool_decide_eq_true_2. }
  fold (chain_of p (rows (w_repo w))). rewrite run_bind, Hss. rewrite run_bind. unfold verifyChainForPayment.
  rewrite run_bind, run_perform. simpl. rewrite find_payment_rows by done. eexists. split; [done|]. simpl.
  split; [done|]. rewrite Hv. simpl. unfold verifyChain. by apply verifyChain_valid, Hs.
Qed.

(** (C16) The reversal ledger is sound over a repository that keeps
    [ReversalRepositoryLaws] (the in-memory one does; the PostgreSQL one used in
    production does not: [pg_chain_unverifiable], [pg_second_payment_refused])
    and with the lookup of net refunds configured: after any sequence of appends
    to an empty repository, each finished before the next (any inputs, accepted
    or refused, any clocks, a fixed amount owed per booking and currency, new
    UUIDs), the trace of every payment reports its hash chain and the balance of
    every booking it touches as valid, and no idempotency key is recorded
    twice. *)
Theorem reversal_ledger_sound net w w' :
  lookup = true -> repo_ok (w_repo w) -> rows (w_repo w) = [] -> rtc (append_step net) w w' ->
  NoDup (map rv_idempotencyKey (rows (w_repo w'))) /\
  forall o p cur refunds, su_netRefund o = net ->
    exists t, run (handle o) (buildPaymentReversalTrace sha256 show toISOString lookup p cur refunds) w' = (Ok t, w') /\
      pt_reversals t = chain_of p (rows (w_repo w')) /\ pt_invariantValid t = true.
Proof.
  intros Hl Hok Hnil Hr. destruct (append_steps_sound net w w' Hl Hr Hok) as (Hok' & Hs & _).
  { rewrite Hnil. apply sound_nil. }
  split; [apply Hs|]. intros. by eapply run_trace.
Qed.

(** Idempotency: once an append has returned an entry, every later append with
    the same key that passes the guards returns that entry, whatever its other
    fields, and changes neither the ledger nor the escrow. *)
Theorem append_replayed net o input e w w1 w' o' input' :
  lookup = true -> repo_ok (w_repo w) -> sound net (rows (w_repo w)) -> fresh_uuid o w ->
  su_netRefund o = net -> run (handle o) (append input) w = (Ok e, w1) -> rtc (append_step net) w1 w' ->
  ri_idempotencyKey input' = ri_idempotencyKey input -> refusal o' input' = None ->
  run (handle o') (append input') w' = (Ok e, w').
Proof.
  intros Hl Hok Hs Hid Hnet Hrun Hr Hkey Href.
  destruct (append_step_sound net w w1) as (Hok1 & Hs1 & _); try done.
  { exists o, input. by rewrite Hrun. }
  destruct (append_steps_sound net w1 w') as (Hok' & _ & new & Hrows); try done.
  rewrite run_append_guards, Href, find_key_rows by done. rewrite Hrows, find_first_app, Hkey.
  assert (find_first (has_key (ri_idempotencyKey input)) (rows (w_repo w1)) = Some e) as ->; [|done].
  pose proof (append_decided o input w Hok Hid) as Hd. revert Hd. unfold append_outcome.
  destruct (refusal o input); [|destruct (find_first (has_key _) _) eqn:Hk;
    [|destruct (unbalanced o input _); [|destruct (find_first (has_hash _) _)]]];
    rewrite Hrun; intros (? & Heq & _ & Hrows1 & _); simplify_eq; rewrite Hrows1.
  - by rewrite app_nil_r.
  - rewrite find_first_app, Hk. simpl. unfold has_key. by rewrite bool_decide_eq_true_2.
Qed.

(** A booking is reversed once: when the reversals of a booking add up to the
    amount owed, every further reversal of it with a new key is refused,
    corrections of a waived fee included, and the escrow it asked to release has
    been released all the same: the release precedes the check. *)
Theorem correction_refused_after_release net o input w n a :
  lookup = true -> repo_ok (w_repo w) -> sound net (rows (w_repo w)) -> fresh_uuid o w ->
  su_netRefund o = net -> refusal o input = None ->
  find_first (has_key (ri_idempotencyKey input)) (rows (w_repo w)) = None ->
  booked (ri_bookingIntentId input) (ri_currency input) (rows (w_repo w)) <> [] ->
  net (ri_bookingIntentId input) (ri_currency input) = Some (of_Z n) ->
  ri_amountCents input = of_Z a -> Z.abs n <= 2 ^ 50 -> Z.abs a <= 2 ^ 50 ->
  exists w', run (handle o) (append input) w =
      (Err (InvariantViolation (ri_bookingIntentId input) (ri_currency input) (of_Z (a - n)) (neg (of_Z n))), w') /\
    rows (w_repo w') = rows (w_repo w) /\ w_released w' = w_released w ++ releases input.
Proof.
  intros Hl Hok Hs Hid Hnet Href Hk Hne Hn Ha Bn Ba.
  pose proof (append_decided o input w Hok Hid) as Hd. revert Hd. unfold append_outcome.
  rewrite Href, Hk. unfold unbalanced. rewrite Hl, Hnet, Hn.
  destruct (sound_balance _ _ Hs _ _ Hne) as (n' & Hn' & Heq). rewrite Hn in Hn'. injection Hn' as <-.
  assert (eqb (of_Z a) zero = false) as Ha0.
  { revert Href. unfold refusal. rewrite Ha. destruct (_ && _); [done|]. destruct (su_currency o _); [|done].
    destruct (negb (bool_decide _)); [done|]. destruct (negb (is_integer _)); [done|].
    by destruct (eqb (of_Z a) zero). }
  rewrite Ha. rewrite !of_Z_exact in * by lia. simpl neg in *.
  destruct (sum_cents _) as [s| | |]; try done. simpl in Heq. apply Z.eqb_eq in Heq as ->.
  replace (- (n * U)) with ((- n) * U) by ring. rewrite add_cents by lia. simpl.
  simpl in Ha0. apply Z.eqb_neq in Ha0. pose proof U_pos.
  replace (- n + a) with (a - n) by ring.
  destruct (Z.eqb_spec ((a - n) * U) (- n * U)); [nia|].
  intros (w' & Hrun & _ & Hrows & Hrel). exists w'. rewrite Hrun, Hrows, Hrel, app_nil_r.
  by split.
Qed.

End Append.

(** ** Any repository: what an append does once its key is new *)

Section AnyRepository.
Context (sha256 : string -> string) (show : num -> string) (toISOString : Z -> string).
Context (lookup : bool).
Context {R : Type} `{ReversalRepository R}.
Implicit Types (o : Surroundings) (w : World R) (input : InsertCancellationReversalInput).

Lemma run_assert_pure o input w :
  exists r, run (handle o) (assertPreWriteInvariant lookup input) w = (r, w).
Proof.
  unfold assertPreWriteInvariant. rewrite run_bind, run_perform. simpl. destruct lookup; [|by eexists].
  simpl. destruct (su_netRefund _ _ _); simpl; [|by eexists]. rewrite run_throw_when. by eexists.
Qed.

Lemma run_append_new o input w :
  refusal o input = None -> findByIdempotencyKey (ri_idempotencyKey input) (w_repo w) = None ->
  let w1 := released (releases input) w in
  let e := build_entry sha256 show toISOString input (su_uuid o)
    (tail_from rv_entryHash "" (findByPaymentId (ri_paymentId input) (w_repo w)))
    (escrow_tx o input) (su_now o) in
  (exists err, run (handle o) (appendEntry sha256 show toISOString lookup input) w = (Err err, w1)) \/
  run (handle o) (appendEntry sha256 show toISOString lookup input) w = run (handle o) (persist input e) w1.
Proof.
  intros Href Hk w1 e. rewrite run_append_guards, Href, Hk.
  rewrite run_bind, run_perform. cbn [handle fst snd].
  rewrite run_bind, run_resolve_escrow_tx. fold w1. rewrite run_bind, run_perform. cbn [handle fst snd].
  rewrite run_bind, run_perform. cbn [handle fst snd]. rewrite run_bind.
  destruct (run_assert_pure o input w1) as [[u|err] ->]; [by right|left; by eexists].
Qed.

End AnyRepository.

(** ** The PostgreSQL repository *)

Section Postgres.
Context (sha256 : string -> string) (show : num -> string) (toISOString : Z -> string).
Context (lookup : bool) (references_exist : CancellationReversalEntry -> bool).
#[local] Existing Instance PgReversals.repository.
#[local] Instance pg : ReversalRepository PgReversals.t := PgReversals.repository references_exist.
Implicit Types (o : Surroundings) (w : World PgReversals.t) (input : InsertCancellationReversalInput)
  (e : CancellationReversalEntry).

Abbreviation append := (appendEntry sha256 show toISOString lookup).

(** An insertion either stores its row as the last one, or changes nothing. *)
Lemma pg_insert_cases dbId dbNow e (tbl : PgReversals.t) :
  (exists err, PgReversals.insert references_exist dbId dbNow e tbl = (Err err, tbl)) \/
  (PgReversals.insert references_exist dbId dbNow e tbl =
     (Ok (PgReversals.stored_row dbId dbNow e), tbl ++ [PgReversals.stored_row dbId dbNow e]) /\
   existsb (has_key (rv_idempotencyKey e)) tbl = false /\
   (rv_prevHash e = ""%string -> existsb PgReversals.is_genesis tbl = false)).
Proof.
  unfold PgReversals.insert. destruct (PgReversals.checks e); simpl; [|left; by eexists].
  destruct (existsb _ tbl); [left; by eexists|].
  destruct (existsb (has_key _) tbl); [left; by eexists|].
  destruct (existsb (has_hash _) tbl); [left; by eexists|].
  destruct (PgReversals.is_genesis e && existsb PgReversals.is_genesis tbl) eqn:Hg; [left; by eexists|].
  destruct (references_exist e); simpl; [|left; by eexists]. right. split_and!; try done.
  intros Hp. unfold PgReversals.is_genesis at 1 in Hg. by rewrite bool_decide_eq_true_2 in Hg.
Qed.

Lemma existsb_find {A} (p : A -> bool) l : existsb p l = false -> find_first p l = None.
Proof. induction l as [|x l IH]; simpl; [done|]. by destruct (p x). Qed.

(** The effect of an append on the table: none, or one row at its end. *)
Lemma pg_append_cases o input w :
  let '(r, w') := run (handle o) (append input) w in
  (w_repo w' = w_repo w /\
   forall e, r = Ok e -> find_first (has_key (ri_idempotencyKey input)) (w_repo w) = Some e) \/
  exists e, w_repo w' = w_repo w ++ [PgReversals.stored_row (su_dbId o) (su_dbNow o) e] /\
    r = Ok (PgReversals.stored_row (su_dbId o) (su_dbNow o) e) /\
    e = build_entry sha256 show toISOString input (su_uuid o)
      (tail_from rv_entryHash "" (PgReversals.findByPaymentId (ri_paymentId input) (w_repo w)))
      (escrow_tx o input) (su_now o) /\
    (rv_prevHash e = ""%string -> existsb PgReversals.is_genesis (w_repo w) = false).
Proof.
  destruct (run (handle o) (append input) w) as [r w'] eqn:Hrun. revert Hrun.
  destruct (refusal o input) as [err|] eqn:Href.
  { rewrite run_append_guards, Href. intros [= <- <-]. by left. }
  destruct (findByIdempotencyKey (ri_idempotencyKey input) (w_repo w)) as [e|] eqn:Hk.
  { rewrite run_append_guards, Href, Hk. intros [= <- <-]. left. split; [done|]. by intros ? [= <-]. }
  destruct (run_append_new sha256 show toISOString lookup o input w Href Hk) as [[err ->]| ->].
  { intros [= <- <-]. by left. }
  set (e := build_entry _ _ _ _ _ _ _ _). unfold persist. rewrite run_bind, run_perform. simpl.
  destruct (pg_insert_cases (su_dbId o) (su_dbNow o) e (w_repo w)) as [[err ->]|(-> & Hkey & Hg)].
  - destruct err; simpl; try (intros [= <- <-]; by left).
    unfold findByIdempotencyKey in Hk. simpl in Hk.
    destruct (PgReversals.findByIdempotencyKey _ _) eqn:Hw; [congruence|]. intros [= <- <-]. by left.
  - intros [= <- <-]. right. exists e. by split_and!.
Qed.

(** The rows of one payment, with a genesis row unless there are none. *)
Definition one_chain (tbl : PgReversals.t) : Prop :=
  (forall e e', e ∈ tbl -> e' ∈ tbl -> rv_paymentId e' = rv_paymentId e) /\
  (tbl <> [] -> existsb PgReversals.is_genesis tbl = true).

Lemma pg_prev_of_payment p (tbl : PgReversals.t) :
  tail_from rv_entryHash "" (PgReversals.findByPaymentId p tbl) <> ""%string ->
  exists e, e ∈ tbl /\ rv_paymentId e = p.
Proof.
  unfold tail_from. destruct (last _) as [e|] eqn:Hl; [|done]. intros _. exists e.
  apply last_Some_elem_of, js_sort_elem, list_elem_of_In, filter_In in Hl as [Hin Hp].
  split; [by apply list_elem_of_In|]. unfold of_payment in Hp. by apply bool_decide_eq_true in Hp.
Qed.

Lemma pg_append_one_chain o input w :
  one_chain (w_repo w) -> one_chain (w_repo (snd (run (handle o) (append input) w))).
Proof.
  intros [Hone Hgen]. pose proof (pg_append_cases o input w) as Hc.
  destruct (run (handle o) (append input) w) as [r w']. simpl.
  destruct Hc as [[-> _]|(e & -> & _ & He & Hg)]; [done|].
  assert (rv_paymentId e = ri_paymentId input) as Hpay by (by rewrite He).
  assert (forall x, x ∈ w_repo w -> rv_paymentId x = rv_paymentId e) as Hsame.
  { intros x Hx. destruct (decide (rv_prevHash e = ""%string)) as [Hp|Hp].
    - destruct (w_repo w) as [|y tbl]; [by apply elem_of_nil in Hx|].
      rewrite (Hg Hp) in Hgen. by discriminate Hgen.
    - rewrite He in Hp. destruct (pg_prev_of_payment _ _ Hp) as (y & Hy & Hpy).
      rewrite Hpay, <- Hpy. by apply Hone. }
  split.
  - intros a b Ha Hb. apply elem_of_app in Ha as [Ha|Ha%list_elem_of_singleton];
      apply elem_of_app in Hb as [Hb|Hb%list_elem_of_singleton]; subst;
      rewrite ?(Hsame a), ?(Hsame b) by done; done.
  - intros _. rewrite existsb_app. destruct (w_repo w) as [|y tbl] eqn:Htbl.
    + by rewrite He.
    + by rewrite Hgen.
Qed.

Definition pg_step w w' : Prop := exists o input, w' = snd (run (handle o) (append input) w).

(** The unique index on genesis rows is on the whole table, the chains are one
    per payment: after any sequence of appends to an empty table, an append with a
    new key for any payment but the one already there is refused, and the table
    holds the reversals of one payment only. *)
Theorem pg_second_payment_refused w w' x o input :
  w_repo w = [] -> rtc pg_step w w' -> x ∈ w_repo w' -> ri_paymentId input <> rv_paymentId x ->
  find_first (has_key (ri_idempotencyKey input)) (w_repo w') = None ->
  exists err, fst (run (handle o) (append input) w') = Err err /\
              w_repo (snd (run (handle o) (append input) w')) = w_repo w'.
Proof.
  intros Hnil Hr Hx Hp Hk.
  assert (one_chain (w_repo w')) as Hone.
  { assert (one_chain (w_repo w)) as H0 by (rewrite Hnil; split; [by intros ? ? ?%elem_of_nil|done]).
    clear Hx Hk Hnil. induction Hr as [|w w1 w' (o1 & i1 & ->) _ IH]; [done|].
    by apply IH, pg_append_one_chain. }
  pose proof (pg_append_one_chain o input w' Hone) as [Hone' _].
  pose proof (pg_append_cases o input w') as Hc. revert Hone' Hc.
  destruct (run (handle o) (append input) w') as [r w2]. simpl. intros Hone' [[Hw Hok]|(e & Hw & _ & He & _)].
  - destruct r as [e|err]; [|by eexists]. specialize (Hok e eq_refl). congruence.
  - exfalso. apply Hp. rewrite Hw in Hone'.
    transitivity (rv_paymentId (PgReversals.stored_row (su_dbId o) (su_dbNow o) e)); [by rewrite He|].
    apply Hone'; apply elem_of_app; [by left|right; by constructor].
Qed.

Lemma payload_time e1 e2 :
  (forall iso, canonicalisePayload show e1 iso = canonicalisePayload show e2 iso) ->
  payload show toISOString e1 = payload show toISOString e2 ->
  toISOString (rv_createdAt e1) = toISOString (rv_createdAt e2).
Proof.
  intros Heq. unfold payload. rewrite Heq. unfold canonicalisePayload. cbn [String.concat].
  intros Hp. by repeat apply (inj (String.append _)) in Hp.
Qed.

(** The hash of an entry covers the service's clock, the stored row has the
    database's: an entry just appended under a database clock that renders
    differently makes the verification of its payment's chain fail, if
    the hash has no collisions. *)
Theorem pg_chain_unverifiable o input w e w' :
  (forall x y, sha256 x = sha256 y -> x = y) ->
  find_first (has_key (ri_idempotencyKey input)) (w_repo w) = None ->
  run (handle o) (append input) w = (Ok e, w') ->
  toISOString (su_dbNow o) <> toISOString (su_now o) ->
  exists v, run (handle o) (verifyChainForPayment sha256 show toISOString (rv_paymentId e)) w' = (Ok v, w') /\
            vr_valid v = false.
Proof.
  intros Hinj Hk Hrun Hiso. pose proof (pg_append_cases o input w) as Hc. rewrite Hrun in Hc.
  destruct Hc as [[_ Hok]|(e0 & Hw & [= ->] & He & _)]; [by rewrite (Hok e eq_refl) in Hk|].
  unfold verifyChainForPayment. rewrite run_bind, run_perform. simpl. eexists. split; [done|].
  apply not_true_is_false. intros Hv%verifyChain_valid%chain_ok_hashes. rewrite Forall_forall in Hv.
  specialize (Hv (PgReversals.stored_row (su_dbId o) (su_dbNow o) e0)). apply Hiso.
  assert (rv_entryHash e0 = sha256 (payload show toISOString e0)) as Hh by (by rewrite He).
  unfold derived in Hv. simpl rv_entryHash in Hv. rewrite Hh in Hv. symmetry.
  replace (su_now o) with (rv_createdAt e0) by (by rewrite He).
  change (su_dbNow o) with (rv_createdAt (PgReversals.stored_row (su_dbId o) (su_dbNow o) e0)).
  apply payload_time; [done|]. apply Hinj, Hv. unfold PgReversals.findByPaymentId.
  apply js_sort_elem, list_elem_of_In, filter_In. unfold of_payment. rewrite bool_decide_eq_true_2 by done.
  split; [|done]. apply list_elem_of_In. rewrite Hw. apply elem_of_app. right. by constructor.
Qed.

End Postgres.

(** ** Concurrent appends *)

Section Concurrent.
Context (sha256 : string -> string) (show : num -> string) (toISOString : Z -> string).
Context (lookup : bool) {R : Type} `{ReversalRepository R}.

Definition exec X (ev : ReversalEv X) (w : World R) (x : X) (w' : World R) : Prop :=
  exists o, handle o X ev w = (x, w').

Definition request (p : Service unit) : Prop :=
  exists input, p = forget (appendEntry sha256 show toISOString lookup input).

Definition rsteps : relation (Config ReversalEv ReversalError (World R)) := rtc (step exec request).

End Concurrent.

(** *** Concrete appends *)

Definition w_hash (s : string) : string := String "h" s.
Definition w_cents (n : num) : string := match n with Fin z => pretty (z / U) | _ => "?" end.
Definition w_date (t : Z) : string := pretty t.

Definition w_around (uuid : string) (now dbNow : Z) : Surroundings :=
  {| su_paused := fun _ => false; su_currency := fun _ => Some "USD"%string;
     su_netRefund := fun _ _ => Some (of_Z 70); su_txId := "tx"; su_now := now; su_uuid := uuid;
     su_dbId := uuid; su_dbNow := dbNow |}.

Definition w_in (key payment booking : string) (amount : Z) : InsertCancellationReversalInput :=
  {| ri_bookingIntentId := booking; ri_paymentId := payment; ri_originalRefundId := None;
     ri_amountCents := of_Z amount; ri_currency := "USD"; ri_escrowReleased := true;
     ri_escrowReleasedAmountCents := of_Z 70; ri_escrowReleaseTxId := None; ri_reason := "r";
     ri_idempotencyKey := key; ri_policyVersionId := "v"; ri_actor := "a"; ri_metadata := None |}.

Abbreviation w_append := (appendEntry w_hash w_cents w_date true).

Definition w_mem0 : World InMemoryReversals.t := {| w_repo := InMemoryReversals.empty; w_released := [] |}.
Definition w_mem1 : World InMemoryReversals.t :=
  Eval vm_compute in snd (run (handle (w_around "u1" 1 1)) (w_append (w_in "k1" "p" "b" (-70))) w_mem0).
Definition w_mem2 : World InMemoryReversals.t :=
  Eval vm_compute in snd (run (handle (w_around "u2" 2 2)) (w_append (w_in "k2" "p" "c" (-70))) w_mem1).

(** Two requests for one booking, under different keys, both read the ledger
    before either writes. *)
Definition w_both : list (Service unit) :=
  [forget (w_append (w_in "k1" "p" "b" (-70))); forget (w_append (w_in "k2" "p" "b" (-70)))].

Definition w_schedule : list (nat * Surroundings) :=
  repeat (0%nat, w_around "u1" 1 1) 8 ++ repeat (1%nat, w_around "u2" 2 2) 8 ++
  [(0%nat, w_around "u1" 1 1); (1%nat, w_around "u2" 2 2)].

Definition w_raced : Config ReversalEv ReversalError (World InMemoryReversals.t) :=
  Eval vm_compute in follow (fun o => handle o) w_schedule {| cf_state := w_mem0; cf_pool := w_both |}.

(** The invariant is checked before the write, not atomically with it: two
    concurrent appends for one booking can both succeed.  The ledger then
    reverses twice the amount owed, the escrow has been released twice, and both entries claim
    to be the first of the payment's chain. *)
Theorem concurrent_reversals_break_ledger :
  rsteps w_hash w_cents w_date true {| cf_state := w_mem0; cf_pool := [] |} w_raced /\
  cf_pool w_raced = [Ret tt; Ret tt] /\
  length (w_released (cf_state w_raced)) = 2%nat /\
  (exists s, fst (run (handle (w_around "" 0 0)) (checkInvariantForBooking true "b" "USD") (cf_state w_raced)) = Ok s /\
     ic_sumReversalCents s = of_Z (-140) /\ ic_expectedNegationOfNetRefund s = of_Z (-70) /\ ic_valid s = false) /\
  exists v, fst (run (handle (w_around "" 0 0)) (verifyChainForPayment w_hash w_cents w_date "p") (cf_state w_raced)) = Ok v /\
     vr_valid v = false /\ vr_firstBrokenIndex v = Some 1%nat.
Proof.
  split.
  { replace w_raced with (follow (fun o => handle o) w_schedule {| cf_state := w_mem0; cf_pool := w_both |})
      by (vm_compute; reflexivity).
    etrans; [|apply follow_steps; intros o X ev w; exists o; by destruct (handle o X ev w)].
    apply (admit_steps _ _ _ [] w_both). repeat constructor; by eexists. }
  split; [reflexivity|]. split; [reflexivity|]. split.
  - eexists. split; [vm_compute; reflexivity|]. split_and!; vm_compute; reflexivity.
  - eexists. split; [vm_compute; reflexivity|]. split; vm_compute; reflexivity.
Qed.

(** ** Concrete ledgers *)

Definition w_net : string -> string -> option num := fun _ _ => Some (of_Z 70).

Lemma mem_empty_ok : repo_ok (w_repo w_mem0).
Proof. by constructor; try constructor; intros k. Qed.

Lemma w_step1 : append_step w_hash w_cents w_date true w_net w_mem0 w_mem1.
Proof.
  exists (w_around "u1" 1 1), (w_in "k1" "p" "b" (-70)). split; [done|]. split; [|by vm_compute].
  intros e He. by apply elem_of_nil in He.
Qed.

Lemma w_step2 : append_step w_hash w_cents w_date true w_net w_mem1 w_mem2.
Proof.
  exists (w_around "u2" 2 2), (w_in "k2" "p" "c" (-70)). split; [done|]. split; [|by vm_compute].
  intros e He. by apply list_elem_of_singleton in He as ->.
Qed.

Lemma w_mem1_sound : repo_ok (w_repo w_mem1) /\ sound w_hash w_cents w_date w_net (rows (w_repo w_mem1)).
Proof.
  destruct (append_step_sound w_hash w_cents w_date true w_net w_mem0 w_mem1 eq_refl w_step1 mem_empty_ok)
    as (? & ? & _); [apply sound_nil|done].
Qed.

Lemma reversal_ledger_sound_witness :
  NoDup (map rv_idempotencyKey (rows (w_repo w_mem2))) /\
  forall o p cur refunds, su_netRefund o = w_net ->
    exists t, run (handle o) (buildPaymentReversalTrace w_hash w_cents w_date true p cur refunds) w_mem2 = (Ok t, w_mem2) /\
      pt_reversals t = chain_of p (rows (w_repo w_mem2)) /\ pt_invariantValid t = true.
Proof.
  apply (reversal_ledger_sound w_hash w_cents w_date true w_net w_mem0 w_mem2);
    [reflexivity|apply mem_empty_ok|reflexivity|].
  eapply rtc_l; [apply w_step1|]. eapply rtc_l; [apply w_step2|]. apply rtc_refl.
Defined.

Definition w_entry1 : CancellationReversalEntry :=
  Eval vm_compute in next_entry w_hash w_cents w_date (w_around "u1" 1 1) (w_in "k1" "p" "b" (-70)) [].

Lemma append_replayed_witness :
  run (handle (w_around "u3" 3 3)) (w_append (w_in "k1" "p" "c" 5)) w_mem2 = (Ok w_entry1, w_mem2).
Proof.
  apply (append_replayed w_hash w_cents w_date true w_net (w_around "u1" 1 1) (w_in "k1" "p" "b" (-70))
           w_entry1 w_mem0 w_mem1); [reflexivity|apply mem_empty_ok|apply sound_nil| |reflexivity|
           vm_compute; reflexivity| |reflexivity|vm_compute; reflexivity].
  - intros e He. by apply elem_of_nil in He.
  - eapply rtc_l; [apply w_step2|]. apply rtc_refl.
Defined.

Lemma correction_refused_after_release_witness :
  exists w', run (handle (w_around "u2" 2 2)) (w_append (w_in "k2" "p" "b" 20)) w_mem1 =
      (Err (InvariantViolation "b" "USD" (of_Z (20 - 70)) (neg (of_Z 70))), w') /\
    rows (w_repo w') = rows (w_repo w_mem1) /\
    w_released w' = w_released w_mem1 ++ releases (w_in "k2" "p" "b" 20).
Proof.
  apply (correction_refused_after_release w_hash w_cents w_date true w_net (w_around "u2" 2 2)
           (w_in "k2" "p" "b" 20) w_mem1 70 20); [reflexivity|apply w_mem1_sound..| |reflexivity|
           vm_compute; reflexivity|vm_compute; reflexivity| |reflexivity|reflexivity|lia|lia].
  - intros e He. by apply list_elem_of_singleton in He as ->.
  - by vm_compute.
Defined.

Definition w_refs (_ : CancellationReversalEntry) : bool := true.
Abbreviation w_pg_run uuid now dbNow := (run (@handle _ (PgReversals.repository w_refs) (w_around uuid now dbNow))).

Definition w_pg0 : World PgReversals.t := {| w_repo := []; w_released := [] |}.
Definition w_pg1 : World PgReversals.t :=
  Eval vm_compute in snd (w_pg_run "u1" 1 2 (w_append (w_in "k1" "p" "b" (-70))) w_pg0).

Definition w_row1 : CancellationReversalEntry := PgReversals.stored_row "u1" 2 w_entry1.

Lemma pg_second_payment_refused_witness :
  exists err, fst (w_pg_run "u2" 3 3 (w_append (w_in "k2" "q" "c" (-70))) w_pg1) = Err err /\
              w_repo (snd (w_pg_run "u2" 3 3 (w_append (w_in "k2" "q" "c" (-70))) w_pg1)) = w_repo w_pg1.
Proof.
  apply (pg_second_payment_refused w_hash w_cents w_date true w_refs w_pg0 w_pg1 w_row1).
  - reflexivity.
  - apply rtc_once. exists (w_around "u1" 1 2), (w_in "k1" "p" "b" (-70)). vm_compute. reflexivity.
  - vm_compute. constructor.
  - vm_compute. discriminate.
  - vm_compute. reflexivity.
Defined.

Lemma pg_chain_unverifiable_witness :
  exists v, w_pg_run "u1" 1 2 (verifyChainForPayment w_hash w_cents w_date "p") w_pg1 = (Ok v, w_pg1) /\
            vr_valid v = false.
Proof.
  apply (pg_chain_unverifiable w_hash w_cents w_date true w_refs (w_around "u1" 1 2)
           (w_in "k1" "p" "b" (-70)) w_pg0 w_row1 w_pg1).
  - intros x y Heq. by injection Heq.
  - reflexivity.
  - vm_compute. reflexivity.
  - vm_compute. discriminate.
Defined.
