(* ===== verification/Redemption.v ===== *)
(** * Redemption: the redemption ledger

    [services/redemptionLedger.ts].  An insertion waits for its predecessor in
    the queue and then runs without a further await, so it is one atomic step.
    The array and the map share entry objects: an entry is stored once, in the
    array, and looked up by its identifier.  SHA-256, [toISOString] and UUIDs are parameters. *)
From stdpp Require Import base list strings pretty relations.
From Stdlib Require Import ZArith Lia.
From S2P Require Import Prelude HashChain Domain.
Local Open Scope Z_scope.

Record RedemptionEntry : Type := {
  rd_id : string;
  rd_redemption_id : string;
  rd_token_id : string;
  rd_redeemer_id : string;
  rd_entry_hash : string;
  rd_prev_hash : string;
  rd_metadata : option (list (string * Json));
  rd_created_at : Z
}.

Record InsertRedemptionInput : Type := {
  rd_in_redemption_id : string;
  rd_in_token_id : string;
  rd_in_redeemer_id : string;
  rd_in_metadata : option (list (string * Json))
}.

Inductive RedemptionError : Type :=
| DuplicateRedemptionError (redemptionId : string)
| EntryNotFound (redemptionId : string).

Definition has_redemption_id (id : string) (e : RedemptionEntry) : bool :=
  bool_decide (rd_redemption_id e = id).

Section Ledger.
Context (sha256 : string -> string) (toISOString : Z -> string).

Definition hash_input (redemptionId prevHash : string) (createdAt : Z) : string :=
  redemptionId +:+ "|" +:+ prevHash +:+ "|" +:+ toISOString createdAt.

Definition deriveEntryHash (redemptionId prevHash : string) (createdAt : Z) : string :=
  sha256 (hash_input redemptionId prevHash createdAt).

Definition row_input (e : RedemptionEntry) : string :=
  hash_input (rd_redemption_id e) (rd_prev_hash e) (rd_created_at e).

(** [chain]; [byRedemptionId] holds the same objects. *)
Definition ledger : Type := list RedemptionEntry.

Definition findByRedemptionId (redemptionId : string) (l : ledger) : option RedemptionEntry :=
  find_first (has_redemption_id redemptionId) l.

Definition insert (input : InsertRedemptionInput) (uuid : string) (now : Z)
    : M ledger RedemptionError RedemptionEntry :=
  chain ← get;
  _ ← guard (bool_decide (is_Some (findByRedemptionId (rd_in_redemption_id input) chain)))
        (DuplicateRedemptionError (rd_in_redemption_id input));
  let prevHash := tail_from rd_entry_hash "" chain in
  let entry := {| rd_id := uuid; rd_redemption_id := rd_in_redemption_id input;
                  rd_token_id := rd_in_token_id input; rd_redeemer_id := rd_in_redeemer_id input;
                  rd_entry_hash := deriveEntryHash (rd_in_redemption_id input) prevHash now;
                  rd_prev_hash := prevHash; rd_metadata := rd_in_metadata input; rd_created_at := now |} in
  _ ← put (chain ++ [entry]);
  mret entry.

Definition verifyChain (entries : ledger) : VerificationResult :=
  HashChain.verifyChain sha256 rd_prev_hash rd_entry_hash row_input entries.

Definition with_entry_hash (h : string) (e : RedemptionEntry) : RedemptionEntry :=
  {| rd_id := rd_id e; rd_redemption_id := rd_redemption_id e; rd_token_id := rd_token_id e;
     rd_redeemer_id := rd_redeemer_id e; rd_entry_hash := h; rd_prev_hash := rd_prev_hash e;
     rd_metadata := rd_metadata e; rd_created_at := rd_created_at e |}.

Definition with_prev_hash (h : string) (e : RedemptionEntry) : RedemptionEntry :=
  {| rd_id := rd_id e; rd_redemption_id := rd_redemption_id e; rd_token_id := rd_token_id e;
     rd_redeemer_id := rd_redeemer_id e; rd_entry_hash := rd_entry_hash e; rd_prev_hash := h;
     rd_metadata := rd_metadata e; rd_created_at := rd_created_at e |}.

(** Overwrite the hash of an entry, and the link of the next one to it. *)
Fixpoint tamper (redemptionId fakeHash : string) (l : ledger) : ledger :=
  match l with
  | [] => []
  | e :: l' =>
      if has_redemption_id redemptionId e then
        with_entry_hash fakeHash e ::
        match l' with [] => [] | n :: l'' => with_prev_hash fakeHash n :: l'' end
      else e :: tamper redemptionId fakeHash l'
  end.

Definition _tamperEntryHash (redemptionId fakeHash : string) : M ledger RedemptionError unit :=
  chain ← get;
  _ ← of_option (findByRedemptionId redemptionId chain) (EntryNotFound redemptionId);
  put (tamper redemptionId fakeHash chain).

Fixpoint remove_first (redemptionId : string) (l : ledger) : ledger :=
  match l with
  | [] => []
  | e :: l' => if has_redemption_id redemptionId e then l' else e :: remove_first redemptionId l'
  end.

Definition _deleteEntry (redemptionId : string) : M ledger RedemptionError unit :=
  modify (remove_first redemptionId).

Definition size (l : ledger) : nat := length l.
Definition listAll (l : ledger) : list RedemptionEntry := l.
Definition clear : M ledger RedemptionError unit := put [].

(** ** Exactly once, in an intact chain *)

Abbreviation intact := (chain_ok sha256 rd_prev_hash rd_entry_hash row_input "").

Definition insert_step (l l' : ledger) : Prop :=
  exists input uuid now, l' = snd (insert input uuid now l).

Lemma insert_cases input uuid now l :
  match findByRedemptionId (rd_in_redemption_id input) l with
  | Some _ => insert input uuid now l = (Err (DuplicateRedemptionError (rd_in_redemption_id input)), l)
  | None => exists e, insert input uuid now l = (Ok e, l ++ [e]) /\
      rd_redemption_id e = rd_in_redemption_id input /\ rd_token_id e = rd_in_token_id input /\
      rd_redeemer_id e = rd_in_redeemer_id input /\
      rd_prev_hash e = tail_from rd_entry_hash "" l /\ rd_entry_hash e = derived sha256 row_input e
  end.
Proof.
  unfold insert, mbind, M_bind, get, put. simpl.
  destruct (findByRedemptionId _ l); simpl; [done|]. eexists. split; [done|]. by split_and!.
Qed.

Record proper (l : ledger) : Prop := {
  proper_chain : intact l;
  proper_once : NoDup (map rd_redemption_id l)
}.

Lemma insert_proper l l' : insert_step l l' -> proper l -> proper l' /\ l `prefix_of` l'.
Proof.
  intros (input & uuid & now & ->) [Hc Hn]. pose proof (insert_cases input uuid now l) as Hi.
  destruct (findByRedemptionId _ l) eqn:Hf; [rewrite Hi; by split|].
  destruct Hi as (e & -> & Hid & _ & _ & Hp & Hh). simpl. split; [constructor|by eexists].
  - by apply chain_ok_snoc.
  - rewrite map_app. apply NoDup_app. split; [done|]. split; [|apply NoDup_singleton].
    intros i (x & -> & Hx)%list_elem_of_fmap Hi. apply list_elem_of_singleton in Hi.
    unfold findByRedemptionId in Hf. rewrite find_first_None in Hf. specialize (Hf x Hx).
    unfold has_redemption_id in Hf. apply bool_decide_eq_false in Hf. congruence.
Qed.

(** Every redemption is recorded at most once, in order, in a chain that
    verifies: after any sequence of insertions, earlier entries are a prefix of
    the ledger, identifiers are distinct, the chain verifies, and a further
    insertion is refused exactly when its identifier is recorded. *)
Theorem redemption_exactly_once l l' :
  rtc insert_step l l' -> proper l ->
  l `prefix_of` l' /\ NoDup (map rd_redemption_id (listAll l')) /\ vr_valid (verifyChain l') = true /\
  forall input uuid now,
    is_ok (fst (insert input uuid now l')) = false <-> rd_in_redemption_id input ∈ map rd_redemption_id l'.
Proof.
  intros Hr Hl. assert (proper l' /\ l `prefix_of` l') as [Hp Hpre].
  { induction Hr as [l|l l1 l' Hs _ IH]; [done|]. destruct (insert_proper l l1 Hs Hl) as [H1 P1].
    destruct (IH H1) as [H2 P2]. split; [done|by etrans]. }
  split; [done|]. split; [apply Hp|]. split; [by apply verifyChain_valid, Hp|]. intros input uuid now.
  pose proof (insert_cases input uuid now l') as Hi. unfold findByRedemptionId in Hi.
  destruct (find_first _ l') as [e|] eqn:Hf.
  - rewrite Hi. simpl. split; [|done]. intros _. apply find_first_Some in Hf as [Hid He].
    unfold has_redemption_id in Hid. apply bool_decide_eq_true in Hid as <-. by apply list_elem_of_fmap_2.
  - destruct Hi as (e & -> & _). simpl. split; [done|]. intros (x & Hid & Hx)%list_elem_of_fmap.
    rewrite find_first_None in Hf. specialize (Hf x Hx). unfold has_redemption_id in Hf.
    by apply bool_decide_eq_false in Hf.
Qed.

(** ** What the verifier detects *)

(** The first entry of an identifier splits the ledger. *)
Lemma find_split id l e :
  findByRedemptionId id l = Some e ->
  exists l1 l2, l = l1 ++ e :: l2 /\ remove_first id l = l1 ++ l2 /\
    forall fake, exists l2', tamper id fake l = l1 ++ with_entry_hash fake e :: l2'.
Proof.
  unfold findByRedemptionId. induction l as [|x l IH]; simpl; [done|].
  destruct (has_redemption_id id x) eqn:Hx.
  - intros [= ->]. exists [], l. split_and!; try done. intros fake. by eexists.
  - intros (l1 & l2 & -> & -> & Ht)%IH. exists (x :: l1), l2. split_and!; try done.
    intros fake. destruct (Ht fake) as [l2' ->]. by exists l2'.
Qed.

(** Fields the hash does not cover. *)
Definition reassign (token redeemer : string) (e : RedemptionEntry) : RedemptionEntry :=
  {| rd_id := rd_id e; rd_redemption_id := rd_redemption_id e; rd_token_id := token;
     rd_redeemer_id := redeemer; rd_entry_hash := rd_entry_hash e; rd_prev_hash := rd_prev_hash e;
     rd_metadata := rd_metadata e; rd_created_at := rd_created_at e |}.

Lemma overwrite_detected l1 l2 l2' e fake :
  intact (l1 ++ e :: l2) -> rd_entry_hash e <> fake -> ~ intact (l1 ++ with_entry_hash fake e :: l2').
Proof.
  intros (_ & _ & Hh & _)%chain_ok_app Hne (_ & _ & Hh' & _)%chain_ok_app. apply Hne.
  rewrite Hh. symmetry. exact Hh'.
Qed.

Lemma removal_detected l1 l2 e :
  intact (l1 ++ e :: l2) -> l2 <> [] -> NoDup (""%string :: map rd_entry_hash (l1 ++ e :: l2)) ->
  ~ intact (l1 ++ l2).
Proof.
  intros (_ & _ & _ & Hc)%chain_ok_app Hne Hd (_ & Hc')%chain_ok_app.
  destruct l2 as [|y l2]; [done|]. destruct Hc as [Hy _], Hc' as [Hy' _].
  rewrite map_app in Hd. simpl in Hd. rewrite app_comm_cons in Hd.
  apply NoDup_app in Hd as (_ & Hd & _). apply (Hd (rd_entry_hash e)); [|by constructor].
  rewrite <- Hy, Hy'. unfold tail_from. destruct (last l1) as [z|] eqn:Hz; [|by constructor].
  constructor. apply list_elem_of_fmap_2. by apply last_Some_elem_of.
Qed.

(** What the verifier detects and what it does not: in an intact chain with
    distinct hashes, an overwritten hash and the removal of an entry other than
    the last are detected, but cutting entries off the end and changing who
    redeemed which token are not. *)
Theorem redemption_tampering l id e :
  intact l -> NoDup (""%string :: map rd_entry_hash l) -> findByRedemptionId id l = Some e ->
  (forall fake, fake <> rd_entry_hash e ->
     exists l', _tamperEntryHash id fake l = (Ok tt, l') /\ vr_valid (verifyChain l') = false) /\
  (last l <> Some e ->
     exists l', _deleteEntry id l = (Ok tt, l') /\ vr_valid (verifyChain l') = false) /\
  (forall n, vr_valid (verifyChain (take n l)) = true) /\
  (forall n x token redeemer, l !! n = Some x ->
     vr_valid (verifyChain (<[n := reassign token redeemer x]> l)) = true).
Proof.
  intros Hc Hd Hf. destruct (find_split id l e Hf) as (l1 & l2 & Hl & Hrm & Ht). split_and!.
  - intros fake Hne. unfold _tamperEntryHash, mbind, M_bind, get, of_option, put. simpl. rewrite Hf.
    eexists. split; [done|]. apply not_true_is_false. intros Hv%verifyChain_valid.
    destruct (Ht fake) as [l2' Ht']. rewrite Ht' in Hv. rewrite Hl in Hc.
    by apply (overwrite_detected l1 l2 l2' e fake).
  - intros Hlast. eexists. split; [done|]. apply not_true_is_false. intros Hv%verifyChain_valid.
    rewrite Hrm in Hv. rewrite Hl in Hc, Hd, Hlast. apply (removal_detected l1 l2 e); try done.
    intros ->. apply Hlast. by rewrite last_snoc.
  - intros n. apply verifyChain_valid. rewrite <- (take_drop n l) in Hc. by apply chain_ok_app in Hc as [? _].
  - intros n x token redeemer Hn. apply verifyChain_valid. by apply chain_ok_insert with x.
Qed.

End Ledger.

(** ** A concrete ledger *)

Definition w_tag (s : string) : string := ("h" +:+ s)%string.

Definition w_input (id : string) : InsertRedemptionInput :=
  {| rd_in_redemption_id := id; rd_in_token_id := "t"; rd_in_redeemer_id := "r"; rd_in_metadata := None |}.

Definition w_l1 : ledger := Eval vm_compute in snd (insert w_tag pretty (w_input "a") "u1" 1 []).
Definition w_l2 : ledger := Eval vm_compute in snd (insert w_tag pretty (w_input "b") "u2" 2 w_l1).

Lemma w_steps : rtc (insert_step w_tag pretty) [] w_l2.
Proof.
  eapply rtc_l; [exists (w_input "a"), "u1"%string, 1; reflexivity|].
  eapply rtc_l; [exists (w_input "b"), "u2"%string, 2; vm_compute; reflexivity|]. apply rtc_refl.
Qed.

Lemma redemption_exactly_once_witness :
  [] `prefix_of` w_l2 /\ NoDup (map rd_redemption_id (listAll w_l2)) /\
  vr_valid (verifyChain w_tag pretty w_l2) = true /\
  forall input uuid now,
    is_ok (fst (insert w_tag pretty input uuid now w_l2)) = false <->
    rd_in_redemption_id input ∈ map rd_redemption_id w_l2.
Proof.
  apply (redemption_exactly_once w_tag pretty [] w_l2); [apply w_steps|]. constructor; [exact I|constructor].
Defined.

Lemma redemption_tampering_witness :
  exists l', _deleteEntry "a" w_l2 = (Ok tt, l') /\ vr_valid (verifyChain w_tag pretty l') = false.
Proof.
  eapply (redemption_tampering w_tag pretty w_l2 "a").
  - vm_compute. repeat split; reflexivity.
  - apply (bool_decide_unpack _). vm_compute. reflexivity.
  - vm_compute. reflexivity.
  - vm_compute. discriminate.
Defined.
