(* ===== verification/Idempotency.v ===== *)
(** * Idempotency: replay-safe requests

    [idempotencyMiddleware] of [middleware/idempotency.ts] with its storage key
    ([middleware/idempotencyStorageKey.ts]), its request hash ([Canonical.v]) and
    the key validation of [middleware/headerValidation.ts].  A request is three
    sections: the lookup in Redis, the atomic acquisition of the key ([SET NX])
    that starts the handler, and the handler's [res.json], which stores the
    response.  Redis may fail at each of them, with the write applied or not;
    entries may expire at any time.  The payload codec (JSON, or AES-GCM over
    JSON) is an interface with the promise that what was written can be read. *)
From stdpp Require Import base list strings gmap relations pretty.
From Stdlib Require Import ZArith Lia Ascii.
From S2P Require Import Prelude JsNumber Async Domain Canonical.
Local Open Scope string_scope.

(** ** Requests *)

(** [req.route.path] is a pattern or a list of patterns. *)
Inductive RoutePath : Type := RoutePattern (p : string) | RoutePatterns (l : list string).

Record JwtUser : Type := { ju_sub : option string; ju_id : option string }.

Record Request : Type := {
  rq_method : string;
  rq_originalUrl : string;
  rq_baseUrl : string;
  rq_route : option RoutePath;
  rq_body : Json;
  rq_key : option string;
  rq_auth_userId : option string;
  rq_user : option JwtUser;
  rq_apiKeyId : option string;
  rq_ip : option string;
  rq_remoteAddress : option string
}.

(** [a || b] on optional strings. *)
Definition truthy_str (o : option string) : option string :=
  match o with Some s => if str_truthy s then Some s else None | None => None end.

Definition or_str (a b : option string) : option string :=
  match truthy_str a with Some s => Some s | None => truthy_str b end.

Section Keys.
Context (sha256 : string -> string).

Definition deriveIdempotencyPrincipal (r : Request) : string :=
  match truthy_str (rq_auth_userId r) with
  | Some u => "user:" +:+ u
  | None =>
      match u ← rq_user r; or_str (ju_sub u) (ju_id u) with
      | Some u => "user:" +:+ u
      | None =>
          match truthy_str (rq_apiKeyId r) with
          | Some k => "apiKey:" +:+ k
          | None => "ip:" +:+ sha256 (default "anonymous" (or_str (rq_ip r) (rq_remoteAddress r)))
          end
      end
  end.

Fixpoint join_bar (l : list string) : string :=
  match l with
  | [] => ""
  | [x] => x
  | x :: l' => x +:+ "|" +:+ join_bar l'
  end.

Definition readMatchedRoutePattern (r : Request) : option string :=
  match rq_route r with
  | Some (RoutePattern p) => Some p
  | Some (RoutePatterns l) => Some (join_bar l)
  | None => None
  end.

(** [replace(/\/+$/, "")]. *)
Fixpoint strip_slashes (s : string) : string :=
  match s with
  | EmptyString => ""
  | String c s' =>
      let t := strip_slashes s' in
      if Ascii.eqb c "/" && is_empty_string t then "" else String c t
  end.

Definition normalizeRoutePath (path : string) : string :=
  let stripped := strip_slashes path in if is_empty_string stripped then "/" else stripped.

(** [split("?")[0]]. *)
Fixpoint before_query (s : string) : string :=
  match s with
  | EmptyString => ""
  | String c s' => if Ascii.eqb c "?" then "" else String c (before_query s')
  end.

Definition deriveIdempotencyRoute (r : Request) : string :=
  normalizeRoutePath
    match truthy_str (readMatchedRoutePattern r) with
    | Some p => rq_baseUrl r +:+ p
    | None => before_query (rq_originalUrl r)
    end.

Definition namespacedParts (r : Request) (key : string) : list string :=
  [deriveIdempotencyPrincipal r; rq_method r; deriveIdempotencyRoute r; key].

(** [JSON.stringify] of an array of strings. *)
Definition parts_text (l : list string) : string := "[" +:+ commas (map json_quote l) +:+ "]".

Definition buildIdempotencyStorageKey (r : Request) (key : string) : string :=
  "idempotency:req:" +:+ sha256 (parts_text (namespacedParts r key)).

End Keys.

(** ** Key validation *)

Definition IDEMPOTENCY_KEY_MAX_LENGTH : nat := 255.

(** [[a-zA-Z0-9\-_.]]. *)
Definition key_char (c : ascii) : bool :=
  let n := nat_of_ascii c in
  ((48 <=? n) && (n <=? 57))%nat || ((65 <=? n) && (n <=? 90))%nat || ((97 <=? n) && (n <=? 122))%nat ||
  (n =? 45)%nat || (n =? 95)%nat || (n =? 46)%nat.

Fixpoint all_chars (p : ascii -> bool) (s : string) : bool :=
  match s with EmptyString => true | String c s' => p c && all_chars p s' end.

Definition IDEMPOTENCY_KEY_PATTERN (s : string) : bool :=
  all_chars key_char s && (1 <=? String.length s)%nat && (String.length s <=? 255)%nat.

Inductive KeyFault : Type := KeyMissing | KeyEmpty | KeyTooLong | KeyBadCharacters.

Definition validateIdempotencyKey (value : option string) : result KeyFault unit :=
  match value with
  | None => Err KeyMissing
  | Some v =>
      if (String.length v =? 0)%nat then Err KeyEmpty
      else if (IDEMPOTENCY_KEY_MAX_LENGTH <? String.length v)%nat then Err KeyTooLong
      else if negb (IDEMPOTENCY_KEY_PATTERN v) then Err KeyBadCharacters
      else Ok tt
  end.

(** ** Stored states and their codec *)

(** A response: status code and JSON text. *)
Record Response : Type := { rs_status : Z; rs_body : string }.

Inductive IdempotencyState : Type :=
| processing (requestHash : string)
| completed (requestHash : string) (r : Response).

#[export] Instance Response_eq_dec : EqDecision Response.
Proof. solve_decision. Defined.
#[export] Instance IdempotencyState_eq_dec : EqDecision IdempotencyState.
Proof. solve_decision. Defined.

(** The codec draws a nonce when it encrypts. *)
Class PayloadCodec := {
  serialize : string -> IdempotencyState -> string;
  deserialize : string -> option IdempotencyState
}.

Class CodecLaws `{PayloadCodec} := {
  codec_roundtrip nonce st : deserialize (serialize nonce st) = Some st;
  codec_nonempty nonce st : serialize nonce st <> ""
}.

(** ** The middleware *)

Inductive Outcome : Type :=
| PassedThrough
| DependencyUnavailable
| KeyInvalid (f : KeyFault)
| InProgress
| KeyMismatch
| Replayed (r : Response)
| Executed (r : Response)
| ForwardedError.

Inductive IdemEv : Type -> Type :=
| LookupEv (key hash : string) : IdemEv (option Outcome)
| AcquireEv (key hash : string) : IdemEv (Outcome + nat)
| RespondEv (ticket : nat) : IdemEv Outcome
| ExpireEv (key : string) : IdemEv unit.

Abbreviation IProg := (Prog IdemEv unit).

Section Middleware.
Context (sha256 : string -> string) (number_toString : num -> string).
Context `{CodecLaws}.

Definition incomingHash (r : Request) : string :=
  generateRequestHash number_toString sha256 (rq_method r) (rq_originalUrl r) (rq_body r).

(** [redis]: [getRedisClient()] returned a client. *)
Definition idempotencyMiddleware (redis : bool) (r : Request) : IProg Outcome :=
  match truthy_str (rq_key r) with
  | None => mret PassedThrough
  | Some key =>
      if negb redis then mret DependencyUnavailable
      else match validateIdempotencyKey (Some key) with
           | Err f => mret (KeyInvalid f)
           | Ok _ =>
               let storageKey := buildIdempotencyStorageKey sha256 r key in
               o ← perform (LookupEv storageKey (incomingHash r));
               match o with
               | Some out => mret out
               | None =>
                   a ← perform (AcquireEv storageKey (incomingHash r));
                   match a with
                   | inl out => mret out
                   | inr ticket => perform (RespondEv ticket)
                   end
               end
           end
  end.

(** ** The sections *)

(** A started handler: what its [res.json] has captured. *)
Record Exec : Type := { ex_key : string; ex_hash : string }.

(** The keys in Redis and the history: handlers started, responses given by
    handlers, responses replayed, entries expired. *)
Record World : Type := {
  wd_redis : gmap string string;
  wd_execs : list Exec;
  wd_answers : list (string * string * Response);
  wd_replays : list (string * string * Response);
  wd_expired : list string
}.

(** The environment: whether the command's promise resolves, whether the write
    was applied, the codec's nonce, and the handler's response. *)
Record Answer : Type := { an_ok : bool; an_applied : bool; an_nonce : string; an_response : Response }.

Definition set_redis (m : gmap string string) (w : World) : World :=
  {| wd_redis := m; wd_execs := wd_execs w; wd_answers := wd_answers w; wd_replays := wd_replays w; wd_expired := wd_expired w |}.

Definition log_replay (k h : string) (r : Response) (w : World) : World :=
  {| wd_redis := wd_redis w; wd_execs := wd_execs w; wd_answers := wd_answers w; wd_replays := wd_replays w ++ [(k, h, r)];
     wd_expired := wd_expired w |}.

Definition lookup_section (a : Answer) (k h : string) (w : World) : option Outcome * World :=
  if negb (an_ok a) then (Some ForwardedError, w)
  else match truthy_str (wd_redis w !! k) with
       | None => (None, w)
       | Some data =>
           match deserialize data with
           | None => (Some ForwardedError, w)
           | Some (processing _) => (Some InProgress, w)
           | Some (completed h' r) =>
               if negb (bool_decide (h' = h)) then (Some KeyMismatch, w)
               else (Some (Replayed r), log_replay k h r w)
           end
       end.

Definition acquire_section (a : Answer) (k h : string) (w : World) : (Outcome + nat) * World :=
  let stored := set_redis (<[k := serialize (an_nonce a) (processing h)]> (wd_redis w)) w in
  match wd_redis w !! k with
  | Some _ => (inl (if an_ok a then InProgress else ForwardedError), w)
  | None =>
      if an_ok a then
        (inr (length (wd_execs w)),
         {| wd_redis := wd_redis stored;
            wd_execs := wd_execs w ++ [{| ex_key := k; ex_hash := h |}]; wd_answers := wd_answers w;
            wd_replays := wd_replays w; wd_expired := wd_expired w |})
      else (inl ForwardedError, if an_applied a then stored else w)
  end.

(** A failed write of the response is logged and otherwise ignored. *)
Definition respond_section (a : Answer) (ticket : nat) (w : World) : Outcome * World :=
  match wd_execs w !! ticket with
  | None => (ForwardedError, w)
  | Some e =>
      let r := an_response a in
      (Executed r,
       {| wd_redis := if an_applied a
                      then <[ex_key e := serialize (an_nonce a) (completed (ex_hash e) r)]> (wd_redis w)
                      else wd_redis w;
          wd_execs := wd_execs w; wd_answers := wd_answers w ++ [(ex_key e, ex_hash e, r)];
          wd_replays := wd_replays w; wd_expired := wd_expired w |})
  end.

Definition expire_section (k : string) (w : World) : unit * World :=
  (tt, {| wd_redis := delete k (wd_redis w); wd_execs := wd_execs w; wd_answers := wd_answers w; wd_replays := wd_replays w;
          wd_expired := wd_expired w ++ [k] |}).

Definition do_idem (a : Answer) (X : Type) (ev : IdemEv X) (w : World) : X * World :=
  match ev in IdemEv X return X * World with
  | LookupEv k h => lookup_section a k h w
  | AcquireEv k h => acquire_section a k h w
  | RespondEv t => respond_section a t w
  | ExpireEv k => expire_section k w
  end.

Definition exec_idem (X : Type) (ev : IdemEv X) (w : World) (x : X) (w' : World) : Prop :=
  exists a, do_idem a X ev w = (x, w').

(** Requests, and the expiry of entries. *)
Inductive idem_request : IProg unit -> Prop :=
| req_http redis r : idem_request (forget (idempotencyMiddleware redis r))
| req_expire k : idem_request (perform (ExpireEv k)).

Definition idem_init : Config IdemEv unit World :=
  {| cf_state := {| wd_redis := ∅; wd_execs := []; wd_answers := []; wd_replays := []; wd_expired := [] |}; cf_pool := [] |}.

(** ** Invariant *)

Definition starts (k : string) (w : World) : nat := length (filter (fun e => ex_key e = k) (wd_execs w)).
Definition expiries (k : string) (w : World) : nat := length (filter (fun k' => k' = k) (wd_expired w)).

Record idem_inv (w : World) : Prop := {
  inv_starts k : (starts k w <= expiries k w + match wd_redis w !! k with Some _ => 1 | None => 0 end)%nat;
  inv_stored k data : wd_redis w !! k = Some data -> exists st, deserialize data = Some st /\ data <> "" /\
    forall h r, st = completed h r -> (k, h, r) ∈ wd_answers w;
  inv_answers k h r : (k, h, r) ∈ wd_answers w -> {| ex_key := k; ex_hash := h |} ∈ wd_execs w;
  inv_replays x : x ∈ wd_replays w -> x ∈ wd_answers w
}.

Lemma truthy_str_Some o s : truthy_str o = Some s <-> o = Some s /\ s <> "".
Proof.
  unfold truthy_str. destruct o as [t|]; [|naive_solver]. destruct t; simpl; naive_solver.
Qed.

Lemma lookup_inv a k h w : idem_inv w -> idem_inv (snd (lookup_section a k h w)).
Proof.
  intros Hi. unfold lookup_section. destruct (an_ok a); [|done]. cbn [negb].
  destruct (truthy_str (wd_redis w !! k)) as [data|] eqn:Ed; [|done].
  apply truthy_str_Some in Ed as [Ed _]. destruct (inv_stored w Hi k data Ed) as (st & Hd & _ & Hst).
  rewrite Hd. destruct st as [h'|h' r]; [done|]. case_bool_decide as Hh; [subst h'|done]. simpl.
  destruct Hi as [I1 I2 I3 I4]. split; try done. simpl. intros x [Hx| ->%list_elem_of_singleton]%elem_of_app; [by apply I4|].
  by apply Hst.
Qed.

Lemma store_inv n k h w : idem_inv w -> idem_inv (set_redis (<[k := serialize n (processing h)]> (wd_redis w)) w).
Proof.
  intros [I1 I2 I3 I4]. split; simpl; [..|done|done].
  - intros k'. unfold starts, expiries. simpl. specialize (I1 k'). unfold starts, expiries in I1.
    destruct (decide (k' = k)) as [->|Hne]; [rewrite lookup_insert_eq|rewrite lookup_insert_ne by done; done].
    by destruct (wd_redis w !! k); [|lia].
  - intros k' data. destruct (decide (k' = k)) as [->|Hne]; [rewrite lookup_insert_eq|rewrite lookup_insert_ne by done; apply I2].
    intros [= <-]. exists (processing h). split_and!; [apply codec_roundtrip|apply codec_nonempty|done].
Qed.

Lemma acquire_inv a k h w : idem_inv w -> idem_inv (snd (acquire_section a k h w)).
Proof.
  intros Hi. unfold acquire_section. destruct (wd_redis w !! k) as [d|] eqn:Ek; [done|].
  pose proof (store_inv (an_nonce a) k h w Hi) as Hs. destruct (an_ok a); [|simpl; by destruct (an_applied a)].
  destruct Hs as [I1 I2 I3 I4]. split; simpl in *; try done.
  - intros k'. unfold starts in *. simpl in *. rewrite filter_app, length_app, filter_cons. specialize (I1 k').
    unfold expiries in *. simpl in *. case_decide as Hk; simpl in *; [subst k'|lia].
    destruct Hi as [I _ _ _]. specialize (I k). unfold starts, expiries in I. rewrite Ek in I.
    rewrite lookup_insert_eq in *. lia.
  - intros k' h' r Hin. apply elem_of_app. left. by apply (I3 k' h' r).
Qed.

Lemma respond_inv a t w : idem_inv w -> idem_inv (snd (respond_section a t w)).
Proof.
  intros [I1 I2 I3 I4]. unfold respond_section. destruct (wd_execs w !! t) as [e|] eqn:Et; [|done].
  split; simpl.
  - intros k. specialize (I1 k). unfold starts, expiries in *. simpl. destruct (an_applied a); [|done].
    destruct (decide (k = ex_key e)) as [->|Hne]; [rewrite lookup_insert_eq|by rewrite lookup_insert_ne].
    destruct (wd_redis w !! ex_key e); [done|lia].
  - intros k data Hk. assert ((exists h r, k = ex_key e /\ data = serialize (an_nonce a) (completed h r) /\ h = ex_hash e /\
      r = an_response a) \/ wd_redis w !! k = Some data) as [(h & r & -> & -> & -> & ->)|Hold].
    { destruct (an_applied a); [|by right]. destruct (decide (k = ex_key e)) as [->|Hne].
      - rewrite lookup_insert_eq in Hk. left. injection Hk as <-. eauto 10.
      - rewrite lookup_insert_ne in Hk by done. by right. }
    + eexists. split_and!; [apply codec_roundtrip|apply codec_nonempty|]. intros h r [= <- <-].
      apply elem_of_app. right. by apply list_elem_of_singleton.
    + destruct (I2 k data Hold) as (st & Hd & Hne & Hst). exists st. split_and!; try done.
      intros h r ->. apply elem_of_app. left. by apply Hst.
  - intros k h r [Hin|Heq%list_elem_of_singleton]%elem_of_app; [by apply (I3 k h r)|].
    injection Heq as -> -> _. apply list_elem_of_lookup_2 in Et. by destruct e.
  - intros x Hx. apply elem_of_app. left. by apply I4.
Qed.

Lemma expire_inv k w : idem_inv w -> idem_inv (snd (expire_section k w)).
Proof.
  intros [I1 I2 I3 I4]. split; simpl; try done.
  - intros k'. specialize (I1 k'). unfold starts, expiries in *. simpl. rewrite filter_app, length_app, filter_cons.
    case_decide as Hk; [subst k'; rewrite lookup_delete_eq|rewrite lookup_delete_ne by done]; simpl;
      destruct (wd_redis w !! _); lia.
  - intros k' data Hk. apply lookup_delete_Some in Hk as [_ Hk]. by apply I2.
Qed.

Lemma idem_event_inv X (ev : IdemEv X) w x w' : exec_idem X ev w x w' -> idem_inv w -> idem_inv w'.
Proof.
  intros [a He] Hi. replace w' with (snd (do_idem a X ev w)) by (by rewrite He).
  destruct ev; simpl; [by apply lookup_inv|by apply acquire_inv|by apply respond_inv|by apply expire_inv].
Qed.

Definition keeps_inv (w w' : World) : Prop := idem_inv w -> idem_inv w'.

#[local] Instance keeps_inv_preorder : PreOrder keeps_inv.
Proof. split; [by intros w Hi|]. intros w1 w2 w3 H12 H23 Hi. by apply H23, H12. Qed.

Lemma idem_init_inv : idem_inv (cf_state idem_init).
Proof.
  split; simpl.
  - intros k. rewrite lookup_empty. unfold starts, expiries. simpl. lia.
  - intros k data. by rewrite lookup_empty.
  - by intros k h r ?%elem_of_nil.
  - by intros x ?%elem_of_nil.
Qed.

Lemma all_idem_events A (p : IProg A) : all_events (fun _ _ => True) p.
Proof. induction p; simpl; auto. Qed.

Lemma reachable_inv c : rtc (step exec_idem idem_request) idem_init c -> idem_inv (cf_state c).
Proof.
  intros Hr. assert (keeps_inv (cf_state idem_init) (cf_state c)) as Hk; [|apply Hk, idem_init_inv].
  apply (steps_preserve exec_idem idem_request (fun _ _ => True) keeps_inv idem_init c);
    [|intros; apply all_idem_events|done|constructor].
  intros X ev s x s' _ He Hi. by apply (idem_event_inv X ev s x s').
Qed.

(** (C2) Idempotent requests run once.  However requests, failures of Redis and
    expiries interleave, the handler behind a storage key is started at most once
    more than the key's entry has expired; every replayed response was given by a
    handler that was started with the same storage key and the same request
    hash. *)
Theorem idempotent_execution c :
  rtc (step exec_idem idem_request) idem_init c ->
  (forall k, starts k (cf_state c) <= 1 + expiries k (cf_state c))%nat /\
  (forall k h r, (k, h, r) ∈ wd_replays (cf_state c) ->
     (k, h, r) ∈ wd_answers (cf_state c) /\ {| ex_key := k; ex_hash := h |} ∈ wd_execs (cf_state c)).
Proof.
  intros Hr. destruct (reachable_inv c Hr) as [I1 _ I3 I4]. split.
  - intros k. specialize (I1 k). destruct (wd_redis (cf_state c) !! k); lia.
  - intros k h r Hin%I4. split; [done|]. by apply (I3 k h r).
Qed.

(** ** One request after the other *)

Lemma json_truthy_equiv j j' : json_equiv j j' -> json_truthy j = json_truthy j'.
Proof.
  induction 1 as [j|j j1 j2 Hs _ IH]; [done|]. rewrite <- IH. by destruct Hs as [[]|[]].
Qed.

#[local] Instance request_text_proper :
  Proper (eq ==> eq ==> json_equiv ==> eq) (request_text number_toString).
Proof.
  intros m ? <- u ? <- j j' Hj. unfold request_text. by rewrite (json_truthy_equiv j j' Hj), Hj.
Qed.

Lemma first_request a r key w :
  rq_key r = Some key -> validateIdempotencyKey (Some key) = Ok tt ->
  an_ok a = true -> an_applied a = true ->
  wd_redis w !! buildIdempotencyStorageKey sha256 r key = None ->
  exists w1, run (do_idem a) (idempotencyMiddleware true r) w = (Ok (Executed (an_response a)), w1) /\
    wd_redis w1 !! buildIdempotencyStorageKey sha256 r key =
      Some (serialize (an_nonce a) (completed (incomingHash r) (an_response a))).
Proof.
  intros Hk Hv Hok Hap Hn. unfold idempotencyMiddleware. rewrite Hk.
  assert (truthy_str (Some key) = Some key) as -> by (apply truthy_str_Some; split; [done|]; by intros ->).
  rewrite Hv. cbn [negb]. set (K := buildIdempotencyStorageKey sha256 r key) in *.
  rewrite run_bind, run_perform. cbn [do_idem fst snd]. unfold lookup_section. rewrite Hok, Hn. cbn [negb truthy_str fst snd].
  rewrite run_bind, run_perform. cbn [do_idem fst snd]. unfold acquire_section. rewrite Hok, Hn. cbn [fst snd].
  rewrite run_perform. cbn [do_idem]. unfold respond_section. cbn [wd_execs].
  rewrite lookup_app_r, Nat.sub_diag by done. simpl. rewrite Hap. eexists. split; [done|]. simpl. by rewrite lookup_insert_eq.
Qed.

Lemma second_request a r key w h resp n :
  rq_key r = Some key -> validateIdempotencyKey (Some key) = Ok tt -> an_ok a = true ->
  wd_redis w !! buildIdempotencyStorageKey sha256 r key = Some (serialize n (completed h resp)) ->
  exists w2, wd_execs w2 = wd_execs w /\ wd_redis w2 = wd_redis w /\
    run (do_idem a) (idempotencyMiddleware true r) w =
    (Ok (if bool_decide (h = incomingHash r) then Replayed resp else KeyMismatch), w2).
Proof.
  intros Hk Hv Hok Hs. unfold idempotencyMiddleware. rewrite Hk.
  assert (truthy_str (Some key) = Some key) as -> by (apply truthy_str_Some; split; [done|]; by intros ->).
  rewrite Hv. cbn [negb]. rewrite run_bind, run_perform. cbn [do_idem fst snd]. unfold lookup_section. rewrite Hok, Hs.
  assert (truthy_str (Some (serialize n (completed h resp))) = Some (serialize n (completed h resp))) as ->.
  { apply truthy_str_Some. split; [done|]. apply codec_nonempty. }
  rewrite codec_roundtrip. cbn [negb fst snd]. case_bool_decide; cbn [negb fst snd];
    [eexists (log_replay _ _ _ w)|exists w]; by split_and!.
Qed.

(** Replay: the first request with a key runs the handler and its response
    is stored; a later request with the same storage key does not run the
    handler.  It receives the stored response when method, URL and body are the
    same up to the order of fields in the body, at any depth; when what is hashed
    differs (and the hash has no collisions) it is rejected as a mismatch. *)
Theorem replay_correct a a2 r r2 key w :
  rq_key r = Some key -> rq_key r2 = Some key -> validateIdempotencyKey (Some key) = Ok tt ->
  an_ok a = true -> an_applied a = true -> an_ok a2 = true ->
  wd_redis w !! buildIdempotencyStorageKey sha256 r key = None ->
  buildIdempotencyStorageKey sha256 r2 key = buildIdempotencyStorageKey sha256 r key ->
  exists w1 out w2,
    run (do_idem a) (idempotencyMiddleware true r) w = (Ok (Executed (an_response a)), w1) /\
    run (do_idem a2) (idempotencyMiddleware true r2) w1 = (Ok out, w2) /\ wd_execs w2 = wd_execs w1 /\
    (rq_method r2 = rq_method r -> rq_originalUrl r2 = rq_originalUrl r -> json_equiv (rq_body r2) (rq_body r) ->
     out = Replayed (an_response a)) /\
    ((forall x y, sha256 x = sha256 y -> x = y) ->
     request_text number_toString (rq_method r2) (rq_originalUrl r2) (rq_body r2) <>
       request_text number_toString (rq_method r) (rq_originalUrl r) (rq_body r) ->
     out = KeyMismatch).
Proof.
  intros Hk Hk2 Hv Hok Hap Hok2 Hn Hsame.
  destruct (first_request a r key w Hk Hv Hok Hap Hn) as (w1 & Hrun1 & Hs). rewrite <- Hsame in Hs.
  destruct (second_request a2 r2 key w1 _ _ _ Hk2 Hv Hok2 Hs) as (w2 & He & _ & Hrun2).
  eexists w1, _, w2. split_and!; [done|exact Hrun2|done|..].
  - intros Hm Hu Hb. rewrite bool_decide_eq_true_2; [done|]. unfold incomingHash, generateRequestHash.
    by rewrite Hm, Hu, Hb.
  - intros Hinj Hne. rewrite bool_decide_eq_false_2; [done|]. intros Heq%Hinj. by apply Hne.
Qed.

End Middleware.

(** ** Storage keys *)

Lemma parts_text_inj a1 b1 c1 d1 a2 b2 c2 d2 :
  parts_text [a1; b1; c1; d1] = parts_text [a2; b2; c2; d2] -> a1 = a2 /\ b1 = b2 /\ c1 = c2 /\ d1 = d2.
Proof.
  unfold parts_text. cbn [map commas]. rewrite !str_app_assoc. intros Heq. apply (inj (String.append "[")) in Heq.
  do 3 (apply json_quote_prefix in Heq as [-> Heq]; apply (inj (String.append ",")) in Heq).
  by apply json_quote_prefix in Heq as [-> _].
Qed.

(** Storage keys keep callers, routes and keys apart: two requests share a
    storage key only if principal, method, matched route and [Idempotency-Key]
    are equal.  So two authenticated users share one only if they are the same
    user, and a user never shares one with an API key or with an anonymous
    caller. *)
Theorem storage_key_separates sha256 r1 r2 k1 k2 :
  (forall x y, sha256 x = sha256 y -> x = y) ->
  buildIdempotencyStorageKey sha256 r1 k1 = buildIdempotencyStorageKey sha256 r2 k2 ->
  deriveIdempotencyPrincipal sha256 r1 = deriveIdempotencyPrincipal sha256 r2 /\
  rq_method r1 = rq_method r2 /\ deriveIdempotencyRoute r1 = deriveIdempotencyRoute r2 /\ k1 = k2 /\
  forall u, truthy_str (rq_auth_userId r1) = Some u ->
    (forall v, truthy_str (rq_auth_userId r2) = Some v -> u = v) /\
    (rq_user r2 = None -> truthy_str (rq_auth_userId r2) = Some u).
Proof.
  intros Hinj Heq. unfold buildIdempotencyStorageKey in Heq. injection Heq as Heq. apply Hinj in Heq.
  apply parts_text_inj in Heq as (Hp & Hm & Hr & Hk). split_and!; try done. intros u Hu.
  unfold deriveIdempotencyPrincipal in Hp. rewrite Hu in Hp. split.
  - intros v Hv. rewrite Hv in Hp. by apply (inj (String.append "user:")) in Hp.
  - intros Hno. rewrite Hno in Hp. destruct (truthy_str (rq_auth_userId r2)) as [v|]; [by apply (inj (String.append "user:")) in Hp as ->|].
    simpl in Hp. by destruct (truthy_str (rq_apiKeyId r2)).
Qed.

(** ** A codec, and a run *)

Fixpoint pos_bits (p : positive) : string :=
  match p with
  | xH => "1"
  | xO p' => String "a" (pos_bits p')
  | xI p' => String "b" (pos_bits p')
  end.

Fixpoint bits_pos (s : string) : positive :=
  match s with
  | EmptyString => xH
  | String c s' => if Ascii.eqb c "a" then xO (bits_pos s') else if Ascii.eqb c "b" then xI (bits_pos s') else xH
  end.

Lemma bits_pos_bits p : bits_pos (pos_bits p) = p.
Proof. induction p as [p IH|p IH|]; simpl; congruence. Qed.

Definition state_code (st : IdempotencyState) : string + string * Z * string :=
  match st with
  | processing h => inl h
  | completed h r => inr (h, rs_status r, rs_body r)
  end.

Definition code_state (c : string + string * Z * string) : IdempotencyState :=
  match c with
  | inl h => processing h
  | inr (h, n, b) => completed h {| rs_status := n; rs_body := b |}
  end.

#[local] Instance w_codec : PayloadCodec := {|
  serialize := fun _ st => pos_bits (encode (state_code st));
  deserialize := fun s => code_state <$> decode (bits_pos s)
|}.

#[local] Instance w_codec_laws : CodecLaws.
Proof.
  split; simpl; intros _ st.
  - rewrite bits_pos_bits, decode_encode. destruct st as [h|h [n b]]; done.
  - by destruct (encode _).
Qed.

Definition w_hash (s : string) : string := s.
Definition w_digits (n : num) : string := "0".

Definition w_request (body : Json) : Request :=
  {| rq_method := "POST"; rq_originalUrl := "/api/v1/checkout/sessions?x=1"; rq_baseUrl := "/api/v1/checkout";
     rq_route := Some (RoutePattern "/sessions/"); rq_body := body; rq_key := Some "key-1";
     rq_auth_userId := Some "u1"; rq_user := None; rq_apiKeyId := None; rq_ip := Some "::1";
     rq_remoteAddress := None |}.

Definition w_body1 : Json := JObj [("amount", JStr "5"); ("to", JStr "x")].
Definition w_body2 : Json := JObj [("to", JStr "x"); ("amount", JStr "5")].

Definition w_ok : Answer :=
  {| an_ok := true; an_applied := true; an_nonce := ""; an_response := {| rs_status := 201; rs_body := "{}" |} |}.

Definition w_world : World := cf_state idem_init.

Lemma replay_correct_witness :
  json_equiv w_body2 w_body1 /\
  exists w1 w2,
    run (do_idem w_ok) (idempotencyMiddleware w_hash w_digits true (w_request w_body1)) w_world =
      (Ok (Executed (an_response w_ok)), w1) /\
    run (do_idem w_ok) (idempotencyMiddleware w_hash w_digits true (w_request w_body2)) w1 =
      (Ok (Replayed (an_response w_ok)), w2).
Proof.
  assert (json_equiv w_body2 w_body1) as Hb.
  { apply rtsc_lr, ro_fields; [apply Permutation_swap|].
    apply NoDup_cons. split; [intros [=]%list_elem_of_singleton|apply NoDup_singleton]. }
  split; [exact Hb|].
  destruct (replay_correct w_hash w_digits w_ok w_ok (w_request w_body1) (w_request w_body2) "key-1" w_world)
    as (w1 & out & w2 & H1 & H2 & _ & Hout & _); [vm_compute; reflexivity..|].
  rewrite (Hout eq_refl eq_refl Hb) in H2. exists w1, w2. split; [exact H1|exact H2].
Defined.

Lemma idempotent_execution_witness :
  let c := follow do_idem [(0%nat, w_ok); (1%nat, w_ok); (0%nat, w_ok); (1%nat, w_ok); (0%nat, w_ok); (2%nat, w_ok)]
             {| cf_state := w_world;
                cf_pool := [forget (idempotencyMiddleware w_hash w_digits true (w_request w_body1));
                            forget (idempotencyMiddleware w_hash w_digits true (w_request w_body2));
                            forget (idempotencyMiddleware w_hash w_digits true (w_request w_body2))] |} in
  length (wd_execs (cf_state c)) = 1%nat /\ length (wd_replays (cf_state c)) = 1%nat /\
  forall k, (starts k (cf_state c) <= 1 + expiries k (cf_state c))%nat.
Proof.
  intros c. split; [vm_compute; reflexivity|]. split; [vm_compute; reflexivity|].
  apply (idempotent_execution w_hash w_digits c). etrans; [|apply (follow_steps _ _ do_idem)].
  - apply (admit_steps _ _ _ []). repeat constructor.
  - intros o X ev s0. exists o. by destruct (do_idem o X ev s0).
Defined.

Lemma storage_key_separates_witness :
  buildIdempotencyStorageKey w_hash (w_request w_body1) "a" = buildIdempotencyStorageKey w_hash (w_request w_body2) "a" /\
  rq_method (w_request w_body1) = rq_method (w_request w_body2).
Proof.
  assert (buildIdempotencyStorageKey w_hash (w_request w_body1) "a" = buildIdempotencyStorageKey w_hash (w_request w_body2) "a")
    as Hk by (vm_compute; reflexivity).
  split; [exact Hk|].
  destruct (storage_key_separates w_hash (w_request w_body1) (w_request w_body2) "a" "a" (fun x y Hxy => Hxy) Hk) as (_ & H & _).
  exact H.
Defined.

(** The route is the matched pattern without its trailing slash or query. *)
Lemma route_example : deriveIdempotencyRoute (w_request w_body1) = "/api/v1/checkout/sessions".
Proof. reflexivity. Qed.
