(* ===== verification/Arbitration.v ===== *)
(** * Arbitration: the dispute queue and the assignment of arbitrators

    [DisputeArbitrationQueueService] of [services/disputeArbitrationQueue.ts]:
    the disputes waiting for a ruling, listed by a score that grows with the
    amount, the buyer's tier and the time in the queue.
    [RoundRobinArbitratorAssignmentEngine] of [services/arbitratorAssignment.ts]:
    the choice of an arbitrator who is online and has no conflict of interest,
    in turn.  The conflict lookup is an interface ([CoiLookupService]) whose
    promises the engine's theorems use and the in-memory service keeps. *)
From stdpp Require Import base list strings.
From Stdlib Require Import ZArith Lia.
From S2P Require Import Prelude JsNumber Async.
Local Open Scope Z_scope.

(** ** The queue *)

Inductive BuyerTier : Type := bronze | silver | gold | platinum.

#[export] Instance BuyerTier_eq_dec : EqDecision BuyerTier.
Proof. solve_decision. Defined.

Record DisputeQueueItem : Type := {
  qi_disputeId : string;
  qi_amount : num;
  qi_buyerTier : BuyerTier;
  qi_createdAt : Z;
  qi_queuedAt : Z;
  qi_score : num
}.

(** What [enqueueDispute] receives; the dispute id may come as [disputeId] or
    as [id]. *)
Record QueueInput : Type := {
  qin_disputeId : option string;
  qin_id : option string;
  qin_amount : num;
  qin_buyerTier : BuyerTier;
  qin_createdAt : Z;
  qin_queuedAt : Z
}.

Record QueueDashboard : Type := {
  db_total : nat;
  db_depthByTier : BuyerTier -> nat;
  db_next : option DisputeQueueItem
}.

Definition TIER_WEIGHTS (t : BuyerTier) : Z :=
  match t with bronze => 1 | silver => 2 | gold => 3 | platinum => 4 end.

Definition AGE_WEIGHT_PER_MINUTE : num := lit 5 100.

Definition ageMinutes (queuedAt now : Z) : num :=
  math_max zero (math_floor (div (sub (of_Z now) (of_Z queuedAt)) (of_Z 60000))).

Definition computeScore (amount : num) (tier : BuyerTier) (queuedAt now : Z) : num :=
  add (add (mul amount (lit 1 1000)) (of_Z (TIER_WEIGHTS tier * 10)))
      (mul (ageMinutes queuedAt now) AGE_WEIGHT_PER_MINUTE).

Definition score_at (now : Z) (it : DisputeQueueItem) : num :=
  computeScore (qi_amount it) (qi_buyerTier it) (qi_queuedAt it) now.

Definition rescore (now : Z) (it : DisputeQueueItem) : DisputeQueueItem :=
  {| qi_disputeId := qi_disputeId it; qi_amount := qi_amount it; qi_buyerTier := qi_buyerTier it;
     qi_createdAt := qi_createdAt it; qi_queuedAt := qi_queuedAt it; qi_score := score_at now it |}.

Abbreviation Queue := (list DisputeQueueItem).

Definition queue_item (i : QueueInput) : DisputeQueueItem :=
  {| qi_disputeId := match qin_disputeId i, qin_id i with
                     | Some d, _ => d
                     | None, Some d => d
                     | None, None => "dispute-queue-item"
                     end;
     qi_amount := qin_amount i; qi_buyerTier := qin_buyerTier i; qi_createdAt := qin_createdAt i;
     qi_queuedAt := qin_queuedAt i;
     qi_score := computeScore (qin_amount i) (qin_buyerTier i) (qin_queuedAt i) (qin_queuedAt i) |}.

Definition enqueueDispute (i : QueueInput) (q : Queue) : DisputeQueueItem * Queue :=
  (queue_item i, q ++ [queue_item i]).

Definition for_dispute (d : string) (it : DisputeQueueItem) : bool := bool_decide (qi_disputeId it = d).

Definition set_tier (t : BuyerTier) (it : DisputeQueueItem) : DisputeQueueItem :=
  {| qi_disputeId := qi_disputeId it; qi_amount := qi_amount it; qi_buyerTier := t;
     qi_createdAt := qi_createdAt it; qi_queuedAt := qi_queuedAt it;
     qi_score := computeScore (qi_amount it) t (qi_queuedAt it) (qi_queuedAt it) |}.

Definition updateTier (d : string) (t : BuyerTier) (q : Queue) : Queue :=
  update_first (for_dispute d) (set_tier t) q.

(** [findIndex] and [splice(index, 1)]: only the first match is removed. *)
Fixpoint removeDispute (d : string) (q : Queue) : Queue :=
  match q with
  | [] => []
  | it :: q' => if for_dispute d it then q' else it :: removeDispute d q'
  end.

Definition clear_queue (_ : Queue) : Queue := [].

(** The comparator of [list]: its result is positive. *)
Definition queue_gt (l r : DisputeQueueItem) : bool :=
  if negb (eqb (qi_score r) (qi_score l))
  then ltb zero (sub (qi_score r) (qi_score l))
  else ltb zero (sub (of_Z (qi_queuedAt l)) (of_Z (qi_queuedAt r))).

Definition list_queue (now : Z) (q : Queue) : list DisputeQueueItem :=
  js_sort queue_gt (map (rescore now) q).

(** [reindex] stores the scores it computes. *)
Definition reindex (now : Z) (q : Queue) : list DisputeQueueItem * Queue :=
  let q' := map (rescore now) q in (list_queue now q', q').

Definition bump (t : BuyerTier) (f : BuyerTier -> nat) (u : BuyerTier) : nat :=
  if bool_decide (u = t) then S (f u) else f u.

Definition getDashboard (now : Z) (q : Queue) : QueueDashboard :=
  let ordered := list_queue now q in
  {| db_total := length ordered;
     db_depthByTier := fold_left (fun f it => bump (qi_buyerTier it) f) ordered (fun _ => 0%nat);
     db_next := head ordered |}.

(** ** Scores *)

(** A time the clock can show: an integer that a number holds exactly. *)
Definition clock_ms (t : Z) : Prop := 0 <= t <= 2 ^ 52.

Definition queue_ok (q : Queue) : Prop :=
  Forall (fun it => clock_ms (qi_queuedAt it) /\ exists a, qi_amount it = Fin a) q.

Lemma ms_sub_fin t1 t2 : clock_ms t1 -> clock_ms t2 -> sub (of_Z t1) (of_Z t2) = Fin ((t1 - t2) * U).
Proof. unfold clock_ms. intros. apply ms_until_exact; lia. Qed.

Lemma minutes_fin q now :
  clock_ms q -> clock_ms now ->
  exists d, div (sub (of_Z now) (of_Z q)) (of_Z 60000) = Fin d /\ d <= 2 ^ 53 * U.
Proof.
  unfold clock_ms. intros Hq Hn. rewrite ms_sub_fin by done. rewrite (of_Z_exact 60000) by lia. pose proof U_pos.
  unfold div. destruct (Z.eqb_spec (60000 * U) 0); [lia|]. destruct (Z.ltb_spec 0 (60000 * U)); [|lia].
  destruct (norm_between (- 2 ^ 53 * U) (2 ^ 53 * U) ((now - q) * U * U) (60000 * U)) as (c & -> & _ & Hc);
    [lia|apply dbl_int; lia|apply dbl_int; lia|nia|]. exists c. split; [done|lia].
Qed.

Lemma age_fin q now : clock_ms q -> clock_ms now -> exists k, ageMinutes q now = Fin k /\ 0 <= k /\ dbl k.
Proof.
  intros Hq Hn. unfold ageMinutes. destruct (minutes_fin q now Hq Hn) as (d & -> & Hd). pose proof U_pos.
  unfold math_floor, math_max, zero, ltb. rewrite zdiv_eq. destruct (Z.ltb_spec 0 (d / U * U)).
  - eexists. split; [done|]. split; [lia|]. apply dbl_int. rewrite Z.abs_eq by nia.
    apply (Z.div_le_mono _ _ U) in Hd; [|lia]. by rewrite Z.div_mul in Hd by lia.
  - exists 0. split; [done|]. split; [lia|apply dbl_0].
Qed.

(** An item queued earlier is at least as old. *)
Lemma age_mono q1 q2 now k1 k2 :
  clock_ms q1 -> clock_ms q2 -> clock_ms now -> q1 <= q2 ->
  ageMinutes q1 now = Fin k1 -> ageMinutes q2 now = Fin k2 -> k2 <= k1.
Proof.
  intros H1 H2 Hn Hle. unfold ageMinutes.
  destruct (minutes_fin q1 now H1 Hn) as (d1 & E1 & _). destruct (minutes_fin q2 now H2 Hn) as (d2 & E2 & _).
  rewrite E1, E2. rewrite ms_sub_fin, (of_Z_exact 60000) in E1, E2 by (done || lia).
  pose proof U_pos. assert (d2 <= d1) as Hd by (eapply div_mono_l; [| |exact E2|exact E1]; nia).
  unfold math_floor, math_max, zero, ltb. rewrite !zdiv_eq.
  assert (d2 / U * U <= d1 / U * U) by (apply Z.mul_le_mono_nonneg_r; [lia|]; apply Z.div_le_mono; lia).
  destruct (Z.ltb_spec 0 (d1 / U * U)), (Z.ltb_spec 0 (d2 / U * U)); intros [= <-] [= <-]; lia.
Qed.

Lemma tier_weight_fin t : of_Z (TIER_WEIGHTS t * 10) = Fin (TIER_WEIGHTS t * 10 * U).
Proof. apply of_Z_exact. destruct t; simpl; lia. Qed.

(** The three summands of a score are finite, or the first one is an infinity. *)
Lemma score_summands a t q now :
  clock_ms q -> clock_ms now ->
  exists r k c, 0 <= r /\ ageMinutes q now = Fin k /\ mul (Fin k) AGE_WEIGHT_PER_MINUTE = Fin c /\
    lit 1 1000 = Fin r /\
    computeScore (Fin a) t q now = add (add (mul (Fin a) (Fin r)) (Fin (TIER_WEIGHTS t * 10 * U))) (Fin c).
Proof.
  intros Hq Hn. unfold computeScore, AGE_WEIGHT_PER_MINUTE. destruct (age_fin q now Hq Hn) as (k & Ek & Hk & Hd).
  destruct (lit_ratio 1 1000) as (r & Er & _ & Hr); [lia..|].
  destruct (lit_ratio 5 100) as (w & Ew & Hw & Hw0); [lia..|].
  destruct (mul_ratio k w Hd Hk Hw0) as (c & Ec & _ & _). exists r, k, c.
  rewrite Ek, Er, Ew, Ec, tier_weight_fin. by split_and!; [lia|..].
Qed.

Lemma score_not_nan a t q now : clock_ms q -> clock_ms now -> computeScore (Fin a) t q now <> NaN.
Proof.
  intros Hq Hn. destruct (score_summands a t q now Hq Hn) as (r & k & c & _ & _ & _ & _ & ->).
  by apply add_not_nan, add_not_nan, mul_not_nan.
Qed.

(** The score grows with the amount, with the tier and with the age. *)
Lemma score_mono a1 a2 t1 t2 q1 q2 now :
  clock_ms q1 -> clock_ms q2 -> clock_ms now ->
  a1 <= a2 -> TIER_WEIGHTS t1 <= TIER_WEIGHTS t2 -> q2 <= q1 ->
  leb (computeScore (Fin a1) t1 q1 now) (computeScore (Fin a2) t2 q2 now) = true.
Proof.
  intros H1 H2 Hn Ha Ht Hq. pose proof U_pos.
  destruct (score_summands a1 t1 q1 now H1 Hn) as (r & k1 & c1 & Hr & Ek1 & Ec1 & Er & ->).
  destruct (score_summands a2 t2 q2 now H2 Hn) as (r' & k2 & c2 & _ & Ek2 & Ec2 & Er' & ->).
  rewrite Er in Er'. injection Er' as <-.
  apply add_le; [apply add_le; [by apply mul_le_l|nia]|].
  pose proof (age_mono q2 q1 now k2 k1 H2 H1 Hn Hq Ek2 Ek1) as Hk.
  destruct (lit_ratio 5 100) as (w & Ew & _ & Hw0); [lia..|]. unfold AGE_WEIGHT_PER_MINUTE in *. rewrite Ew in *.
  pose proof (mul_le_l k1 k2 w Hk ltac:(lia)) as Hm. by rewrite Ec1, Ec2, leb_fin, Z.leb_le in Hm.
Qed.

(** ** The listing *)

(** [b] is listed no later than [a] by the comparator. *)
Definition ranked (a b : DisputeQueueItem) : Prop :=
  leb (qi_score b) (qi_score a) = true /\ (qi_score a = qi_score b -> qi_queuedAt a <= qi_queuedAt b).

Definition scored (it : DisputeQueueItem) : Prop := qi_score it <> NaN /\ clock_ms (qi_queuedAt it).

Lemma queue_gt_spec l r : scored l -> scored r -> queue_gt l r = false <-> ranked l r.
Proof.
  intros [Hl Cl] [Hr Cr]. unfold queue_gt, ranked.
  destruct (eqb (qi_score r) (qi_score l)) eqn:E; cbn [negb].
  - apply eqb_eq in E; [|done]. rewrite E, ms_sub_fin by done. unfold ltb, zero. rewrite Z.ltb_ge. pose proof U_pos.
    rewrite leb_refl by done. split; [|intros [_ Hle]; specialize (Hle eq_refl); nia]. intros Hle; split; [done|]. nia.
  - assert (qi_score r <> qi_score l) as Hne by (intros Heq; apply eqb_eq in Heq; [congruence|done]).
    rewrite sub_sign_num by done. split.
    + intros Hlt. split; [|congruence]. destruct (qi_score l) as [x| | |], (qi_score r) as [y| | |]; try done.
      rewrite leb_fin. unfold ltb in Hlt. rewrite Z.ltb_ge in Hlt. by apply Z.leb_le.
    + intros [Hle _]. destruct (qi_score l) as [x| | |], (qi_score r) as [y| | |]; try done.
      rewrite leb_fin, Z.leb_le in Hle. unfold ltb. apply Z.ltb_ge. lia.
Qed.

Lemma ranked_trans a b c : ranked a b -> ranked b c -> ranked a c.
Proof.
  intros [H1 Q1] [H2 Q2]. split; [by eapply leb_trans|]. intros Heq.
  assert (qi_score a = qi_score b) as Hab by (apply leb_antisym; [by rewrite Heq|done]).
  rewrite Q1 by done. apply Q2. congruence.
Qed.

Lemma queue_gt_asym l r : scored l -> scored r -> queue_gt l r = true -> queue_gt r l = false.
Proof.
  intros Sl Sr Hgt. apply queue_gt_spec; [done..|]. destruct Sl as [Hl Cl], Sr as [Hr Cr]. unfold queue_gt in Hgt.
  destruct (eqb (qi_score r) (qi_score l)) eqn:E; cbn [negb] in Hgt.
  - apply eqb_eq in E; [|done]. rewrite ms_sub_fin in Hgt by done. unfold ltb, zero in Hgt. apply Z.ltb_lt in Hgt.
    pose proof U_pos. split; [rewrite E; by apply leb_refl|]. nia.
  - assert (qi_score r <> qi_score l) as Hne by (intros Heq; apply eqb_eq in Heq; [congruence|done]).
    rewrite sub_sign_num in Hgt by done. split; [|congruence]. unfold leb. by rewrite Hgt.
Qed.

Lemma rescore_scored q now it : queue_ok q -> clock_ms now -> it ∈ map (rescore now) q -> scored it.
Proof.
  intros Hq Hn (it0 & -> & Hin)%list_elem_of_fmap. unfold queue_ok in Hq. rewrite Forall_forall in Hq.
  destruct (Hq it0 Hin) as (Hc & a & Ha). split; [|done]. simpl. unfold score_at. rewrite Ha. by apply score_not_nan.
Qed.

(** The listing is the queue itself, rescored: nothing is lost or invented. *)
Lemma list_queue_perm now q : list_queue now q ≡ₚ map (rescore now) q.
Proof. apply js_sort_perm. Qed.

Lemma list_queue_ranked q now i j a b :
  queue_ok q -> clock_ms now -> (i < j)%nat ->
  list_queue now q !! i = Some a -> list_queue now q !! j = Some b -> ranked a b.
Proof.
  intros Hq Hn Hij Ha Hb.
  assert (forall x, x ∈ list_queue now q -> scored x) as Hs.
  { intros x. unfold list_queue. rewrite js_sort_elem. by apply rescore_scored. }
  apply queue_gt_spec; [eapply Hs, list_elem_of_lookup_2; done..|].
  eapply ordered_lookup; [|exact Hij|exact Ha|exact Hb].
  apply (js_sort_ordered _ scored); [apply queue_gt_asym| |by intros; eapply rescore_scored].
  intros x y z Sx Sy Sz Hxy Hyz. apply queue_gt_spec in Hxy, Hyz; try done.
  apply queue_gt_spec; [done..|]. by eapply ranked_trans.
Qed.

Lemma list_queue_elem q now it :
  queue_ok q -> clock_ms now -> it ∈ list_queue now q ->
  exists a, qi_amount it = Fin a /\ clock_ms (qi_queuedAt it) /\ qi_score it = score_at now it.
Proof.
  intros Hq Hn. rewrite list_queue_perm. intros (it0 & -> & Hin)%list_elem_of_fmap.
  unfold queue_ok in Hq. rewrite Forall_forall in Hq. destruct (Hq it0 Hin) as (Hc & a & Ha). by exists a.
Qed.

(** The admin listing of the arbitration queue holds every queued dispute
    exactly once, with its score at the time of the call, highest score first and
    equal scores in order of arrival.  A dispute is never listed after one that is
    for at most its amount, of at most its tier and queued no earlier, unless the
    two tie completely. *)
Theorem queue_listing_correct q now :
  queue_ok q -> clock_ms now ->
  list_queue now q ≡ₚ map (rescore now) q /\
  forall i j a b, (i < j)%nat -> list_queue now q !! i = Some a -> list_queue now q !! j = Some b ->
    ranked a b /\
    (leb (qi_amount a) (qi_amount b) = true -> TIER_WEIGHTS (qi_buyerTier a) <= TIER_WEIGHTS (qi_buyerTier b) ->
     qi_queuedAt b <= qi_queuedAt a -> qi_score a = qi_score b /\ qi_queuedAt a = qi_queuedAt b).
Proof.
  intros Hq Hn. split; [apply list_queue_perm|]. intros i j a b Hij Ha Hb.
  pose proof (list_queue_ranked q now i j a b Hq Hn Hij Ha Hb) as Hr. split; [done|]. intros Hle Ht Hqb.
  destruct (list_queue_elem q now a Hq Hn) as (x & Ea & Ca & Sa); [by eapply list_elem_of_lookup_2|].
  destruct (list_queue_elem q now b Hq Hn) as (y & Eb & Cb & Sb); [by eapply list_elem_of_lookup_2|].
  rewrite Ea, Eb, leb_fin, Z.leb_le in Hle.
  assert (qi_score a = qi_score b) as Heq.
  { apply leb_antisym; [|apply Hr]. rewrite Sa, Sb. unfold score_at. rewrite Ea, Eb. by apply score_mono. }
  split; [done|]. destruct Hr as [_ Hr]. specialize (Hr Heq). lia.
Qed.

Definition w_item (d : string) (a : Z) (t : BuyerTier) (q : Z) : DisputeQueueItem :=
  queue_item {| qin_disputeId := Some d; qin_id := None; qin_amount := Fin (a * U); qin_buyerTier := t;
                qin_createdAt := q; qin_queuedAt := q |}.

Definition w_queue : Queue := [w_item "d1" 100 bronze 1000; w_item "d2" 100 gold 2000; w_item "d3" 100 bronze 500].

Lemma queue_listing_witness :
  map qi_disputeId (list_queue 60000 w_queue) = ["d2"; "d3"; "d1"]%string /\
  list_queue 60000 w_queue ≡ₚ map (rescore 60000) w_queue.
Proof.
  split; [vm_compute; reflexivity|]. apply (queue_listing_correct w_queue 60000).
  - unfold w_queue, queue_ok, clock_ms. repeat constructor; simpl; (lia || by eexists).
  - unfold clock_ms. lia.
Defined.

(** ** The dashboard *)

Definition tier_count (t : BuyerTier) (q : Queue) : nat :=
  length (filter (fun it => qi_buyerTier it = t) q).

Lemma tier_count_perm t q1 q2 : q1 ≡ₚ q2 -> tier_count t q1 = tier_count t q2.
Proof. intros Hp. unfold tier_count. by rewrite Hp. Qed.

Lemma depth_fold l f t :
  fold_left (fun f it => bump (qi_buyerTier it) f) l f t = (f t + tier_count t l)%nat.
Proof.
  revert f. induction l as [|it l IH]; intros f; simpl; [unfold tier_count; simpl; lia|].
  rewrite IH. unfold bump, tier_count. rewrite filter_cons. case_bool_decide as Ht; case_decide; simpl; congruence || lia.
Qed.

(** The dashboard counts the queue by tier and shows the head of the listing. *)
Lemma dashboard_correct q now t :
  db_total (getDashboard now q) = length q /\
  db_depthByTier (getDashboard now q) t = tier_count t q /\
  db_next (getDashboard now q) = head (list_queue now q).
Proof.
  unfold getDashboard. simpl. split_and!; [|rewrite depth_fold|done].
  - by rewrite list_queue_perm, length_map.
  - simpl. rewrite (tier_count_perm t _ _ (list_queue_perm now q)). unfold tier_count.
    induction q as [|it q IH]; [done|]. simpl. rewrite !filter_cons. simpl. by case_decide; simpl; rewrite IH.
Qed.

(** Removing the dispute that was queued last, when it was not queued before,
    gives back the queue. *)
Lemma enqueue_remove_roundtrip i q :
  (forall it, it ∈ q -> qi_disputeId it <> qi_disputeId (queue_item i)) ->
  removeDispute (qi_disputeId (queue_item i)) (snd (enqueueDispute i q)) = q.
Proof.
  unfold enqueueDispute. simpl. set (d := qi_disputeId (queue_item i)).
  induction q as [|it q IH]; intros Hf; simpl.
  - unfold for_dispute. by rewrite bool_decide_eq_true_2.
  - unfold for_dispute at 1. rewrite bool_decide_eq_false_2 by (apply Hf; constructor).
    f_equal. apply IH. intros x Hx. apply Hf. by constructor.
Qed.

(** ** Conflicts of interest *)

Inductive CoiSignal : Type := SHARED_TENANT | PRIOR_TRANSACTION | KNOWN_AFFILIATION.
Inductive PartyType : Type := p_buyer | p_supplier.

Record CoiRelation : Type := {
  cr_arbitratorId : string;
  cr_partyId : string;
  cr_partyType : PartyType;
  cr_signal : CoiSignal;
  cr_reason : string
}.

Record CoiLookupResult : Type := { coi_hasConflict : bool; coi_signals : list CoiRelation }.

(** The relation ties the arbitrator to one of the two parties. *)
Definition involves (arbitratorId buyerId supplierId : string) (r : CoiRelation) : Prop :=
  cr_arbitratorId r = arbitratorId /\ (cr_partyId r = buyerId \/ cr_partyId r = supplierId).

#[export] Instance involves_dec a b s r : Decision (involves a b s r).
Proof. unfold involves. apply _. Defined.

Class CoiLookupService (S : Type) := {
  getConflicts : string -> string -> string -> S -> CoiLookupResult;
  addRelation : CoiRelation -> S -> S;
  removeRelationsFor : string -> S -> S;
  clear : S -> S
}.

(** What the engine and its callers rely on: a lookup reports exactly the
    recorded relations between the arbitrator and the two parties. *)
Class CoiLaws (S : Type) `{CoiLookupService S} := {
  recorded : CoiRelation -> S -> Prop;
  coi_signals_exact a b s st r :
    r ∈ coi_signals (getConflicts a b s st) <-> recorded r st /\ involves a b s r;
  coi_hasConflict_iff a b s st :
    coi_hasConflict (getConflicts a b s st) = true <-> exists r, recorded r st /\ involves a b s r;
  add_recorded r r' st : recorded r (addRelation r' st) <-> r = r' \/ recorded r st;
  remove_recorded r a st : recorded r (removeRelationsFor a st) <-> recorded r st /\ cr_arbitratorId r <> a;
  clear_recorded r st : ~ recorded r (clear st)
}.

Module InMemory.

Definition Relations : Type := list CoiRelation.

Definition getConflicts (a b s : string) (rs : Relations) : CoiLookupResult :=
  let matching := filter (involves a b s) rs in
  {| coi_hasConflict := negb (Nat.eqb (length matching) 0); coi_signals := matching |}.

Definition addRelation (r : CoiRelation) (rs : Relations) : Relations := rs ++ [r].

Definition removeRelationsFor (a : string) (rs : Relations) : Relations :=
  filter (fun r => cr_arbitratorId r <> a) rs.

Definition clear (_ : Relations) : Relations := [].

End InMemory.

#[export] Instance InMemoryCoiLookupService : CoiLookupService InMemory.Relations := {|
  getConflicts := InMemory.getConflicts;
  addRelation := InMemory.addRelation;
  removeRelationsFor := InMemory.removeRelationsFor;
  clear := InMemory.clear
|}.

#[export] Instance InMemoryCoiLaws : CoiLaws InMemory.Relations.
Proof.
  refine {| recorded := fun r rs => r ∈ rs |}; intros.
  - simpl. rewrite list_elem_of_filter. tauto.
  - simpl. destruct (filter (involves a b s) st) as [|r l] eqn:E; simpl.
    + split; [done|]. intros (r & Hin & Hi). assert (r ∈ filter (involves a b s) st) as Hf by (by apply list_elem_of_filter).
      rewrite E in Hf. by apply elem_of_nil in Hf.
    + split; [|done]. intros _. exists r. assert (r ∈ filter (involves a b s) st) as Hf by (rewrite E; constructor).
      apply list_elem_of_filter in Hf. tauto.
  - simpl. unfold InMemory.addRelation. rewrite elem_of_app, list_elem_of_singleton. tauto.
  - simpl. unfold InMemory.removeRelationsFor. rewrite list_elem_of_filter. tauto.
  - simpl. apply not_elem_of_nil.
Qed.

(** ** The engine *)

Record Arbitrator : Type := { ab_id : string; ab_name : string; ab_tenantId : string; ab_isOnline : bool }.

Record AssignArbitratorInput : Type := { ai_disputeId : string; ai_buyerId : string; ai_supplierId : string }.

Inductive SkipReason : Type := ARBITRATOR_OFFLINE | CONFLICT_OF_INTEREST.

Record SkipLogEntry : Type := { sk_arbitratorId : string; sk_reason : SkipReason; sk_signals : list CoiRelation }.

Record ArbitratorAssignmentResult : Type := {
  ar_assigned : option Arbitrator;
  ar_skipped : list SkipLogEntry;
  ar_roundRobinIndex : Z
}.

Inductive AssignmentLog : Type :=
| ARBITRATOR_SKIPPED (disputeId : string) (s : SkipLogEntry)
| ARBITRATOR_ASSIGNED (disputeId arbitratorId : string) (eligibleCount skippedCount : nat).

Definition MAX_SAFE_INTEGER : Z := 2 ^ 53 - 1.

(** [Select n] is the section between the last await and the return. *)
Inductive AssignEv : Type -> Type :=
| Conflicts (a b s : string) : AssignEv CoiLookupResult
| LogEv (l : AssignmentLog) : AssignEv unit
| ReadIndex : AssignEv Z
| Select (n : nat) : AssignEv (nat * Z).

(** [AssignedUndefined]: reading [id] of an absent array element throws. *)
Inductive AssignError : Type := AssignedUndefined.

Abbreviation AProg := (Prog AssignEv AssignError).

Fixpoint screen (d : AssignArbitratorInput) (pool : list Arbitrator) : AProg (list SkipLogEntry * list Arbitrator) :=
  match pool with
  | [] => mret ([], [])
  | arb :: pool' =>
      if negb (ab_isOnline arb) then
        '(skipped, eligible) ← screen d pool';
        mret ({| sk_arbitratorId := ab_id arb; sk_reason := ARBITRATOR_OFFLINE; sk_signals := [] |} :: skipped, eligible)
      else
        coi ← perform (Conflicts (ab_id arb) (ai_buyerId d) (ai_supplierId d));
        '(skipped, eligible) ← screen d pool';
        mret (if coi_hasConflict coi
              then ({| sk_arbitratorId := ab_id arb; sk_reason := CONFLICT_OF_INTEREST;
                       sk_signals := coi_signals coi |} :: skipped, eligible)
              else (skipped, arb :: eligible))
  end.

Fixpoint log_skips (disputeId : string) (skipped : list SkipLogEntry) : AProg unit :=
  match skipped with
  | [] => mret tt
  | s :: skipped' => _ ← perform (LogEv (ARBITRATOR_SKIPPED disputeId s)); log_skips disputeId skipped'
  end.

Definition assignArbitrator (d : AssignArbitratorInput) (pool : list Arbitrator) : AProg ArbitratorAssignmentResult :=
  '(skipped, eligible) ← screen d pool;
  _ ← log_skips (ai_disputeId d) skipped;
  match eligible with
  | [] =>
      i ← perform ReadIndex;
      mret {| ar_assigned := None; ar_skipped := skipped; ar_roundRobinIndex := i |}
  | _ :: _ =>
      '(selectedIndex, index') ← perform (Select (length eligible));
      assigned ← need (eligible !! selectedIndex) AssignedUndefined;
      _ ← perform (LogEv (ARBITRATOR_ASSIGNED (ai_disputeId d) (ab_id assigned) (length eligible) (length skipped)));
      mret {| ar_assigned := Some assigned; ar_skipped := skipped; ar_roundRobinIndex := index' - 1 |}
  end.

Section Engine.
Context {S : Type} `{CoiLaws S}.

Record Engine : Type := { en_roundRobinIndex : Z; en_coiService : S; en_log : list AssignmentLog }.

Definition next_index (i : Z) : Z := if i <? MAX_SAFE_INTEGER then i + 1 else 0.

Definition engine_event (X : Type) (ev : AssignEv X) (e : Engine) : X * Engine :=
  match ev in AssignEv X return X * Engine with
  | Conflicts a b s => (getConflicts a b s (en_coiService e), e)
  | LogEv l => (tt, {| en_roundRobinIndex := en_roundRobinIndex e; en_coiService := en_coiService e;
                       en_log := en_log e ++ [l] |})
  | ReadIndex => (en_roundRobinIndex e, e)
  | Select n =>
      let i' := next_index (en_roundRobinIndex e) in
      ((Z.to_nat (en_roundRobinIndex e mod Z.of_nat n), i'),
       {| en_roundRobinIndex := i'; en_coiService := en_coiService e; en_log := en_log e |})
  end.

Definition resetRoundRobin (e : Engine) : Engine :=
  {| en_roundRobinIndex := 0; en_coiService := en_coiService e; en_log := en_log e |}.

Definition getRoundRobinIndex (e : Engine) : Z := en_roundRobinIndex e.

(** ** What an assignment is meant to be *)

Definition conflicted (st : S) (d : AssignArbitratorInput) (a : Arbitrator) : bool :=
  coi_hasConflict (getConflicts (ab_id a) (ai_buyerId d) (ai_supplierId d) st).

Definition can_serve (st : S) (d : AssignArbitratorInput) (a : Arbitrator) : bool :=
  ab_isOnline a && negb (conflicted st d a).

Definition eligible_for (st : S) (d : AssignArbitratorInput) (pool : list Arbitrator) : list Arbitrator :=
  filter (fun a => can_serve st d a = true) pool.

Definition skip_of (st : S) (d : AssignArbitratorInput) (a : Arbitrator) : option SkipLogEntry :=
  if negb (ab_isOnline a)
  then Some {| sk_arbitratorId := ab_id a; sk_reason := ARBITRATOR_OFFLINE; sk_signals := [] |}
  else if conflicted st d a
  then Some {| sk_arbitratorId := ab_id a; sk_reason := CONFLICT_OF_INTEREST;
               sk_signals := coi_signals (getConflicts (ab_id a) (ai_buyerId d) (ai_supplierId d) st) |}
  else None.

Definition skips_for (st : S) (d : AssignArbitratorInput) (pool : list Arbitrator) : list SkipLogEntry :=
  omap (skip_of st d) pool.

Lemma run_screen d pool e :
  run engine_event (screen d pool) e =
  (Ok (skips_for (en_coiService e) d pool, eligible_for (en_coiService e) d pool), e).
Proof.
  unfold skips_for, eligible_for. induction pool as [|a pool IH]; [done|]. cbn [screen omap list_omap].
  rewrite filter_cons. unfold skip_of at 1.
  assert (can_serve (en_coiService e) d a = ab_isOnline a && negb (conflicted (en_coiService e) d a)) as Hs by done.
  unfold conflicted in *. destruct (ab_isOnline a); cbn [negb andb] in *.
  - rewrite run_bind, run_perform. cbn [engine_event fst snd]. rewrite run_bind, IH.
    destruct (coi_hasConflict _); simpl in Hs; case_decide; congruence || done.
  - rewrite run_bind, IH. case_decide; congruence || done.
Qed.

Definition with_log (e : Engine) (l : list AssignmentLog) : Engine :=
  {| en_roundRobinIndex := en_roundRobinIndex e; en_coiService := en_coiService e; en_log := en_log e ++ l |}.

Lemma run_log_skips i skipped e :
  run engine_event (log_skips i skipped) e = (Ok tt, with_log e (map (ARBITRATOR_SKIPPED i) skipped)).
Proof.
  revert e. induction skipped as [|s skipped IH]; intros e; simpl.
  - unfold with_log. rewrite app_nil_r. by destruct e.
  - unfold mbind, Prog_bind. simpl. rewrite IH. unfold with_log. simpl. by rewrite <- app_assoc.
Qed.

(** The result and the effect of an assignment that no other request disturbs. *)
Definition assignment_spec (d : AssignArbitratorInput) (pool : list Arbitrator) (e : Engine) :
    ArbitratorAssignmentResult * Engine :=
  let elig := eligible_for (en_coiService e) d pool in
  let skips := skips_for (en_coiService e) d pool in
  let e1 := with_log e (map (ARBITRATOR_SKIPPED (ai_disputeId d)) skips) in
  match elig !! Z.to_nat (en_roundRobinIndex e mod Z.of_nat (length elig)) with
  | None => ({| ar_assigned := None; ar_skipped := skips; ar_roundRobinIndex := en_roundRobinIndex e |}, e1)
  | Some a =>
      let i' := next_index (en_roundRobinIndex e) in
      ({| ar_assigned := Some a; ar_skipped := skips; ar_roundRobinIndex := i' - 1 |},
       {| en_roundRobinIndex := i'; en_coiService := en_coiService e;
          en_log := en_log e1 ++ [ARBITRATOR_ASSIGNED (ai_disputeId d) (ab_id a) (length elig) (length skips)] |})
  end.

Lemma turn_in_range (l : list Arbitrator) i : l <> [] -> exists a, l !! Z.to_nat (i mod Z.of_nat (length l)) = Some a.
Proof.
  intros Hl. apply lookup_lt_is_Some_2. destruct l as [|x l]; [done|].
  pose proof (Z.mod_pos_bound i (Z.of_nat (length (x :: l))) ltac:(simpl; lia)). lia.
Qed.

Lemma assign_run d pool e :
  run engine_event (assignArbitrator d pool) e =
  (Ok (fst (assignment_spec d pool e)), snd (assignment_spec d pool e)).
Proof.
  unfold assignArbitrator, assignment_spec. rewrite run_bind, run_screen, run_bind, run_log_skips.
  destruct (eligible_for _ d pool) as [|a0 elig] eqn:Ee; [by rewrite run_bind|].
  destruct (turn_in_range (a0 :: elig) (en_roundRobinIndex e)) as [a Ha]; [done|].
  rewrite run_bind, run_perform. cbn [engine_event fst snd]. rewrite run_bind, run_need.
  cbn [with_log en_roundRobinIndex]. rewrite Ha. cbn [from_option_or]. by rewrite run_bind.
Qed.

(** Assigning an arbitrator: the request always succeeds; nobody is assigned
    exactly when nobody in the pool is online and without a recorded relation to
    a party, and otherwise the assigned arbitrator is such a member of the pool;
    every other member that is offline or conflicted is reported as skipped, in
    pool order, and each skip and the assignment are logged. *)
Theorem assignment_sound d pool e :
  exists r e', run engine_event (assignArbitrator d pool) e = (Ok r, e') /\
    (ar_assigned r = None <->
     forall a, a ∈ pool -> ab_isOnline a = true ->
       exists rel, recorded rel (en_coiService e) /\ involves (ab_id a) (ai_buyerId d) (ai_supplierId d) rel) /\
    (forall a, ar_assigned r = Some a -> a ∈ pool /\ ab_isOnline a = true /\
       forall rel, recorded rel (en_coiService e) -> ~ involves (ab_id a) (ai_buyerId d) (ai_supplierId d) rel) /\
    ar_skipped r = skips_for (en_coiService e) d pool /\
    en_coiService e' = en_coiService e /\
    en_log e' = en_log e ++ map (ARBITRATOR_SKIPPED (ai_disputeId d)) (ar_skipped r) ++
      match ar_assigned r with
      | Some a => [ARBITRATOR_ASSIGNED (ai_disputeId d) (ab_id a)
                     (length (eligible_for (en_coiService e) d pool)) (length (ar_skipped r))]
      | None => []
      end.
Proof.
  eexists _, _. split; [apply assign_run|]. unfold assignment_spec.
  set (elig := eligible_for (en_coiService e) d pool).
  assert (forall a, a ∈ elig <-> a ∈ pool /\ ab_isOnline a = true /\
    forall rel, recorded rel (en_coiService e) -> ~ involves (ab_id a) (ai_buyerId d) (ai_supplierId d) rel) as Helig.
  { intros a. unfold elig, eligible_for, can_serve, conflicted. rewrite list_elem_of_filter, andb_true_iff, negb_true_iff.
    rewrite <- not_true_iff_false, coi_hasConflict_iff. firstorder. }
  destruct (elig !! _) as [a|] eqn:Ea; simpl.
  - apply list_elem_of_lookup_2 in Ea. apply Helig in Ea as (Hin & Hon & Hno).
    split_and!; try done; [|by intros ? [= <-]|by rewrite <- app_assoc].
    split; [done|]. intros Hall. destruct (Hall a Hin Hon) as (rel & Hr & Hi). by destruct (Hno rel Hr).
  - split_and!; try done; [|by rewrite app_nil_r]. split; [|done]. intros _ a Hin Hon.
    apply coi_hasConflict_iff. destruct (coi_hasConflict _) eqn:Ec; [done|]. exfalso.
    assert (a ∈ elig) as Hel.
    { unfold elig, eligible_for, can_serve, conflicted. rewrite list_elem_of_filter, Hon, Ec. done. }
    assert (elig <> []) as Hne by (intros Hnil; rewrite Hnil in Hel; by apply elem_of_nil in Hel).
    destruct (turn_in_range elig (en_roundRobinIndex e) Hne) as [x Hx]. congruence.
Qed.

(** ** Taking turns *)

(** Assignments one after the other, with the arbitrators they return. *)
Fixpoint assign_all (ds : list AssignArbitratorInput) (pool : list Arbitrator) (e : Engine) : list (option Arbitrator) :=
  match ds with
  | [] => []
  | d :: ds' =>
      match run engine_event (assignArbitrator d pool) e with
      | (Ok r, e') => ar_assigned r :: assign_all ds' pool e'
      | (Err _, _) => []
      end
  end.

Lemma assign_all_turns elig ds pool e :
  (forall d, d ∈ ds -> eligible_for (en_coiService e) d pool = elig) -> elig <> [] ->
  0 <= en_roundRobinIndex e -> en_roundRobinIndex e + Z.of_nat (length ds) <= MAX_SAFE_INTEGER ->
  assign_all ds pool e =
  map (fun k => elig !! Z.to_nat ((en_roundRobinIndex e + Z.of_nat k) mod Z.of_nat (length elig))) (seq 0 (length ds)).
Proof.
  intros Hall Hne. revert e Hall. induction ds as [|d ds IH]; intros e Hall Hpos Hmax; [done|].
  cbn [assign_all]. rewrite assign_run. unfold assignment_spec. rewrite (Hall d) by constructor.
  destruct (turn_in_range elig (en_roundRobinIndex e) Hne) as [a Ha]. rewrite Ha. cbn [fst snd ar_assigned length seq map] in *.
  assert (next_index (en_roundRobinIndex e) = en_roundRobinIndex e + 1) as Hnx.
  { unfold next_index. destruct (Z.ltb_spec (en_roundRobinIndex e) MAX_SAFE_INTEGER); lia. }
  rewrite Z.add_0_r, Ha. f_equal. rewrite IH; cbn [en_roundRobinIndex en_coiService]; rewrite ?Hnx; try lia.
  - rewrite <- seq_shift, map_map. apply map_ext. intros k. f_equal. f_equal. f_equal. lia.
  - intros d' Hd'. apply Hall. by constructor.
Qed.

Lemma rotate_perm {A} n (l : list A) : rotate n l ≡ₚ l.
Proof. unfold rotate. rewrite Permutation_app_comm. by rewrite take_drop. Qed.

(** Fairness: while the same arbitrators are eligible, as many consecutive
    assignments as there are eligible arbitrators give each of them exactly one
    dispute, in the order of the pool from the counter's position on. *)
Theorem assignment_takes_turns elig ds pool e :
  (forall d, d ∈ ds -> eligible_for (en_coiService e) d pool = elig) ->
  elig <> [] -> length ds = length elig ->
  0 <= en_roundRobinIndex e -> en_roundRobinIndex e + Z.of_nat (length ds) <= MAX_SAFE_INTEGER ->
  assign_all ds pool e = map Some (rotate (Z.to_nat (en_roundRobinIndex e)) elig) /\
  assign_all ds pool e ≡ₚ map Some elig.
Proof.
  intros Hall Hne Hlen Hpos Hmax.
  assert (assign_all ds pool e = map Some (rotate (Z.to_nat (en_roundRobinIndex e)) elig)) as Heq.
  { rewrite (assign_all_turns elig) by done. rewrite Hlen. apply list_eq. intros k.
    destruct (decide (k < length elig)%nat) as [Hk|Hk].
    - rewrite !list_lookup_fmap, lookup_rotate_r by done. rewrite lookup_seq_lt by done. simpl.
      unfold rotate_nat_add. rewrite Z2Nat.id by done.
      destruct (turn_in_range elig (en_roundRobinIndex e + Z.of_nat k) Hne) as [a Ha]. by rewrite Ha.
    - rewrite !lookup_ge_None_2; [done|rewrite length_fmap, length_rotate; lia|rewrite length_fmap, length_seq; lia]. }
  split; [done|]. by rewrite Heq, rotate_perm.
Qed.

End Engine.

Definition w_arb (i : string) (on : bool) : Arbitrator :=
  {| ab_id := i; ab_name := i; ab_tenantId := "t"; ab_isOnline := on |}.
Definition w_pool : list Arbitrator := [w_arb "a" true; w_arb "b" false; w_arb "c" true; w_arb "d" true].
Definition w_input : AssignArbitratorInput := {| ai_disputeId := "d-1"; ai_buyerId := "buyer"; ai_supplierId := "supplier" |}.
Definition w_engine : Engine :=
  {| en_roundRobinIndex := 5;
     en_coiService := [{| cr_arbitratorId := "a"; cr_partyId := "supplier"; cr_partyType := p_supplier;
                          cr_signal := SHARED_TENANT; cr_reason := "same" |}] : InMemory.Relations;
     en_log := [] |}.

Lemma assignment_sound_witness :
  exists r e', run engine_event (assignArbitrator w_input w_pool) w_engine = (Ok r, e') /\
    ar_assigned r = Some (w_arb "d" true) /\ length (ar_skipped r) = 2%nat.
Proof.
  destruct (assignment_sound w_input w_pool w_engine) as (r & e' & Hr & _). exists r, e'.
  split; [exact Hr|]. vm_compute in Hr. injection Hr as <- _. split; reflexivity.
Defined.

Lemma assignment_takes_turns_witness :
  assign_all [w_input; w_input] w_pool w_engine = [Some (w_arb "d" true); Some (w_arb "c" true)] /\
  assign_all [w_input; w_input] w_pool w_engine ≡ₚ map Some [w_arb "c" true; w_arb "d" true].
Proof.
  apply (assignment_takes_turns [w_arb "c" true; w_arb "d" true] [w_input; w_input] w_pool w_engine).
  - intros d [->|[->|[]%elem_of_nil]%elem_of_cons]%elem_of_cons; reflexivity.
  - discriminate.
  - reflexivity.
  - vm_compute. discriminate.
  - vm_compute. discriminate.
Defined.

(** At the largest safe integer the counter restarts, and the index that is
    returned for that assignment is not the one that was used. *)
Lemma wrapped_index_reported :
  let e := {| en_roundRobinIndex := MAX_SAFE_INTEGER; en_coiService := [] : InMemory.Relations; en_log := [] |} in
  ar_roundRobinIndex (fst (assignment_spec w_input w_pool e)) = -1.
Proof. reflexivity. Qed.
