(* ===== verification/Disputes.v ===== *)
(** * Disputes: the appeal work flow and its deadlines

    Data of [types/dispute.ts]; the state machine, the finality hash chain, the
    senior panel and its decision of [services/disputeAppeals.ts]; the deadline
    scan and its reversal of [services/disputeDeadlineService.ts].  SHA-256,
    [localeCompare] and the printing of numbers are parameters.  Values that a
    request puts into a dispute unchecked (evidence, ruling, arbiter) are JSON
    values.  The handlers of [routes/admin.ts] that use this are in
    [DisputeDesk.v]. *)
From stdpp Require Import base list strings pretty.
From Stdlib Require Import ZArith Lia Ascii.
From S2P Require Import Prelude JsNumber JsMap HashChain Domain Canonical.
Local Open Scope Z_scope.

(** ** Data *)

Inductive DisputeStatus : Type :=
| OPEN | EVIDENCED | ADJUDICATED | APPEALED | SENIOR_REVIEW | FINAL | CLOSED | TIMEOUT.

#[export] Instance DisputeStatus_eq_dec : EqDecision DisputeStatus.
Proof. solve_decision. Defined.

Definition status_text (s : DisputeStatus) : string :=
  match s with
  | OPEN => "OPEN" | EVIDENCED => "EVIDENCED" | ADJUDICATED => "ADJUDICATED" | APPEALED => "APPEALED"
  | SENIOR_REVIEW => "SENIOR_REVIEW" | FINAL => "FINAL" | CLOSED => "CLOSED" | TIMEOUT => "TIMEOUT"
  end.

Record FinalityRecord : Type := {
  fr_prevHash : option string;
  fr_hash : string;
  fr_status : DisputeStatus;
  fr_at : Z;
  fr_payload : Json
}.

Record SeniorArbiter : Type := { sa_id : string; sa_tenantId : string; sa_name : option string }.

(** A vote other than UPHOLD counts as OVERTURN, so it is a string here. *)
Record SeniorPanelVote : Type := { pv_arbiterId : string; pv_vote : string }.

Inductive FinalRuling : Type := UPHELD | OVERTURNED.

Record Dispute : Type := {
  d_id : string;
  d_status : DisputeStatus;
  d_buyerId : string;
  d_supplierId : string;
  d_buyerTenantId : string;
  d_supplierTenantId : string;
  d_amount : num;
  d_evidence : list Json;
  d_ruling : Json;
  d_arbiter : Json;
  d_adjudicatedAt : option Z;
  d_finalityHash : option string;
  d_finalityChain : list FinalityRecord;
  d_appealWindowMs : option num;
  d_appealInitiatedAt : option Z;
  d_panel : option (list SeniorArbiter);
  d_panelVotes : option (list SeniorPanelVote);
  d_seniorDecisionAt : option Z;
  d_finalRuling : option FinalRuling;
  d_autoResolvedAt : option Z;
  d_autoResolveWindowMs : option Z
}.

(** *** Assignments to the object *)

Definition push_link (l : FinalityRecord) (d : Dispute) : Dispute :=
  {| d_id := d_id d; d_status := fr_status l; d_buyerId := d_buyerId d; d_supplierId := d_supplierId d;
     d_buyerTenantId := d_buyerTenantId d; d_supplierTenantId := d_supplierTenantId d; d_amount := d_amount d;
     d_evidence := d_evidence d; d_ruling := d_ruling d; d_arbiter := d_arbiter d;
     d_adjudicatedAt := d_adjudicatedAt d; d_finalityHash := Some (fr_hash l);
     d_finalityChain := d_finalityChain d ++ [l]; d_appealWindowMs := d_appealWindowMs d;
     d_appealInitiatedAt := d_appealInitiatedAt d; d_panel := d_panel d; d_panelVotes := d_panelVotes d;
     d_seniorDecisionAt := d_seniorDecisionAt d; d_finalRuling := d_finalRuling d;
     d_autoResolvedAt := d_autoResolvedAt d; d_autoResolveWindowMs := d_autoResolveWindowMs d |}.

Definition add_evidence (e : Json) (d : Dispute) : Dispute :=
  {| d_id := d_id d; d_status := d_status d; d_buyerId := d_buyerId d; d_supplierId := d_supplierId d;
     d_buyerTenantId := d_buyerTenantId d; d_supplierTenantId := d_supplierTenantId d; d_amount := d_amount d;
     d_evidence := d_evidence d ++ [e]; d_ruling := d_ruling d; d_arbiter := d_arbiter d;
     d_adjudicatedAt := d_adjudicatedAt d; d_finalityHash := d_finalityHash d;
     d_finalityChain := d_finalityChain d; d_appealWindowMs := d_appealWindowMs d;
     d_appealInitiatedAt := d_appealInitiatedAt d; d_panel := d_panel d; d_panelVotes := d_panelVotes d;
     d_seniorDecisionAt := d_seniorDecisionAt d; d_finalRuling := d_finalRuling d;
     d_autoResolvedAt := d_autoResolvedAt d; d_autoResolveWindowMs := d_autoResolveWindowMs d |}.

Definition set_ruling (ruling arbiter : Json) (at_ : Z) (d : Dispute) : Dispute :=
  {| d_id := d_id d; d_status := d_status d; d_buyerId := d_buyerId d; d_supplierId := d_supplierId d;
     d_buyerTenantId := d_buyerTenantId d; d_supplierTenantId := d_supplierTenantId d; d_amount := d_amount d;
     d_evidence := d_evidence d; d_ruling := ruling; d_arbiter := arbiter; d_adjudicatedAt := Some at_;
     d_finalityHash := d_finalityHash d; d_finalityChain := d_finalityChain d;
     d_appealWindowMs := d_appealWindowMs d; d_appealInitiatedAt := d_appealInitiatedAt d;
     d_panel := d_panel d; d_panelVotes := d_panelVotes d; d_seniorDecisionAt := d_seniorDecisionAt d;
     d_finalRuling := d_finalRuling d; d_autoResolvedAt := d_autoResolvedAt d;
     d_autoResolveWindowMs := d_autoResolveWindowMs d |}.

Definition set_appeal (at_ : Z) (panel : list SeniorArbiter) (d : Dispute) : Dispute :=
  {| d_id := d_id d; d_status := d_status d; d_buyerId := d_buyerId d; d_supplierId := d_supplierId d;
     d_buyerTenantId := d_buyerTenantId d; d_supplierTenantId := d_supplierTenantId d; d_amount := d_amount d;
     d_evidence := d_evidence d; d_ruling := d_ruling d; d_arbiter := d_arbiter d;
     d_adjudicatedAt := d_adjudicatedAt d; d_finalityHash := d_finalityHash d;
     d_finalityChain := d_finalityChain d; d_appealWindowMs := d_appealWindowMs d;
     d_appealInitiatedAt := Some at_; d_panel := Some panel; d_panelVotes := d_panelVotes d;
     d_seniorDecisionAt := d_seniorDecisionAt d; d_finalRuling := d_finalRuling d;
     d_autoResolvedAt := d_autoResolvedAt d; d_autoResolveWindowMs := d_autoResolveWindowMs d |}.

Definition set_decision (votes : list SeniorPanelVote) (at_ : Z) (r : FinalRuling) (d : Dispute) : Dispute :=
  {| d_id := d_id d; d_status := d_status d; d_buyerId := d_buyerId d; d_supplierId := d_supplierId d;
     d_buyerTenantId := d_buyerTenantId d; d_supplierTenantId := d_supplierTenantId d; d_amount := d_amount d;
     d_evidence := d_evidence d; d_ruling := d_ruling d; d_arbiter := d_arbiter d;
     d_adjudicatedAt := d_adjudicatedAt d; d_finalityHash := d_finalityHash d;
     d_finalityChain := d_finalityChain d; d_appealWindowMs := d_appealWindowMs d;
     d_appealInitiatedAt := d_appealInitiatedAt d; d_panel := d_panel d; d_panelVotes := Some votes;
     d_seniorDecisionAt := Some at_; d_finalRuling := Some r; d_autoResolvedAt := d_autoResolvedAt d;
     d_autoResolveWindowMs := d_autoResolveWindowMs d |}.

Definition set_auto (at_ window : option Z) (d : Dispute) : Dispute :=
  {| d_id := d_id d; d_status := d_status d; d_buyerId := d_buyerId d; d_supplierId := d_supplierId d;
     d_buyerTenantId := d_buyerTenantId d; d_supplierTenantId := d_supplierTenantId d; d_amount := d_amount d;
     d_evidence := d_evidence d; d_ruling := d_ruling d; d_arbiter := d_arbiter d;
     d_adjudicatedAt := d_adjudicatedAt d; d_finalityHash := d_finalityHash d;
     d_finalityChain := d_finalityChain d; d_appealWindowMs := d_appealWindowMs d;
     d_appealInitiatedAt := d_appealInitiatedAt d; d_panel := d_panel d; d_panelVotes := d_panelVotes d;
     d_seniorDecisionAt := d_seniorDecisionAt d; d_finalRuling := d_finalRuling d; d_autoResolvedAt := at_;
     d_autoResolveWindowMs := window |}.

(** ** [services/disputeAppeals.ts] *)

Definition DISPUTE_STATE_TRANSITIONS (s : DisputeStatus) : list DisputeStatus :=
  match s with
  | OPEN => [EVIDENCED; TIMEOUT]
  | EVIDENCED => [ADJUDICATED; TIMEOUT]
  | ADJUDICATED => [APPEALED; CLOSED]
  | APPEALED => [SENIOR_REVIEW; CLOSED]
  | SENIOR_REVIEW => [FINAL; CLOSED]
  | FINAL | CLOSED | TIMEOUT => []
  end.

Definition DEFAULT_APPEAL_WINDOW_MS : Z := 72 * 60 * 60 * 1000.
Definition SENIOR_PANEL_MIN_SIZE : nat := 3.

Fixpoint zeros (n : nat) : string := match n with O => EmptyString | S n' => String "0"%char (zeros n') end.
Definition FINALITY_GENESIS_HASH : string := zeros 64.

Definition canTransition (current target : DisputeStatus) : bool :=
  bool_decide (target ∈ DISPUTE_STATE_TRANSITIONS current).

Definition elapsed (now since : Z) : num := sub (of_Z now) (of_Z since).

Definition appeal_window (d : Dispute) : num := default (of_Z DEFAULT_APPEAL_WINDOW_MS) (d_appealWindowMs d).

Definition isWithinAppealWindow (d : Dispute) (now : Z) : bool :=
  match d_adjudicatedAt d with
  | None => false
  | Some at_ => leb (elapsed now at_) (appeal_window d)
  end.

(** [[...].join("|")]. *)
Definition link_text (number_toString : num -> string) (prev id : string) (s : DisputeStatus) (payload : Json) (ts : Z) : string :=
  (prev +:+ "|" +:+ id +:+ "|" +:+ status_text s +:+ "|" +:+
   json_text number_toString (stableStringify payload) +:+ "|" +:+ number_toString (of_Z ts))%string.

Inductive ExclusionReason : Type := ORIGINAL_ARBITER | PARTY_CONFLICT | APPEAL_OF_APPEAL.

Record SeniorPanelSelection : Type := {
  ss_panel : list SeniorArbiter;
  ss_excluded : list (string * ExclusionReason)
}.

(** [dispute.arbiter && candidate.id === dispute.arbiter]. *)
Definition is_original_arbiter (d : Dispute) (c : SeniorArbiter) : bool :=
  match d_arbiter d with JStr a => str_truthy a && bool_decide (sa_id c = a) | _ => false end.

Definition on_panel (i : string) (panel : list SeniorArbiter) : bool :=
  existsb (fun p => bool_decide (sa_id p = i)) panel.

Definition exclusion (d : Dispute) (c : SeniorArbiter) : option ExclusionReason :=
  if is_original_arbiter d c then Some ORIGINAL_ARBITER
  else if bool_decide (sa_tenantId c = d_buyerTenantId d) || bool_decide (sa_tenantId c = d_supplierTenantId d)
  then Some PARTY_CONFLICT
  else if match d_panel d with Some p => on_panel (sa_id c) p | None => false end
  then Some APPEAL_OF_APPEAL
  else None.

Inductive SeniorDecisionCode : Type :=
| DECISION_INVALID_STATE (s : DisputeStatus)
| PANEL_NOT_SET
| INSUFFICIENT_VOTES (expected got : nat)
| PANEL_VOTE_MISMATCH (arbiterId : string)
| DUPLICATE_VOTE (arbiterId : string).

(** The loop over the votes; [seen] is the set of voters so far. *)
Fixpoint check_votes (panel : list SeniorArbiter) (seen : list string) (votes : list SeniorPanelVote) : option SeniorDecisionCode :=
  match votes with
  | [] => None
  | v :: votes' =>
      if negb (on_panel (pv_arbiterId v) panel) then Some (PANEL_VOTE_MISMATCH (pv_arbiterId v))
      else if bool_decide (pv_arbiterId v ∈ seen) then Some (DUPLICATE_VOTE (pv_arbiterId v))
      else check_votes panel (seen ++ [pv_arbiterId v]) votes'
  end.

Definition validateSeniorDecision (d : Dispute) (votes : list SeniorPanelVote) : option SeniorDecisionCode :=
  if negb (bool_decide (d_status d = SENIOR_REVIEW)) then Some (DECISION_INVALID_STATE (d_status d))
  else match d_panel d with
       | None | Some [] => Some PANEL_NOT_SET
       | Some panel =>
           if negb (Nat.eqb (length votes) (length panel))
           then Some (INSUFFICIENT_VOTES (length panel) (length votes))
           else check_votes panel [] votes
       end.

Inductive VoteOutcome : Type := UPHOLD | OVERTURN.

Definition count_votes (acc : nat * nat) (v : SeniorPanelVote) : nat * nat :=
  if bool_decide (pv_vote v = "UPHOLD"%string) then (S (fst acc), snd acc) else (fst acc, S (snd acc)).

Definition decideByMajority (votes : list SeniorPanelVote) : VoteOutcome :=
  let '(uphold, overturn) := fold_left count_votes votes (0, 0)%nat in
  if (overturn <=? uphold)%nat then UPHOLD else OVERTURN.

(** The pool of senior arbiters. *)
Abbreviation SeniorPool := (jsmap SeniorArbiter).

Definition getSeniorPool (pool : SeniorPool) : list SeniorArbiter := map_values pool.
Definition addSeniorArbiter (a : SeniorArbiter) (pool : SeniorPool) : SeniorPool := map_set (sa_id a) a pool.
Definition removeSeniorArbiter (i : string) (pool : SeniorPool) : SeniorPool := map_delete i pool.

(** ** [services/disputeDeadlineService.ts] *)

Definition DEFAULT_INACTIVITY_TIMEOUT_MS : Z := 30 * 24 * 60 * 60 * 1000.
Definition DEFAULT_SENIOR_REVIEW_TIMEOUT_MS : Z := 14 * 24 * 60 * 60 * 1000.
Definition DEFAULT_AUTO_RESOLVE_REVERSAL_WINDOW_MS : Z := 24 * 60 * 60 * 1000.

Record AutoResolvedDispute : Type := {
  ad_disputeId : string;
  ad_fromStatus : DisputeStatus;
  ad_toStatus : DisputeStatus;
  ad_ruling : Json;
  ad_resolvedAt : Z
}.

Record ScanResult : Type := { sc_resolved : list AutoResolvedDispute; sc_skipped : nat }.

Record DeadlineOptions : Type := {
  do_inactivityTimeoutMs : option Z;
  do_seniorReviewTimeoutMs : option Z;
  do_autoResolveWindowMs : option Z
}.

(** [dispute.ruling ?? "NO_RULING_AVAILABLE"]. *)
Definition defaultRulingFor (d : Dispute) : Json :=
  match d_status d with
  | ADJUDICATED | APPEALED | SENIOR_REVIEW =>
      match d_ruling d with JUndefined | JNull => JStr "NO_RULING_AVAILABLE" | r => r end
  | _ => JStr "TIMEOUT_NO_ACTIVITY"
  end.

Definition lastActivityAt (d : Dispute) : option Z := fr_at <$> last (d_finalityChain d).

(** A time stamp that is set and not zero. *)
Definition time_set (o : option Z) : bool := match o with Some t => negb (t =? 0) | None => false end.

(** [(x).toFixed(f)] of a quotient, the digits of large numbers aside. *)
Definition to_fixed (number_toString : num -> string) (f : nat) (x : num) : string :=
  match x with
  | Fin z =>
      if 10 ^ 21 * U <=? Z.abs z then number_toString x
      else
        let n := (2 * 10 ^ Z.of_nat f * Z.abs z + U) / (2 * U) in
        let int := pretty (n / 10 ^ Z.of_nat f) in
        let sign := if (z <? 0) then "-"%string else ""%string in
        match f with
        | O => (sign +:+ int)%string
        | S _ => (sign +:+ int +:+ "." +:+ pretty (n mod 10 ^ Z.of_nat f))%string
        end
  | _ => number_toString x
  end.

Definition days (ms : num) : num := div ms (of_Z (24 * 60 * 60 * 1000)).
Definition hours (ms : num) : num := div ms (of_Z (60 * 60 * 1000)).

Inductive ReversalErrorCode : Type :=
| NOT_AUTO_RESOLVED | REVERSAL_WINDOW_EXPIRED | REVERSAL_INVALID_STATE (s : DisputeStatus) | DISPUTE_NOT_FOUND.

Create HintDb finality.

Section Disputes.
Context (sha256 : string -> string) (number_toString : num -> string) (locale_gt : string -> string -> bool).

Definition appendFinalityLink (d : Dispute) (s : DisputeStatus) (payload : Json) (ts : Z) : FinalityRecord :=
  {| fr_prevHash := d_finalityHash d;
     fr_hash := sha256 (link_text number_toString (default FINALITY_GENESIS_HASH (d_finalityHash d)) (d_id d) s payload ts);
     fr_status := s; fr_at := ts; fr_payload := payload |}.

(** The loop sorts the pool into excluded arbiters and candidates. *)
Definition selectSeniorPanel (pool : list SeniorArbiter) (d : Dispute) : SeniorPanelSelection :=
  let candidates := filter (fun c => exclusion d c = None) pool in
  {| ss_panel := take SENIOR_PANEL_MIN_SIZE (js_sort (fun a b => locale_gt (sa_id a) (sa_id b)) candidates);
     ss_excluded := omap (fun c => (fun r => (sa_id c, r)) <$> exclusion d c) pool |}.

Section Scan.
Context (o : DeadlineOptions) (now : Z).

Definition inactivityTimeoutMs : Z := default DEFAULT_INACTIVITY_TIMEOUT_MS (do_inactivityTimeoutMs o).
Definition seniorReviewTimeoutMs : Z := default DEFAULT_SENIOR_REVIEW_TIMEOUT_MS (do_seniorReviewTimeoutMs o).
Definition autoResolveWindowMs : Z := default DEFAULT_AUTO_RESOLVE_REVERSAL_WINDOW_MS (do_autoResolveWindowMs o).

(** The switch over the status: the target status and the reason. *)
Definition auto_target (d : Dispute) : option (DisputeStatus * string) :=
  match d_status d with
  | OPEN | EVIDENCED =>
      match lastActivityAt d with
      | None => None
      | Some lastActive =>
          if inactivityTimeoutMs <=? now - lastActive
          then Some (TIMEOUT, "dispute inactive for " +:+
                       to_fixed number_toString 1 (days (elapsed now lastActive)) +:+ " days without progress")%string
          else None
      end
  | ADJUDICATED =>
      if geb (elapsed now (default 0 (d_adjudicatedAt d))) (appeal_window d)
      then Some (CLOSED, "appeal window (" +:+ to_fixed number_toString 0 (hours (appeal_window d)) +:+
                           "h) expired without appeal")%string
      else None
  | APPEALED | SENIOR_REVIEW =>
      if seniorReviewTimeoutMs <=? now - default 0 (d_appealInitiatedAt d)
      then Some (CLOSED, "senior review deadline (" +:+
                   to_fixed number_toString 0 (days (of_Z seniorReviewTimeoutMs)) +:+ "d) elapsed without final decision")%string
      else None
  | FINAL | CLOSED | TIMEOUT => None
  end.

(** One turn of the loop: the dispute after it and its entry in [resolved]. *)
Definition scan_one (d : Dispute) : option (Dispute * AutoResolvedDispute) :=
  if time_set (d_autoResolvedAt d) then None
  else match auto_target d with
       | None => None
       | Some (target, reason) =>
           if negb (canTransition (d_status d) target) then None
           else
             let ruling := defaultRulingFor d in
             let link := appendFinalityLink d target
               (JObj [("autoResolved", JBool true); ("reason", JStr reason); ("ruling", ruling);
                      ("autoResolveWindowMs", JNum (of_Z autoResolveWindowMs))]%string) now in
             Some (set_auto (Some now) (Some autoResolveWindowMs) (push_link link d),
                   {| ad_disputeId := d_id d; ad_fromStatus := d_status d; ad_toStatus := target;
                      ad_ruling := ruling; ad_resolvedAt := now |})
       end.

Definition scanned (d : Dispute) : Dispute := from_option fst d (scan_one d).

(** The scan changes the disputes it is given in place. *)
Definition scanAndAutoResolve (disputes : list Dispute) : ScanResult * list Dispute :=
  ({| sc_resolved := omap (fun d => snd <$> scan_one d) disputes;
      sc_skipped := length (filter (fun d => scan_one d = None) disputes) |},
   map scanned disputes).

End Scan.

(** [chain[chain.length - 2].status], the only link's status, or OPEN. *)
Definition prior_status (chain : list FinalityRecord) : DisputeStatus :=
  match rev chain with
  | _ :: l :: _ => fr_status l
  | [l] => fr_status l
  | [] => OPEN
  end.

Definition reverse_dispute (now : Z) (d : Dispute) : result ReversalErrorCode Dispute :=
  if negb (time_set (d_autoResolvedAt d)) then Err NOT_AUTO_RESOLVED
  else
    let resolvedAt := default 0 (d_autoResolvedAt d) in
    if default DEFAULT_AUTO_RESOLVE_REVERSAL_WINDOW_MS (d_autoResolveWindowMs d) <? now - resolvedAt
    then Err REVERSAL_WINDOW_EXPIRED
    else if negb (bool_decide (d_status d = TIMEOUT)) && negb (bool_decide (d_status d = CLOSED))
    then Err (REVERSAL_INVALID_STATE (d_status d))
    else
      let link := appendFinalityLink d (prior_status (d_finalityChain d))
        (JObj [("autoResolveReversed", JBool true); ("reversedAt", JNum (of_Z now));
               ("previousAutoResolvedAt", JNum (of_Z resolvedAt))]%string) now in
      Ok (set_auto None None (push_link link d)).

Definition reverseAutoResolve (now : Z) (id : string) (disputes : jsmap Dispute) :
    result ReversalErrorCode Dispute * jsmap Dispute :=
  match map_get id disputes with
  | None => (Err DISPUTE_NOT_FOUND, disputes)
  | Some d =>
      match reverse_dispute now d with
      | Err e => (Err e, disputes)
      | Ok d' => (Ok d', map_set id d' disputes)
      end
  end.

(** ** The finality chain *)

Definition link_prev (l : FinalityRecord) : string := default FINALITY_GENESIS_HASH (fr_prevHash l).

Definition link_input (id : string) (l : FinalityRecord) : string :=
  link_text number_toString (link_prev l) id (fr_status l) (fr_payload l) (fr_at l).

Abbreviation links_ok id := (chain_ok sha256 link_prev fr_hash (link_input id) FINALITY_GENESIS_HASH).

(** The chain is intact, the stored hash is the last link's and the status is
    the last link's. *)
Record finality_ok (d : Dispute) : Prop := {
  fo_chain : links_ok (d_id d) (d_finalityChain d);
  fo_hash : d_finalityHash d = fr_hash <$> last (d_finalityChain d);
  fo_status : d_status d = default OPEN (fr_status <$> last (d_finalityChain d))
}.

Lemma push_link_ok d s payload ts :
  finality_ok d -> finality_ok (push_link (appendFinalityLink d s payload ts) d).
Proof.
  intros [Hc Hh Hs]. split; simpl; [|by rewrite last_snoc..]. apply chain_ok_snoc. split; [done|].
  split; [|done]. unfold link_prev, tail_from. simpl. rewrite Hh. by destruct (last (d_finalityChain d)).
Qed.

Lemma add_evidence_ok e d : finality_ok d -> finality_ok (add_evidence e d).
Proof. by intros []. Qed.
Lemma set_ruling_ok r a t d : finality_ok d -> finality_ok (set_ruling r a t d).
Proof. by intros []. Qed.
Lemma set_appeal_ok t p d : finality_ok d -> finality_ok (set_appeal t p d).
Proof. by intros []. Qed.
Lemma set_decision_ok v t r d : finality_ok d -> finality_ok (set_decision v t r d).
Proof. by intros []. Qed.
Lemma set_auto_ok t w d : finality_ok d -> finality_ok (set_auto t w d).
Proof. by intros []. Qed.

Hint Resolve push_link_ok add_evidence_ok set_ruling_ok set_appeal_ok set_decision_ok set_auto_ok : finality.

Lemma open_has_no_links d : finality_ok d -> d_finalityChain d = [] -> d_status d = OPEN.
Proof. intros [_ _ Hs] Hn. by rewrite Hs, Hn. Qed.

(** ** The senior panel *)

Lemma panel_member pool d p :
  p ∈ ss_panel (selectSeniorPanel pool d) -> p ∈ pool /\ exclusion d p = None.
Proof.
  simpl. intros Hin%elem_of_take. destruct Hin as (i & Hl & _). apply list_elem_of_lookup_2 in Hl.
  apply js_sort_elem in Hl. apply list_elem_of_filter in Hl. tauto.
Qed.

Lemma exclusion_None d c :
  exclusion d c = None ->
  (forall a, d_arbiter d = JStr a -> a <> ""%string -> sa_id c <> a) /\
  sa_tenantId c <> d_buyerTenantId d /\ sa_tenantId c <> d_supplierTenantId d.
Proof.
  unfold exclusion. destruct (is_original_arbiter d c) eqn:Eo; [done|].
  destruct (bool_decide _ || bool_decide _) eqn:Et; [done|]. intros _.
  apply orb_false_iff in Et as [?%bool_decide_eq_false ?%bool_decide_eq_false]. split_and!; try done.
  intros a Ha Hne Heq. unfold is_original_arbiter in Eo. rewrite Ha, bool_decide_eq_true_2 in Eo by done.
  by destruct a.
Qed.

Lemma panel_length pool d : (length (ss_panel (selectSeniorPanel pool d)) <= SENIOR_PANEL_MIN_SIZE)%nat.
Proof. simpl. rewrite length_take. lia. Qed.

Lemma panel_nodup pool d :
  NoDup (map sa_id pool) -> NoDup (map sa_id (ss_panel (selectSeniorPanel pool d))).
Proof.
  intros Hnd. simpl. unfold SENIOR_PANEL_MIN_SIZE.
  set (cs := filter (fun c => exclusion d c = None) pool). set (l := js_sort _ cs).
  assert (NoDup (map sa_id l)) as Hl.
  { unfold l. rewrite js_sort_perm. unfold cs. clear l cs. induction pool as [|c pool IH]; [done|].
    simpl in Hnd. apply NoDup_cons in Hnd as [Hn Hnd]. rewrite filter_cons. case_decide; [|by apply IH].
    simpl. apply NoDup_cons. split; [|by apply IH]. intros (x & Hx & [_ Hin]%list_elem_of_filter)%list_elem_of_fmap.
    apply Hn, list_elem_of_fmap. eauto. }
  rewrite <- (take_drop 3 l), map_app in Hl. by apply NoDup_app in Hl as [? _].
Qed.

Lemma on_panel_iff i panel : on_panel i panel = true <-> i ∈ map sa_id panel.
Proof.
  unfold on_panel. rewrite existsb_exists, list_elem_of_fmap. split.
  - intros (p & Hin & <-%bool_decide_eq_true). exists p. split; [done|]. by apply list_elem_of_In.
  - intros (p & -> & Hin). exists p. split; [by apply list_elem_of_In|]. by apply bool_decide_eq_true.
Qed.

Lemma check_votes_None panel seen votes :
  check_votes panel seen votes = None <->
  NoDup (map pv_arbiterId votes) /\ (forall i, i ∈ map pv_arbiterId votes -> i ∈ map sa_id panel /\ i ∉ seen).
Proof.
  revert seen. induction votes as [|v votes IH]; intros seen; simpl.
  { split; [|done]. intros _. split; [constructor|]. by intros i ?%elem_of_nil. }
  rewrite NoDup_cons. destruct (on_panel (pv_arbiterId v) panel) eqn:Ep; simpl.
  2:{ split; [done|]. intros [_ H]. destruct (H (pv_arbiterId v)) as [Hin _]; [constructor|].
      apply on_panel_iff in Hin. congruence. }
  apply on_panel_iff in Ep. case_bool_decide as Hs.
  { split; [done|]. intros [_ H]. destruct (H (pv_arbiterId v)) as [_ Hin]; [constructor|]. done. }
  rewrite IH. split.
  - intros [Hnd H]. split; [split; [|done]|].
    + intros Hin. apply H in Hin as [_ Hin]. apply Hin, elem_of_app. right. constructor.
    + intros i [->|Hin]%elem_of_cons; [done|]. apply H in Hin as [? Hin]. split; [done|].
      intros Hi. apply Hin, elem_of_app. by left.
  - intros [[Hn Hnd] H]. split; [done|]. intros i Hi. destruct (H i) as [? ?]; [by constructor|]. split; [done|].
    intros [?|Heq%list_elem_of_singleton]%elem_of_app; [done|]. by subst.
Qed.

(** A decision is accepted exactly when every member of the panel has voted
    exactly once and nobody else has. *)
Lemma decision_valid_iff d votes :
  NoDup (map sa_id (default [] (d_panel d))) ->
  validateSeniorDecision d votes = None <->
  d_status d = SENIOR_REVIEW /\ exists panel, d_panel d = Some panel /\ panel <> [] /\
    map pv_arbiterId votes ≡ₚ map sa_id panel.
Proof.
  intros Hnd. unfold validateSeniorDecision. case_bool_decide as Hs; simpl; [|split; [done|tauto]].
  destruct (d_panel d) as [[|p panel]|]; simpl in Hnd.
  1,3: split; [done|]; intros (_ & q & Hq & ? & _); congruence.
  destruct (Nat.eqb_spec (length votes) (length (p :: panel))) as [Hl|Hl].
  - cbn [negb]. rewrite check_votes_None. split.
    + intros [Hv Hin]. split; [done|]. exists (p :: panel). split_and!; try done.
      apply NoDup_Permutation_bis; [by apply NoDup_ListNoDup|rewrite !length_map; lia|].
      intros i Hi%list_elem_of_In. apply list_elem_of_In. by apply Hin.
    + intros (_ & q & [= <-] & _ & Hp). split; [by rewrite Hp|]. intros i Hi. split; [by rewrite <- Hp|apply not_elem_of_nil].
  - cbn [negb]. split; [done|]. intros (_ & q & [= <-] & _ & Hp). exfalso. apply Hl.
    apply Permutation_length in Hp. by rewrite !length_map in Hp.
Qed.

Definition upholds (v : SeniorPanelVote) : Prop := pv_vote v = "UPHOLD"%string.

#[global] Instance upholds_dec v : Decision (upholds v).
Proof. unfold upholds. apply _. Defined.

Lemma majority_count votes :
  decideByMajority votes = UPHOLD <->
  (length votes <= 2 * length (filter upholds votes))%nat.
Proof.
  unfold decideByMajority.
  assert (forall u o, fold_left count_votes votes (u, o) =
    (u + length (filter upholds votes), o + (length votes - length (filter upholds votes)))%nat /\
    (length (filter upholds votes) <= length votes)%nat) as Hf.
  { induction votes as [|v votes IH]; intros u o; simpl; [split; [f_equal; lia|lia]|].
    unfold count_votes at 2. rewrite filter_cons.
    case_bool_decide as Hv; case_decide; try done; simpl.
    - destruct (IH (S u) o) as [-> ?]. split; [f_equal; lia|lia].
    - destruct (IH u (S o)) as [-> ?]. split; [f_equal; lia|lia]. }
  destruct (Hf 0 0)%nat as [-> Hle]. simpl.
  destruct (Nat.leb_spec (length votes - length (filter upholds votes)) (length (filter upholds votes)));
    split; intros; try done; lia.
Qed.

(** ** The deadline scan *)

(** A dispute nobody may wait for any longer. *)
Definition overdue (o : DeadlineOptions) (now : Z) (d : Dispute) : Prop :=
  time_set (d_autoResolvedAt d) = false /\
  match d_status d with
  | OPEN | EVIDENCED => exists l, last (d_finalityChain d) = Some l /\ inactivityTimeoutMs o <= now - fr_at l
  | ADJUDICATED => leb (appeal_window d) (elapsed now (default 0 (d_adjudicatedAt d))) = true
  | APPEALED | SENIOR_REVIEW => seniorReviewTimeoutMs o <= now - default 0 (d_appealInitiatedAt d)
  | FINAL | CLOSED | TIMEOUT => False
  end.

Definition timed_out_status (s : DisputeStatus) : DisputeStatus :=
  match s with OPEN | EVIDENCED => TIMEOUT | _ => CLOSED end.

(** Everything but the status, the chain and the marks of the scan. *)
Definition case_file (d : Dispute) :=
  (d_id d, d_buyerId d, d_supplierId d, d_buyerTenantId d, d_supplierTenantId d, d_amount d,
   (d_evidence d, d_ruling d, d_arbiter d, d_adjudicatedAt d, d_appealWindowMs d),
   (d_appealInitiatedAt d, d_panel d, d_panelVotes d, d_seniorDecisionAt d, d_finalRuling d)).

(** What the scan does to an overdue dispute. *)
Definition auto_resolved (o : DeadlineOptions) (now : Z) (d d' : Dispute) : Prop :=
  exists l, d_finalityChain d' = d_finalityChain d ++ [l] /\ fr_at l = now /\
    d_status d' = timed_out_status (d_status d) /\ canTransition (d_status d) (d_status d') = true /\
    d_autoResolvedAt d' = Some now /\ d_autoResolveWindowMs d' = Some (autoResolveWindowMs o) /\
    case_file d' = case_file d.

Lemma auto_target_spec o now d :
  time_set (d_autoResolvedAt d) = false ->
  match auto_target o now d with
  | Some (t, _) => overdue o now d /\ t = timed_out_status (d_status d) /\ canTransition (d_status d) t = true
  | None => ~ overdue o now d
  end.
Proof.
  intros Ha. unfold auto_target, overdue, lastActivityAt, geb. destruct (d_status d); simpl.
  1,2: destruct (last (d_finalityChain d)) as [l|]; simpl; [|by intros (_ & l & Hl & _)];
    destruct (Z.leb_spec (inactivityTimeoutMs o) (now - fr_at l)); [by eauto 10|];
    intros (_ & l' & [= <-] & ?); lia.
  1: destruct (leb _ _); [by auto|by intros [_ ?]].
  1,2: destruct (Z.leb_spec (seniorReviewTimeoutMs o) (now - default 0 (d_appealInitiatedAt d))); [by auto|];
    intros [_ ?]; lia.
  all: by intros [_ []].
Qed.

Lemma scan_one_spec o now d :
  match scan_one o now d with
  | Some (d', r) => overdue o now d /\ auto_resolved o now d d' /\ ad_disputeId r = d_id d /\
                    ad_fromStatus r = d_status d /\ ad_toStatus r = d_status d' /\ (finality_ok d -> finality_ok d')
  | None => ~ overdue o now d
  end.
Proof.
  unfold scan_one. destruct (time_set (d_autoResolvedAt d)) eqn:Ea; [intros [? _]; congruence|].
  pose proof (auto_target_spec o now d Ea) as Ht. destruct (auto_target o now d) as [[t reason]|]; [|done].
  destruct Ht as (Ho & -> & Hc). rewrite Hc. cbn [negb]. split; [done|].
  split; [eexists; by split_and!|]. split_and!; try done. intros Hf. by apply set_auto_ok, push_link_ok.
Qed.

Lemma overdue_dec o now d : overdue o now d \/ ~ overdue o now d.
Proof. pose proof (scan_one_spec o now d). destruct (scan_one o now d) as [[]|]; tauto. Qed.

Lemma scanned_spec o now d :
  (overdue o now d -> auto_resolved o now d (scanned o now d)) /\ (~ overdue o now d -> scanned o now d = d).
Proof.
  pose proof (scan_one_spec o now d) as Hs. unfold scanned. destruct (scan_one o now d) as [[d' r]|]; simpl; tauto.
Qed.

(** Nothing is left overdue at the time of the scan. *)
Lemma scanned_not_overdue o now d : ~ overdue o now (scanned o now d).
Proof.
  destruct (overdue_dec o now d) as [Ho|Hn]; [|by rewrite (proj2 (scanned_spec o now d) Hn)].
  destruct (proj1 (scanned_spec o now d) Ho) as (l & _ & _ & Hs & _ & _). unfold overdue. rewrite Hs.
  destruct (d_status d); simpl; tauto.
Qed.

Lemma scan_partition o now ds :
  (length (sc_resolved (fst (scanAndAutoResolve o now ds))) + sc_skipped (fst (scanAndAutoResolve o now ds)) =
   length ds)%nat.
Proof.
  simpl. induction ds as [|d ds IH]; [done|]. rewrite filter_cons. simpl.
  case_decide as Hd; [rewrite Hd; simpl; unfold omap in IH; lia|]. destruct (scan_one o now d); [simpl; unfold omap in IH; lia|done].
Qed.

(** The deadline scan resolves exactly the overdue disputes: a dispute that
    is overdue moves along an allowed transition to TIMEOUT or CLOSED, with one
    link appended and nothing else of the case changed; every other dispute is
    untouched; the report accounts for every dispute; and a second scan at the
    same time finds nothing to do. *)
Theorem scan_exact o now ds :
  let '(res, ds') := scanAndAutoResolve o now ds in
  length ds' = length ds /\ (length (sc_resolved res) + sc_skipped res = length ds)%nat /\
  (forall i d, ds !! i = Some d -> exists d', ds' !! i = Some d' /\
     (overdue o now d -> auto_resolved o now d d') /\ (~ overdue o now d -> d' = d)) /\
  snd (scanAndAutoResolve o now ds') = ds' /\ sc_resolved (fst (scanAndAutoResolve o now ds')) = [].
Proof.
  destruct (scanAndAutoResolve o now ds) as [res ds'] eqn:E. pose proof (scan_partition o now ds) as Hp.
  rewrite E in Hp. injection E as <- <-. simpl in Hp. split_and!; [by rewrite length_map|done|..].
  - intros i d Hd. exists (scanned o now d). rewrite list_lookup_fmap, Hd. split; [done|]. apply scanned_spec.
  - simpl. rewrite map_map. apply map_ext. intros d. apply (scanned_spec o now), scanned_not_overdue.
  - simpl. clear Hp. induction ds as [|d ds IH]; [done|]. simpl. pose proof (scan_one_spec o now (scanned o now d)) as Hs.
    destruct (scan_one o now (scanned o now d)) as [[]|]; [|done]. destruct Hs as [Hs _]. by apply scanned_not_overdue in Hs.
Qed.

(** ** Reversal *)

Lemma prior_of_snoc chain p l : prior_status ((chain ++ [p]) ++ [l]) = fr_status p.
Proof. unfold prior_status. by rewrite !rev_app_distr. Qed.

(** An overdue dispute has a link, the last of which carries its status. *)
Lemma overdue_last o now d :
  finality_ok d -> overdue o now d -> exists c l, d_finalityChain d = c ++ [l] /\ fr_status l = d_status d.
Proof.
  intros [_ _ Hs] [_ Ho]. destruct (d_finalityChain d) as [|l c _] using rev_ind.
  - rewrite Hs in Ho. simpl in Ho. by destruct Ho as (l & ? & _).
  - exists c, l. split; [done|]. by rewrite Hs, last_snoc.
Qed.

Lemma reverse_undoes_scan o now now' d d' r :
  finality_ok d -> scan_one o now d = Some (d', r) ->
  now <> 0 -> now' - now <= autoResolveWindowMs o ->
  exists d'', reverse_dispute now' d' = Ok d'' /\ d_status d'' = d_status d /\ case_file d'' = case_file d /\
    d_autoResolvedAt d'' = None /\ d_autoResolveWindowMs d'' = None /\ finality_ok d'' /\
    exists l1 l2, d_finalityChain d'' = d_finalityChain d ++ [l1; l2].
Proof.
  intros Hf Hs Hnow Hw. pose proof (scan_one_spec o now d) as Hspec. rewrite Hs in Hspec.
  destruct Hspec as (Ho & (l & Hc & _ & Hst & _ & Ha & Haw & Hcase) & _ & _ & _ & Hf'). specialize (Hf' Hf).
  destruct (overdue_last o now d Hf Ho) as (c & p & Hcd & Hp).
  assert (prior_status (d_finalityChain d') = d_status d) as Hprior.
  { by rewrite Hc, Hcd, prior_of_snoc. }
  unfold reverse_dispute, time_set. rewrite Ha, Haw. simpl. rewrite (proj2 (Z.eqb_neq now 0) Hnow). cbn [negb].
  destruct (Z.ltb_spec (autoResolveWindowMs o) (now' - now)); [lia|].
  replace (negb _ && negb _) with false.
  2:{ rewrite Hst. unfold timed_out_status. by destruct (d_status d). }
  eexists. split; [done|]. split; [done|]. split; [exact Hcase|]. split_and!; try done.
  - by apply set_auto_ok, push_link_ok.
  - exists l. eexists. simpl. rewrite Hc, <- app_assoc. done.
Qed.

(** Undoing a deadline: a dispute that the scan resolved can be reversed
    within the window, and is then exactly as before the scan: the same status
    and the same case, no mark of the scan, and an intact chain that is longer by
    the two transitions. *)
Theorem scan_reverse_roundtrip o now now' d d' r :
  finality_ok d -> scan_one o now d = Some (d', r) ->
  now <> 0 -> now' - now <= autoResolveWindowMs o ->
  exists d'', reverse_dispute now' d' = Ok d'' /\ d_status d'' = d_status d /\ case_file d'' = case_file d /\
    d_autoResolvedAt d'' = None /\ d_autoResolveWindowMs d'' = None /\ finality_ok d'' /\
    exists l1 l2, d_finalityChain d'' = d_finalityChain d ++ [l1; l2].
Proof. apply reverse_undoes_scan. Qed.

(** Reversing the closure of an adjudicated dispute gives nobody a right back:
    the appeal window stays shut, and the next scan closes the dispute again. *)
Lemma reversed_closure_is_void o now now' t d d' r d'' at_ :
  d_status d = ADJUDICATED -> d_adjudicatedAt d = Some at_ ->
  scan_one o now d = Some (d', r) -> reverse_dispute now' d' = Ok d'' -> finality_ok d -> now <> 0 ->
  0 <= at_ <= 2 ^ 52 -> 0 <= now <= 2 ^ 52 -> now < t <= 2 ^ 52 ->
  isWithinAppealWindow d'' t = false /\ overdue o t d''.
Proof.
  intros Hst Hat Hs Hr Hf Hnow Bat Bnow Bt. pose proof (scan_one_spec o now d) as Hspec. rewrite Hs in Hspec.
  destruct Hspec as ((_ & Hov) & (l & Hc & _ & Hst' & _ & Ha & Haw & Hcase) & _).
  destruct (Z.le_gt_cases (now' - now) (autoResolveWindowMs o)) as [Hw|Hw].
  2:{ exfalso. unfold reverse_dispute, time_set in Hr. rewrite Ha, Haw in Hr. simpl in Hr.
      rewrite (proj2 (Z.eqb_neq now 0) Hnow) in Hr. cbn [negb] in Hr.
      by rewrite (proj2 (Z.ltb_lt (autoResolveWindowMs o) (now' - now)) Hw) in Hr. }
  destruct (reverse_undoes_scan o now now' d d' r Hf Hs Hnow Hw) as (e & He & Hes & Hec & Hea & _).
  assert (e = d'') as -> by congruence. rewrite Hst in Hov, Hes. rewrite Hat in Hov. simpl in Hov.
  unfold case_file in Hec. injection Hec as _ _ _ _ _ _ _ _ _ Hat' Hwin' _ _ _ _ _. rewrite Hat in Hat'.
  assert (appeal_window d'' = appeal_window d) as Hwin by (unfold appeal_window; by rewrite Hwin').
  unfold isWithinAppealWindow, overdue. rewrite Hat', Hes, Hea, Hwin. simpl. unfold elapsed in *.
  rewrite !ms_until_exact in * by lia. destruct (appeal_window d) as [w| | |]; try done.
  rewrite leb_fin in *. apply Z.leb_le in Hov. pose proof U_pos. rewrite Z.leb_gt, leb_fin, Z.leb_le. nia.
Qed.

(** ** Commitment *)

Section Commitment.
Hypothesis sha256_injective : forall x y, sha256 x = sha256 y -> x = y.
Hypothesis sha256_hex : forall x, no_bar (sha256 x) = true /\ sha256 x <> FINALITY_GENESIS_HASH.

Lemma status_text_inj s t : status_text s = status_text t -> s = t.
Proof. by destruct s, t. Qed.

Lemma status_text_no_bar s : no_bar (status_text s) = true.
Proof. by destruct s. Qed.

Lemma link_input_committed id l1 l2 :
  no_bar (link_prev l1) = true -> no_bar (link_prev l2) = true ->
  link_input id l1 = link_input id l2 -> link_prev l1 = link_prev l2 /\ fr_status l1 = fr_status l2.
Proof.
  unfold link_input, link_text. intros N1 N2 Heq. apply split_at_bar in Heq as [Hp Heq]; [|done..].
  split; [done|]. apply (inj (String.append id)) in Heq. apply (inj (String.append "|")) in Heq.
  apply split_at_bar in Heq as [Hs _]; [|apply status_text_no_bar..]. by apply status_text_inj.
Qed.

Lemma links_no_bar id c : links_ok id c -> Forall (fun l => no_bar (link_prev l) = true) c.
Proof.
  apply (chain_ok_prevs sha256 _ _ _ (fun s => no_bar s = true)); [done|]. intros x. apply sha256_hex.
Qed.

(** The finality hash commits to the life cycle: if the hash has no
    collisions and yields digests, two records of a dispute with intact chains
    and the same finality hash went through the same statuses, and everything that
    was hashed into their links is equal link by link. *)
Theorem finality_hash_commits d1 d2 :
  finality_ok d1 -> finality_ok d2 -> d_id d1 = d_id d2 -> d_finalityHash d1 = d_finalityHash d2 ->
  map (link_input (d_id d1)) (d_finalityChain d1) = map (link_input (d_id d2)) (d_finalityChain d2) /\
  map fr_status (d_finalityChain d1) = map fr_status (d_finalityChain d2) /\ d_status d1 = d_status d2.
Proof.
  intros [C1 H1 S1] [C2 H2 S2] Hid Hh. rewrite <- Hid in *.
  pose proof (links_no_bar _ _ C1) as N1. pose proof (links_no_bar _ _ C2) as N2.
  assert (map (link_input (d_id d1)) (d_finalityChain d1) = map (link_input (d_id d1)) (d_finalityChain d2)) as Heq.
  { apply (tail_commits sha256 link_prev fr_hash (link_input (d_id d1)) sha256_injective FINALITY_GENESIS_HASH
      (fun x => proj2 (sha256_hex x)) (fun l => no_bar (link_prev l) = true)); try done.
    - intros l1 l2 P1 P2 E. by destruct (link_input_committed (d_id d1) l1 l2 P1 P2 E).
    - rewrite Hh, H2 in H1. unfold tail_from. by destruct (last (d_finalityChain d1)), (last (d_finalityChain d2)); simplify_eq/=. }
  assert (map fr_status (d_finalityChain d1) = map fr_status (d_finalityChain d2)) as Hst.
  { clear -Heq N1 N2 sha256_injective sha256_hex. revert Heq N1 N2. generalize (d_finalityChain d1) (d_finalityChain d2).
    induction l as [|x l IH]; intros [|y l0] Heq N1 N2; simpl in *; try done. injection Heq as Hx Hl.
    apply Forall_cons in N1 as [Nx N1]. apply Forall_cons in N2 as [Ny N2].
    destruct (link_input_committed _ x y Nx Ny Hx) as [_ ->]. f_equal. by apply IH. }
  split_and!; [done|done|]. rewrite S1, S2, <- !fmap_last.
  change (fr_status <$> d_finalityChain d1) with (map fr_status (d_finalityChain d1)). by rewrite Hst.
Qed.

End Commitment.

End Disputes.

(** ** A dispute that times out and is reopened *)

Definition w_hex (s : string) : string := w_sha s.
Definition w_print (_ : num) : string := "0".

Definition w_open : Dispute :=
  {| d_id := "d"; d_status := OPEN; d_buyerId := "b"; d_supplierId := "s"; d_buyerTenantId := "b"; d_supplierTenantId := "s";
     d_amount := zero; d_evidence := []; d_ruling := JUndefined; d_arbiter := JUndefined; d_adjudicatedAt := None;
     d_finalityHash := None; d_finalityChain := []; d_appealWindowMs := None; d_appealInitiatedAt := None; d_panel := None;
     d_panelVotes := None; d_seniorDecisionAt := None; d_finalRuling := None; d_autoResolvedAt := None;
     d_autoResolveWindowMs := None |}.

Definition w_evidenced : Dispute :=
  push_link (appendFinalityLink w_hex w_print w_open EVIDENCED (JObj []) 1) w_open.

Lemma w_evidenced_ok : finality_ok w_hex w_print w_evidenced.
Proof. apply push_link_ok. by split. Qed.

Definition w_options : DeadlineOptions :=
  {| do_inactivityTimeoutMs := Some 1000; do_seniorReviewTimeoutMs := None; do_autoResolveWindowMs := None |}.

Lemma scan_reverse_roundtrip_witness :
  exists d' r d'', scan_one w_hex w_print w_options 2000 w_evidenced = Some (d', r) /\ d_status d' = TIMEOUT /\
    reverse_dispute w_hex w_print 3000 d' = Ok d'' /\ d_status d'' = EVIDENCED.
Proof.
  destruct (scan_one w_hex w_print w_options 2000 w_evidenced) as [[d' r]|] eqn:E; [|vm_compute in E; discriminate].
  destruct (scan_reverse_roundtrip w_hex w_print w_options 2000 3000 w_evidenced d' r w_evidenced_ok E) as (d'' & Hr & Hs & _);
    [discriminate|vm_compute; discriminate|].
  exists d', r, d''. split; [reflexivity|]. split; [vm_compute in E; injection E as <- _; reflexivity|].
  split; [exact Hr|exact Hs].
Defined.

Lemma w_hex_digest x : no_bar (w_hex x) = true /\ w_hex x <> FINALITY_GENESIS_HASH.
Proof. split; [apply w_sha_hex|]. intros Heq. vm_compute in Heq. discriminate. Qed.

Lemma finality_hash_commits_witness :
  map fr_status (d_finalityChain w_evidenced) = map fr_status (d_finalityChain w_evidenced) /\ d_status w_evidenced = EVIDENCED.
Proof.
  destruct (finality_hash_commits w_hex w_print w_sha_injective w_hex_digest w_evidenced w_evidenced
    w_evidenced_ok w_evidenced_ok eq_refl eq_refl) as (_ & H & _).
  split; [exact H|reflexivity].
Defined.
