(* ===== verification/DisputeDesk.v ===== *)
(** * DisputeDesk: the dispute handlers

    The dispute routes of [routes/admin.ts]: create, evidence, adjudicate, appeal,
    senior decision, timeout, finality, the deadline scan and its reversal, over
    the dispute map, the two ledger balances, the pool of senior arbiters and the
    arbitration queue.  Every handler but [appeal] changes the state in one
    section without an await; [appeal] awaits the audit log between its checks and
    its changes.  Ids and times are chosen by the environment; the coercions
    [Number(x)] and [String(x)] of the language are parameters, except on the
    values where the code depends on them. *)
From stdpp Require Import base list strings relations.
From Stdlib Require Import ZArith Lia.
From S2P Require Import Prelude JsNumber Async JsMap HashChain Domain Canonical Arbitration Disputes.
Local Open Scope Z_scope.

Record Desk : Type := {
  dk_disputes : jsmap Dispute;
  dk_buyer : num;
  dk_supplier : num;
  dk_pool : SeniorPool;
  dk_queue : Queue
}.

Definition initial_desk : Desk :=
  {| dk_disputes := []; dk_buyer := of_Z 1000; dk_supplier := of_Z 1000; dk_pool := []; dk_queue := [] |}.

Inductive DeskError : Type :=
| DisputeNotFound
| EvidenceUploadFailed
| INVALID_STATE_TRANSITION (s : DisputeStatus)
| APPEAL_OF_APPEAL_REJECTED (s : DisputeStatus)
| APPEAL_WINDOW_EXPIRED
| INSUFFICIENT_SENIOR_POOL (found : nat)
| SeniorDecisionRejected (c : SeniorDecisionCode)
| ReversalRejected (c : ReversalErrorCode).

Definition http_status (e : DeskError) : Z :=
  match e with
  | DisputeNotFound => 404
  | EvidenceUploadFailed => 500
  | INVALID_STATE_TRANSITION _ | APPEAL_OF_APPEAL_REJECTED _ => 409
  | APPEAL_WINDOW_EXPIRED => 410
  | INSUFFICIENT_SENIOR_POOL _ => 503
  | SeniorDecisionRejected _ => 400
  | ReversalRejected DISPUTE_NOT_FOUND => 404
  | ReversalRejected NOT_AUTO_RESOLVED => 400
  | ReversalRejected REVERSAL_WINDOW_EXPIRED => 410
  | ReversalRejected (REVERSAL_INVALID_STATE _) => 409
  end.

(** ** Reading request bodies *)

Definition body_field (key : string) (body : Json) : Json :=
  match body with JObj fs => field key fs | _ => JUndefined end.

Definition readStringField (body : Json) (key fallback : string) : string :=
  match body_field key body with
  | JStr s => if str_truthy s then s else fallback
  | _ => fallback
  end.

Definition readNumber (body : Json) (key : string) (fallback : num) : num :=
  match body_field key body with
  | JNum n => if is_finite n then n else fallback
  | _ => fallback
  end.

Definition read_tier (body : Json) : BuyerTier :=
  match body_field "buyerTier" body with
  | JStr s =>
      if bool_decide (s = "silver"%string) then silver
      else if bool_decide (s = "gold"%string) then gold
      else if bool_decide (s = "platinum"%string) then platinum else bronze
  | _ => bronze
  end.

Definition favours_buyer (ruling : Json) : bool :=
  match ruling with JStr s => bool_decide (s = "BUYER_FAVOR"%string) | _ => false end.

Section Handlers.
Context (sha256 : string -> string) (number_toString : num -> string) (locale_gt : string -> string -> bool).
Context (to_number : Json -> num) (to_text : Json -> string).

Abbreviation link := (appendFinalityLink sha256 number_toString).

(** [Number(body?.appealWindowMs)], when it is finite and positive. *)
Definition read_window (body : Json) : option num :=
  let parsed := to_number (body_field "appealWindowMs" body) in
  if is_finite parsed && ltb zero parsed then Some parsed else None.

(** ** Sections *)

Abbreviation Sec := (M Desk DeskError).

Definition set_disputes (m : jsmap Dispute) (k : Desk) : Desk :=
  {| dk_disputes := m; dk_buyer := dk_buyer k; dk_supplier := dk_supplier k; dk_pool := dk_pool k; dk_queue := dk_queue k |}.
Definition set_queue (q : Queue) (k : Desk) : Desk :=
  {| dk_disputes := dk_disputes k; dk_buyer := dk_buyer k; dk_supplier := dk_supplier k; dk_pool := dk_pool k; dk_queue := q |}.
Definition set_pool (p : SeniorPool) (k : Desk) : Desk :=
  {| dk_disputes := dk_disputes k; dk_buyer := dk_buyer k; dk_supplier := dk_supplier k; dk_pool := p; dk_queue := dk_queue k |}.

(** [ledgers.buyer += amount; ledgers.supplier -= amount], or the converse. *)
Definition move_funds (to_buyer : bool) (amount : num) (k : Desk) : Desk :=
  {| dk_disputes := dk_disputes k;
     dk_buyer := if to_buyer then add (dk_buyer k) amount else sub (dk_buyer k) amount;
     dk_supplier := if to_buyer then sub (dk_supplier k) amount else add (dk_supplier k) amount;
     dk_pool := dk_pool k; dk_queue := dk_queue k |}.

Definition find_dispute (id : string) : Sec Dispute :=
  k ← get; of_option (map_get id (dk_disputes k)) DisputeNotFound.

Definition save (id : string) (d : Dispute) : Sec unit :=
  modify (fun k => set_disputes (map_set id d (dk_disputes k)) k).

Definition new_dispute (id : string) (body : Json) : Dispute :=
  let buyerId := readStringField body "buyerId" "" in
  let supplierId := readStringField body "supplierId" "" in
  {| d_id := id; d_status := OPEN; d_buyerId := buyerId; d_supplierId := supplierId;
     d_buyerTenantId := readStringField body "buyerTenantId" buyerId;
     d_supplierTenantId := readStringField body "supplierTenantId" supplierId;
     d_amount := readNumber body "amount" zero; d_evidence := []; d_ruling := JUndefined; d_arbiter := JUndefined;
     d_adjudicatedAt := None; d_finalityHash := None; d_finalityChain := [];
     d_appealWindowMs := read_window body; d_appealInitiatedAt := None; d_panel := None;
     d_panelVotes := None; d_seniorDecisionAt := None; d_finalRuling := None; d_autoResolvedAt := None;
     d_autoResolveWindowMs := None |}.

(** [POST /disputes]; the clock is read twice for the queue entry. *)
Definition create_section (id : string) (now now' : Z) (body : Json) : Sec Dispute :=
  let d := new_dispute id body in
  _ ← save id d;
  _ ← modify (fun k => set_queue (snd (enqueueDispute
        {| qin_disputeId := Some id; qin_id := None; qin_amount := d_amount d; qin_buyerTier := read_tier body;
           qin_createdAt := now; qin_queuedAt := now' |} (dk_queue k))) k);
  mret d.

(** [POST /disputes/:id/evidence]. *)
Definition evidence_section (now : Z) (id : string) (body : Json) : Sec Dispute :=
  d ← find_dispute id;
  _ ← guard (json_truthy (body_field "failUpload" body)) EvidenceUploadFailed;
  _ ← guard (negb (canTransition (d_status d) EVIDENCED)) (INVALID_STATE_TRANSITION (d_status d));
  let d1 := add_evidence (body_field "evidence" body) d in
  let l := link d1 EVIDENCED (JObj [("evidenceCount"%string, JNum (of_Z (Z.of_nat (length (d_evidence d1)))))]) now in
  let d2 := push_link l d1 in
  _ ← save id d2;
  mret d2.

(** [POST /disputes/:id/adjudicate]. *)
Definition adjudicate_section (now : Z) (id : string) (body : Json) : Sec Dispute :=
  d ← find_dispute id;
  let ruling := body_field "ruling" body in
  let arbiter := body_field "arbiter" body in
  _ ← guard (negb (canTransition (d_status d) ADJUDICATED)) (INVALID_STATE_TRANSITION (d_status d));
  let d1 := set_ruling ruling arbiter now d in
  let l := link d1 ADJUDICATED (JObj [("ruling", JStr (to_text ruling)); ("arbiter", JStr (to_text arbiter))]%string) now in
  let d2 := push_link l d1 in
  _ ← save id d2;
  _ ← modify (fun k => set_queue (removeDispute id (dk_queue k)) k);
  _ ← modify (move_funds (favours_buyer ruling) (d_amount d2));
  mret d2.

(** [POST /disputes/:id/appeal], up to the await: the checks and the panel. *)
Definition appeal_check (now : Z) (id : string) : Sec (list SeniorArbiter) :=
  d ← find_dispute id;
  _ ← guard (negb (bool_decide (d_status d = ADJUDICATED)))
        (match d_status d with
         | APPEALED | SENIOR_REVIEW => APPEAL_OF_APPEAL_REJECTED (d_status d)
         | _ => INVALID_STATE_TRANSITION (d_status d)
         end);
  _ ← guard (negb (isWithinAppealWindow d now)) APPEAL_WINDOW_EXPIRED;
  k ← get;
  let panel := ss_panel (selectSeniorPanel locale_gt (getSeniorPool (dk_pool k)) d) in
  _ ← guard (length panel <? SENIOR_PANEL_MIN_SIZE)%nat (INSUFFICIENT_SENIOR_POOL (length panel));
  mret panel.

Definition panel_json (panel : list SeniorArbiter) : Json := JArr (map (fun p => JStr (sa_id p)) panel).

Definition appealed (now : Z) (actor : string) (panel : list SeniorArbiter) (d : Dispute) : Dispute :=
  let l1 := link d APPEALED (JObj [("actor", JStr actor); ("panel", panel_json panel)]%string) now in
  let d1 := set_appeal now panel (push_link l1 d) in
  let l2 := link d1 SENIOR_REVIEW (JObj [("panel"%string, panel_json panel)]) now in
  push_link l2 d1.

(** After the await: the two transitions. *)
Definition appeal_apply (now : Z) (actor : string) (panel : list SeniorArbiter) (id : string) : Sec Dispute :=
  d ← find_dispute id;
  let d' := appealed now actor panel d in
  _ ← save id d';
  mret d'.

Definition vote_json (v : SeniorPanelVote) : Json :=
  JObj [("arbiterId", JStr (pv_arbiterId v)); ("vote", JStr (pv_vote v))]%string.

Definition outcome_text (o : VoteOutcome) : string := match o with UPHOLD => "UPHOLD" | OVERTURN => "OVERTURN" end.

Definition decision_payload (votes : list SeniorPanelVote) : Json :=
  JObj [("outcome", JStr (outcome_text (decideByMajority votes))); ("votes", JArr (map vote_json votes))]%string.

(** [POST /disputes/:id/senior-decide]. *)
Definition decide_section (now : Z) (id : string) (votes : list SeniorPanelVote) : Sec Dispute :=
  d ← find_dispute id;
  _ ← match validateSeniorDecision d votes with
      | Some c => raise (SeniorDecisionRejected c)
      | None => mret tt
      end;
  let outcome := decideByMajority votes in
  let l := link d FINAL (decision_payload votes) now in
  let d' := set_decision votes now (match outcome with UPHOLD => UPHELD | OVERTURN => OVERTURNED end) (push_link l d) in
  _ ← save id d';
  _ ← match outcome with
      | OVERTURN =>
          if json_truthy (d_ruling d) then modify (move_funds (negb (favours_buyer (d_ruling d))) (d_amount d)) else mret tt
      | UPHOLD => mret tt
      end;
  mret d'.

(** [GET /disputes/:id/finality]. *)
Definition finality_section (id : string) : Sec (option string * list FinalityRecord) :=
  d ← find_dispute id; mret (d_finalityHash d, d_finalityChain d).

(** [POST /disputes/:id/timeout]. *)
Definition timeout_section (now : Z) (id : string) : Sec Dispute :=
  d ← find_dispute id;
  _ ← guard (negb (canTransition (d_status d) TIMEOUT)) (INVALID_STATE_TRANSITION (d_status d));
  let d' := push_link (link d TIMEOUT (JObj []) now) d in
  _ ← save id d';
  _ ← modify (fun k => set_queue (removeDispute id (dk_queue k)) k);
  mret d'.

(** [POST /disputes/deadline/scan], and each tick of the deadline scheduler: the
    disputes are the objects in the map. *)
Definition scan_section (o : DeadlineOptions) (now : Z) : Sec ScanResult :=
  k ← get;
  let '(res, ds) := scanAndAutoResolve sha256 number_toString o now (map_values (dk_disputes k)) in
  _ ← modify (set_disputes (zip (map_keys (dk_disputes k)) ds));
  mret res.

(** [POST /disputes/:id/reverse-auto-resolve]. *)
Definition reverse_section (now : Z) (id : string) : Sec Dispute :=
  k ← get;
  let '(r, m) := reverseAutoResolve sha256 number_toString now id (dk_disputes k) in
  _ ← modify (set_disputes m);
  match r with Ok d => mret d | Err c => raise (ReversalRejected c) end.

Definition add_arbiter_section (a : SeniorArbiter) : Sec unit := modify (fun k => set_pool (addSeniorArbiter a (dk_pool k)) k).
Definition remove_arbiter_section (i : string) : Sec unit := modify (fun k => set_pool (removeSeniorArbiter i (dk_pool k)) k).

(** ** Handlers *)

Inductive DeskEv : Type -> Type :=
| CreateEv (body : Json) : DeskEv (result DeskError Dispute)
| EvidenceEv (id : string) (body : Json) : DeskEv (result DeskError Dispute)
| AdjudicateEv (id : string) (body : Json) : DeskEv (result DeskError Dispute)
| AppealCheckEv (now : Z) (id : string) : DeskEv (result DeskError (list SeniorArbiter))
| AppealApplyEv (now : Z) (actor : string) (panel : list SeniorArbiter) (id : string) : DeskEv (result DeskError Dispute)
| DecideEv (id : string) (votes : list SeniorPanelVote) : DeskEv (result DeskError Dispute)
| FinalityEv (id : string) : DeskEv (result DeskError (option string * list FinalityRecord))
| TimeoutEv (id : string) : DeskEv (result DeskError Dispute)
| ScanEv (o : DeadlineOptions) : DeskEv (result DeskError ScanResult)
| ReverseEv (id : string) : DeskEv (result DeskError Dispute)
| AddArbiterEv (a : SeniorArbiter) : DeskEv (result DeskError unit)
| RemoveArbiterEv (i : string) : DeskEv (result DeskError unit)
| NowEv : DeskEv Z
| AuditEv : DeskEv unit.

Abbreviation DProg := (Prog DeskEv DeskError).

Definition simple {A} (ev : DeskEv (result DeskError A)) : DProg A := r ← perform ev; lift_result id r.

(** Rejections are audited too, except for an unknown dispute. *)
Definition audited {A} (r : result DeskError A) : DProg unit :=
  match r with Err DisputeNotFound => mret tt | _ => perform AuditEv end.

Definition appeal (actor disputeId : string) : DProg Dispute :=
  now ← perform NowEv;
  r ← perform (AppealCheckEv now disputeId);
  _ ← audited r;
  panel ← lift_result id r;
  r' ← perform (AppealApplyEv now actor panel disputeId);
  _ ← perform AuditEv;
  lift_result id r'.

Definition seniorDecide (disputeId : string) (votes : list SeniorPanelVote) : DProg Dispute :=
  r ← perform (DecideEv disputeId votes);
  _ ← audited r;
  lift_result id r.

Inductive desk_request : DProg unit -> Prop :=
| rq_create body : desk_request (forget (simple (CreateEv body)))
| rq_evidence i body : desk_request (forget (simple (EvidenceEv i body)))
| rq_adjudicate i body : desk_request (forget (simple (AdjudicateEv i body)))
| rq_appeal actor i : desk_request (forget (appeal actor i))
| rq_decide i votes : desk_request (forget (seniorDecide i votes))
| rq_finality i : desk_request (forget (simple (FinalityEv i)))
| rq_timeout i : desk_request (forget (simple (TimeoutEv i)))
| rq_scan o : desk_request (forget (simple (ScanEv o)))
| rq_reverse i : desk_request (forget (simple (ReverseEv i)))
| rq_add a : desk_request (forget (simple (AddArbiterEv a)))
| rq_remove i : desk_request (forget (simple (RemoveArbiterEv i))).

Record DeskEnv : Type := { de_id : string; de_now : Z; de_now' : Z }.

Definition do_desk (e : DeskEnv) (X : Type) (ev : DeskEv X) (k : Desk) : X * Desk :=
  match ev in DeskEv X return X * Desk with
  | CreateEv body => create_section (de_id e) (de_now e) (de_now' e) body k
  | EvidenceEv i body => evidence_section (de_now e) i body k
  | AdjudicateEv i body => adjudicate_section (de_now e) i body k
  | AppealCheckEv now i => appeal_check now i k
  | AppealApplyEv now actor panel i => appeal_apply now actor panel i k
  | DecideEv i votes => decide_section (de_now e) i votes k
  | FinalityEv i => finality_section i k
  | TimeoutEv i => timeout_section (de_now e) i k
  | ScanEv o => scan_section o (de_now e) k
  | ReverseEv i => reverse_section (de_now e) i k
  | AddArbiterEv a => add_arbiter_section a k
  | RemoveArbiterEv i => remove_arbiter_section i k
  | NowEv => (de_now e, k)
  | AuditEv => (tt, k)
  end.

(** New ids are fresh, and the clock does not stand at zero. *)
Definition env_ok (e : DeskEnv) (k : Desk) : Prop := map_get (de_id e) (dk_disputes k) = None /\ 0 < de_now e.

Definition exec_desk (X : Type) (ev : DeskEv X) (k : Desk) (x : X) (k' : Desk) : Prop :=
  exists e, env_ok e k /\ do_desk e X ev k = (x, k').

Definition desk_init : Config DeskEv DeskError Desk := {| cf_state := initial_desk; cf_pool := [] |}.

(** ** Effects *)

(** The changes of one dispute; the flag says to whom its amount is moved.  [G]
    is what is known when the changes of an appeal are made. *)
Inductive dispute_step (G : list SeniorArbiter -> Dispute -> Prop) (d : Dispute) : Dispute -> option bool -> Prop :=
| ds_evidence e p now :
    canTransition (d_status d) EVIDENCED = true ->
    dispute_step G d (push_link (link (add_evidence e d) EVIDENCED p now) (add_evidence e d)) None
| ds_adjudicate r a p now :
    canTransition (d_status d) ADJUDICATED = true ->
    dispute_step G d (push_link (link (set_ruling r a now d) ADJUDICATED p now) (set_ruling r a now d)) (Some (favours_buyer r))
| ds_appeal now actor panel : G panel d -> dispute_step G d (appealed now actor panel d) None
| ds_decide votes p now :
    validateSeniorDecision d votes = None ->
    dispute_step G d
      (set_decision votes now (match decideByMajority votes with UPHOLD => UPHELD | OVERTURN => OVERTURNED end)
         (push_link (link d FINAL p now) d))
      (match decideByMajority votes with
       | OVERTURN => if json_truthy (d_ruling d) then Some (negb (favours_buyer (d_ruling d))) else None
       | UPHOLD => None
       end)
| ds_timeout p now :
    canTransition (d_status d) TIMEOUT = true -> dispute_step G d (push_link (link d TIMEOUT p now) d) None
| ds_reverse now d' : reverse_dispute sha256 number_toString now d = Ok d' -> dispute_step G d d' None.

Definition same_funds (k k' : Desk) : Prop := dk_buyer k' = dk_buyer k /\ dk_supplier k' = dk_supplier k.

Definition funds_moved (t : option bool) (amount : num) (k k' : Desk) : Prop :=
  match t with
  | None => same_funds k k'
  | Some b => same_funds (move_funds b amount k) k'
  end.

Inductive desk_step (G : list SeniorArbiter -> Dispute -> Prop) (k k' : Desk) : Prop :=
| dk_same : dk_disputes k' = dk_disputes k -> same_funds k k' -> desk_step G k k'
| dk_new id body :
    map_get id (dk_disputes k) = None ->
    dk_disputes k' = map_set id (new_dispute id body) (dk_disputes k) -> same_funds k k' -> desk_step G k k'
| dk_update id d d' t :
    map_get id (dk_disputes k) = Some d -> dispute_step G d d' t ->
    dk_disputes k' = map_set id d' (dk_disputes k) -> funds_moved t (d_amount d) k k' -> desk_step G k k'
| dk_scan o now :
    0 < now ->
    dk_disputes k' = map_update_all (scanned sha256 number_toString o now) (dk_disputes k) ->
    same_funds k k' -> desk_step G k k'.

Lemma same_funds_refl k : same_funds k k.
Proof. done. Qed.
Hint Resolve same_funds_refl : core.

(** The sections as case distinctions on the dispute. *)
Ltac open_section Hk id k :=
  unfold find_dispute, save, mbind, M_bind, get, of_option, modify, mret, M_ret, guard, raise in Hk; simpl in Hk;
  destruct (map_get id (dk_disputes k)) as [d|] eqn:Ed; simpl in Hk; [|simplify_eq; by apply dk_same].

Lemma evidence_step G now i body k x k' : evidence_section now i body k = (x, k') -> desk_step G k k'.
Proof.
  intros Hk. unfold evidence_section in Hk. open_section Hk i k.
  destruct (json_truthy _) in Hk; simpl in Hk; [simplify_eq; by apply dk_same|].
  destruct (canTransition (d_status d) EVIDENCED) eqn:Ec; simpl in Hk; simplify_eq; [|by apply dk_same].
  eapply dk_update; [done|by constructor|done|done].
Qed.

Lemma adjudicate_step G now i body k x k' : adjudicate_section now i body k = (x, k') -> desk_step G k k'.
Proof.
  intros Hk. unfold adjudicate_section in Hk. open_section Hk i k.
  destruct (canTransition (d_status d) ADJUDICATED) eqn:Ec; simpl in Hk; simplify_eq; [|by apply dk_same].
  eapply dk_update; [done|by constructor|done|done].
Qed.

Lemma timeout_step G now i k x k' : timeout_section now i k = (x, k') -> desk_step G k k'.
Proof.
  intros Hk. unfold timeout_section in Hk. open_section Hk i k.
  destruct (canTransition (d_status d) TIMEOUT) eqn:Ec; simpl in Hk; simplify_eq; [|by apply dk_same].
  eapply dk_update; [done|by constructor|done|done].
Qed.

Lemma decide_step G now i votes k x k' : decide_section now i votes k = (x, k') -> desk_step G k k'.
Proof.
  intros Hk. unfold decide_section in Hk. open_section Hk i k.
  destruct (validateSeniorDecision d votes) eqn:Ev; simpl in Hk; [simplify_eq; by apply dk_same|].
  eapply dk_update; [done|exact (ds_decide G d votes (decision_payload votes) now Ev)| |];
    destruct (decideByMajority votes); simpl in *; try destruct (json_truthy (d_ruling d)); by simplify_eq.
Qed.

Lemma reverse_step G now i k x k' : reverse_section now i k = (x, k') -> desk_step G k k'.
Proof.
  intros Hk. unfold reverse_section, reverseAutoResolve, mbind, M_bind, get, modify, mret, M_ret, raise in Hk. simpl in Hk.
  destruct (map_get i (dk_disputes k)) as [d|] eqn:Ed; [|simplify_eq; by apply dk_same].
  destruct (reverse_dispute _ _ now d) as [d'|c] eqn:Er; simpl in Hk; simplify_eq; [|by apply dk_same].
  eapply dk_update; [done|by eapply ds_reverse|done|done].
Qed.

Lemma appeal_check_pure now i k : snd (appeal_check now i k) = k.
Proof.
  unfold appeal_check, find_dispute, mbind, M_bind, get, of_option, guard, raise. cbn.
  destruct (map_get i (dk_disputes k)) as [d|]; cbn; [|done]. case_bool_decide; cbn; [|done].
  destruct (isWithinAppealWindow d now); cbn [negb]; [|done]. cbn. by destruct (_ <=? 2)%nat.
Qed.

Lemma scan_step G o now k x k' : 0 < now -> scan_section o now k = (x, k') -> desk_step G k k'.
Proof.
  intros Hn Hk. unfold scan_section, mbind, M_bind, get, modify, mret, M_ret in Hk. simpl in Hk. injection Hk as _ <-.
  by apply (dk_scan _ _ _ o now).
Qed.

Lemma create_step G i t1 t2 body k x k' :
  map_get i (dk_disputes k) = None -> create_section i t1 t2 body k = (x, k') -> desk_step G k k'.
Proof.
  intros Hf Hk. unfold create_section, save, mbind, M_bind, modify, mret, M_ret in Hk. simpl in Hk. injection Hk as _ <-.
  by apply (dk_new _ _ _ i body).
Qed.

(** Any event but the changes of an appeal. *)
Definition plain {X} (ev : DeskEv X) : Prop := match ev with AppealApplyEv _ _ _ _ => False | _ => True end.

Lemma plain_event_step G e X (ev : DeskEv X) k :
  env_ok e k -> plain ev -> desk_step G k (snd (do_desk e X ev k)).
Proof.
  intros [Hf Hn] Hp. destruct ev as [body|i body|i body|now i|now actor panel i|i votes|i|i|o|i|a|i| |]; cbn [do_desk]; try done.
  - eapply create_step; [exact Hf|apply surjective_pairing].
  - eapply evidence_step, surjective_pairing.
  - eapply adjudicate_step, surjective_pairing.
  - rewrite appeal_check_pure. by apply dk_same.
  - eapply decide_step, surjective_pairing.
  - apply dk_same; unfold finality_section, find_dispute, mbind, M_bind, get, of_option; simpl;
      by destruct (map_get i (dk_disputes k)).
  - eapply timeout_step, surjective_pairing.
  - eapply scan_step; [exact Hn|apply surjective_pairing].
  - eapply reverse_step, surjective_pairing.
  - by apply dk_same.
  - by apply dk_same.
  - by apply dk_same.
  - by apply dk_same.
Qed.

Lemma appeal_apply_step G now actor panel i k :
  (forall d, map_get i (dk_disputes k) = Some d -> G panel d) ->
  desk_step G k (snd (appeal_apply now actor panel i k)).
Proof.
  intros HG. unfold appeal_apply, find_dispute, save, mbind, M_bind, get, of_option, modify, mret, M_ret. simpl.
  destruct (map_get i (dk_disputes k)) as [d|] eqn:Ed; simpl; [|by apply dk_same].
  eapply dk_update; [done|by apply ds_appeal, HG|done|done].
Qed.

Lemma event_step X (ev : DeskEv X) k x k' : exec_desk X ev k x k' -> desk_step (fun _ _ => True) k k'.
Proof.
  intros (e & He & Hk). replace k' with (snd (do_desk e X ev k)) by (by rewrite Hk).
  destruct ev; try (by apply plain_event_step). by apply appeal_apply_step.
Qed.

(** A property of single disputes that new disputes have and every change keeps
    is an invariant of the desk. *)
Lemma desk_step_forall G (P : Dispute -> Prop) k k' :
  (forall id body, P (new_dispute id body)) ->
  (forall d d' t, P d -> dispute_step G d d' t -> P d') ->
  (forall o now d, 0 < now -> P d -> P (scanned sha256 number_toString o now d)) ->
  desk_step G k k' ->
  (forall id d, map_get id (dk_disputes k) = Some d -> P d /\ d_id d = id) ->
  (forall id d, map_get id (dk_disputes k') = Some d -> P d /\ d_id d = id).
Proof.
  intros Hnew Hstep Hscan Hk Hall id x.
  destruct Hk as [->|i body Hf -> _|i d d' t Hg Hs -> _|o now Hn -> _]; [by apply Hall|..].
  - rewrite map_get_set. case_bool_decide; [|by apply Hall]. intros [= <-]. by subst.
  - rewrite map_get_set. case_bool_decide; [|by apply Hall]. intros [= <-]. subst i.
    destruct (Hall id d Hg) as [Hd Hid]. split; [by eapply Hstep|]. rewrite <- Hid. clear -Hs.
    destruct Hs as [| | | | |now d' Hr]; try done. unfold reverse_dispute in Hr. by repeat case_match; simplify_eq.
  - rewrite map_get_update_all. intros (d & Hg & ->)%fmap_Some. destruct (Hall id d Hg) as [Hd Hid].
    split; [by apply Hscan|]. rewrite <- Hid. unfold scanned, scan_one. by repeat (case_match; simplify_eq/=).
Qed.

(** ** The finality chain, whatever the interleaving *)

Abbreviation finality_ok := (finality_ok sha256 number_toString).

Lemma new_dispute_finality id body : finality_ok (new_dispute id body).
Proof. by split. Qed.

Lemma appealed_finality now actor panel d : finality_ok d -> finality_ok (appealed now actor panel d).
Proof. intros. by apply push_link_ok, set_appeal_ok, push_link_ok. Qed.

Lemma reverse_finality now d d' : finality_ok d -> reverse_dispute sha256 number_toString now d = Ok d' -> finality_ok d'.
Proof.
  intros Hd Hr. unfold reverse_dispute in Hr. do 3 (case_match; [done|]). injection Hr as <-.
  by apply set_auto_ok, push_link_ok.
Qed.

Lemma step_finality G d d' t : finality_ok d -> dispute_step G d d' t -> finality_ok d'.
Proof.
  intros Hd Hs. destruct Hs.
  - by apply push_link_ok, add_evidence_ok.
  - by apply push_link_ok, set_ruling_ok.
  - by apply appealed_finality.
  - by apply set_decision_ok, push_link_ok.
  - by apply push_link_ok.
  - by eapply reverse_finality.
Qed.

Lemma scanned_finality o now d : finality_ok d -> finality_ok (scanned sha256 number_toString o now d).
Proof.
  intros Hd. pose proof (scan_one_spec sha256 number_toString o now d) as Hs. unfold scanned.
  destruct (scan_one _ _ o now d) as [[d' r]|]; simpl; [|done]. by apply Hs.
Qed.

Definition desk_finality (k : Desk) : Prop :=
  forall id d, map_get id (dk_disputes k) = Some d -> finality_ok d /\ d_id d = id.

Definition keeps_finality (k k' : Desk) : Prop := desk_finality k -> desk_finality k'.

#[local] Instance keeps_finality_preorder : PreOrder keeps_finality.
Proof. split; [by intros k Hk|]. intros k1 k2 k3 H12 H23 Hk. by apply H23, H12. Qed.

Lemma all_desk_events A (p : DProg A) : all_events (fun _ _ => True) p.
Proof. induction p; simpl; auto. Qed.

(** However the dispute requests interleave, every dispute keeps an intact
    finality chain: each link hashes its predecessor, the dispute's id, status,
    payload and time; the stored finality hash is the last link's, and the status
    of the dispute is the status its last link records. *)
Theorem finality_chain_sound c id d :
  rtc (step exec_desk desk_request) desk_init c ->
  map_get id (dk_disputes (cf_state c)) = Some d -> finality_ok d /\ d_id d = id.
Proof.
  intros Hr. assert (keeps_finality initial_desk (cf_state c)) as Hk.
  { apply (steps_preserve exec_desk desk_request (fun _ _ => True) keeps_finality desk_init c);
      [|intros; apply all_desk_events|done|constructor].
    intros X ev k x k' _ He Hk i x0. revert i x0. eapply (desk_step_forall (fun _ _ => True) finality_ok k k'); [..|exact Hk].
    - apply new_dispute_finality.
    - intros d0 d' t Hd Hs. by eapply step_finality.
    - intros o now d0 _. by apply scanned_finality.
    - by eapply event_step. }
  apply Hk. done.
Qed.

(** ** Requests one at a time *)

(** What an undisturbed appeal knows when it makes its changes. *)
Definition appeal_ok (pool : list SeniorArbiter) (now : Z) (panel : list SeniorArbiter) (d : Dispute) : Prop :=
  d_status d = ADJUDICATED /\ isWithinAppealWindow d now = true /\ length panel = SENIOR_PANEL_MIN_SIZE /\
  panel = ss_panel (selectSeniorPanel locale_gt pool d).

Lemma appeal_check_ok now i k panel :
  fst (appeal_check now i k) = Ok panel ->
  exists d, map_get i (dk_disputes k) = Some d /\ appeal_ok (getSeniorPool (dk_pool k)) now panel d.
Proof.
  unfold appeal_check, find_dispute, mbind, M_bind, get, of_option, guard, raise. cbn.
  destruct (map_get i (dk_disputes k)) as [d|]; cbn; [|done]. case_bool_decide as Hs; cbn; [|done].
  destruct (isWithinAppealWindow d now) eqn:Ew; cbn [negb]; [|done]. cbn.
  destruct (_ <=? 2)%nat eqn:El; cbn; [done|]. intros [= <-]. exists d. split; [done|]. split_and!; try done.
  apply Nat.leb_gt in El. rewrite length_take in *. unfold SENIOR_PANEL_MIN_SIZE. lia.
Qed.

Lemma run_simple {A} e (ev : DeskEv (result DeskError A)) k :
  snd (run (do_desk e) (forget (simple ev)) k) = snd (do_desk e _ ev k).
Proof.
  unfold forget, simple. rewrite run_bind, run_bind, run_perform. cbn [fst snd].
  rewrite run_lift. by destruct (fst (do_desk e _ ev k)).
Qed.

Lemma run_audited {A} e (r : result DeskError A) k : run (do_desk e) (audited r) k = (Ok tt, k).
Proof. by destruct r as [|[]]. Qed.

Lemma run_appeal e actor i k :
  snd (run (do_desk e) (forget (appeal actor i)) k) =
  match fst (appeal_check (de_now e) i k) with
  | Ok panel => snd (appeal_apply (de_now e) actor panel i k)
  | Err _ => k
  end.
Proof.
  unfold forget, appeal. rewrite !run_bind, run_perform. cbn [do_desk fst snd].
  rewrite !run_bind, run_perform. cbn [do_desk fst snd]. rewrite appeal_check_pure.
  rewrite !run_bind, run_audited. rewrite run_bind, run_lift.
  destruct (fst (appeal_check (de_now e) i k)) as [panel|err]; [|done].
  rewrite !run_bind, run_perform. cbn [do_desk fst snd]. rewrite run_bind, run_perform. cbn [do_desk fst snd].
  rewrite run_lift. by destruct (fst (appeal_apply _ _ _ _ _)).
Qed.

(** The desk serves one request from beginning to end. *)
Inductive served (k : Desk) : Desk -> Prop :=
| served_one p e : desk_request p -> env_ok e k -> served k (snd (run (do_desk e) p k)).

Definition seq_guard (k : Desk) (panel : list SeniorArbiter) (d : Dispute) : Prop :=
  exists now, appeal_ok (getSeniorPool (dk_pool k)) now panel d.

Lemma served_step k k' : served k k' -> desk_step (seq_guard k) k k'.
Proof.
  intros [p e Hp He]. destruct Hp as [body|i body|i body|actor i|i votes|i|i|o|i|a|i];
    rewrite ?run_simple; try (by apply plain_event_step).
  - rewrite run_appeal. destruct (fst (appeal_check (de_now e) i k)) as [panel|err] eqn:Ec; [|by apply dk_same].
    apply appeal_apply_step. intros d Hd. destruct (appeal_check_ok _ _ _ _ Ec) as (d' & Hd' & Hok).
    assert (d' = d) as -> by congruence. by exists (de_now e).
  - unfold forget, seniorDecide. rewrite !run_bind, run_perform. cbn [fst snd].
    rewrite run_bind, run_audited, run_lift.
    pose proof (plain_event_step (seq_guard k) e _ (DecideEv i votes) k He I) as Hs. cbn [do_desk] in *.
    by destruct (fst (decide_section _ _ _ _)).
Qed.

(** The pool is a map keyed by the arbiter's id. *)
Definition pool_ok (k : Desk) : Prop := NoDup (map_keys (dk_pool k)) /\ Forall (fun kv => kv.1 = sa_id kv.2) (dk_pool k).

Lemma pool_ids k : pool_ok k -> NoDup (map sa_id (getSeniorPool (dk_pool k))).
Proof.
  intros [Hnd Hk]. unfold getSeniorPool, map_values. rewrite map_map.
  replace (map (fun x => sa_id x.2) (dk_pool k)) with (map_keys (dk_pool k)); [done|]. unfold map_keys.
  clear Hnd. induction Hk as [|kv l Hkv _ IH]; [done|]. simpl. by rewrite Hkv, IH.
Qed.

Lemma pool_untouched e X (ev : DeskEv X) k :
  match ev with AddArbiterEv _ | RemoveArbiterEv _ => True | _ => dk_pool (snd (do_desk e X ev k)) = dk_pool k end.
Proof.
  destruct ev as [body|i body|i body|now i|now actor panel i|i votes|i|i|o|i|a|i| |]; cbn [do_desk]; try done.
  - unfold evidence_section, find_dispute, save, mbind, M_bind, get, of_option, modify, guard, raise, mret, M_ret. cbn.
    destruct (map_get i (dk_disputes k)); cbn; [|done]. destruct (json_truthy _); cbn; [done|]. by destruct (canTransition _ _).
  - unfold adjudicate_section, find_dispute, save, mbind, M_bind, get, of_option, modify, guard, raise, mret, M_ret. cbn.
    destruct (map_get i (dk_disputes k)); cbn; [|done]. by destruct (canTransition _ _).
  - by rewrite appeal_check_pure.
  - unfold appeal_apply, find_dispute, save, mbind, M_bind, get, of_option, modify. cbn. by destruct (map_get i (dk_disputes k)).
  - unfold decide_section, find_dispute, save, mbind, M_bind, get, of_option, modify, raise, mret, M_ret. cbn.
    destruct (map_get i (dk_disputes k)); cbn; [|done]. destruct (validateSeniorDecision _ _); cbn; [done|].
    destruct (decideByMajority _); cbn; [done|]. by destruct (json_truthy _).
  - unfold finality_section, find_dispute, mbind, M_bind, get, of_option. cbn. by destruct (map_get i (dk_disputes k)).
  - unfold timeout_section, find_dispute, save, mbind, M_bind, get, of_option, modify, guard, raise, mret, M_ret. cbn.
    destruct (map_get i (dk_disputes k)); cbn; [|done]. by destruct (canTransition _ _).
  - unfold reverse_section, reverseAutoResolve, mbind, M_bind, get, modify, raise, mret, M_ret. cbn.
    destruct (map_get i (dk_disputes k)); cbn; [|done]. by destruct (reverse_dispute _ _ _ _).
Qed.

Lemma event_pool e X (ev : DeskEv X) k : pool_ok k -> pool_ok (snd (do_desk e X ev k)).
Proof.
  intros [Hnd Hk]. pose proof (pool_untouched e X ev k) as Hp. unfold pool_ok.
  destruct ev; try (rewrite Hp; by split); cbn.
  - split; [by apply map_set_nodup|by apply map_set_forall].
  - split; [by apply map_delete_nodup|by apply map_delete_forall].
Qed.

Lemma run_keeps_pool {A} e (p : DProg A) k : pool_ok k -> pool_ok (snd (run (do_desk e) p k)).
Proof.
  revert k. induction p as [a|err|X ev f IH]; intros k Hk; simpl; [done..|].
  pose proof (event_pool e X ev k Hk) as Hk'. destruct (do_desk e X ev k) as [x k']. by apply IH.
Qed.

(** *** Life cycles *)

(** The statuses a dispute went through, the latest first. *)
Definition timeline (d : Dispute) : list DisputeStatus := rev (map fr_status (d_finalityChain d)) ++ [OPEN].

(** A life cycle: allowed transitions, and returns from a TIMEOUT or CLOSED to
    the status before it. *)
Inductive life_cycle : list DisputeStatus -> Prop :=
| lc_open : life_cycle [OPEN]
| lc_move s t l : life_cycle (s :: l) -> canTransition s t = true -> life_cycle (t :: s :: l)
| lc_undo p s l : life_cycle (p :: l) -> canTransition p s = true -> (s = TIMEOUT \/ s = CLOSED) ->
    life_cycle (p :: s :: p :: l).

Lemma timeline_push l d : timeline (push_link l d) = fr_status l :: timeline d.
Proof. unfold timeline. simpl. by rewrite map_app, rev_app_distr. Qed.

Lemma timeline_head d : finality_ok d -> exists l, timeline d = d_status d :: l.
Proof.
  intros [_ _ Hs]. unfold timeline. destruct (d_finalityChain d) as [|x c _] using rev_ind; rewrite Hs; [by exists []|].
  rewrite map_app, rev_app_distr, last_snoc. simpl. eauto.
Qed.

Lemma timeline_prior d :
  finality_ok d -> (2 <= length (d_finalityChain d))%nat ->
  exists l, timeline d = d_status d :: prior_status (d_finalityChain d) :: l.
Proof.
  intros [_ _ Hs] Hl. unfold timeline. rewrite Hs.
  destruct (d_finalityChain d) as [|x c _] using rev_ind; [simpl in Hl; lia|].
  destruct c as [|y c _] using rev_ind; [simpl in Hl; lia|].
  rewrite prior_of_snoc, last_snoc, !map_app, !rev_app_distr. simpl. eauto.
Qed.

Lemma can_move s t : canTransition s t = true -> t ∈ DISPUTE_STATE_TRANSITIONS s.
Proof. apply bool_decide_eq_true. Qed.

(** A terminal status was reached by a transition, never by a return. *)
Lemma terminal_reached s l :
  life_cycle (s :: l) -> s = TIMEOUT \/ s = CLOSED ->
  exists p l', l = p :: l' /\ life_cycle (p :: l') /\ canTransition p s = true.
Proof.
  intros Hl Hs. inversion Hl as [|p t l' Hp Hc|p t l' Hp Hc Ht]; subst; [by destruct Hs|eauto 6|].
  apply can_move in Hc. destruct Hs as [-> | ->]; simpl in Hc; by apply elem_of_nil in Hc.
Qed.

(** Where a status can stand in a life cycle. *)
Definition phase_ok (l : list DisputeStatus) : Prop :=
  match l with
  | [] => True
  | s :: _ =>
      match s with
      | OPEN | EVIDENCED => (ADJUDICATED ∉ l) /\ FINAL ∉ l
      | ADJUDICATED | APPEALED | SENIOR_REVIEW => ADJUDICATED ∈ l /\ (FINAL ∉ l)
      | FINAL => ADJUDICATED ∈ l
      | CLOSED | TIMEOUT => FINAL ∉ l
      end
  end.

Lemma life_cycle_phase l : life_cycle l -> phase_ok l.
Proof.
  induction 1 as [|s t l _ IH Hc|p s l _ IH Hc Ht].
  - simpl. split; intros [=]%list_elem_of_singleton.
  - apply can_move in Hc. simpl in IH.
    destruct s; simpl in Hc; repeat (apply elem_of_cons in Hc as [->|Hc]); try (by apply elem_of_nil in Hc);
      simpl; rewrite !elem_of_cons in *; naive_solver.
  - apply can_move in Hc. simpl in IH.
    destruct p; simpl in Hc; repeat (apply elem_of_cons in Hc as [->|Hc]); try (by apply elem_of_nil in Hc);
      destruct Ht as [?|?]; try done; simpl; rewrite !elem_of_cons in *; naive_solver.
Qed.

(** *** What the fields of a dispute say *)

Definition no_conflict (d : Dispute) (a : SeniorArbiter) : Prop :=
  (forall i, d_arbiter d = JStr i -> i <> ""%string -> sa_id a <> i) /\
  sa_tenantId a <> d_buyerTenantId d /\ sa_tenantId a <> d_supplierTenantId d.

Definition panel_sound (d : Dispute) (panel : list SeniorArbiter) : Prop :=
  length panel = SENIOR_PANEL_MIN_SIZE /\ NoDup (map sa_id panel) /\ Forall (no_conflict d) panel.

Definition decision_sound (d : Dispute) (r : FinalRuling) : Prop :=
  exists votes panel, d_panelVotes d = Some votes /\ d_panel d = Some panel /\
    map pv_arbiterId votes ≡ₚ map sa_id panel /\
    (r = UPHELD <-> (length votes <= 2 * length (filter upholds votes))%nat).

Record case_ok (d : Dispute) : Prop := {
  co_finality : finality_ok d;
  co_life : life_cycle (timeline d);
  co_auto : time_set (d_autoResolvedAt d) = true -> (2 <= length (d_finalityChain d))%nat;
  co_adjudicated : is_Some (d_adjudicatedAt d) <-> ADJUDICATED ∈ timeline d;
  co_panel p : d_panel d = Some p -> ADJUDICATED ∈ timeline d /\ panel_sound d p;
  co_decision r : d_finalRuling d = Some r -> FINAL ∈ timeline d /\ decision_sound d r
}.

Definition judgement (d : Dispute) :=
  (d_buyerTenantId d, d_supplierTenantId d, d_arbiter d, d_adjudicatedAt d, d_panel d, d_panelVotes d, d_finalRuling d).

(** A change that leaves the judgement alone and adds a status. *)
Lemma case_ok_extend d d' s :
  case_ok d -> judgement d' = judgement d -> timeline d' = s :: timeline d ->
  (s = ADJUDICATED -> ADJUDICATED ∈ timeline d) -> finality_ok d' -> life_cycle (timeline d') ->
  (time_set (d_autoResolvedAt d') = true -> (2 <= length (d_finalityChain d'))%nat) -> case_ok d'.
Proof.
  intros [_ _ _ Hadj Hpan Hdec] Hj Ht Hs Hf Hl Ha. injection Hj as J1 J2 J3 J4 J5 J6 J7.
  split; try done; rewrite ?Ht.
  - rewrite J4, Hadj, elem_of_cons. naive_solver.
  - intros p. rewrite J5. intros [Hin Hp]%Hpan. split; [by constructor|].
    unfold panel_sound, no_conflict in *. by rewrite J1, J2, J3.
  - intros r. rewrite J7. intros [Hin Hd]%Hdec. split; [by constructor|]. unfold decision_sound in *. by rewrite J5, J6.
Qed.

Lemma push_life d s :
  finality_ok d -> life_cycle (timeline d) -> canTransition (d_status d) s = true ->
  life_cycle (s :: timeline d).
Proof. intros Hf Hl Hc. destruct (timeline_head d Hf) as [l Hh]. rewrite Hh in *. by constructor. Qed.

Lemma transition_into s t :
  canTransition s t = true ->
  (t = EVIDENCED -> s = OPEN) /\ (t = ADJUDICATED -> s = EVIDENCED) /\ (t = TIMEOUT -> s = OPEN \/ s = EVIDENCED).
Proof.
  intros Hc%can_move. destruct s; simpl in Hc; repeat (apply elem_of_cons in Hc as [->|Hc]); try (by apply elem_of_nil in Hc);
    naive_solver.
Qed.

Lemma phase_of d : case_ok d -> phase_ok (timeline d).
Proof. intros Hd. apply life_cycle_phase, Hd. Qed.

(** No chain, no mark of the scan. *)
Lemma auto_grows d l : case_ok d -> time_set (d_autoResolvedAt d) = true -> (2 <= length (d_finalityChain d ++ [l]))%nat.
Proof. intros Hd Ha. rewrite length_app. pose proof (co_auto d Hd Ha). lia. Qed.

Lemma new_dispute_case id body : case_ok (new_dispute id body).
Proof.
  split; try done; [constructor|]. simpl. split; [by intros []|]. by intros [=]%list_elem_of_singleton.
Qed.

Lemma evidence_case e p now d :
  case_ok d -> canTransition (d_status d) EVIDENCED = true ->
  case_ok (push_link (link (add_evidence e d) EVIDENCED p now) (add_evidence e d)).
Proof.
  intros Hd Hc. apply (case_ok_extend d _ EVIDENCED); try done.
  - by rewrite timeline_push.
  - apply push_link_ok, add_evidence_ok, Hd.
  - rewrite timeline_push. by apply (push_life d EVIDENCED); [apply Hd..|].
  - simpl. by apply auto_grows.
Qed.

Lemma adjudicate_case r a p now d :
  case_ok d -> canTransition (d_status d) ADJUDICATED = true ->
  case_ok (push_link (link (set_ruling r a now d) ADJUDICATED p now) (set_ruling r a now d)).
Proof.
  intros Hd Hc. pose proof (phase_of d Hd) as Hph. destruct (timeline_head d (co_finality d Hd)) as [l Hh].
  assert (d_status d = EVIDENCED) as Hs by (by apply (transition_into _ _ Hc)).
  rewrite Hh, Hs in Hph. simpl in Hph. rewrite <- Hs, <- Hh in Hph. destruct Hph as [Hna Hnf].
  split; try (rewrite timeline_push; cbn [fr_status appendFinalityLink]).
  - apply push_link_ok, set_ruling_ok, Hd.
  - by apply (push_life d ADJUDICATED); [apply Hd..|].
  - simpl. by apply auto_grows.
  - simpl. split; [intros _; constructor|done].
  - simpl. intros q Hq. by destruct (co_panel d Hd q Hq).
  - simpl. intros q Hq. by destruct (co_decision d Hd q Hq).
Qed.

Lemma timeout_case p now d :
  case_ok d -> canTransition (d_status d) TIMEOUT = true -> case_ok (push_link (link d TIMEOUT p now) d).
Proof.
  intros Hd Hc. apply (case_ok_extend d _ TIMEOUT); try done.
  - by rewrite timeline_push.
  - apply push_link_ok, Hd.
  - rewrite timeline_push. by apply (push_life d TIMEOUT); [apply Hd..|].
  - simpl. by apply auto_grows.
Qed.

Lemma appeal_case k now actor panel d :
  pool_ok k -> case_ok d -> seq_guard k panel d -> case_ok (appealed now actor panel d).
Proof.
  intros Hpool Hd (t & Hs & _ & Hlen & Hsel). set (d1 := push_link (link d APPEALED (JObj [("actor"%string, JStr actor); ("panel"%string, panel_json panel)]) now) d).
  assert (panel_sound d panel) as Hps.
  { split; [done|]. split; [rewrite Hsel; by apply panel_nodup, pool_ids|].
    apply Forall_forall. intros a Ha. rewrite Hsel in Ha. apply panel_member in Ha as [_ Ha]. by apply exclusion_None. }
  destruct (timeline_head d (co_finality d Hd)) as [l Hh].
  assert (ADJUDICATED ∈ timeline d) as Hadj by (rewrite Hh, Hs; constructor).
  assert (timeline (appealed now actor panel d) = SENIOR_REVIEW :: APPEALED :: timeline d) as Ht.
  { unfold appealed. rewrite timeline_push. f_equal. change (timeline (set_appeal now panel d1) = APPEALED :: timeline d).
    change (timeline d1 = APPEALED :: timeline d). apply timeline_push. }
  split.
  - apply appealed_finality, Hd.
  - rewrite Ht. pose proof (co_life d Hd) as Hl. rewrite Hh, Hs in *. constructor; [by constructor|done].
  - intros Ha. simpl. rewrite !length_app. simpl. lia.
  - rewrite Ht. simpl. rewrite (co_adjudicated d Hd). rewrite !elem_of_cons. naive_solver.
  - rewrite Ht. intros q [= <-]. split; [by do 2 constructor|exact Hps].
  - rewrite Ht. intros r Hr. destruct (co_decision d Hd r Hr) as [Hin _]. exfalso.
    pose proof (phase_of d Hd) as Hph. rewrite Hh, Hs in Hph. simpl in Hph. rewrite <- Hs, <- Hh in Hph. tauto.
Qed.

Lemma decide_case votes p now d :
  case_ok d -> validateSeniorDecision d votes = None ->
  case_ok (set_decision votes now (match decideByMajority votes with UPHOLD => UPHELD | OVERTURN => OVERTURNED end)
             (push_link (link d FINAL p now) d)).
Proof.
  intros Hd Hv.
  assert (NoDup (map sa_id (default [] (d_panel d)))) as Hnd.
  { destruct (d_panel d) as [panel|] eqn:Ep; simpl; [|constructor]. by destruct (co_panel d Hd panel Ep) as (_ & _ & ? & _). }
  apply decision_valid_iff in Hv as (Hs & panel & Hp & Hne & Hperm); [|done].
  set (r := match decideByMajority votes with UPHOLD => UPHELD | OVERTURN => OVERTURNED end).
  change (timeline (set_decision votes now r (push_link (link d FINAL p now) d)))
    with (timeline (push_link (link d FINAL p now) d)) in *.
  assert (timeline (set_decision votes now r (push_link (link d FINAL p now) d)) = FINAL :: timeline d) as Ht
    by (change (timeline (push_link (link d FINAL p now) d) = FINAL :: timeline d); apply timeline_push).
  split; try rewrite Ht.
  - apply set_decision_ok, push_link_ok, Hd.
  - apply push_life; [apply Hd..|]. by rewrite Hs.
  - simpl. by apply auto_grows.
  - simpl. rewrite (co_adjudicated d Hd), elem_of_cons. naive_solver.
  - simpl. intros q Hq. destruct (co_panel d Hd q Hq) as [Hin Hps]. split; [by constructor|exact Hps].
  - simpl. intros q [= <-]. split; [constructor|]. exists votes, panel. split_and!; try done.
    rewrite <- majority_count. unfold r. by destruct (decideByMajority votes).
Qed.

Lemma scan_case o now d : 0 < now -> case_ok d -> case_ok (scanned sha256 number_toString o now d).
Proof.
  intros Hn Hd. pose proof (scan_one_spec sha256 number_toString o now d) as Hs. unfold scanned.
  destruct (scan_one _ _ o now d) as [[d' r]|]; simpl; [|done].
  destruct Hs as (Ho & (l & Hc & _ & Hst & Htr & Ha & _ & Hcase) & _ & _ & _ & Hf). specialize (Hf (co_finality d Hd)).
  destruct (overdue_last _ _ o now d (co_finality d Hd) Ho) as (c & q & Hcd & _).
  assert (timeline d' = d_status d' :: timeline d) as Ht.
  { unfold timeline. rewrite Hc, map_app, rev_app_distr. simpl. f_equal. pose proof (fo_status _ _ _ Hf) as Hfs.
    by rewrite Hc, last_snoc in Hfs. }
  apply (case_ok_extend d d' (d_status d')); try done.
  - unfold case_file in Hcase. injection Hcase as ? ? ? ? ? ? ? ? ? ? ? ? ? ? ? ?. unfold judgement. congruence.
  - rewrite Hst. by destruct (d_status d).
  - rewrite Ht. by apply push_life; [apply Hd..|].
  - intros _. rewrite Hc, Hcd, !length_app. simpl. lia.
Qed.

Lemma reverse_case now d d' : case_ok d -> reverse_dispute sha256 number_toString now d = Ok d' -> case_ok d'.
Proof.
  intros Hd Hr. pose proof (reverse_finality now d d' (co_finality d Hd) Hr) as Hf. unfold reverse_dispute in Hr.
  destruct (time_set (d_autoResolvedAt d)) eqn:Ea; simpl in Hr; [|done]. case_match; [done|].
  destruct (negb _ && negb _) eqn:Es; [done|]. injection Hr as <-.
  assert (d_status d = TIMEOUT \/ d_status d = CLOSED) as Hst.
  { apply andb_false_iff in Es as [Es|Es]; apply negb_false_iff, bool_decide_eq_true in Es; auto. }
  destruct (timeline_prior d (co_finality d Hd) (co_auto d Hd Ea)) as [l Ht].
  pose proof (co_life d Hd) as Hl. rewrite Ht in Hl.
  destruct (terminal_reached _ _ Hl Hst) as (q & l' & [= <- <-] & Hq & Hc).
  eapply (case_ok_extend d _ (prior_status (d_finalityChain d))); try done.
  - apply timeline_push.
  - rewrite Ht. intros ->. do 2 constructor.
  - change (life_cycle (timeline (push_link (link d (prior_status (d_finalityChain d))
      (JObj [("autoResolveReversed"%string, JBool true); ("reversedAt"%string, JNum (of_Z now));
             ("previousAutoResolvedAt"%string, JNum (of_Z (default 0 (d_autoResolvedAt d))))]) now) d))).
    rewrite timeline_push, Ht. cbn [fr_status appendFinalityLink]. by apply lc_undo.
Qed.

Lemma step_case k d d' t : pool_ok k -> case_ok d -> dispute_step (seq_guard k) d d' t -> case_ok d'.
Proof.
  intros Hp Hd Hs. destruct Hs.
  - by apply evidence_case.
  - by apply adjudicate_case.
  - by eapply appeal_case.
  - by apply decide_case.
  - by apply timeout_case.
  - by eapply reverse_case.
Qed.

Definition desk_ok (k : Desk) : Prop :=
  pool_ok k /\ forall id d, map_get id (dk_disputes k) = Some d -> case_ok d /\ d_id d = id.

Lemma served_ok k k' : served k k' -> desk_ok k -> desk_ok k'.
Proof.
  intros Hs [Hp Hc]. split; [destruct Hs; by apply run_keeps_pool|]. intros i x. revert i x.
  eapply (desk_step_forall (seq_guard k) case_ok k k'); [..|exact Hc].
  - apply new_dispute_case.
  - intros d d' t Hd. by apply (step_case k).
  - apply scan_case.
  - by apply served_step.
Qed.

Lemma reachable_ok k : rtc served initial_desk k -> desk_ok k.
Proof.
  intros Hr. assert (desk_ok initial_desk) as Hi by (split; [split; constructor|done]).
  induction Hr as [|k1 k2 k3 H12 _ IH]; [done|]. by apply IH, (served_ok k1).
Qed.

(** (C10) Served one after the other, requests lead every dispute along its life
    cycle: from OPEN, each status follows from the one before by an allowed
    transition, except that the reversal of a TIMEOUT or CLOSED returns to the
    status before it.  The time of adjudication is set exactly if the dispute was
    adjudicated at some point. *)
Theorem dispute_life_cycle k id d :
  rtc served initial_desk k -> map_get id (dk_disputes k) = Some d ->
  life_cycle (timeline d) /\ head (timeline d) = Some (d_status d) /\
  (is_Some (d_adjudicatedAt d) <-> ADJUDICATED ∈ timeline d).
Proof.
  intros Hr Hd. destruct (reachable_ok k Hr) as [_ Hall]. destruct (Hall id d Hd) as [[Hf Hl _ Ha _ _] _].
  split_and!; [done| |by apply Ha..]. by destruct (timeline_head d Hf) as [l ->].
Qed.

(** Appeals are decided by three independent arbiters.  In every dispute
    that has a senior panel, the panel has three members with distinct ids, none
    of whom is the original arbiter or belongs to a party's tenant; a final
    ruling exists only after a senior decision in which each member of that panel
    voted exactly once, and it upholds exactly if at least half of the votes
    do. *)
Theorem senior_panel_sound k id d :
  rtc served initial_desk k -> map_get id (dk_disputes k) = Some d ->
  (forall panel, d_panel d = Some panel -> panel_sound d panel) /\
  (forall r, d_finalRuling d = Some r -> FINAL ∈ timeline d /\ decision_sound d r).
Proof.
  intros Hr Hd. destruct (reachable_ok k Hr) as [_ Hall]. destruct (Hall id d Hd) as [[_ _ _ _ Hp Hx] _].
  split; [|by apply Hx]. intros panel Hpan. by apply (Hp panel).
Qed.

(** *** The ledgers *)

Definition amount_of (d : Dispute) : Z := match d_amount d with Fin z => z / U | _ => 0 end.
Definition integral (d : Dispute) : Prop := d_amount d = Fin (amount_of d * U).

(** An overturned decision takes the movement back if the ruling was given. *)
Definition taken_back (d : Dispute) : bool :=
  match d_finalRuling d with Some OVERTURNED => json_truthy (d_ruling d) | _ => false end.

(** What a dispute moved from the supplier to the buyer. *)
Definition net (d : Dispute) : Z :=
  match d_adjudicatedAt d with
  | None => 0
  | Some _ => if taken_back d then 0 else if favours_buyer (d_ruling d) then amount_of d else - amount_of d
  end.

Definition moved (k : Desk) : Z := sum_values net (dk_disputes k).

(** All amounts are integers and their sum is small enough for exact numbers. *)
Definition bounded (k : Desk) : Prop :=
  (forall id d, map_get id (dk_disputes k) = Some d -> integral d) /\
  sum_values (fun d => Z.abs (amount_of d)) (dk_disputes k) <= 2 ^ 52.

Definition ledger_ok (k : Desk) : Prop :=
  dk_buyer k = Fin ((1000 + moved k) * U) /\ dk_supplier k = Fin ((1000 - moved k) * U).

Lemma net_abs d : Z.abs (net d) <= Z.abs (amount_of d).
Proof. unfold net. repeat case_match; lia. Qed.

Lemma moved_abs k : bounded k -> Z.abs (moved k) <= 2 ^ 52.
Proof. intros [_ Hb]. pose proof (sum_values_abs net _ (dk_disputes k) net_abs). unfold moved. lia. Qed.

Lemma step_amount G d d' t : dispute_step G d d' t -> d_amount d' = d_amount d.
Proof.
  destruct 1 as [| | | | |now d' Hr]; try done. unfold reverse_dispute in Hr. by repeat case_match; simplify_eq.
Qed.

Lemma scanned_fields o now d :
  d_amount (scanned sha256 number_toString o now d) = d_amount d /\ net (scanned sha256 number_toString o now d) = net d.
Proof. unfold scanned, scan_one. by repeat (case_match; simplify_eq/=). Qed.

Lemma amount_of_eq d d' : d_amount d' = d_amount d -> amount_of d' = amount_of d.
Proof. unfold amount_of. by intros ->. Qed.

Lemma step_bounded G k k' : desk_step G k k' -> bounded k' -> bounded k.
Proof.
  intros Hs [Hi Hb]. destruct Hs as [He _|i body Hf He _|i d d' t Hg Hd He _|o now _ He _]; unfold bounded; rewrite He in *.
  - by split.
  - split.
    + intros j x Hx. apply (Hi j). rewrite map_get_set. case_bool_decide; [congruence|done].
    + rewrite sum_values_set, Hf in Hb. simpl in Hb. lia.
  - apply step_amount in Hd. pose proof (amount_of_eq _ _ Hd) as Ha. split.
    + intros j x Hx. destruct (decide (j = i)) as [->|Hne].
      * assert (x = d) as -> by congruence. specialize (Hi i d'). rewrite map_get_set_eq in Hi. specialize (Hi eq_refl).
        unfold integral in *. by rewrite <- Ha, <- Hd.
      * apply (Hi j). by rewrite map_get_set_ne.
    + rewrite sum_values_set, Hg in Hb. simpl in Hb. rewrite Ha in Hb. lia.
  - split.
    + intros j x Hx. specialize (Hi j (scanned sha256 number_toString o now x)). rewrite map_get_update_all, Hx in Hi.
      specialize (Hi eq_refl). destruct (scanned_fields o now x) as [Ha _]. unfold integral in *.
      by rewrite <- (amount_of_eq _ _ Ha), <- Ha.
    + rewrite sum_values_update_all in Hb; [done|]. intros x. destruct (scanned_fields o now x) as [Ha _].
      by rewrite (amount_of_eq _ _ Ha).
Qed.

Definition transfer (t : option bool) (a : Z) : Z :=
  match t with None => 0 | Some true => a | Some false => - a end.

Lemma undecided d : case_ok d -> FINAL ∉ timeline d -> d_finalRuling d = None.
Proof. intros Hd Hn. destruct (d_finalRuling d) as [r|] eqn:E; [|done]. by destruct (co_decision d Hd r E). Qed.

Lemma net_step k d d' t :
  case_ok d -> dispute_step (seq_guard k) d d' t -> net d' = net d + transfer t (amount_of d).
Proof.
  intros Hd Hs. pose proof (phase_of d Hd) as Hph. destruct (timeline_head d (co_finality d Hd)) as [l Hh].
  rewrite Hh in Hph. destruct Hs as [e p now Hc|r a p now Hc|now actor panel HG|votes p now Hv|p now Hc|now d' Hr]; simpl.
  - unfold net, taken_back, amount_of. simpl. lia.
  - assert (d_status d = EVIDENCED) as Hs by (by apply (transition_into _ _ Hc)). rewrite Hs in Hph. simpl in Hph.
    rewrite <- Hs, <- Hh in Hph. destruct Hph as [Hna Hnf].
    assert (d_adjudicatedAt d = None) as Hn.
    { destruct (d_adjudicatedAt d) eqn:E; [|done]. destruct Hna. apply (co_adjudicated d Hd). by rewrite E. }
    unfold net, taken_back, amount_of. simpl. rewrite Hn, (undecided d Hd Hnf). by destruct (favours_buyer r).
  - unfold net, taken_back, amount_of, appealed. simpl. lia.
  - assert (d_status d = SENIOR_REVIEW) as Hs.
    { unfold validateSeniorDecision in Hv. by case_bool_decide. }
    rewrite Hs in Hph. simpl in Hph. rewrite <- Hs, <- Hh in Hph. destruct Hph as [[t Ht]%(co_adjudicated d Hd) Hnf].
    unfold net, taken_back, amount_of. simpl. rewrite Ht, (undecided d Hd Hnf).
    destruct (decideByMajority votes), (json_truthy (d_ruling d)), (favours_buyer (d_ruling d)); simpl; lia.
  - unfold net, taken_back, amount_of. simpl. lia.
  - unfold reverse_dispute in Hr. repeat case_match; try done. simplify_eq. unfold net, taken_back, amount_of. simpl. lia.
Qed.

Lemma funds_step k k' t a :
  ledger_ok k -> funds_moved t (Fin (a * U)) k k' -> moved k' = moved k + transfer t a ->
  Z.abs (moved k) <= 2 ^ 52 -> Z.abs (moved k') <= 2 ^ 52 -> ledger_ok k'.
Proof.
  intros [Hb Hs] Hf Hm B1 B2. unfold ledger_ok. rewrite Hm in *.
  destruct t as [[]|]; destruct Hf as [-> ->]; cbn [move_funds dk_buyer dk_supplier transfer] in *; rewrite Hb, Hs.
  - rewrite add_cents, sub_cents by lia. split; f_equal; lia.
  - rewrite add_cents, sub_cents by lia. split; f_equal; lia.
  - split; f_equal; lia.
Qed.

Lemma served_ledger k k' :
  served k k' -> desk_ok k -> (bounded k -> ledger_ok k) -> bounded k' -> ledger_ok k'.
Proof.
  intros Hs%served_step [_ Hall] Hk Hb'. pose proof (step_bounded _ _ _ Hs Hb') as Hb. specialize (Hk Hb).
  pose proof (moved_abs k Hb) as B. pose proof (moved_abs k' Hb') as B'.
  destruct Hs as [He Hf|i body Hfr He Hf|i d d' t Hg Hd He Hf|o now _ He Hf].
  - apply (funds_step k k' None 0); try done. unfold moved. rewrite He. simpl. lia.
  - apply (funds_step k k' None 0); try done. unfold moved. rewrite He, sum_values_set, Hfr. simpl. unfold net at 2. simpl. lia.
  - assert (d_amount d = Fin (amount_of d * U)) as Ha by (by apply (proj1 Hb i)). rewrite Ha in Hf.
    apply (funds_step k k' t (amount_of d)); try done.
    unfold moved. rewrite He, sum_values_set, Hg. simpl. rewrite (net_step k d d' t); [lia| |done]. by apply (Hall i).
  - apply (funds_step k k' None 0); try done. unfold moved. rewrite He, sum_values_update_all; [simpl; lia|].
    intros x. apply scanned_fields.
Qed.

(** (C11) The ledgers follow the rulings: with requests served one after the other
    and integral amounts whose absolute values add up to at most 2^52, the
    buyers' and the suppliers' balance differ from the initial 1000 by what the
    adjudicated disputes moved, each its amount once in the direction of its
    ruling (one that was left out of the request counts for the supplier), and
    nothing if a senior panel overturned a ruling that was given: what moved
    without a given ruling is not taken back
    ([overturned_without_ruling_keeps_funds]).  The two balances add up to
    2000. *)
Theorem dispute_ledger_balanced k :
  rtc served initial_desk k -> bounded k ->
  dk_buyer k = Fin ((1000 + moved k) * U) /\ dk_supplier k = Fin ((1000 - moved k) * U) /\
  add (dk_buyer k) (dk_supplier k) = Fin (2000 * U).
Proof.
  intros Hr Hb. assert (ledger_ok k) as [-> ->].
  { revert Hb. assert (bounded initial_desk -> ledger_ok initial_desk) as Hi.
    { intros _. unfold ledger_ok, moved. simpl. by rewrite of_Z_exact by lia. }
    assert (desk_ok initial_desk) as Ho by (apply reachable_ok; constructor).
    revert Hi Ho. induction Hr as [|k1 k2 k3 H12 _ IH]; intros Hi Ho; [done|].
    apply IH; [by apply (served_ledger k1)|by apply (served_ok k1)]. }
  pose proof (moved_abs k Hb). split_and!; try done. rewrite add_cents by lia. f_equal. lia.
Qed.

(** *** Disputes nobody answers *)

Definition unstarted_ok (d : Dispute) : Prop :=
  finality_ok d /\ Forall (fun l => fr_status l <> OPEN) (d_finalityChain d) /\
  (time_set (d_autoResolvedAt d) = true -> d_finalityChain d <> []).

Lemma unstarted_push d d0 s p now :
  unstarted_ok d -> s <> OPEN -> d_finalityChain d0 = d_finalityChain d ->
  Forall (fun l => fr_status l <> OPEN) (d_finalityChain (push_link (link d0 s p now) d0)) /\
  d_finalityChain (push_link (link d0 s p now) d0) <> [].
Proof.
  intros (_ & Hl & _) Hs He. simpl. rewrite He. split; [|by destruct (d_finalityChain d)].
  apply Forall_app. split; [done|]. by constructor.
Qed.

Lemma prior_not_open c : c <> [] -> Forall (fun l => fr_status l <> OPEN) c -> prior_status c <> OPEN.
Proof.
  intros Hne Hall. destruct c as [|x c _] using rev_ind; [done|]. apply Forall_app in Hall as [Hc Hx].
  destruct c as [|y c _] using rev_ind; [by inversion Hx|]. rewrite prior_of_snoc.
  apply Forall_app in Hc as [_ Hy]. by inversion Hy.
Qed.

Lemma unstarted_step G d d' t : unstarted_ok d -> dispute_step G d d' t -> unstarted_ok d'.
Proof.
  intros Hd Hs. split; [eapply step_finality; [apply Hd|done]|].
  destruct Hs as [e p now Hc|r a p now Hc|now actor panel HG|votes p now Hv|p now Hc|now d' Hr].
  - by destruct (unstarted_push d (add_evidence e d) EVIDENCED p now).
  - by destruct (unstarted_push d (set_ruling r a now d) ADJUDICATED p now).
  - destruct Hd as (_ & Hl & _). simpl. split; [|by destruct (d_finalityChain d)].
    rewrite !Forall_app. repeat split; (done || by constructor).
  - by destruct (unstarted_push d d FINAL p now).
  - by destruct (unstarted_push d d TIMEOUT p now).
  - unfold reverse_dispute in Hr. destruct (time_set (d_autoResolvedAt d)) eqn:Ea; simpl in Hr; [|done].
    case_match; [done|]. case_match; [done|]. injection Hr as <-. destruct Hd as (_ & Hl & Ha). simpl. split; [|done].
    apply Forall_app. split; [done|]. constructor; [|constructor]. by apply prior_not_open; [apply Ha|].
Qed.

Lemma unstarted_scan o now d : unstarted_ok d -> unstarted_ok (scanned sha256 number_toString o now d).
Proof.
  intros Hd. split; [apply scanned_finality, Hd|]. unfold scanned, scan_one.
  destruct (time_set _); [apply Hd|]. destruct (auto_target _ o now d) as [[t reason]|]; [|apply Hd].
  destruct (canTransition (d_status d) t) eqn:Ec; simpl; [|apply Hd]. destruct Hd as (_ & Hl & _).
  split; [|by destruct (d_finalityChain d)]. apply Forall_app. split; [done|]. constructor; [|constructor]. simpl.
  intros ->. apply can_move in Ec. destruct (d_status d); simpl in Ec;
    repeat (apply elem_of_cons in Ec as [?|Ec]); try done; by apply elem_of_nil in Ec.
Qed.

Definition desk_unstarted (k : Desk) : Prop :=
  forall id d, map_get id (dk_disputes k) = Some d -> unstarted_ok d /\ d_id d = id.

Definition keeps_unstarted (k k' : Desk) : Prop := desk_unstarted k -> desk_unstarted k'.

#[local] Instance keeps_unstarted_preorder : PreOrder keeps_unstarted.
Proof. split; [by intros k Hk|]. intros k1 k2 k3 H12 H23 Hk. by apply H23, H12. Qed.

(** A dispute that is still OPEN is never resolved by the deadline scan,
    however long it has been waiting and whatever the configured timeouts. *)
Theorem open_never_times_out c id d o now :
  rtc (step exec_desk desk_request) desk_init c ->
  map_get id (dk_disputes (cf_state c)) = Some d -> d_status d = OPEN ->
  scan_one sha256 number_toString o now d = None.
Proof.
  intros Hr Hd Hs. assert (keeps_unstarted initial_desk (cf_state c)) as Hk.
  { apply (steps_preserve exec_desk desk_request (fun _ _ => True) keeps_unstarted desk_init c);
      [|intros; apply all_desk_events|done|constructor].
    intros X ev k x k' _ He Hk i x0. revert i x0. eapply (desk_step_forall (fun _ _ => True) unstarted_ok k k'); [..|exact Hk].
    - intros i body. split; [apply new_dispute_finality|]. by split; [constructor|].
    - intros d0 d' t Hd0 Hs0. by eapply unstarted_step.
    - intros o0 n0 d0 _. by apply unstarted_scan.
    - by eapply event_step. }
  destruct (Hk (fun _ _ => ltac:(done)) id d Hd) as [(Hf & Hl & _) _].
  assert (d_finalityChain d = []) as Hc.
  { destruct Hf as [_ _ Hst]. destruct (d_finalityChain d) as [|x ch _] using rev_ind; [done|].
    rewrite last_snoc, Hs in Hst. simpl in Hst. apply Forall_app in Hl as [_ Hx]. by inversion Hx. }
  unfold scan_one, auto_target, lastActivityAt. rewrite Hs, Hc. simpl. by destruct (time_set _).
Qed.

End Handlers.

(** ** Two appeals at once, and runs *)

Definition w_digest (s : string) : string := ("h" +:+ s)%string.
Definition w_num (_ : num) : string := "0".
Definition w_locale (a b : string) : bool := String.ltb b a.
Definition w_number (j : Json) : num := match j with JNum n => n | _ => NaN end.
Definition w_text (j : Json) : string := match j with JStr s => s | _ => "undefined" end.

Definition w_senior (i : string) : SeniorArbiter := {| sa_id := i; sa_tenantId := "neutral"; sa_name := None |}.
Definition w_votes : list SeniorPanelVote :=
  [{| pv_arbiterId := "a"; pv_vote := "OVERTURN" |}; {| pv_arbiterId := "b"; pv_vote := "UPHOLD" |};
   {| pv_arbiterId := "c"; pv_vote := "OVERTURN" |}].
Definition w_create : Json :=
  JObj [("buyerId", JStr "buyer"); ("supplierId", JStr "supplier"); ("amount", JNum (Fin (100 * U)))]%string.
Definition w_ruling : Json := JObj [("ruling", JStr "BUYER_FAVOR"); ("arbiter", JStr "judge")]%string.

Abbreviation w_handle := (do_desk w_digest w_num w_locale w_number w_text).

(** The clock at [t]; ids of new disputes are [i]. *)
Definition w_env (i : string) (t : Z) : DeskEnv := {| de_id := i; de_now := t; de_now' := t |}.

Definition w_programs : list (Prog DeskEv DeskError unit) :=
  [forget (simple (AddArbiterEv (w_senior "a"))); forget (simple (AddArbiterEv (w_senior "b")));
   forget (simple (AddArbiterEv (w_senior "c"))); forget (simple (CreateEv w_create));
   forget (simple (EvidenceEv "d" (JObj []))); forget (simple (AdjudicateEv "d" w_ruling));
   forget (appeal "10.0.0.1" "d"); forget (appeal "10.0.0.2" "d");
   forget (seniorDecide "d" w_votes); forget (seniorDecide "d" w_votes)].

(** Both appeals pass their checks before either makes its changes. *)
Definition w_schedule : list (nat * DeskEnv) :=
  let at_ n t := (n, w_env "free" t) in
  [at_ 0%nat 1; at_ 1%nat 2; at_ 2%nat 3; (3%nat, w_env "d" 4); at_ 4%nat 5; at_ 5%nat 6;
   at_ 6%nat 7; at_ 6%nat 7; at_ 7%nat 8; at_ 7%nat 8; at_ 6%nat 9; at_ 6%nat 9; at_ 8%nat 10;
   at_ 7%nat 11; at_ 7%nat 11; at_ 9%nat 12].

Definition w_final : Config DeskEv DeskError Desk :=
  follow w_handle w_schedule {| cf_state := initial_desk; cf_pool := w_programs |}.

Lemma w_final_reachable :
  rtc (step (exec_desk w_digest w_num w_locale w_number w_text) desk_request) desk_init w_final.
Proof.
  etrans; [apply (admit_steps _ _ _ [] w_programs); unfold w_programs; repeat constructor|].
  apply (follow_ok_steps _ _ w_handle env_ok).
  - intros e X ev k He. exists e. split; [done|]. apply surjective_pairing.
  - repeat (split; [split; vm_compute; reflexivity|]). exact I.
Qed.

(** Two appeals of one ruling, made while the first still waits for the audit
    log, are both accepted: the dispute is decided twice, and a ruling that the
    panel overturned is reversed twice, so that the party that won the appeal ends
    with a loss. *)
Theorem concurrent_appeals_reverse_twice :
  exists c d, rtc (step (exec_desk w_digest w_num w_locale w_number w_text) desk_request) desk_init c /\
    map_get "d" (dk_disputes (cf_state c)) = Some d /\
    d_amount d = Fin (100 * U) /\ d_ruling d = JStr "BUYER_FAVOR" /\ d_finalRuling d = Some OVERTURNED /\
    timeline d = [FINAL; SENIOR_REVIEW; APPEALED; FINAL; SENIOR_REVIEW; APPEALED; ADJUDICATED; EVIDENCED; OPEN] /\
    dk_buyer (cf_state c) = Fin (900 * U) /\ dk_supplier (cf_state c) = Fin (1100 * U).
Proof.
  exists w_final. destruct (map_get "d" (dk_disputes (cf_state w_final))) as [d|] eqn:Ed; [|vm_compute in Ed; discriminate].
  exists d. split; [apply w_final_reachable|]. split; [done|]. vm_compute in Ed. injection Ed as <-.
  split_and!; vm_compute; reflexivity.
Qed.

(** Serving a list of requests. *)
Fixpoint serve_all (l : list (Prog DeskEv DeskError unit * DeskEnv)) (k : Desk) : Desk :=
  match l with
  | [] => k
  | (p, e) :: l' => serve_all l' (snd (run (w_handle e) p k))
  end.

Fixpoint serve_ok (l : list (Prog DeskEv DeskError unit * DeskEnv)) (k : Desk) : Prop :=
  match l with
  | [] => True
  | (p, e) :: l' => desk_request p /\ env_ok e k /\ serve_ok l' (snd (run (w_handle e) p k))
  end.

Lemma serve_all_served l k :
  serve_ok l k -> rtc (served w_digest w_num w_locale w_number w_text) k (serve_all l k).
Proof.
  revert k. induction l as [|[p e] l IH]; intros k; simpl; [done|]. intros (Hp & He & Hl).
  eapply rtc_l; [by apply served_one|by apply IH].
Qed.

Definition w_requests : list (Prog DeskEv DeskError unit * DeskEnv) :=
  [(forget (simple (AddArbiterEv (w_senior "b"))), w_env "x" 1); (forget (simple (AddArbiterEv (w_senior "a"))), w_env "x" 2);
   (forget (simple (AddArbiterEv (w_senior "c"))), w_env "x" 3); (forget (simple (CreateEv w_create)), w_env "d" 4);
   (forget (simple (CreateEv w_create)), w_env "e" 4); (forget (simple (EvidenceEv "d" (JObj []))), w_env "x" 5);
   (forget (simple (AdjudicateEv "d" w_ruling)), w_env "x" 6); (forget (appeal "10.0.0.1" "d"), w_env "x" 7);
   (forget (seniorDecide "d" w_votes), w_env "x" 8)].

Definition w_desk : Desk := serve_all w_requests initial_desk.

Lemma w_desk_served : rtc (served w_digest w_num w_locale w_number w_text) initial_desk w_desk.
Proof.
  apply serve_all_served. repeat (split; [by constructor|split; [split; vm_compute; reflexivity|]]). exact I.
Qed.

Definition w_dispute : Dispute := default (new_dispute w_number "" JNull) (map_get "d" (dk_disputes w_desk)).

Lemma w_dispute_found : map_get "d" (dk_disputes w_desk) = Some w_dispute.
Proof. vm_compute. reflexivity. Qed.

Lemma finality_chain_sound_witness :
  exists d, map_get "d" (dk_disputes (cf_state w_final)) = Some d /\ length (d_finalityChain d) = 8%nat /\
    finality_ok w_digest w_num d.
Proof.
  destruct (map_get "d" (dk_disputes (cf_state w_final))) as [d|] eqn:Ed; [|vm_compute in Ed; discriminate].
  exists d. split; [reflexivity|]. split; [vm_compute in Ed; injection Ed as <-; reflexivity|].
  exact (proj1 (finality_chain_sound w_digest w_num w_locale w_number w_text w_final "d" d w_final_reachable Ed)).
Defined.

Lemma dispute_life_cycle_witness :
  timeline w_dispute = [FINAL; SENIOR_REVIEW; APPEALED; ADJUDICATED; EVIDENCED; OPEN] /\ life_cycle (timeline w_dispute).
Proof.
  split; [vm_compute; reflexivity|].
  exact (proj1 (dispute_life_cycle w_digest w_num w_locale w_number w_text w_desk "d" w_dispute w_desk_served w_dispute_found)).
Defined.

Lemma senior_panel_sound_witness :
  d_panel w_dispute = Some [w_senior "a"; w_senior "b"; w_senior "c"] /\
  panel_sound w_dispute [w_senior "a"; w_senior "b"; w_senior "c"] /\ decision_sound w_dispute OVERTURNED.
Proof.
  destruct (senior_panel_sound w_digest w_num w_locale w_number w_text w_desk "d" w_dispute w_desk_served w_dispute_found)
    as [Hp Hd].
  split; [vm_compute; reflexivity|]. split; [apply Hp; vm_compute; reflexivity|].
  destruct (Hd OVERTURNED) as [_ Hx]; [vm_compute; reflexivity|exact Hx].
Defined.

Lemma w_desk_bounded : bounded w_desk.
Proof.
  split; [|vm_compute; discriminate]. intros i d Hd%map_get_elem.
  assert (forallb (fun kv : string * Dispute => bool_decide (d_amount kv.2 = Fin (amount_of kv.2 * U))) (dk_disputes w_desk) = true)
    as Hall by (vm_compute; reflexivity).
  rewrite forallb_forall in Hall. apply list_elem_of_In in Hd. exact (bool_decide_eq_true_1 _ (Hall (i, d) Hd)).
Qed.

Lemma dispute_ledger_balanced_witness :
  moved w_desk = 0 /\ dk_buyer w_desk = Fin ((1000 + moved w_desk) * U).
Proof.
  split; [vm_compute; reflexivity|].
  exact (proj1 (dispute_ledger_balanced w_digest w_num w_locale w_number w_text w_desk w_desk_served w_desk_bounded)).
Defined.

Lemma open_never_times_out_witness :
  let c := follow w_handle [(0%nat, w_env "d" 4)]
             {| cf_state := initial_desk; cf_pool := [forget (simple (CreateEv w_create))] |} in
  exists d, map_get "d" (dk_disputes (cf_state c)) = Some d /\
    scan_one w_digest w_num {| do_inactivityTimeoutMs := None; do_seniorReviewTimeoutMs := None; do_autoResolveWindowMs := None |}
      4000000000000 d = None.
Proof.
  intros c. destruct (map_get "d" (dk_disputes (cf_state c))) as [d|] eqn:Ed; [|vm_compute in Ed; discriminate].
  exists d. split; [reflexivity|].
  apply (open_never_times_out w_digest w_num w_locale w_number w_text c "d" d); [|exact Ed|].
  - etrans; [apply (admit_steps _ _ _ [] [forget (simple (CreateEv w_create))]); repeat constructor|].
    apply (follow_ok_steps _ _ w_handle env_ok).
    + intros e X ev k He. exists e. split; [exact He|]. apply surjective_pairing.
    + split; [split; vm_compute; reflexivity|exact I].
  - vm_compute in Ed. injection Ed as <-. reflexivity.
Defined.

(** A ruling that was left out of the request counts for the supplier, and
    overturning it does not give the money back. *)
Definition w_no_ruling : list (Prog DeskEv DeskError unit * DeskEnv) :=
  take 6 w_requests ++ (forget (simple (AdjudicateEv "d" (JObj []))), w_env "x" 6) :: drop 7 w_requests.

Lemma overturned_without_ruling_keeps_funds :
  let k := serve_all w_no_ruling initial_desk in
  (d_finalRuling <$> map_get "d" (dk_disputes k)) = Some (Some OVERTURNED) /\ dk_buyer k = Fin (900 * U) /\ dk_supplier k = Fin (1100 * U).
Proof. vm_compute. auto. Qed.
