(* ===== verification/PayoutRetry.v ===== *)
(** * PayoutRetry: retry delays and quarantine of payouts

    The full-jitter backoff of [scheduler/payoutRetryPolicy.ts], the outcome
    label of [scheduler/payoutRetryMetrics.ts] and the failure counter of
    [services/quarantineStore.ts].  [Math.pow] and [Math.random] are parameters:
    the language leaves their results to the implementation.  The settlement
    reconciler that uses them is in [Settlement.v]. *)
From stdpp Require Import base list strings.
From Stdlib Require Import ZArith Lia.
From S2P Require Import Prelude JsNumber JsMap.
Local Open Scope Z_scope.

(** ** The retry policy *)

Record ProviderRetryConfig : Type := {
  rc_providerId : string;
  rc_baseDelayMs : num;
  rc_multiplier : num;
  rc_maxDelayCeilingMs : num;
  rc_maxRetries : num
}.

Record BackoffDelayResult : Type := {
  bd_capMs : num;
  bd_delayMs : num;
  bd_attempt : Z;
  bd_providerId : string
}.

Inductive RetryConfigError : Type :=
| EmptyProviderId | BadBaseDelay | BadMultiplier | BadCeiling | BadMaxRetries | BadAttempt.

Definition default_config (providerId : string) : ProviderRetryConfig :=
  {| rc_providerId := providerId; rc_baseDelayMs := of_Z 1000; rc_multiplier := of_Z 2;
     rc_maxDelayCeilingMs := of_Z 30000; rc_maxRetries := of_Z 5 |}.

Definition getProviderRetryConfig (registry : jsmap ProviderRetryConfig) (providerId : string) : ProviderRetryConfig :=
  default (default_config providerId) (map_get providerId registry).

(** A number is not a positive (or non-negative) integer. *)
Definition not_positive_int (n : num) : bool := negb (is_integer n) || leb n zero.
Definition not_natural_int (n : num) : bool := negb (is_integer n) || ltb n zero.

Definition validateProviderRetryConfig (cfg : ProviderRetryConfig) : result RetryConfigError unit :=
  _ ← throw_if (negb (str_truthy (rc_providerId cfg))) EmptyProviderId;
  _ ← throw_if (not_positive_int (rc_baseDelayMs cfg)) BadBaseDelay;
  _ ← throw_if (ltb (rc_multiplier cfg) one) BadMultiplier;
  _ ← throw_if (not_positive_int (rc_maxDelayCeilingMs cfg)) BadCeiling;
  throw_if (not_natural_int (rc_maxRetries cfg)) BadMaxRetries.

Definition isRetryable (attempt : Z) (cfg : ProviderRetryConfig) : bool := ltb (of_Z attempt) (rc_maxRetries cfg).

Inductive PayoutRetryOutcome : Type := o_scheduled | o_ceiling_hit | o_exhausted.

Definition resolveRetryOutcome (capMs maxDelayCeilingMs : num) (isExhausted : bool) : PayoutRetryOutcome :=
  if isExhausted then o_exhausted else if eqb capMs maxDelayCeilingMs then o_ceiling_hit else o_scheduled.

Section Backoff.
Context (pow : num -> num -> num).

(** [random] is the value the random source returned. *)
Definition calculatePayoutBackoffDelay (attempt : Z) (cfg : ProviderRetryConfig) (random : num) :
    result RetryConfigError BackoffDelayResult :=
  _ ← validateProviderRetryConfig cfg;
  _ ← throw_if (attempt <? 0) BadAttempt;
  let exponentialCap := mul (rc_baseDelayMs cfg) (pow (rc_multiplier cfg) (of_Z attempt)) in
  let capMs := math_min (rc_maxDelayCeilingMs cfg) exponentialCap in
  let delayMs := math_floor (mul random (add capMs one)) in
  mret {| bd_capMs := capMs; bd_delayMs := delayMs; bd_attempt := attempt; bd_providerId := rc_providerId cfg |}.

(** *** The window of the jitter *)

Lemma positive_int n : not_positive_int n = false -> exists k, n = Fin (k * U) /\ 0 < k.
Proof.
  unfold not_positive_int. rewrite orb_false_iff, negb_false_iff. intros [Hi Hp].
  destruct n as [x| | |]; try done. apply is_integer_multiple in Hi as (k & ->). exists k. split; [done|].
  unfold zero in Hp. rewrite leb_fin, Z.leb_gt in Hp. pose proof U_pos. nia.
Qed.

(** A clamped window: at least one millisecond, at most the ceiling. *)
Lemma cap_range M base p :
  0 < M <= 2 ^ 52 -> 0 < base -> leb one p = true ->
  exists c, math_min (Fin (M * U)) (mul (Fin (base * U)) p) = Fin c /\ U <= c <= M * U.
Proof.
  intros HM Hb Hp. pose proof U_pos as HU.
  assert (leb one (mul (Fin (base * U)) p) = true) as Hx.
  { destruct p as [x| | |]; try done.
    - unfold one in Hp. rewrite leb_fin, Z.leb_le in Hp. eapply leb_trans; [|by apply (mul_le_r _ U x); [lia|]].
      eapply leb_trans; [|by apply (mul_le_l U (base * U) U); nia].
      pose proof (mul_one_r U dbl_U) as E. unfold one in *. rewrite E. by apply leb_refl.
    - unfold mul. cbn. rewrite Z.sgn_pos by nia. done. }
  destruct (mul (Fin (base * U)) p) as [x| | |]; try done.
  - unfold one in Hx. rewrite leb_fin, Z.leb_le in Hx. unfold math_min. cbn [ltb].
    destruct (Z.ltb_spec x (M * U)); eexists; split; [done|nia|done|nia].
  - exists (M * U). split; [done|nia].
Qed.

(** The whole milliseconds drawn from a window [c] stay below [c + 1]. *)
Lemma jitter_range c M r :
  U <= c <= M * U -> 0 < M <= 2 ^ 52 -> 0 <= r <= U - ulp1 ->
  exists n, math_floor (mul (Fin r) (add (Fin c) one)) = Fin (n * U) /\ 0 <= n <= M /\ n * U < c + U.
Proof.
  intros Hc HM Hr. pose proof U_pos as HU. set (k := - (- c / U)).
  assert (c <= k * U < c + U) as Hk.
  { unfold k. pose proof (Z.div_mod (- c) U ltac:(lia)). pose proof (Z.mod_pos_bound (- c) U HU). nia. }
  assert (1 <= k <= M) as HkM by nia.
  destruct (add_between 0 ((k + 1) * U) c U) as (x & Ha & _ & Hx);
    [apply dbl_0|apply dbl_int; lia|nia|].
  unfold one. rewrite Ha.
  destruct (mul_below_int (k + 1) r) as (y & Hy & Hy0 & Hyk); [lia|done|].
  pose proof (mul_le_r r x ((k + 1) * U) ltac:(lia) ltac:(lia)) as Hle. rewrite Hy in Hle.
  pose proof (mul_le_r r 0 x ltac:(lia) ltac:(lia)) as Hge. change (Fin 0) with zero in Hge at 1. rewrite mul_zero_r in Hge.
  destruct (mul (Fin r) (Fin x)) as [z| | |]; try done. rewrite leb_fin, Z.leb_le in *.
  rewrite floor_fin. exists (z / U). pose proof (Z.div_pos z U ltac:(lia) HU).
  pose proof (Z.mul_div_le z U HU). assert (z / U <= k) by (apply Z.lt_succ_r, Z.div_lt_upper_bound; nia).
  split; [done|]. split; nia.
Qed.

(** What the language says of [Math.pow] on a base and an exponent of at least
    one and zero. *)
Class PowLaws : Prop :=
  pow_at_least_one m a : ltb m one = false -> m <> NaN -> 0 <= a -> leb one (pow m (of_Z a)) = true.

Lemma validated cfg :
  validateProviderRetryConfig cfg = Ok tt ->
  (exists b, rc_baseDelayMs cfg = Fin (b * U) /\ 0 < b) /\ ltb (rc_multiplier cfg) one = false /\
  exists M, rc_maxDelayCeilingMs cfg = Fin (M * U) /\ 0 < M.
Proof.
  unfold validateProviderRetryConfig. intros H. inv_ok. split_and!; auto using positive_int.
Qed.

(** The wait before a payout is polled again: for a configuration that
    passes its validation, with a multiplier that is a number and a ceiling of
    at most 2^52 ms, a non-negative attempt and a random draw in [0, 1), the
    computation succeeds, the window is the exponential one clamped to the
    provider's ceiling and at least one millisecond, and the delay is a whole
    number of milliseconds that is not negative, never above the ceiling and
    less than one millisecond above the window (hence inside it when the window
    is whole), however large the attempt and the multiplier are. *)
Theorem backoff_within_window `{!PowLaws} cfg attempt r :
  validateProviderRetryConfig cfg = Ok tt -> rc_multiplier cfg <> NaN ->
  leb (rc_maxDelayCeilingMs cfg) (of_Z (2 ^ 52)) = true ->
  0 <= attempt -> 0 <= r <= U - ulp1 ->
  exists c n,
    calculatePayoutBackoffDelay attempt cfg (Fin r) =
      Ok {| bd_capMs := Fin c; bd_delayMs := Fin (n * U); bd_attempt := attempt; bd_providerId := rc_providerId cfg |} /\
    Fin c = math_min (rc_maxDelayCeilingMs cfg) (mul (rc_baseDelayMs cfg) (pow (rc_multiplier cfg) (of_Z attempt))) /\
    U <= c /\ leb (Fin c) (rc_maxDelayCeilingMs cfg) = true /\
    0 <= n /\ leb (Fin (n * U)) (rc_maxDelayCeilingMs cfg) = true /\ n * U < c + U.
Proof.
  intros Hv Hm Hmax Ha Hr. destruct (validated cfg Hv) as ((b & Hb & Hb0) & Hmul & M & HM & HM0).
  rewrite HM, of_Z_exact, leb_fin, Z.leb_le in Hmax by lia. pose proof U_pos as HU.
  destruct (cap_range M b (pow (rc_multiplier cfg) (of_Z attempt))) as (c & Hc & Hc1); [nia|done|by apply pow_at_least_one|].
  destruct (jitter_range c M r) as (n & Hn & Hn1 & Hn2); [done|nia|done|].
  exists c, n. unfold calculatePayoutBackoffDelay. rewrite Hv, Hb, HM. cbn [mbind result_bind].
  replace (attempt <? 0) with false by (symmetry; apply Z.ltb_ge; lia). cbn. rewrite Hc, Hn.
  rewrite !leb_fin, !Z.leb_le. split_and!; try done; nia.
Qed.
End Backoff.

(** An exponentiation by repeated multiplication, for concrete inputs. *)
Fixpoint pow_nat (m : num) (n : nat) : num := match n with O => one | S n => mul m (pow_nat m n) end.

Definition pow_repeated (m a : num) : num :=
  match a with Fin x => if leb one m then pow_nat m (Z.to_nat (Z.min 64 (x / U))) else one | _ => one end.

Lemma at_least_one a : leb one a = true -> (exists x, a = Fin x /\ U <= x) \/ a = PInf.
Proof.
  destruct a as [x| | |]; [|by right|discriminate..]. unfold one. rewrite leb_fin, Z.leb_le. eauto.
Qed.

Lemma pow_nat_ge m n : leb one m = true -> leb one (pow_nat m n) = true.
Proof.
  assert (leb one one = true) as H1 by (by apply leb_refl). pose proof U_pos as HU.
  intros Hm. induction n as [|n IH]; simpl; [exact H1|].
  apply at_least_one in Hm as [(x & -> & Hx)| ->]; apply at_least_one in IH as [(y & -> & Hy)| ->].
  - rewrite <- (mul_one_r U dbl_U) at 1. eapply leb_trans; [by apply (mul_le_l U x U); lia|apply mul_le_r; lia].
  - unfold mul. cbn. by rewrite Z.sgn_pos by lia.
  - unfold mul. cbn. by rewrite Z.sgn_pos by lia.
  - done.
Qed.

#[export] Instance pow_repeated_laws : PowLaws pow_repeated.
Proof.
  intros m a _ _ _. assert (leb one one = true) as H1 by (by apply leb_refl).
  unfold pow_repeated. destruct (of_Z a) as [x| | |]; [|exact H1..].
  destruct (leb one m) eqn:E; [by apply pow_nat_ge|exact H1].
Qed.

Lemma backoff_within_window_witness :
  exists c n,
    calculatePayoutBackoffDelay pow_repeated 40 (default_config "ach") (Fin (U - ulp1)) =
      Ok {| bd_capMs := Fin c; bd_delayMs := Fin (n * U); bd_attempt := 40; bd_providerId := "ach" |} /\
    leb (Fin (n * U)) (of_Z 30000) = true.
Proof.
  destruct (backoff_within_window pow_repeated (default_config "ach") 40 (U - ulp1)) as (c & n & H & _ & _ & _ & _ & Hn & _);
    [vm_compute; reflexivity|by vm_compute|vm_compute; reflexivity|by vm_compute|split; [by vm_compute|apply Z.le_refl]|].
  exists c, n. split; [exact H|exact Hn].
Defined.

(** A window that is not whole can be exceeded: with a base of one millisecond
    and a multiplier of 3/2 the second attempt may wait 2 ms in a window of
    1.5 ms. *)
Lemma fractional_window_exceeded :
  exists cfg c n,
    validateProviderRetryConfig cfg = Ok tt /\
    calculatePayoutBackoffDelay pow_repeated 1 cfg (lit 9 10) =
      Ok {| bd_capMs := c; bd_delayMs := n; bd_attempt := 1; bd_providerId := "ach" |} /\
    ltb c n = true.
Proof.
  exists {| rc_providerId := "ach"; rc_baseDelayMs := of_Z 1; rc_multiplier := lit 3 2;
            rc_maxDelayCeilingMs := of_Z 30000; rc_maxRetries := of_Z 5 |}, (lit 3 2), (of_Z 2).
  vm_compute. done.
Qed.

(** A multiplier that is not a number passes the validation, and the delay is
    then not a number either. *)
Lemma nan_multiplier_accepted :
  exists cfg b,
    validateProviderRetryConfig cfg = Ok tt /\
    (forall pow, pow NaN (of_Z 1) = NaN -> calculatePayoutBackoffDelay pow 1 cfg (lit 1 2) = Ok b) /\ bd_delayMs b = NaN.
Proof.
  exists {| rc_providerId := "ach"; rc_baseDelayMs := of_Z 1; rc_multiplier := NaN;
            rc_maxDelayCeilingMs := of_Z 30000; rc_maxRetries := of_Z 5 |},
    {| bd_capMs := NaN; bd_delayMs := NaN; bd_attempt := 1; bd_providerId := "ach" |}.
  split; [vm_compute; reflexivity|]. split; [|done]. intros pow Hp. unfold calculatePayoutBackoffDelay. cbn [rc_multiplier].
  rewrite Hp. vm_compute. reflexivity.
Qed.

(** ** Quarantine *)

Inductive PayoutQuarantineStatus : Type := q_active | q_quarantined | q_released.

#[export] Instance PayoutQuarantineStatus_eq : EqDecision PayoutQuarantineStatus.
Proof. solve_decision. Defined.

Record PayoutQuarantineEntry : Type := {
  qe_payoutId : string;
  qe_supplierId : option string;
  qe_totalFailures : Z;
  qe_threshold : num;
  qe_status : PayoutQuarantineStatus;
  qe_lastErrorClass : option string;
  qe_lastErrorMessage : option string;
  qe_quarantinedAt : option Z;
  qe_releasedAt : option Z;
  qe_quarantineReason : option string;
  qe_releaseReason : option string;
  qe_releasedBy : option string
}.

Record RecordPayoutFailureInput : Type := {
  rf_payoutId : string;
  rf_supplierId : option string;
  rf_errorClass : option string;
  rf_errorMessage : option string;
  rf_threshold : option num
}.

(** The alert [PAYOUT_QUARANTINED]. *)
Record QuarantineAlert : Type := { qa_payoutId : string; qa_totalFailures : Z; qa_threshold : num }.

(** The service's two maps, and the alerts it has emitted. *)
Record Quarantine : Type := {
  q_failureCounts : jsmap Z;
  q_entries : jsmap PayoutQuarantineEntry;
  q_alerts : list QuarantineAlert
}.

Definition no_quarantine : Quarantine := {| q_failureCounts := []; q_entries := []; q_alerts := [] |}.

(** [a ?? b] on optional fields. *)
Definition or_else {A} (a b : option A) : option A := match a with Some _ => a | None => b end.

Definition over_threshold (totalFailures : Z) (threshold : num) : bool :=
  if leb threshold zero then true else geb (of_Z totalFailures) threshold.

(** The entry before the threshold is looked at. *)
Definition failure_entry (input : RecordPayoutFailureInput) (threshold : num) (totalFailures : Z)
    (existing : option PayoutQuarantineEntry) : PayoutQuarantineEntry :=
  {| qe_payoutId := rf_payoutId input;
     qe_supplierId := or_else (rf_supplierId input) (existing ≫= qe_supplierId);
     qe_totalFailures := totalFailures;
     qe_threshold := threshold;
     qe_status := match existing with
                  | Some e => if bool_decide (qe_status e = q_released) then q_active else qe_status e
                  | None => q_active
                  end;
     qe_lastErrorClass := or_else (rf_errorClass input) (existing ≫= qe_lastErrorClass);
     qe_lastErrorMessage := or_else (rf_errorMessage input) (existing ≫= qe_lastErrorMessage);
     qe_quarantinedAt := existing ≫= qe_quarantinedAt;
     qe_releasedAt := existing ≫= qe_releasedAt;
     qe_quarantineReason := existing ≫= qe_quarantineReason;
     qe_releaseReason := existing ≫= qe_releaseReason;
     qe_releasedBy := existing ≫= qe_releasedBy |}.

Definition quarantine_entry (now : Z) (e : PayoutQuarantineEntry) : PayoutQuarantineEntry :=
  {| qe_payoutId := qe_payoutId e; qe_supplierId := qe_supplierId e; qe_totalFailures := qe_totalFailures e;
     qe_threshold := qe_threshold e; qe_status := q_quarantined;
     qe_lastErrorClass := qe_lastErrorClass e; qe_lastErrorMessage := qe_lastErrorMessage e;
     qe_quarantinedAt := Some now; qe_releasedAt := None; qe_quarantineReason := Some "failure-threshold-reached"%string;
     qe_releaseReason := None; qe_releasedBy := None |}.

Definition recordFailure (defaultThreshold : option num) (now : Z) (input : RecordPayoutFailureInput) (q : Quarantine) :
    (PayoutQuarantineEntry * bool) * Quarantine :=
  let threshold := default (default (of_Z 3) defaultThreshold) (rf_threshold input) in
  let id := rf_payoutId input in
  let totalFailures := default 0 (map_get id (q_failureCounts q)) + 1 in
  let counts := map_set id totalFailures (q_failureCounts q) in
  let entry := failure_entry input threshold totalFailures (map_get id (q_entries q)) in
  if over_threshold totalFailures threshold && negb (bool_decide (qe_status entry = q_quarantined)) then
    let entry := quarantine_entry now entry in
    ((entry, true),
     {| q_failureCounts := counts; q_entries := map_set id entry (q_entries q);
        q_alerts := q_alerts q ++ [{| qa_payoutId := id; qa_totalFailures := totalFailures; qa_threshold := threshold |}] |})
  else
    ((entry, false),
     {| q_failureCounts := counts; q_entries := map_set id entry (q_entries q); q_alerts := q_alerts q |}).

Definition released_entry (now : Z) (reason releasedBy : option string) (e : PayoutQuarantineEntry) : PayoutQuarantineEntry :=
  {| qe_payoutId := qe_payoutId e; qe_supplierId := qe_supplierId e; qe_totalFailures := qe_totalFailures e;
     qe_threshold := qe_threshold e; qe_status := q_released;
     qe_lastErrorClass := qe_lastErrorClass e; qe_lastErrorMessage := qe_lastErrorMessage e;
     qe_quarantinedAt := qe_quarantinedAt e; qe_releasedAt := Some now; qe_quarantineReason := qe_quarantineReason e;
     qe_releaseReason := reason; qe_releasedBy := releasedBy |}.

Definition release (now : Z) (payoutId : string) (reason releasedBy : option string) (q : Quarantine) : bool * Quarantine :=
  match map_get payoutId (q_entries q) with
  | None => (false, q)
  | Some e =>
      (true, {| q_failureCounts := map_delete payoutId (q_failureCounts q);
                q_entries := map_set payoutId (released_entry now reason releasedBy e) (q_entries q);
                q_alerts := q_alerts q |})
  end.

Definition isQuarantined (payoutId : string) (q : Quarantine) : bool :=
  match map_get payoutId (q_entries q) with Some e => bool_decide (qe_status e = q_quarantined) | None => false end.

Definition list_quarantined (q : Quarantine) : list PayoutQuarantineEntry := map_values (q_entries q).

(** *** The contract: a count per payout *)

Inductive QuarantineCall : Type :=
| CFail (now : Z) (input : RecordPayoutFailureInput)
| CRelease (now : Z) (payoutId : string) (reason releasedBy : option string).

Definition call (q : Quarantine) (c : QuarantineCall) : Quarantine :=
  match c with
  | CFail now input => snd (recordFailure None now input q)
  | CRelease now id reason by_ => snd (release now id reason by_ q)
  end.

(** The failures of a payout since its last release. *)
Definition spec_failures (id : string) (n : Z) (c : QuarantineCall) : Z :=
  match c with
  | CFail _ input => if bool_decide (rf_payoutId input = id) then n + 1 else n
  | CRelease _ i _ _ => if bool_decide (i = id) then 0 else n
  end.

Definition failures_since_release (id : string) (cs : list QuarantineCall) : Z := fold_left (spec_failures id) cs 0.

Definition uses_threshold (T : num) (c : QuarantineCall) : Prop :=
  match c with CFail _ input => default (of_Z 3) (rf_threshold input) = T | _ => True end.

(** How a payout's entry and counter represent the count. *)
Record tracks (T : num) (id : string) (n : Z) (q : Quarantine) : Prop := {
  tk_count : default 0 (map_get id (q_failureCounts q)) = n;
  tk_nonneg : 0 <= n;
  tk_status : isQuarantined id q = (0 <? n) && over_threshold n T;
  tk_entry : map_get id (q_entries q) = None -> n = 0
}.

Lemma over_threshold_mono m n T : m <= n -> over_threshold m T = true -> over_threshold n T = true.
Proof.
  unfold over_threshold, geb. destruct (leb T zero); [done|]. intros Hmn H. eapply leb_trans; [exact H|by apply of_Z_mono].
Qed.

Lemma tracks_fail T id n q now input :
  uses_threshold T (CFail now input) -> tracks T id n q ->
  tracks T id (spec_failures id n (CFail now input)) (snd (recordFailure None now input q)).
Proof.
  intros HT [Hc Hn Hs He]. simpl in HT. unfold recordFailure. cbn [default]. rewrite HT.
  set (tot := default 0 _ + 1). set (e := failure_entry _ _ _ _).
  unfold spec_failures. case_bool_decide as Hid; [subst id|].
  - assert (tot = n + 1) as Ht by (unfold tot; lia).
    assert (bool_decide (qe_status e = q_quarantined) = isQuarantined (rf_payoutId input) q) as Hq.
    { unfold e, isQuarantined. simpl. destruct (map_get _ (q_entries q)) as [e0|]; [|done].
      by destruct (qe_status e0). }
    assert ((0 <? n + 1) = true) as Hpos by (apply Z.ltb_lt; lia).
    assert (isQuarantined (rf_payoutId input) q = true -> over_threshold (n + 1) T = true) as Hstay.
    { rewrite Hs. intros [_ ?]%andb_prop. eapply over_threshold_mono; [|done]. lia. }
    rewrite Hq. clearbody tot e. subst tot.
    destruct (over_threshold (n + 1) T) eqn:Eo; [destruct (isQuarantined (rf_payoutId input) q) eqn:Eq|]; cbn [andb negb];
      split; cbn [snd q_failureCounts q_entries]; unfold isQuarantined; cbn [q_entries]; rewrite ?map_get_set_eq; try done; try lia;
      rewrite Hpos, Eo; cbn [quarantine_entry qe_status]; try done.
    rewrite Hq. destruct (isQuarantined _ q); [by specialize (Hstay eq_refl)|done].
  - assert (id <> rf_payoutId input) as Hne by congruence.
    destruct (over_threshold tot T && _); split; cbn [snd q_failureCounts q_entries]; unfold isQuarantined in *; cbn [q_entries];
      by rewrite ?map_get_set_ne by done.
Qed.

Lemma tracks_release T id n q now i reason by_ :
  tracks T id n q -> tracks T id (spec_failures id n (CRelease now i reason by_)) (snd (release now i reason by_ q)).
Proof.
  intros [Hc Hn Hs He]. unfold release. simpl. destruct (map_get i (q_entries q)) as [e|] eqn:Ei; simpl.
  - case_bool_decide; [subst i|]; split; simpl; unfold isQuarantined; simpl;
      rewrite ?map_get_delete, ?map_get_set; rewrite ?bool_decide_eq_true_2 by done;
      rewrite ?bool_decide_eq_false_2 by done; try done; try lia.
  - case_bool_decide; [subst i|by split]. specialize (He Ei). subst n. by split; rewrite ?He in *.
Qed.

(** The quarantine service refines a counter: after any sequence of
    recorded failures (with one threshold) and releases, a payout is quarantined
    exactly when it has failed since its last release and the number of those
    failures has reached the threshold (at once when the threshold is not
    positive), whatever happens to the other payouts in between. *)
Theorem quarantine_counts_failures T cs id :
  Forall (uses_threshold T) cs ->
  isQuarantined id (fold_left call cs no_quarantine) =
  (0 <? failures_since_release id cs) && over_threshold (failures_since_release id cs) T.
Proof.
  intros HT. enough (tracks T id (failures_since_release id cs) (fold_left call cs no_quarantine)) as [_ _ H _] by exact H.
  unfold failures_since_release. induction cs as [|c cs IH] using rev_ind; [by split|].
  apply Forall_app in HT as [HT [Hc _]%Forall_cons]. rewrite !fold_left_app. simpl. specialize (IH HT).
  destruct c; [by apply tracks_fail|by apply tracks_release].
Qed.

Definition sample_failure : RecordPayoutFailureInput :=
  {| rf_payoutId := "tx1"; rf_supplierId := None; rf_errorClass := Some "SETTLEMENT"%string; rf_errorMessage := None;
     rf_threshold := None |}.

Lemma quarantine_counts_failures_witness :
  isQuarantined "tx1"
    (fold_left call [CFail 1 sample_failure; CFail 2 sample_failure; CRelease 3 "tx1" None None; CFail 4 sample_failure;
                     CFail 5 sample_failure; CFail 6 sample_failure] no_quarantine) = true.
Proof.
  rewrite (quarantine_counts_failures (of_Z 3)); [vm_compute; reflexivity|]. repeat constructor.
Defined.
