(* ===== verification/Settlement.v ===== *)
(** * Settlement: the payout reconciler and the replay of failed payouts

    The polling worker of [services/settlementReconciler.ts] with the webhook
    that registers settlements ([routes/webhooks.ts]) and the two-admin replay
    of [routes/admin.ts], as one reactive machine.  An input is what the event
    loop delivers: a tick of the timer, the answer of an awaited Horizon call, a
    webhook, a request of an admin; the code between two awaits is one step.
    [ps_loop] is where the one reconcile run in flight is suspended.

    A settlement object is the value of the map [_settlements] at its
    transaction id: it is created by the webhook under that key, never replaced
    and never removed, so that the references the loop holds are keys. *)
From stdpp Require Import base list strings.
From Stdlib Require Import ZArith Lia.
From S2P Require Import Prelude JsNumber Async JsMap Domain PayoutRetry.
Local Open Scope Z_scope.

Inductive SettlementStatus : Type := pending_finality | payout_ready | finalized | failed | reorg_flagged.

#[export] Instance SettlementStatus_eq : EqDecision SettlementStatus.
Proof. solve_decision. Defined.

Record Settlement : Type := {
  se_transactionId : string;
  se_eventType : string;
  se_amount : num;
  se_timestamp : num;
  se_status : SettlementStatus;
  se_ledgerNumber : option num;
  se_confirmations : num;
  se_attempts : Z;
  se_lastPolledAt : option Z;
  se_forkAlertTriggered : bool;
  se_providerId : option string
}.

Record ChainFinalityStatus : Type := {
  fs_found : bool;
  fs_successful : option bool;
  fs_ledger : option num;
  fs_confirmations : num
}.

(** The counters of [payoutRetryRollup]. *)
Record RetryRollup : Type := { ro_attempts : Z; ro_scheduled : Z; ro_exhausted : Z; ro_ceilingHits : Z }.

Definition recordAttempt (outcome : PayoutRetryOutcome) (r : RetryRollup) : RetryRollup :=
  match outcome with
  | o_scheduled => {| ro_attempts := ro_attempts r + 1; ro_scheduled := ro_scheduled r + 1;
                      ro_exhausted := ro_exhausted r; ro_ceilingHits := ro_ceilingHits r |}
  | o_exhausted => {| ro_attempts := ro_attempts r + 1; ro_scheduled := ro_scheduled r;
                      ro_exhausted := ro_exhausted r + 1; ro_ceilingHits := ro_ceilingHits r |}
  | o_ceiling_hit => {| ro_attempts := ro_attempts r + 1; ro_scheduled := ro_scheduled r;
                        ro_exhausted := ro_exhausted r; ro_ceilingHits := ro_ceilingHits r + 1 |}
  end.

Record PendingReplay : Type := {
  pr_transactionId : string;
  pr_initiatorId : string;
  pr_reason : string;
  pr_expiresAt : Z
}.

(** Where the reconcile run is suspended. *)
Inductive Loop : Type :=
| Idle
| AwaitLedger (active : list string)
| AwaitFinality (id : string) (retryCfg : ProviderRetryConfig) (rest : list string).

Record Payouts : Type := {
  ps_settlements : jsmap Settlement;
  ps_replays : jsmap PendingReplay;
  ps_quarantine : Quarantine;
  ps_rollup : RetryRollup;
  ps_pendingGauge : Z;
  ps_forkAlerts : list string;
  ps_skippedTicks : Z;
  ps_rejections : Z;
  ps_loop : Loop
}.

Definition set_settlements (m : jsmap Settlement) (p : Payouts) : Payouts :=
  {| ps_settlements := m; ps_replays := ps_replays p; ps_quarantine := ps_quarantine p; ps_rollup := ps_rollup p;
     ps_pendingGauge := ps_pendingGauge p; ps_forkAlerts := ps_forkAlerts p; ps_skippedTicks := ps_skippedTicks p;
     ps_rejections := ps_rejections p; ps_loop := ps_loop p |}.

Definition set_replays (m : jsmap PendingReplay) (p : Payouts) : Payouts :=
  {| ps_settlements := ps_settlements p; ps_replays := m; ps_quarantine := ps_quarantine p; ps_rollup := ps_rollup p;
     ps_pendingGauge := ps_pendingGauge p; ps_forkAlerts := ps_forkAlerts p; ps_skippedTicks := ps_skippedTicks p;
     ps_rejections := ps_rejections p; ps_loop := ps_loop p |}.

Definition set_quarantine (q : Quarantine) (p : Payouts) : Payouts :=
  {| ps_settlements := ps_settlements p; ps_replays := ps_replays p; ps_quarantine := q; ps_rollup := ps_rollup p;
     ps_pendingGauge := ps_pendingGauge p; ps_forkAlerts := ps_forkAlerts p; ps_skippedTicks := ps_skippedTicks p;
     ps_rejections := ps_rejections p; ps_loop := ps_loop p |}.

Definition set_rollup (r : RetryRollup) (p : Payouts) : Payouts :=
  {| ps_settlements := ps_settlements p; ps_replays := ps_replays p; ps_quarantine := ps_quarantine p; ps_rollup := r;
     ps_pendingGauge := ps_pendingGauge p; ps_forkAlerts := ps_forkAlerts p; ps_skippedTicks := ps_skippedTicks p;
     ps_rejections := ps_rejections p; ps_loop := ps_loop p |}.

Definition set_loop (l : Loop) (p : Payouts) : Payouts :=
  {| ps_settlements := ps_settlements p; ps_replays := ps_replays p; ps_quarantine := ps_quarantine p; ps_rollup := ps_rollup p;
     ps_pendingGauge := ps_pendingGauge p; ps_forkAlerts := ps_forkAlerts p; ps_skippedTicks := ps_skippedTicks p;
     ps_rejections := ps_rejections p; ps_loop := l |}.

Definition set_gauge (n : Z) (p : Payouts) : Payouts :=
  {| ps_settlements := ps_settlements p; ps_replays := ps_replays p; ps_quarantine := ps_quarantine p; ps_rollup := ps_rollup p;
     ps_pendingGauge := n; ps_forkAlerts := ps_forkAlerts p; ps_skippedTicks := ps_skippedTicks p;
     ps_rejections := ps_rejections p; ps_loop := ps_loop p |}.

Definition alert_fork (id : string) (p : Payouts) : Payouts :=
  {| ps_settlements := ps_settlements p; ps_replays := ps_replays p; ps_quarantine := ps_quarantine p; ps_rollup := ps_rollup p;
     ps_pendingGauge := ps_pendingGauge p; ps_forkAlerts := ps_forkAlerts p ++ [id]; ps_skippedTicks := ps_skippedTicks p;
     ps_rejections := ps_rejections p; ps_loop := ps_loop p |}.

Definition skip_tick (p : Payouts) : Payouts :=
  {| ps_settlements := ps_settlements p; ps_replays := ps_replays p; ps_quarantine := ps_quarantine p; ps_rollup := ps_rollup p;
     ps_pendingGauge := ps_pendingGauge p; ps_forkAlerts := ps_forkAlerts p; ps_skippedTicks := ps_skippedTicks p + 1;
     ps_rejections := ps_rejections p; ps_loop := ps_loop p |}.

Definition reject_run (p : Payouts) : Payouts :=
  {| ps_settlements := ps_settlements p; ps_replays := ps_replays p; ps_quarantine := ps_quarantine p; ps_rollup := ps_rollup p;
     ps_pendingGauge := ps_pendingGauge p; ps_forkAlerts := ps_forkAlerts p; ps_skippedTicks := ps_skippedTicks p;
     ps_rejections := ps_rejections p + 1; ps_loop := Idle |}.

Definition no_payouts : Payouts :=
  {| ps_settlements := []; ps_replays := []; ps_quarantine := no_quarantine;
     ps_rollup := {| ro_attempts := 0; ro_scheduled := 0; ro_exhausted := 0; ro_ceilingHits := 0 |};
     ps_pendingGauge := 0; ps_forkAlerts := []; ps_skippedTicks := 0; ps_rejections := 0; ps_loop := Idle |}.

Definition with_status (st : SettlementStatus) (s : Settlement) : Settlement :=
  {| se_transactionId := se_transactionId s; se_eventType := se_eventType s; se_amount := se_amount s;
     se_timestamp := se_timestamp s; se_status := st; se_ledgerNumber := se_ledgerNumber s;
     se_confirmations := se_confirmations s; se_attempts := se_attempts s; se_lastPolledAt := se_lastPolledAt s;
     se_forkAlertTriggered := se_forkAlertTriggered s; se_providerId := se_providerId s |}.

Definition with_attempts (n : Z) (s : Settlement) : Settlement :=
  {| se_transactionId := se_transactionId s; se_eventType := se_eventType s; se_amount := se_amount s;
     se_timestamp := se_timestamp s; se_status := se_status s; se_ledgerNumber := se_ledgerNumber s;
     se_confirmations := se_confirmations s; se_attempts := n; se_lastPolledAt := se_lastPolledAt s;
     se_forkAlertTriggered := se_forkAlertTriggered s; se_providerId := se_providerId s |}.

Definition with_polled (t : option Z) (s : Settlement) : Settlement :=
  {| se_transactionId := se_transactionId s; se_eventType := se_eventType s; se_amount := se_amount s;
     se_timestamp := se_timestamp s; se_status := se_status s; se_ledgerNumber := se_ledgerNumber s;
     se_confirmations := se_confirmations s; se_attempts := se_attempts s; se_lastPolledAt := t;
     se_forkAlertTriggered := se_forkAlertTriggered s; se_providerId := se_providerId s |}.

Definition with_fork_alert (s : Settlement) : Settlement :=
  {| se_transactionId := se_transactionId s; se_eventType := se_eventType s; se_amount := se_amount s;
     se_timestamp := se_timestamp s; se_status := se_status s; se_ledgerNumber := se_ledgerNumber s;
     se_confirmations := se_confirmations s; se_attempts := se_attempts s; se_lastPolledAt := se_lastPolledAt s;
     se_forkAlertTriggered := true; se_providerId := se_providerId s |}.

Definition with_ledger (ledger : option num) (confirmations : num) (s : Settlement) : Settlement :=
  {| se_transactionId := se_transactionId s; se_eventType := se_eventType s; se_amount := se_amount s;
     se_timestamp := se_timestamp s; se_status := se_status s; se_ledgerNumber := ledger;
     se_confirmations := confirmations; se_attempts := se_attempts s; se_lastPolledAt := se_lastPolledAt s;
     se_forkAlertTriggered := se_forkAlertTriggered s; se_providerId := se_providerId s |}.

Definition has_status (st : SettlementStatus) (s : Settlement) : bool := bool_decide (se_status s = st).
Definition is_active (s : Settlement) : bool := has_status pending_finality s || has_status payout_ready s.
Definition count_pending (l : list Settlement) : Z := Z.of_nat (length (List.filter (has_status pending_finality) l)).

(** ** The reconciler *)

(** The default retry configuration the constructor installs. *)
Definition constructor_default (defaultProviderRetryConfig : option ProviderRetryConfig) (maxAttempts : option num) :
    option ProviderRetryConfig :=
  match defaultProviderRetryConfig, maxAttempts with
  | Some c, _ => Some c
  | None, Some n => Some {| rc_providerId := "default"; rc_baseDelayMs := of_Z 1000; rc_multiplier := of_Z 2;
                            rc_maxDelayCeilingMs := of_Z 30000; rc_maxRetries := n |}
  | None, None => None
  end.

(** A reconciler's settings: the constructor's, the registry of retry
    configurations and the quarantine threshold of the environment. *)
Record Settings : Type := {
  op_minConfirmations : num;
  op_stabilityConfirmations : num;
  op_defaultRetryConfig : option ProviderRetryConfig;
  op_registry : jsmap ProviderRetryConfig;
  op_quarantineThreshold : num
}.

(** What the clock and the random source return during one step, per
    settlement where the step goes over several. *)
Record Env : Type := {
  en_now : string -> Z;
  en_polled : string -> Z;
  en_random : string -> num;
  en_next_random : num;
  en_date : Z
}.

Section Reconciler.
Context (pow : num -> num -> num) (o : Settings).

Definition with_provider (id : string) (c : ProviderRetryConfig) : ProviderRetryConfig :=
  {| rc_providerId := id; rc_baseDelayMs := rc_baseDelayMs c; rc_multiplier := rc_multiplier c;
     rc_maxDelayCeilingMs := rc_maxDelayCeilingMs c; rc_maxRetries := rc_maxRetries c |}.

Definition resolveRetryConfig (s : Settlement) : ProviderRetryConfig :=
  let id := default "default"%string (se_providerId s) in
  match op_defaultRetryConfig o with
  | Some c => if bool_decide (id = "default"%string) then with_provider id c else getProviderRetryConfig (op_registry o) id
  | None => getProviderRetryConfig (op_registry o) id
  end.

(** The timer fires: the run starts unless one is in flight. *)
Definition reconcile_start (p : Payouts) : Payouts :=
  let active := List.filter is_active (map_values (ps_settlements p)) in
  match active with
  | [] => set_gauge 0 p
  | _ => set_loop (AwaitLedger (map se_transactionId active)) (set_gauge (count_pending active) p)
  end.

Definition tick (p : Payouts) : Payouts :=
  match ps_loop p with Idle => reconcile_start p | _ => skip_tick p end.

(** The backoff gate: [Ok true] to poll now. *)
Definition gate (e : Env) (retryCfg : ProviderRetryConfig) (s : Settlement) : result RetryConfigError bool :=
  match se_status s, se_lastPolledAt s with
  | pending_finality, Some polled =>
      backoff ← calculatePayoutBackoffDelay pow (se_attempts s) retryCfg (en_random e (se_transactionId s));
      mret (negb (ltb (sub (of_Z (en_now e (se_transactionId s))) (of_Z polled)) (bd_delayMs backoff)))
  | _, _ => mret true
  end.

Definition finish_run (p : Payouts) : Payouts :=
  set_loop Idle (set_gauge (count_pending (map_values (ps_settlements p))) p).

(** The loop up to its next await. *)
Fixpoint proceed (e : Env) (rest : list string) (p : Payouts) : Payouts :=
  match rest with
  | [] => finish_run p
  | id :: rest =>
      match map_get id (ps_settlements p) with
      | None => proceed e rest p
      | Some s =>
          let retryCfg := resolveRetryConfig s in
          match gate e retryCfg s with
          | Err _ => reject_run p
          | Ok false => proceed e rest p
          | Ok true =>
              set_loop (AwaitFinality id retryCfg rest)
                (set_settlements (map_set id (with_polled (Some (en_polled e id)) s) (ps_settlements p)) p)
          end
      end
  end.

(** [getLatestLedgerSequence] answers, or fails. *)
Definition ledger_answer (e : Env) (ok : bool) (p : Payouts) : Payouts :=
  match ps_loop p with
  | AwaitLedger active => if ok then proceed e active p else set_loop Idle p
  | _ => p
  end.

Definition settlement_failure (id : string) (message : string) : RecordPayoutFailureInput :=
  {| rf_payoutId := id; rf_supplierId := None; rf_errorClass := Some "SETTLEMENT"%string;
     rf_errorMessage := Some message; rf_threshold := Some (op_quarantineThreshold o) |}.

Definition record_failure (e : Env) (id message : string) (p : Payouts) : Payouts :=
  set_quarantine (snd (recordFailure None (en_date e) (settlement_failure id message) (ps_quarantine p))) p.

Definition put_settlement (s : Settlement) (p : Payouts) : Payouts :=
  set_settlements (map_set (se_transactionId s) s (ps_settlements p)) p.

(** The transaction has vanished after it was ready to pay out. *)
Definition flag_reorg (s : Settlement) (p : Payouts) : Payouts :=
  let s' := with_status reorg_flagged s in
  if se_forkAlertTriggered s then put_settlement s' p
  else alert_fork (se_transactionId s) (put_settlement (with_fork_alert s') p).

(** The transaction is missing while its finality is pending. *)
Definition count_miss (e : Env) (retryCfg : ProviderRetryConfig) (s : Settlement) (p : Payouts) : Payouts :=
  let nextAttempt := se_attempts s + 1 in
  let exhausted := negb (isRetryable nextAttempt retryCfg) in
  match calculatePayoutBackoffDelay pow nextAttempt retryCfg (en_next_random e) with
  | Err _ => p
  | Ok backoff =>
      let p := set_rollup (recordAttempt (resolveRetryOutcome (bd_capMs backoff) (rc_maxDelayCeilingMs retryCfg) exhausted)
                             (ps_rollup p)) p in
      let s := with_attempts nextAttempt s in
      if exhausted then
        put_settlement (with_status failed s)
          (record_failure e (se_transactionId s)
             "Settlement failed after reaching the maximum reconciliation attempts" p)
      else put_settlement s p
  end.

Definition confirm_settlement (s : Settlement) (st : ChainFinalityStatus) : Settlement :=
  let s := with_ledger (fs_ledger st) (fs_confirmations st) s in
  if has_status payout_ready s &&
     geb (se_confirmations s) (add (op_minConfirmations o) (op_stabilityConfirmations o))
  then with_status finalized s
  else if geb (se_confirmations s) (op_minConfirmations o) then with_status payout_ready s
  else s.

(** What the loop does with the answer of [getTransactionFinality]; [None] is
    a failed call. *)
Definition apply_finality (e : Env) (retryCfg : ProviderRetryConfig) (id : string) (r : option ChainFinalityStatus)
    (p : Payouts) : Payouts :=
  match r, map_get id (ps_settlements p) with
  | Some st, Some s =>
      if negb (fs_found st) then
        if has_status payout_ready s then flag_reorg s p else count_miss e retryCfg s p
      else if negb (bool_decide (fs_successful st = Some true)) then
        put_settlement (with_status failed s)
          (record_failure e (se_transactionId s) "Settlement transaction was rejected by the network" p)
      else put_settlement (confirm_settlement s st) p
  | _, _ => p
  end.

Definition finality_answer (e : Env) (r : option ChainFinalityStatus) (p : Payouts) : Payouts :=
  match ps_loop p with
  | AwaitFinality id retryCfg rest => proceed e rest (apply_finality e retryCfg id r p)
  | _ => p
  end.

(** ** The webhook *)

Inductive SettlementEventType : Type := settlement_completed | settlement_initiated | settlement_failed.

Definition new_settlement (key : string) (eventType : string) (amount timestamp : num) (st : SettlementStatus) : Settlement :=
  {| se_transactionId := key; se_eventType := eventType; se_amount := amount; se_timestamp := timestamp;
     se_status := st; se_ledgerNumber := None; se_confirmations := zero; se_attempts := 0; se_lastPolledAt := None;
     se_forkAlertTriggered := false; se_providerId := None |}.

Definition register (key : string) (s : Settlement) (p : Payouts) : Payouts :=
  match map_get key (ps_settlements p) with
  | Some _ => p
  | None => set_settlements (map_set key s (ps_settlements p)) p
  end.

(** What the webhook does once its request was validated and its key saved. *)
Definition register_settlement (key : string) (eventType : SettlementEventType) (amount timestamp : num) (p : Payouts) : Payouts :=
  match eventType with
  | settlement_completed => register key (new_settlement key "settlement_completed" amount timestamp pending_finality) p
  | settlement_failed => register key (new_settlement key "settlement_failed" amount timestamp failed) p
  | settlement_initiated => p
  end.

(** ** Replays by two admins *)

Inductive ReplayError : Type :=
| R401_missing_identity
| R400_reason
| R404_settlement
| R400_not_failed
| R404_no_pending
| R400_expired
| R403_same_admin.

Definition REPLAY_TTL_MS : Z := 15 * 60 * 1000.

Definition valid_reason (reason : Json) : option string :=
  match reason with
  | JStr r => if str_truthy r && negb (is_empty_string (js_trim r)) then Some r else None
  | _ => None
  end.

Definition initiate_replay (now : Z) (actor : option string) (id : string) (reason : Json) : M Payouts ReplayError PendingReplay :=
  fun p =>
  match actor with
  | None => (Err R401_missing_identity, p)
  | Some initiator =>
      if negb (str_truthy initiator) then (Err R401_missing_identity, p)
      else match valid_reason reason with
      | None => (Err R400_reason, p)
      | Some reason =>
          match map_get id (ps_settlements p) with
          | None => (Err R404_settlement, p)
          | Some s =>
              if negb (has_status failed s) then (Err R400_not_failed, p)
              else
                let r := {| pr_transactionId := id; pr_initiatorId := initiator; pr_reason := reason;
                            pr_expiresAt := now + REPLAY_TTL_MS |} in
                (Ok r, set_replays (map_set id r (ps_replays p)) p)
          end
      end
  end.

Definition reset_settlement (s : Settlement) : Settlement :=
  with_polled None (with_attempts 0 (with_status pending_finality s)).

Definition approve_replay (now : Z) (actor : option string) (id : string) : M Payouts ReplayError Settlement :=
  fun p =>
  match actor with
  | None => (Err R401_missing_identity, p)
  | Some approver =>
      if negb (str_truthy approver) then (Err R401_missing_identity, p)
      else match map_get id (ps_replays p) with
      | None => (Err R404_no_pending, p)
      | Some r =>
          if pr_expiresAt r <? now then (Err R400_expired, set_replays (map_delete id (ps_replays p)) p)
          else if bool_decide (approver = pr_initiatorId r) then (Err R403_same_admin, p)
          else match map_get id (ps_settlements p) with
          | None => (Err R404_settlement, p)
          | Some s =>
              let s := reset_settlement s in
              (Ok s, set_replays (map_delete id (ps_replays p)) (set_settlements (map_set id s (ps_settlements p)) p))
          end
      end
  end.

(** [POST /payouts/:payoutId/quarantine/release]. *)
Definition release_payout (now : Z) (id : string) (reason releasedBy : option string) (p : Payouts) : Payouts :=
  set_quarantine (snd (release now id reason releasedBy (ps_quarantine p))) p.

(** ** The machine *)

Inductive Input : Type :=
| ITick
| ILedger (e : Env) (ok : bool)
| IFinality (e : Env) (r : option ChainFinalityStatus)
| IWebhook (key : string) (eventType : SettlementEventType) (amount timestamp : num)
| IReplay (now : Z) (actor : option string) (id : string) (reason : Json)
| IApprove (now : Z) (actor : option string) (id : string)
| IRelease (now : Z) (id : string) (reason releasedBy : option string).

Definition deliver (i : Input) (p : Payouts) : Payouts :=
  match i with
  | ITick => tick p
  | ILedger e ok => ledger_answer e ok p
  | IFinality e r => finality_answer e r p
  | IWebhook key ty amount timestamp => register_settlement key ty amount timestamp p
  | IReplay now actor id reason => snd (initiate_replay now actor id reason p)
  | IApprove now actor id => snd (approve_replay now actor id p)
  | IRelease now id reason by_ => release_payout now id reason by_ p
  end.

Inductive reachable : Payouts -> Prop :=
| reach_init : reachable no_payouts
| reach_step i p : reachable p -> reachable (deliver i p).

(** ** How a settlement moves *)

Abbreviation lookup_settlement id p := (map_get id (ps_settlements p)).

(** The answer the loop awaited for [id]. *)
Definition answered (p : Payouts) (i : Input) (id : string) (st : ChainFinalityStatus) : Prop :=
  exists e cfg rest, i = IFinality e (Some st) /\ ps_loop p = AwaitFinality id cfg rest.

Definition settled_on_chain (st : ChainFinalityStatus) : Prop := fs_found st = true /\ fs_successful st = Some true.

(** The moves of a settlement's status, each with what allows it. *)
Inductive move (p : Payouts) (i : Input) (id : string) (s s' : Settlement) : Prop :=
| mv_stay : se_status s' = se_status s -> se_attempts s <= se_attempts s' <= se_attempts s + 1 -> move p i id s s'
| mv_ready st :
    answered p i id st -> settled_on_chain st -> geb (fs_confirmations st) (op_minConfirmations o) = true ->
    se_status s = pending_finality -> se_status s' = payout_ready -> move p i id s s'
| mv_finalize st :
    answered p i id st -> settled_on_chain st ->
    geb (fs_confirmations st) (add (op_minConfirmations o) (op_stabilityConfirmations o)) = true ->
    se_status s = payout_ready -> se_status s' = finalized -> move p i id s s'
| mv_reorg st :
    answered p i id st -> fs_found st = false -> se_status s = payout_ready -> se_status s' = reorg_flagged -> move p i id s s'
| mv_reject st :
    answered p i id st -> fs_found st = true -> fs_successful st <> Some true -> is_active s = true ->
    se_status s' = failed -> move p i id s s'
| mv_exhaust st :
    answered p i id st -> fs_found st = false -> se_status s = pending_finality -> se_status s' = failed ->
    se_attempts s' = se_attempts s + 1 -> isRetryable (se_attempts s') (resolveRetryConfig s) = false -> move p i id s s'
| mv_replay now initiator reason expires approver :
    i = IApprove now (Some approver) id -> approver <> initiator -> now <= expires ->
    map_get id (ps_replays p) =
      Some {| pr_transactionId := id; pr_initiatorId := initiator; pr_reason := reason; pr_expiresAt := expires |} ->
    se_status s = failed -> se_status s' = pending_finality -> se_attempts s' = 0 -> se_lastPolledAt s' = None -> move p i id s s'.

(** *** The invariant *)

Definition active_in (p : Payouts) (id : string) : Prop :=
  exists s, lookup_settlement id p = Some s /\ is_active s = true.

Definition within_budget (s : Settlement) : Prop :=
  se_status s = pending_finality -> se_attempts s = 0 \/ isRetryable (se_attempts s) (resolveRetryConfig s) = true.

Definition fork_flags (s : Settlement) : Prop := se_forkAlertTriggered s = true -> se_status s = reorg_flagged.

Record settlement_ok (id : string) (s : Settlement) : Prop := {
  so_id : se_transactionId s = id;
  so_attempts : 0 <= se_attempts s;
  so_budget : within_budget s;
  so_fork : fork_flags s
}.

Definition loop_ok (p : Payouts) : Prop :=
  match ps_loop p with
  | Idle => True
  | AwaitLedger l => NoDup l /\ Forall (active_in p) l
  | AwaitFinality id cfg rest =>
      NoDup (id :: rest) /\ Forall (active_in p) (id :: rest) /\
      forall s, lookup_settlement id p = Some s -> cfg = resolveRetryConfig s
  end.

Record core_ok (p : Payouts) : Prop := {
  po_nodup : NoDup (map_keys (ps_settlements p));
  po_each id s : lookup_settlement id p = Some s -> settlement_ok id s;
  po_replays id r : map_get id (ps_replays p) = Some r ->
    pr_transactionId r = id /\ exists s, lookup_settlement id p = Some s /\ se_status s = failed;
  po_alerts_nodup : NoDup (ps_forkAlerts p);
  po_alerts id : id ∈ ps_forkAlerts p <-> exists s, lookup_settlement id p = Some s /\ se_status s = reorg_flagged
}.

Definition payouts_ok (p : Payouts) : Prop := core_ok p /\ loop_ok p.

Lemma resolve_provider s s' : se_providerId s' = se_providerId s -> resolveRetryConfig s' = resolveRetryConfig s.
Proof. unfold resolveRetryConfig. by intros ->. Qed.

Lemma settlement_active_status s : is_active s = true <-> se_status s = pending_finality \/ se_status s = payout_ready.
Proof. unfold is_active, has_status. rewrite orb_true_iff, !bool_decide_eq_true. done. Qed.

(** What a stretch of the loop up to its next await does. *)
Definition proceeded (e : Env) (rest : list string) (p p' : Payouts) : Prop :=
  ps_replays p' = ps_replays p /\ ps_forkAlerts p' = ps_forkAlerts p /\
  ((ps_settlements p' = ps_settlements p /\ ps_loop p' = Idle) \/
   exists pre id s rest', rest = pre ++ id :: rest' /\ lookup_settlement id p = Some s /\
     ps_settlements p' = map_set id (with_polled (Some (en_polled e id)) s) (ps_settlements p) /\
     ps_loop p' = AwaitFinality id (resolveRetryConfig s) rest').

Lemma proceeded_skip e id rest p p' : proceeded e rest p p' -> proceeded e (id :: rest) p p'.
Proof.
  intros (? & ? & [?|(pre & i & s & rest' & -> & ?)]); repeat split; [done|done|by left|done|done|].
  right. by exists (id :: pre), i, s, rest'.
Qed.

Lemma proceed_spec e rest p : proceeded e rest p (proceed e rest p).
Proof.
  revert p. induction rest as [|id rest IH]; intros p; cbn [proceed]; [by repeat split; left|].
  destruct (lookup_settlement id p) as [s|] eqn:Es; [|apply proceeded_skip, IH].
  destruct (gate e (resolveRetryConfig s) s) as [[|]|err]; [|apply proceeded_skip, IH|by repeat split; left].
  repeat split. right. exists [], id, s, rest. done.
Qed.

(** What an answer does to the settlement it is about; the flag says whether a
    fork alert is raised. *)
Inductive outcome (cfg : ProviderRetryConfig) (st : ChainFinalityStatus) (s : Settlement) : Settlement -> bool -> Prop :=
| oc_miss :
    fs_found st = false -> se_status s <> payout_ready -> isRetryable (se_attempts s + 1) cfg = true ->
    outcome cfg st s (with_attempts (se_attempts s + 1) s) false
| oc_exhaust :
    fs_found st = false -> se_status s <> payout_ready -> isRetryable (se_attempts s + 1) cfg = false ->
    outcome cfg st s (with_status failed (with_attempts (se_attempts s + 1) s)) false
| oc_reorg :
    fs_found st = false -> se_status s = payout_ready -> se_forkAlertTriggered s = false ->
    outcome cfg st s (with_fork_alert (with_status reorg_flagged s)) true
| oc_reorg_again :
    fs_found st = false -> se_status s = payout_ready -> se_forkAlertTriggered s = true ->
    outcome cfg st s (with_status reorg_flagged s) false
| oc_reject :
    fs_found st = true -> fs_successful st <> Some true -> outcome cfg st s (with_status failed s) false
| oc_confirm :
    settled_on_chain st -> outcome cfg st s (confirm_settlement s st) false.

Lemma confirm_keeps_id s st : se_transactionId (confirm_settlement s st) = se_transactionId s.
Proof. unfold confirm_settlement. by repeat case_match. Qed.

Lemma apply_spec e cfg id r p :
  let p' := apply_finality e cfg id r p in
  ps_replays p' = ps_replays p /\
  ((ps_settlements p' = ps_settlements p /\ ps_forkAlerts p' = ps_forkAlerts p) \/
   exists st s s' (alerted : bool), r = Some st /\ lookup_settlement id p = Some s /\ outcome cfg st s s' alerted /\
     ps_settlements p' = map_set (se_transactionId s) s' (ps_settlements p) /\
     ps_forkAlerts p' = if alerted then ps_forkAlerts p ++ [se_transactionId s] else ps_forkAlerts p).
Proof.
  cbv zeta. unfold apply_finality. destruct r as [st|]; [|by split; [|left]].
  destruct (lookup_settlement id p) as [s|] eqn:Es; [|by split; [|left]].
  destruct (fs_found st) eqn:Ef; cbn [negb].
  - case_bool_decide as Hs; cbn [negb].
    + split; [done|]. right. exists st, s, (confirm_settlement s st), false. split_and!; try done; [by constructor|].
      cbn [put_settlement set_settlements ps_settlements]. by rewrite confirm_keeps_id.
    + split; [done|]. right. exists st, s, (with_status failed s), false. split_and!; try done. by constructor.
  - unfold has_status. case_bool_decide as Hp.
    + unfold flag_reorg. destruct (se_forkAlertTriggered s) eqn:Ea; (split; [done|]); right.
      * exists st, s, (with_status reorg_flagged s), false. split_and!; try done. by constructor.
      * exists st, s, (with_fork_alert (with_status reorg_flagged s)), true. split_and!; try done. by constructor.
    + unfold count_miss. destruct (calculatePayoutBackoffDelay _ _ _ _) as [b|]; [|by split; [|left]].
      destruct (isRetryable (se_attempts s + 1) cfg) eqn:Er; cbn [negb]; (split; [done|]); right.
      * exists st, s, (with_attempts (se_attempts s + 1) s), false. split_and!; try done. by constructor.
      * exists st, s, (with_status failed (with_attempts (se_attempts s + 1) s)), false. split_and!; try done. by constructor.
Qed.

(** One settlement is created or changed. *)
Lemma core_update p p' id s' :
  core_ok p -> settlement_ok id s' -> ps_settlements p' = map_set id s' (ps_settlements p) ->
  (forall i r, map_get i (ps_replays p') = Some r ->
     map_get i (ps_replays p) = Some r /\ (i = id -> se_status s' = failed)) ->
  (ps_forkAlerts p' = ps_forkAlerts p /\
     (se_status s' = reorg_flagged <-> exists s, lookup_settlement id p = Some s /\ se_status s = reorg_flagged) \/
   ps_forkAlerts p' = ps_forkAlerts p ++ [id] /\ se_status s' = reorg_flagged /\ id ∉ ps_forkAlerts p) ->
  core_ok p'.
Proof.
  intros [Hnd Heach Hrep Han Hal] Hs' HS HR HA. split.
  - rewrite HS. by apply map_set_nodup.
  - intros i s. rewrite HS, map_get_set. case_bool_decide as Hi; [|by apply Heach]. intros [= <-]. by subst.
  - intros i r Hr. destruct (HR i r Hr) as [Hr0 Hf]. destruct (Hrep i r Hr0) as (? & s & Hs & Hst). split; [done|].
    rewrite HS, map_get_set. case_bool_decide as Hi; eauto.
  - destruct HA as [[-> _]|(-> & _ & Hn)]; [done|]. apply NoDup_app. split; [done|]. split; [|apply NoDup_singleton].
    by intros x Hx ->%list_elem_of_singleton.
  - intros i. rewrite HS, map_get_set.
    destruct HA as [[-> Hiff]|(-> & Hst & Hn)]; rewrite ?elem_of_app, ?list_elem_of_singleton, Hal; case_bool_decide as Hi; subst.
    + split; [intros; exists s'; by rewrite Hiff|]. intros (? & [= <-] & ?). by apply Hiff.
    + done.
    + split; [eauto|by right].
    + split; [by intros [?|?]|by left].
Qed.

Lemma active_set p p' id s' i :
  ps_settlements p' = map_set id s' (ps_settlements p) -> (i = id -> is_active s' = true) -> active_in p i -> active_in p' i.
Proof.
  intros HS Ha (s & Hs & Hst). unfold active_in. rewrite HS, map_get_set. case_bool_decide; eauto.
Qed.

Lemma proceed_ok e rest p :
  core_ok p -> NoDup rest -> Forall (active_in p) rest -> payouts_ok (proceed e rest p).
Proof.
  intros Hok Hnd Hact. destruct (proceed_spec e rest p) as (HR & HA & [[HS HL]|(pre & id & s & rest' & Hrest & Hs & HS & HL)]).
  - split; [|by unfold loop_ok; rewrite HL]. destruct Hok. split; rewrite ?HR, ?HA, ?HS in *; done.
  - destruct Hok as [Hn Heach Hrep Han Hal] eqn:Eok. clear Eok. destruct (Heach id s Hs) as [Hid Hat Hb Hf].
    assert (Forall (active_in p) (id :: rest')) as Hact'.
    { rewrite Hrest in Hact. by apply Forall_app in Hact as [_ ?]. }
    assert (is_active s = true) as Has.
    { apply Forall_cons in Hact' as [(s0 & Hs0 & ?) _]. congruence. }
    split.
    + eapply (core_update p _ id (with_polled (Some (en_polled e id)) s)); [done|by split|exact HS| |].
      * intros i r. rewrite HR. intros Hr. split; [done|]. intros ->. destruct (Hrep _ _ Hr) as (_ & s0 & ? & ?). simpl. congruence.
      * left. rewrite HA. split; [done|]. simpl. split; [eauto|]. intros (s0 & ? & ?). congruence.
    + unfold loop_ok. rewrite HL. rewrite Hrest in Hnd. apply NoDup_app in Hnd as (_ & _ & Hnd). split; [done|]. split.
      * eapply Forall_impl; [exact Hact'|]. intros i Hi. eapply active_set; [exact HS| |done]. done.
      * intros s1. rewrite HS, map_get_set_eq. intros [= <-]. done.
Qed.

Lemma confirm_settlement_cases s st :
  let s' := confirm_settlement s st in
  (se_status s' = se_status s \/
   geb (fs_confirmations st) (op_minConfirmations o) = true /\ se_status s' = payout_ready \/
   geb (fs_confirmations st) (add (op_minConfirmations o) (op_stabilityConfirmations o)) = true /\
     se_status s = payout_ready /\ se_status s' = finalized) /\
  se_attempts s' = se_attempts s /\ se_forkAlertTriggered s' = se_forkAlertTriggered s /\ se_providerId s' = se_providerId s.
Proof.
  cbv zeta. unfold confirm_settlement. cbn [with_ledger se_confirmations].
  destruct (has_status payout_ready _ && _) eqn:E1.
  - apply andb_prop in E1 as [E1 E2]. apply bool_decide_eq_true in E1. split; [|done]. right. right. done.
  - destruct (geb (fs_confirmations st) (op_minConfirmations o)) eqn:E2; split; try done; [right; by left|by left].
Qed.

(** What an answer makes of a sound settlement whose finality was awaited. *)
Lemma outcome_ok cfg st s s' alerted id :
  settlement_ok id s -> is_active s = true -> cfg = resolveRetryConfig s -> outcome cfg st s s' alerted ->
  settlement_ok id s' /\ se_status s <> failed /\ se_status s <> reorg_flagged /\
  (se_status s' = reorg_flagged <-> alerted = true).
Proof.
  intros [Hid Hat Hb Hf] Ha%settlement_active_status -> Ho.
  assert (se_status s <> reorg_flagged /\ se_status s <> failed) as [Hnr Hnf] by (destruct Ha; split; congruence).
  assert (se_forkAlertTriggered s = false) as Hfl.
  { destruct (se_forkAlertTriggered s) eqn:E; [by specialize (Hf E)|done]. }
  assert (fork_flags s) as Hff by done.
  destruct Ho as [Hfd Hr Hret|Hfd Hr Hret|Hfd Hr Hfo|Hfd Hr Hfo|Hfd Hsu|Hst]; try congruence.
  - split; [|by repeat split]. split; simpl; [done|lia| |done]. intros _. right. done.
  - split; [|by repeat split]. split; simpl; [done|lia|done|]. unfold fork_flags. simpl. congruence.
  - split; [|by repeat split]. split; simpl; [done|lia|done|done].
  - split; [|by repeat split]. split; simpl; [done|lia|done|]. unfold fork_flags. simpl. congruence.
  - destruct (confirm_settlement_cases s st) as (Hc & Hat' & Hfo' & Hpr).
    assert (se_status (confirm_settlement s st) <> reorg_flagged) as Hn by (destruct Hc as [->|[[_ ->]|(_ & _ & ->)]]; done).
    split; [|by repeat split]. split; [by rewrite confirm_keeps_id|lia| |].
    + unfold within_budget. rewrite Hat', (resolve_provider s) by done. intros Hp. apply Hb.
      destruct Hc as [<-|[[_ Hc]|(_ & _ & Hc)]]; [done|congruence..].
    + unfold fork_flags. rewrite Hfo', Hfl. done.
Qed.

(** The suspended loop does not notice a change of settlements that keeps the
    active ones and every provider. *)
Lemma loop_keep p p' :
  ps_loop p' = ps_loop p -> (forall i, active_in p i -> active_in p' i) ->
  (forall i s', lookup_settlement i p' = Some s' -> active_in p i ->
     exists s, lookup_settlement i p = Some s /\ se_providerId s' = se_providerId s) ->
  loop_ok p -> loop_ok p'.
Proof.
  unfold loop_ok. intros -> Ha Hp. destruct (ps_loop p) as [|l|id cfg rest]; [done| |].
  - intros [? Hl]. split; [done|]. by eapply Forall_impl.
  - intros (? & Hl & Hc). split; [done|]. split; [by eapply Forall_impl|]. intros s' Hs'. apply Forall_cons in Hl as [Hid _].
    destruct (Hp id s' Hs' Hid) as (s & Hs & Hpr). rewrite (Hc s Hs). symmetry. by apply resolve_provider.
Qed.

Lemma core_same p p' :
  ps_settlements p' = ps_settlements p -> ps_forkAlerts p' = ps_forkAlerts p ->
  (forall i r, map_get i (ps_replays p') = Some r -> map_get i (ps_replays p) = Some r) -> core_ok p -> core_ok p'.
Proof. intros HS HA HR []. split; rewrite ?HS, ?HA in *; eauto. Qed.

Lemma loop_same p p' : ps_settlements p' = ps_settlements p -> ps_loop p' = ps_loop p -> loop_ok p -> loop_ok p'.
Proof. intros HS HL. unfold loop_ok, active_in. by rewrite HS, HL. Qed.

Lemma tick_ok p : payouts_ok p -> payouts_ok (tick p).
Proof.
  intros [Hc Hl]. unfold tick. destruct (ps_loop p) eqn:EL.
  2,3: split; [by apply (core_same p)|by apply (loop_same p)].
  unfold reconcile_start. destruct (List.filter is_active (map_values (ps_settlements p))) as [|s0 l] eqn:Ef.
  - split; [by apply (core_same p)|by apply (loop_same p)].
  - rewrite <- Ef. split; [by apply (core_same p)|]. unfold loop_ok. cbn [set_loop ps_loop].
    assert (forall l', Forall (fun kv => se_transactionId kv.2 = kv.1) l' -> NoDup (map_keys l') ->
      NoDup (map se_transactionId (List.filter is_active (map_values l')))) as Hnd.
    { induction l' as [|[k v] l' IH]; intros Hk Hn; [constructor|]. apply Forall_cons in Hk as [Hk Hks].
      apply NoDup_cons in Hn as [Hn Hns]. simpl in *. destruct (is_active v); [|by apply IH]. simpl.
      constructor; [|by apply IH]. rewrite Hk. intros (x & Hx & Hin)%list_elem_of_fmap.
      apply list_elem_of_In, filter_In in Hin as [Hin%list_elem_of_In _]. apply Hn.
      apply list_elem_of_fmap in Hin as (kv & -> & Hkv). apply list_elem_of_fmap. exists kv. split; [|done].
      rewrite Forall_forall in Hks. by rewrite <- (Hks _ Hkv). }
    split.
    + apply Hnd; [|apply Hc]. apply Forall_forall. intros [k v] Hin. simpl. apply (po_each p Hc k).
      apply elem_map_get; [apply Hc|done].
    + apply Forall_forall. intros i (s & -> & Hin)%list_elem_of_fmap.
      apply list_elem_of_In, filter_In in Hin as [Hin%list_elem_of_In Ha].
      apply list_elem_of_fmap in Hin as ([k v] & -> & Hkv). simpl in *.
      pose proof (elem_map_get k v _ (po_nodup p Hc) Hkv) as Hg. exists v.
      destruct (po_each p Hc k v Hg) as [-> _ _ _]. done.
Qed.

Lemma ledger_answer_ok e ok p : payouts_ok p -> payouts_ok (ledger_answer e ok p).
Proof.
  intros [Hc Hl]. unfold ledger_answer. unfold loop_ok in Hl. destruct (ps_loop p) as [|l|id cfg rest] eqn:EL;
    [by split; unfold loop_ok; rewrite ?EL| |by split; unfold loop_ok; rewrite ?EL].
  destruct ok; [by apply proceed_ok; destruct Hl|]. split; [by apply (core_same p)|done].
Qed.

Lemma finality_answer_ok e r p : payouts_ok p -> payouts_ok (finality_answer e r p).
Proof.
  intros [Hc Hl]. unfold finality_answer. unfold loop_ok in Hl. destruct (ps_loop p) as [|l|id cfg rest] eqn:EL;
    [by split; unfold loop_ok; rewrite ?EL..|]. destruct Hl as (Hnd & Hact & Hcfg).
  apply NoDup_cons in Hnd as [Hni Hnd]. apply Forall_cons in Hact as [(s & Hs & Ha) Hact].
  destruct (apply_spec e cfg id r p) as (HR & [[HS HA]|(st & s0 & s' & al & -> & Hs0 & Ho & HS & HA)]).
  - apply proceed_ok; [|done|].
    + apply (core_same p); [done|done| |done]. by rewrite HR.
    + eapply Forall_impl; [exact Hact|]. unfold active_in. by rewrite HS.
  - assert (s0 = s) as -> by congruence. pose proof (po_each p Hc id s Hs) as Hsok. pose proof (so_id _ _ Hsok) as Hid.
    rewrite Hid in HS, HA. destruct (outcome_ok cfg st s s' al id) as (Hs'ok & Hnf & Hnr & Hiff); [done|done|by apply Hcfg|done|].
    apply proceed_ok; [|done|].
    + apply (core_update p _ id s'); [done|done|done| |].
      * intros i r. rewrite HR. intros Hr. split; [done|]. intros ->. destruct (po_replays p Hc _ _ Hr) as (_ & s1 & ? & ?). congruence.
      * destruct al; [right|left]; rewrite HA.
        -- split; [done|]. split; [by apply Hiff|]. rewrite (po_alerts p Hc). intros (s1 & ? & ?). congruence.
        -- split; [done|]. split; [by intros ?%Hiff|]. intros (s1 & ? & ?). congruence.
    + rewrite Forall_forall in Hact |- *. intros i Hi. eapply active_set; [exact HS| |by apply Hact]. intros ->. done.
Qed.

Lemma register_ok key ty amount timestamp st p :
  (st = pending_finality \/ st = failed) -> payouts_ok p -> payouts_ok (register key (new_settlement key ty amount timestamp st) p).
Proof.
  intros Hst [Hc Hl]. unfold register. destruct (lookup_settlement key p) as [s|] eqn:E; [by split|].
  set (s' := new_settlement key ty amount timestamp st). split.
  - apply (core_update p _ key s'); [done| |done| |].
    + split; [done|simpl; lia|by left|by unfold fork_flags].
    + intros i r Hr. split; [done|]. intros ->. destruct (po_replays p Hc _ _ Hr) as (_ & s1 & ? & ?). cbn in *. congruence.
    + left. split; [done|]. simpl. split; [destruct Hst; congruence|]. intros (? & ? & ?). congruence.
  - apply (loop_keep p); [done| |  |done].
    + intros i (s & Hs & Ha). eapply active_set; [done| |by exists s]. intros ->. congruence.
    + intros i s1. cbn [set_settlements ps_settlements]. rewrite map_get_set. case_bool_decide as Hi; [|by eauto].
      intros _ (s & Hs & _). congruence.
Qed.

Lemma initiate_ok now actor id reason p : payouts_ok p -> payouts_ok (snd (initiate_replay now actor id reason p)).
Proof.
  intros [Hc Hl]. unfold initiate_replay. repeat (case_match; [by split|] || case_match); try by split.
  cbn [snd]. split; [|by apply (loop_same p)]. destruct Hc as [Hn He Hr Han Hal]. split; try done.
  cbn [set_replays ps_replays ps_settlements]. intros i r. rewrite map_get_set. case_bool_decide as Hi; [|apply Hr].
  intros [= <-]. subst i. split; [done|]. eexists. split; [done|].
  match goal with H : negb (has_status failed _) = false |- _ => apply negb_false_iff, bool_decide_eq_true in H; exact H end.
Qed.

Lemma approve_cases now actor id p :
  (exists err, fst (approve_replay now actor id p) = Err err /\
     (snd (approve_replay now actor id p) = p \/
      snd (approve_replay now actor id p) = set_replays (map_delete id (ps_replays p)) p)) \/
  exists approver r s,
    actor = Some approver /\ map_get id (ps_replays p) = Some r /\ now <= pr_expiresAt r /\ approver <> pr_initiatorId r /\
    lookup_settlement id p = Some s /\
    snd (approve_replay now actor id p) =
      set_replays (map_delete id (ps_replays p)) (set_settlements (map_set id (reset_settlement s) (ps_settlements p)) p).
Proof.
  unfold approve_replay. destruct actor as [approver|]; [|left; eauto]. destruct (negb (str_truthy approver)); [left; eauto|].
  destruct (map_get id (ps_replays p)) as [r|] eqn:Er; [|left; eauto].
  destruct (Z.ltb_spec (pr_expiresAt r) now); [left; eauto|]. case_bool_decide; [left; eauto|].
  destruct (lookup_settlement id p) as [s|] eqn:Es; [|left; eauto]. right. exists approver, r, s. done.
Qed.

Lemma approve_ok now actor id p : payouts_ok p -> payouts_ok (snd (approve_replay now actor id p)).
Proof.
  intros [Hc Hl].
  destruct (approve_cases now actor id p) as [(err & _ & [-> | ->])|(approver & r & s & _ & Hr & _ & _ & Hs & ->)].
  - by split.
  - split; [|by apply (loop_same p)]. apply (core_same p); [done|done| |done]. intros i r. cbn [set_replays ps_replays].
    rewrite map_get_delete. by case_bool_decide.
  - destruct (po_replays p Hc id r Hr) as (_ & s1 & Hs1 & Hf). assert (s1 = s) as -> by congruence.
    pose proof (po_each p Hc id s Hs) as [Hid Hat Hb Hff]. split.
    + apply (core_update p _ id (reset_settlement s)); [done| |done| |].
      * split; [done|simpl; lia|by left|]. unfold fork_flags. simpl. intros E. specialize (Hff E). congruence.
      * intros i r0. cbn [set_replays ps_replays]. rewrite map_get_delete. by case_bool_decide.
      * left. split; [done|]. simpl. split; [done|]. intros (? & ? & ?). congruence.
    + apply (loop_keep p); [done| | |done].
      * intros i Hi. eapply active_set; [done| |exact Hi]. done.
      * intros i s'. cbn [set_replays set_settlements ps_settlements]. rewrite map_get_set. case_bool_decide as Hi; [|by eauto].
        intros [= <-] _. subst. eauto.
Qed.

Lemma deliver_ok i p : payouts_ok p -> payouts_ok (deliver i p).
Proof.
  intros Hok. destruct i; cbn [deliver].
  - by apply tick_ok.
  - by apply ledger_answer_ok.
  - by apply finality_answer_ok.
  - destruct eventType; cbn [register_settlement]; [apply register_ok; auto|done|apply register_ok; auto].
  - by apply initiate_ok.
  - by apply approve_ok.
  - destruct Hok. split; [by apply (core_same p)|by apply (loop_same p)].
Qed.

Lemma payouts_reachable_ok p : reachable p -> payouts_ok p.
Proof.
  induction 1 as [|i p _ IH]; [|by apply deliver_ok]. split; [|done]. split; try done; try apply NoDup_nil_2.
  intros id. split; [by intros ?%elem_of_nil|by intros (? & ? & _)].
Qed.

Lemma proceed_move e rest p id s :
  lookup_settlement id p = Some s ->
  exists s', lookup_settlement id (proceed e rest p) = Some s' /\ se_status s' = se_status s /\ se_attempts s' = se_attempts s /\
    (id ∉ rest -> s' = s).
Proof.
  intros Hs. destruct (proceed_spec e rest p) as (_ & _ & [[-> _]|(pre & i & s0 & rest' & Hrest & Hs0 & -> & _)]); [by eauto|].
  rewrite map_get_set. case_bool_decide as Hi; [subst i|by eauto]. eexists. split; [done|]. assert (s0 = s) as -> by congruence.
  split_and!; [done..|]. intros Hn. exfalso. apply Hn. rewrite Hrest. apply elem_of_app. right. by left.
Qed.

Lemma stay_put p i id s : move p i id s s.
Proof. apply mv_stay; [done|lia]. Qed.

Lemma outcome_move p e cfg id rest st s s' alerted i :
  i = IFinality e (Some st) -> ps_loop p = AwaitFinality id cfg rest -> cfg = resolveRetryConfig s ->
  is_active s = true -> outcome cfg st s s' alerted -> move p i id s s'.
Proof.
  intros Hi HL Hcfg Ha Ho. assert (answered p i id st) as Hans by (exists e, cfg, rest; done).
  pose proof (proj1 (settlement_active_status s) Ha) as Hst.
  destruct Ho as [Hfd Hr Hret|Hfd Hr Hret|Hfd Hr Hfo|Hfd Hr Hfo|Hfd Hsu|Hsc].
  - apply mv_stay; simpl; [done|lia].
  - eapply mv_exhaust; simpl; [done|done|by destruct Hst|done|done|by subst].
  - by eapply mv_reorg.
  - by eapply mv_reorg.
  - by eapply mv_reject.
  - destruct (confirm_settlement_cases s st) as ([Hc|[[Hmin Hc]|(Hmin & Hp & Hc)]] & Hat & _ & _).
    + apply mv_stay; [done|lia].
    + destruct Hst as [Hst|Hst]; [by eapply mv_ready|]. apply mv_stay; [congruence|lia].
    + by eapply mv_finalize.
Qed.

Lemma finality_move e r p id s :
  payouts_ok p -> lookup_settlement id p = Some s ->
  exists s', lookup_settlement id (finality_answer e r p) = Some s' /\ move p (IFinality e r) id s s'.
Proof.
  intros [Hc Hl] Hs. unfold finality_answer. unfold loop_ok in Hl.
  destruct (ps_loop p) as [|l|i cfg rest] eqn:EL; [eauto using stay_put..|]. destruct Hl as (Hnd & Hact & Hcfg).
  apply NoDup_cons in Hnd as [Hni Hnd]. apply Forall_cons in Hact as [(s0 & Hs0 & Ha) _].
  assert (forall p1, lookup_settlement id p1 = Some s ->
    exists s', lookup_settlement id (proceed e rest p1) = Some s' /\ move p (IFinality e r) id s s') as Hother.
  { intros p1 Hp1. destruct (proceed_move e rest p1 id s Hp1) as (s' & Hs' & Hst & Hat & _).
    exists s'. split; [done|]. apply mv_stay; [done|lia]. }
  destruct (apply_spec e cfg i r p) as (_ & [[HS _]|(st & s1 & s' & al & -> & Hs1 & Ho & HS & _)]).
  { apply Hother. by rewrite HS. }
  assert (s1 = s0) as -> by congruence. rewrite (so_id _ _ (po_each p Hc i s0 Hs0)) in HS.
  destruct (decide (id = i)) as [->|Hne]; [|apply Hother; by rewrite HS, map_get_set_ne].
  assert (s0 = s) as -> by congruence. destruct (proceed_move e rest (apply_finality e cfg i (Some st) p) i s') as (s'' & Hs'' & _ & _ & Heq).
  { by rewrite HS, map_get_set_eq. }
  rewrite (Heq Hni) in Hs''. exists s'. split; [done|]. eapply outcome_move; [done|exact EL|by apply Hcfg|done|done].
Qed.

(** (C4) A settlement is never lost, and its status moves only as follows,
    whatever webhooks, timer ticks, Horizon answers, replays and approvals come
    in whatever order: from pending to payout-ready on an answer about that very
    transaction that shows it successful with at least the configured
    confirmations; from payout-ready to finalised with the stability window on
    top; from payout-ready to reorg-flagged when Horizon no longer knows it; to
    failed when Horizon shows it unsuccessful, or when it is missing and its
    retries are used up; and from failed back to pending only by the approval of
    a second admin, in time, of a replay another admin asked for. *)
Theorem settlement_moves p i id s :
  reachable p -> lookup_settlement id p = Some s ->
  exists s', lookup_settlement id (deliver i p) = Some s' /\ move p i id s s'.
Proof.
  intros Hok%payouts_reachable_ok Hs. destruct i; cbn [deliver].
  - exists s. split; [|apply stay_put]. unfold tick, reconcile_start. by repeat case_match.
  - unfold ledger_answer. destruct (ps_loop p); [eauto using stay_put| |eauto using stay_put].
    destruct ok; [|eauto using stay_put].
    destruct (proceed_move e active p id s Hs) as (s' & Hs' & Hst & Hat & _).
    exists s'. split; [done|]. apply mv_stay; [done|lia].
  - by apply finality_move.
  - exists s. split; [|apply stay_put].
    unfold register_settlement, register. destruct eventType; [| done|];
      (destruct (map_get key (ps_settlements p)) eqn:E; [done|]; cbn [set_settlements ps_settlements]; rewrite map_get_set_ne; [done|congruence]).
  - exists s. split; [|apply stay_put]. unfold initiate_replay. by repeat case_match.
  - destruct (approve_cases now actor id0 p) as [(err & _ & [-> | ->])|(approver & r & s0 & -> & Hr & Hnow & Hne & Hs0 & ->)];
      [eauto using stay_put..|]. cbn [set_replays set_settlements ps_settlements]. rewrite map_get_set.
    case_bool_decide as Hi; [subst id0|eauto using stay_put]. assert (s0 = s) as -> by congruence.
    destruct (po_replays p (proj1 Hok) id r Hr) as (Hid & s1 & Hs1 & Hf). assert (s1 = s) as -> by congruence.
    eexists. split; [done|]. destruct r as [tx ini reason expires]. simpl in *. subst tx. by eapply mv_replay.
  - eauto using stay_put.
Qed.

(** In every reachable state of the payout machine: a replay is pending
    only for a settlement that is failed (so an approval never pulls back a
    payout that is ready, finalised or flagged); a pending settlement has
    either not missed a poll since it was last started or still has retries
    left under its provider's configuration; fork alerts were raised for exactly
    the settlements that are flagged as reorganised, once each; and the run in
    flight, if any, works on distinct settlements that are all still active. *)
Theorem payouts_sound p :
  reachable p ->
  (forall id r, map_get id (ps_replays p) = Some r -> exists s, lookup_settlement id p = Some s /\ se_status s = failed) /\
  (forall id s, lookup_settlement id p = Some s -> se_transactionId s = id /\ within_budget s) /\
  (NoDup (ps_forkAlerts p) /\
   forall id, id ∈ ps_forkAlerts p <-> exists s, lookup_settlement id p = Some s /\ se_status s = reorg_flagged) /\
  loop_ok p.
Proof.
  intros [Hc Hl]%payouts_reachable_ok. split_and!; [|
    |apply Hc|apply Hc|done].
  - intros id r Hr. by destruct (po_replays p Hc id r Hr).
  - intros id s Hs. by destruct (po_each p Hc id s Hs).
Qed.
End Reconciler.

(** ** Concrete runs *)

Definition play (o : Settings) (ins : list Input) : Payouts := fold_left (fun p i => deliver pow_repeated o i p) ins no_payouts.

Lemma play_reachable o ins : reachable pow_repeated o (play o ins).
Proof.
  unfold play. induction ins as [|i ins IH] using rev_ind; [constructor|]. rewrite fold_left_app. simpl. by constructor.
Qed.

Definition sample_settings : Settings :=
  {| op_minConfirmations := of_Z 3; op_stabilityConfirmations := of_Z 3;
     op_defaultRetryConfig := constructor_default None (Some (of_Z 2)); op_registry := [];
     op_quarantineThreshold := of_Z 1 |}.

Definition sample_env : Env :=
  {| en_now := fun _ => 100000; en_polled := fun _ => 100000; en_random := fun _ => zero; en_next_random := zero; en_date := 100000 |}.

Definition on_chain (ok : bool) (confirmations : Z) : ChainFinalityStatus :=
  {| fs_found := true; fs_successful := Some ok; fs_ledger := Some (of_Z 50); fs_confirmations := of_Z confirmations |}.

(** A webhook, and the run that polls its transaction. *)
Definition polling : list Input :=
  [IWebhook "tx1" settlement_completed (of_Z 500) (of_Z 1000); ITick; ILedger sample_env true].

Lemma settlement_moves_witness :
  exists s s',
    map_get "tx1" (ps_settlements (play sample_settings polling)) = Some s /\
    map_get "tx1" (ps_settlements (deliver pow_repeated sample_settings (IFinality sample_env (Some (on_chain true 4)))
                                     (play sample_settings polling))) = Some s' /\
    move sample_settings (play sample_settings polling) (IFinality sample_env (Some (on_chain true 4))) "tx1" s s'.
Proof.
  destruct (map_get "tx1" (ps_settlements (play sample_settings polling))) as [s|] eqn:E.
  - destruct (settlement_moves pow_repeated sample_settings (play sample_settings polling)
                (IFinality sample_env (Some (on_chain true 4))) "tx1" s) as (s' & Hs' & Hm);
      [apply play_reachable|exact E|]. exists s, s'. split; [reflexivity|]. split; [exact Hs'|exact Hm].
  - vm_compute in E. discriminate E.
Defined.

(** A payout that failed, and the replay that was asked for. *)
Definition replaying : list Input :=
  polling ++ [IFinality sample_env (Some (on_chain false 4)); IReplay 0 (Some "alice"%string) "tx1" (JStr "bank was down")].

Lemma payouts_sound_witness :
  exists s, map_get "tx1" (ps_settlements (play sample_settings replaying)) = Some s /\ se_status s = failed.
Proof.
  destruct (payouts_sound pow_repeated sample_settings (play sample_settings replaying) (play_reachable _ _)) as (Hr & _).
  destruct (map_get "tx1" (ps_replays (play sample_settings replaying))) as [r|] eqn:E.
  - exact (Hr "tx1"%string r E).
  - vm_compute in E. discriminate E.
Defined.

(** The quarantine is not consulted: a quarantined payout is replayed by two
    admins and becomes ready to pay out while it is still quarantined. *)
Lemma quarantined_payout_pays_out :
  exists ins s,
    isQuarantined "tx1" (ps_quarantine (play sample_settings ins)) = true /\
    map_get "tx1" (ps_settlements (play sample_settings ins)) = Some s /\ se_status s = payout_ready.
Proof.
  exists (replaying ++ [IApprove 10 (Some "bob"%string) "tx1"; ITick; ILedger sample_env true;
                        IFinality sample_env (Some (on_chain true 5))]).
  eexists. vm_compute. done.
Qed.

(** A retry configuration that does not validate makes the whole run reject at
    the first settlement that was polled before, and the settlements after it
    are not polled. *)
Lemma invalid_config_stops_run pow o e id rest p s polled :
  map_get id (ps_settlements p) = Some s -> se_status s = pending_finality -> se_lastPolledAt s = Some polled ->
  validateProviderRetryConfig (resolveRetryConfig o s) <> Ok tt ->
  proceed pow o e (id :: rest) p = reject_run p.
Proof.
  intros Hs Hst Hp Hv. cbn [proceed]. rewrite Hs. unfold gate, calculatePayoutBackoffDelay. rewrite Hst, Hp.
  destruct (validateProviderRetryConfig _) as [[]|err]; [done|]. reflexivity.
Qed.

(** ** The settlement webhook *)

Record IdempotencyRow : Type := { ir_tenant : string; ir_key : string; ir_response : Json; ir_expires : Z }.

Record Gateway : Type := { gw_rows : list IdempotencyRow; gw_payouts : Payouts }.

Inductive WebhookEv : Type -> Type :=
| NowEv : WebhookEv Z
| GetExistingEv (tenant key : string) : WebhookEv (option Json)
| SaveKeyEv (tenant key : string) (response : Json) : WebhookEv bool
| RegisterEv (key : string) (ty : SettlementEventType) (amount timestamp : num) : WebhookEv unit.

Inductive WebhookError : Type := W400_eventType | W400_amount | W400_timestamp | W403_stale.

Record WebhookBody : Type := {
  wb_eventType : Json;
  wb_transactionId : string;
  wb_amount : Json;
  wb_timestamp : Json
}.

Definition event_type (j : Json) : option SettlementEventType :=
  match j with
  | JStr s =>
      if bool_decide (s = "settlement_completed"%string) then Some settlement_completed
      else if bool_decide (s = "settlement_initiated"%string) then Some settlement_initiated
      else if bool_decide (s = "settlement_failed"%string) then Some settlement_failed
      else None
  | _ => None
  end.

Definition positive_number (j : Json) : option num :=
  match j with JNum n => if is_finite n && negb (leb n zero) then Some n else None | _ => None end.

Definition received (body : WebhookBody) : Json :=
  JObj [("success"%string, JBool true);
        ("received"%string, JObj [("eventType"%string, wb_eventType body); ("transactionId"%string, JStr (wb_transactionId body));
                                  ("amount"%string, wb_amount body); ("timestamp"%string, wb_timestamp body)])].

Definition CLOCK_SKEW_MS : Z := 60 * 1000.

Definition stale (now : Z) (timestamp : num) : bool :=
  let ageMs := sub (of_Z now) timestamp in
  gtb ageMs (of_Z (5 * 60 * 1000)) || ltb ageMs (of_Z (- CLOCK_SKEW_MS)).

Definition handleSettlementWebhook (isV1 : bool) (tenant : string) (body : WebhookBody) : Prog WebhookEv WebhookError Json :=
  ty ← need (event_type (wb_eventType body)) W400_eventType;
  amount ← need (positive_number (wb_amount body)) W400_amount;
  timestamp ← need (positive_number (wb_timestamp body)) W400_timestamp;
  _ ← (if isV1 then now ← perform NowEv; throw_when (stale now timestamp) W403_stale else mret tt);
  existing ← perform (GetExistingEv tenant (wb_transactionId body));
  match existing with
  | Some response => mret response
  | None =>
      let responseBody := received body in
      saved ← perform (SaveKeyEv tenant (wb_transactionId body) responseBody);
      if negb saved then
        concurrent ← perform (GetExistingEv tenant (wb_transactionId body));
        mret (default responseBody concurrent)
      else
        _ ← perform (RegisterEv (wb_transactionId body) ty amount timestamp);
        mret responseBody
  end.

(** The table: a row answers while it has not expired; a second insert of the
    same tenant and key violates the unique constraint. *)
Definition same_row (tenant key : string) (r : IdempotencyRow) : bool :=
  bool_decide (ir_tenant r = tenant) && bool_decide (ir_key r = key).

Definition RETENTION_MS : Z := 30 * 86400000.

Definition do_webhook (now : Z) X (ev : WebhookEv X) (g : Gateway) : X * Gateway :=
  match ev in WebhookEv X return X * Gateway with
  | NowEv => (now, g)
  | GetExistingEv tenant key =>
      (ir_response <$> find_first (fun r => same_row tenant key r && (now <? ir_expires r)) (gw_rows g), g)
  | SaveKeyEv tenant key response =>
      match find_first (same_row tenant key) (gw_rows g) with
      | Some _ => (false, g)
      | None =>
          (true, {| gw_rows := gw_rows g ++ [{| ir_tenant := tenant; ir_key := key; ir_response := response;
                                                 ir_expires := now + RETENTION_MS |}];
                    gw_payouts := gw_payouts g |})
      end
  | RegisterEv key ty amount timestamp =>
      (tt, {| gw_rows := gw_rows g; gw_payouts := register_settlement key ty amount timestamp (gw_payouts g) |})
  end.

Definition receive (now : Z) (tenant : string) (body : WebhookBody) (g : Gateway) : result WebhookError Json * Gateway :=
  run (do_webhook now) (handleSettlementWebhook true tenant body) g.

(** A request that passes the validation. *)
Definition acceptable (now : Z) (body : WebhookBody) (ty : SettlementEventType) (amount timestamp : num) : Prop :=
  event_type (wb_eventType body) = Some ty /\ positive_number (wb_amount body) = Some amount /\
  positive_number (wb_timestamp body) = Some timestamp /\ stale now timestamp = false.

Lemma receive_accepted now tenant body g ty amount timestamp :
  acceptable now body ty amount timestamp ->
  receive now tenant body g =
  match fst (do_webhook now _ (GetExistingEv tenant (wb_transactionId body)) g) with
  | Some response => (Ok response, g)
  | None =>
      match do_webhook now _ (SaveKeyEv tenant (wb_transactionId body) (received body)) g with
      | (true, g') =>
          (Ok (received body), snd (do_webhook now _ (RegisterEv (wb_transactionId body) ty amount timestamp) g'))
      | (false, _) => (Ok (received body), g)
      end
  end.
Proof.
  intros (Ht & Ha & Hts & Hst). unfold receive, handleSettlementWebhook. rewrite Ht, Ha, Hts.
  cbn [need mbind Prog_bind pbind perform run do_webhook]. rewrite Hst. cbn [throw_when pbind run do_webhook fst].
  destruct (ir_response <$> _) as [r|] eqn:E; cbn [run pbind]; [done|]. cbn [run do_webhook].
  destruct (find_first (same_row _ _) (gw_rows g)) as [row|]; cbn [negb run pbind do_webhook]; [|done].
  by rewrite E.
Qed.

(** The settlement webhook acts on the first delivery of a transaction and
    on no other: an acceptable request under a tenant and transaction id that
    are not recorded is answered with its own content, recorded for thirty days
    and registers its settlement; every acceptable request under the same tenant
    and transaction id in those thirty days, whatever it reports, is answered
    with the first answer and changes nothing. *)
Theorem webhook_first_delivery_acts now tenant body g ty amount timestamp :
  acceptable now body ty amount timestamp -> find_first (same_row tenant (wb_transactionId body)) (gw_rows g) = None ->
  exists g',
    receive now tenant body g = (Ok (received body), g') /\
    gw_payouts g' = register_settlement (wb_transactionId body) ty amount timestamp (gw_payouts g) /\
    forall now' body' ty' amount' timestamp',
      acceptable now' body' ty' amount' timestamp' -> wb_transactionId body' = wb_transactionId body ->
      now <= now' < now + RETENTION_MS -> receive now' tenant body' g' = (Ok (received body), g').
Proof.
  intros Hacc Hnone. rewrite (receive_accepted _ _ _ _ _ _ _ Hacc). cbn [do_webhook fst snd].
  assert (find_first (fun r => same_row tenant (wb_transactionId body) r && (now <? ir_expires r)) (gw_rows g) = None) as ->.
  { apply find_first_None. intros r Hr. rewrite find_first_None in Hnone. by rewrite (Hnone r Hr). }
  cbn [fmap option_fmap option_map]. rewrite Hnone. eexists. split; [done|]. split; [done|].
  intros now' body' ty' amount' timestamp' Hacc' Hid Hnow. rewrite (receive_accepted _ _ _ _ _ _ _ Hacc').
  cbn [do_webhook fst snd gw_rows]. rewrite Hid, find_first_app.
  rewrite (proj2 (find_first_None _ _)).
  2: { intros r Hr. rewrite find_first_None in Hnone. by rewrite (Hnone r Hr). }
  cbn [find_first]. unfold same_row at 1. cbn [ir_tenant ir_key ir_expires ir_response].
  rewrite !bool_decide_eq_true_2 by done. cbn [andb].
  replace (now' <? now + RETENTION_MS) with true by (symmetry; apply Z.ltb_lt; lia). done.
Qed.

Definition sample_body (ty : string) : WebhookBody :=
  {| wb_eventType := JStr ty; wb_transactionId := "tx1"; wb_amount := JNum (of_Z 500); wb_timestamp := JNum (of_Z 1000) |}.

Definition empty_gateway : Gateway := {| gw_rows := []; gw_payouts := no_payouts |}.

Lemma webhook_first_delivery_acts_witness :
  exists g',
    receive 2000 "default" (sample_body "settlement_initiated") empty_gateway =
      (Ok (received (sample_body "settlement_initiated")), g') /\
    receive 3000 "default" (sample_body "settlement_completed") g' =
      (Ok (received (sample_body "settlement_initiated")), g') /\
    map_get "tx1" (ps_settlements (gw_payouts g')) = None.
Proof.
  destruct (webhook_first_delivery_acts 2000 "default" (sample_body "settlement_initiated") empty_gateway
              settlement_initiated (of_Z 500) (of_Z 1000)) as (g' & Hr & Hp & Hlater);
    [repeat split; vm_compute; reflexivity|reflexivity|].
  exists g'. split; [exact Hr|]. split.
  - apply (Hlater 3000 (sample_body "settlement_completed") settlement_completed (of_Z 500) (of_Z 1000));
      [repeat split; vm_compute; reflexivity|reflexivity|split; [by vm_compute|by vm_compute]].
  - rewrite Hp. reflexivity.
Defined.
