(* ===== verification/RefundSettlement.v ===== *)
(** * RefundSettlement: settling refunds on chain

    The refund half of [services/settlementReconciler.ts]: queueing, submission
    and reconciliation of refunds, and the audit of a refund's breakdown.  A
    record is the value of the map [_refundSettlements] at its request id; it is
    never replaced, so the references the handlers keep across an await are
    keys.  The handlers are programs over events: what they do between two
    awaits is one event, the calls of the chain are the others. *)
From stdpp Require Import base list strings relations.
From Stdlib Require Import ZArith Lia.
From S2P Require Import Prelude JsNumber Async JsMap Settlement.
Local Open Scope Z_scope.

Inductive RefundSettlementStatus : Type := rs_pending_chain | rs_submitted | rs_pending_finality | rs_settled | rs_failed.

#[export] Instance RefundSettlementStatus_eq : EqDecision RefundSettlementStatus.
Proof. solve_decision. Defined.

Record EscrowRefundLedgerEntry : Type := {
  le_refundRequestId : string;
  le_bookingIntentId : string;
  le_escrowHoldId : string;
  le_buyerId : string;
  le_supplierId : string;
  le_grossAmountCents : num;
  le_platformFeeReversedCents : num;
  le_prepaidTaxReversedCents : num;
  le_netRefundCents : num;
  le_currency : string
}.

(** A record: the ledger's values, copied when it was queued, and its progress. *)
Record RefundSettlementRecord : Type := {
  rr_entry : EscrowRefundLedgerEntry;
  rr_submittedChainTxId : option string;
  rr_settlementChainTxId : option string;
  rr_status : RefundSettlementStatus;
  rr_confirmations : num;
  rr_attempts : Z;
  rr_lastPolledAt : option Z;
  rr_createdAt : Z;
  rr_submittedAt : option Z;
  rr_settledAt : option Z;
  rr_failedAt : option Z;
  rr_failureReason : option string
}.

Definition queued_record (now : Z) (l : EscrowRefundLedgerEntry) : RefundSettlementRecord :=
  {| rr_entry := l; rr_submittedChainTxId := None; rr_settlementChainTxId := None; rr_status := rs_pending_chain;
     rr_confirmations := zero; rr_attempts := 0; rr_lastPolledAt := None; rr_createdAt := now; rr_submittedAt := None;
     rr_settledAt := None; rr_failedAt := None; rr_failureReason := None |}.

Definition submitted_record (now : Z) (hash : string) (r : RefundSettlementRecord) : RefundSettlementRecord :=
  {| rr_entry := rr_entry r; rr_submittedChainTxId := Some hash; rr_settlementChainTxId := rr_settlementChainTxId r;
     rr_status := rs_submitted; rr_confirmations := rr_confirmations r; rr_attempts := rr_attempts r + 1;
     rr_lastPolledAt := rr_lastPolledAt r; rr_createdAt := rr_createdAt r; rr_submittedAt := Some now;
     rr_settledAt := rr_settledAt r; rr_failedAt := rr_failedAt r; rr_failureReason := rr_failureReason r |}.

Definition with_failed_attempt (r : RefundSettlementRecord) : RefundSettlementRecord :=
  {| rr_entry := rr_entry r; rr_submittedChainTxId := rr_submittedChainTxId r;
     rr_settlementChainTxId := rr_settlementChainTxId r; rr_status := rr_status r;
     rr_confirmations := rr_confirmations r; rr_attempts := rr_attempts r + 1;
     rr_lastPolledAt := rr_lastPolledAt r; rr_createdAt := rr_createdAt r; rr_submittedAt := rr_submittedAt r;
     rr_settledAt := rr_settledAt r; rr_failedAt := rr_failedAt r; rr_failureReason := rr_failureReason r |}.

Definition failed_record (now : Z) (reason : string) (r : RefundSettlementRecord) : RefundSettlementRecord :=
  {| rr_entry := rr_entry r; rr_submittedChainTxId := rr_submittedChainTxId r;
     rr_settlementChainTxId := rr_settlementChainTxId r; rr_status := rs_failed;
     rr_confirmations := rr_confirmations r; rr_attempts := rr_attempts r;
     rr_lastPolledAt := rr_lastPolledAt r; rr_createdAt := rr_createdAt r; rr_submittedAt := rr_submittedAt r;
     rr_settledAt := rr_settledAt r; rr_failedAt := Some now; rr_failureReason := Some reason |}.

Definition polled_record (now : Z) (r : RefundSettlementRecord) : RefundSettlementRecord :=
  {| rr_entry := rr_entry r; rr_submittedChainTxId := rr_submittedChainTxId r;
     rr_settlementChainTxId := rr_settlementChainTxId r; rr_status := rr_status r;
     rr_confirmations := rr_confirmations r; rr_attempts := rr_attempts r;
     rr_lastPolledAt := Some now; rr_createdAt := rr_createdAt r; rr_submittedAt := rr_submittedAt r;
     rr_settledAt := rr_settledAt r; rr_failedAt := rr_failedAt r; rr_failureReason := rr_failureReason r |}.

Definition confirmed_record (confirmations : num) (r : RefundSettlementRecord) : RefundSettlementRecord :=
  {| rr_entry := rr_entry r; rr_submittedChainTxId := rr_submittedChainTxId r;
     rr_settlementChainTxId := rr_settlementChainTxId r;
     rr_status := if bool_decide (rr_status r = rs_submitted) then rs_pending_finality else rr_status r;
     rr_confirmations := confirmations; rr_attempts := rr_attempts r;
     rr_lastPolledAt := rr_lastPolledAt r; rr_createdAt := rr_createdAt r; rr_submittedAt := rr_submittedAt r;
     rr_settledAt := rr_settledAt r; rr_failedAt := rr_failedAt r; rr_failureReason := rr_failureReason r |}.

Definition settled_record (now : Z) (txHash : string) (r : RefundSettlementRecord) : RefundSettlementRecord :=
  {| rr_entry := rr_entry r; rr_submittedChainTxId := rr_submittedChainTxId r; rr_settlementChainTxId := Some txHash;
     rr_status := rs_settled; rr_confirmations := rr_confirmations r; rr_attempts := rr_attempts r;
     rr_lastPolledAt := rr_lastPolledAt r; rr_createdAt := rr_createdAt r; rr_submittedAt := rr_submittedAt r;
     rr_settledAt := Some now; rr_failedAt := rr_failedAt r; rr_failureReason := rr_failureReason r |}.

(** The emitted events; [refund.failed] is emitted when the submissions are
    used up and when the chain rejected the transaction. *)
Inductive RefundEvent : Type :=
| ev_queued (id : string)
| ev_submitted (id hash : string)
| ev_failed_submission (id error : string)
| ev_failed_on_chain (id : string)
| ev_reorg (id : string)
| ev_settled (id : string).

(** The records, the emitted events, the refunds the chain accepted, and those
    among them that no answer reported. *)
Record Refunds : Type := {
  rf_records : jsmap RefundSettlementRecord;
  rf_events : list RefundEvent;
  rf_chain : list (string * string);
  rf_lost : list (string * string)
}.

Definition no_refunds : Refunds := {| rf_records := []; rf_events := []; rf_chain := []; rf_lost := [] |}.

Definition put_record (id : string) (r : RefundSettlementRecord) (evs : list RefundEvent) (w : Refunds) : Refunds :=
  {| rf_records := map_set id r (rf_records w); rf_events := rf_events w ++ evs; rf_chain := rf_chain w;
     rf_lost := rf_lost w |}.

(** ** Queueing *)

Definition queueEscrowRefundSettlement (now : Z) (l : EscrowRefundLedgerEntry) (w : Refunds) : RefundSettlementRecord * Refunds :=
  match map_get (le_refundRequestId l) (rf_records w) with
  | Some r => (r, w)
  | None =>
      let r := queued_record now l in
      (r, put_record (le_refundRequestId l) r [ev_queued (le_refundRequestId l)] w)
  end.

(** ** The handlers *)

Inductive RefundError : Type := UnknownRefund | SubmitError (message : string).

Inductive RefundEv : Type -> Type :=
| QueueEv (l : EscrowRefundLedgerEntry) : RefundEv RefundSettlementRecord
| LookupEv (id : string) : RefundEv (option RefundSettlementRecord)
| SubmitXdrEv (id : string) : RefundEv (result string string)
| SubmittedEv (id hash : string) : RefundEv unit
| SubmitFailedEv (id message : string) : RefundEv unit
| ActiveEv : RefundEv (list string)
| LatestLedgerEv : RefundEv bool
| PollEv (id : string) : RefundEv (option string)
| FinalityEv (txHash : string) : RefundEv (option ChainFinalityStatus)
| ApplyEv (id txHash : string) (st : ChainFinalityStatus) : RefundEv unit.

Abbreviation RProg := (Prog RefundEv RefundError).

Definition queue (l : EscrowRefundLedgerEntry) : RProg RefundSettlementRecord := perform (QueueEv l).

Definition already_submitted (r : RefundSettlementRecord) : bool :=
  match rr_status r with rs_settled | rs_submitted | rs_pending_finality => true | _ => false end.

Definition submitRefundToChain (id : string) : RProg unit :=
  found ← perform (LookupEv id);
  record ← need found UnknownRefund;
  if already_submitted record then mret tt
  else
    tx ← perform (SubmitXdrEv id);
    match tx with
    | Ok hash => perform (SubmittedEv id hash)
    | Err message => _ ← perform (SubmitFailedEv id message); Thr (SubmitError message)
    end.

Fixpoint poll_refunds (active : list string) : RProg unit :=
  match active with
  | [] => mret tt
  | id :: rest =>
      txHash ← perform (PollEv id);
      match txHash with
      | None => poll_refunds rest
      | Some txHash =>
          status ← perform (FinalityEv txHash);
          match status with
          | None => poll_refunds rest
          | Some st => _ ← perform (ApplyEv id txHash st); poll_refunds rest
          end
      end
  end.

Definition reconcileRefunds : RProg unit :=
  active ← perform ActiveEv;
  match active with
  | [] => mret tt
  | _ => ok ← perform LatestLedgerEv; if (ok : bool) then poll_refunds active else mret tt
  end.

(** ** What the events do *)

Definition MAX_SUBMIT_ATTEMPTS : Z := 5.

Definition submitted_section (now : Z) (id hash : string) (w : Refunds) : Refunds :=
  match map_get id (rf_records w) with
  | Some r => put_record id (submitted_record now hash r) [ev_submitted id hash] w
  | None => w
  end.

Definition submit_failed_section (now : Z) (id message : string) (w : Refunds) : Refunds :=
  match map_get id (rf_records w) with
  | Some r =>
      let r := with_failed_attempt r in
      if MAX_SUBMIT_ATTEMPTS <=? rr_attempts r
      then put_record id (failed_record now message r) [ev_failed_submission id message] w
      else put_record id r [] w
  | None => w
  end.

Definition is_polled (r : RefundSettlementRecord) : bool :=
  match rr_status r with rs_submitted | rs_pending_finality => true | _ => false end.

Definition active_refunds (w : Refunds) : list string :=
  map (fun r => le_refundRequestId (rr_entry r)) (List.filter is_polled (map_values (rf_records w))).

Definition chain_tx (r : RefundSettlementRecord) : option string :=
  match rr_submittedChainTxId r with Some h => Some h | None => rr_settlementChainTxId r end.

Definition poll_section (now : Z) (id : string) (w : Refunds) : option string * Refunds :=
  match map_get id (rf_records w) with
  | Some r =>
      match chain_tx r with
      | Some h => if str_truthy h then (Some h, put_record id (polled_record now r) [] w) else (None, w)
      | None => (None, w)
      end
  | None => (None, w)
  end.

Section Chain.
Context (minConfirmations : num).

Definition apply_section (now : Z) (id txHash : string) (st : ChainFinalityStatus) (w : Refunds) : Refunds :=
  match map_get id (rf_records w) with
  | Some r =>
      if negb (fs_found st) then
        if bool_decide (rr_status r = rs_settled)
        then {| rf_records := rf_records w; rf_events := rf_events w ++ [ev_reorg id]; rf_chain := rf_chain w;
                rf_lost := rf_lost w |}
        else w
      else if negb (bool_decide (fs_successful st = Some true)) then
        put_record id (failed_record now "Refund chain transaction rejected" r) [ev_failed_on_chain id] w
      else
        let r := confirmed_record (fs_confirmations st) r in
        if geb (fs_confirmations st) minConfirmations
        then put_record id (settled_record now txHash r) [ev_settled id] w
        else put_record id r [] w
  | None => w
  end.

(** How the caller's submission of a refund ends: with the hash of its
    transaction, which the chain then has accepted, or by throwing.  A call that
    throws may have been accepted all the same: the client gives up waiting after
    its time-out and cannot know.
    [sa_unreported] lists the transactions the call sent and the chain accepted
    without their hash being the answer. *)
Record SubmitAnswer : Type := {
  sa_unreported : list string;
  sa_result : result string string
}.

Definition accepted_as (hash : string) : SubmitAnswer := {| sa_unreported := []; sa_result := Ok hash |}.
Definition refused_with (message : string) : SubmitAnswer := {| sa_unreported := []; sa_result := Err message |}.
Definition timed_out (hash : string) : SubmitAnswer := {| sa_unreported := [hash]; sa_result := Err "horizon timed out"%string |}.

Definition sent (id : string) (a : SubmitAnswer) (w : Refunds) : Refunds :=
  let unreported := map (pair id) (sa_unreported a) in
  {| rf_records := rf_records w; rf_events := rf_events w;
     rf_chain := rf_chain w ++ unreported ++ match sa_result a with Ok hash => [(id, hash)] | Err _ => [] end;
     rf_lost := rf_lost w ++ unreported |}.

(** What the outside answers during a request. *)
Record ChainEnv : Type := {
  ce_now : Z;
  ce_submit : string -> SubmitAnswer;
  ce_ledger : bool;
  ce_finality : string -> option ChainFinalityStatus
}.

Definition do_refund (e : ChainEnv) X (ev : RefundEv X) (w : Refunds) : X * Refunds :=
  match ev in RefundEv X return X * Refunds with
  | QueueEv l => queueEscrowRefundSettlement (ce_now e) l w
  | LookupEv id => (map_get id (rf_records w), w)
  | SubmitXdrEv id => let a := ce_submit e id in (sa_result a, sent id a w)
  | SubmittedEv id hash => (tt, submitted_section (ce_now e) id hash w)
  | SubmitFailedEv id m => (tt, submit_failed_section (ce_now e) id m w)
  | ActiveEv => (active_refunds w, w)
  | LatestLedgerEv => (ce_ledger e, w)
  | PollEv id => poll_section (ce_now e) id w
  | FinalityEv h => (ce_finality e h, w)
  | ApplyEv id h st => (tt, apply_section (ce_now e) id h st w)
  end.

(** Requests served one after the other. *)
Inductive refund_request : RProg unit -> Prop :=
| rq_queue l : refund_request (forget (queue l))
| rq_submit id : refund_request (submitRefundToChain id)
| rq_reconcile : refund_request reconcileRefunds.

Inductive reached : Refunds -> Prop :=
| reached_none : reached no_refunds
| reached_next w p e : reached w -> refund_request p -> reached (snd (run (do_refund e) p w)).

(** ** What was paid *)

Definition about (id : string) (ev : RefundEvent) : bool :=
  match ev with ev_failed_on_chain i => bool_decide (i = id) | _ => false end.

(** The transactions of a refund the chain accepted, those among them that no
    answer reported, and those a finality check did not report as successful. *)
Definition submissions (id : string) (w : Refunds) : nat := length (List.filter (at_key id) (rf_chain w)).
Definition unreported (id : string) (w : Refunds) : nat := length (List.filter (at_key id) (rf_lost w)).
Definition rejections (id : string) (w : Refunds) : nat := length (List.filter (about id) (rf_events w)).

Definition outstanding (id : string) (w : Refunds) : nat :=
  match map_get id (rf_records w) with Some r => if already_submitted r then 1 else 0 | None => 0 end.

(** A record's fields: its id, and the accepted transaction it stands for. *)
Record record_ok (w : Refunds) (id : string) (r : RefundSettlementRecord) : Prop := {
  ro_id : le_refundRequestId (rr_entry r) = id;
  ro_tx : already_submitted r = true -> exists h, rr_submittedChainTxId r = Some h /\ (id, h) ∈ rf_chain w;
  ro_settled : rr_status r = rs_settled ->
    rr_settlementChainTxId r = rr_submittedChainTxId r /\ geb (rr_confirmations r) minConfirmations = true
}.

Record refunds_ok (w : Refunds) : Prop := {
  fo_nodup : NoDup (map_keys (rf_records w));
  fo_each id r : map_get id (rf_records w) = Some r -> record_ok w id r;
  fo_count id : (submissions id w = unreported id w + rejections id w + outstanding id w)%nat
}.

Definition in_flight (w : Refunds) (id : string) : Prop :=
  exists r, map_get id (rf_records w) = Some r /\ is_polled r = true.

Lemma rejections_put id i r evs w : rejections id (put_record i r evs w) = (rejections id w + length (List.filter (about id) evs))%nat.
Proof. unfold rejections. cbn [put_record rf_events]. by rewrite List.filter_app, length_app. Qed.

Lemma outstanding_put id i r evs w :
  outstanding id (put_record i r evs w) =
  if bool_decide (id = i) then (if already_submitted r then 1 else 0)%nat else outstanding id w.
Proof. unfold outstanding. cbn [put_record rf_records]. rewrite map_get_set. by case_bool_decide. Qed.

(** A record is written: the account of its own refund has to balance. *)
Lemma put_ok id r evs w :
  refunds_ok w -> record_ok w id r -> Forall (fun ev => forall i, about i ev = true -> i = id) evs ->
  (submissions id w =
    unreported id w + rejections id w + length (List.filter (about id) evs) + (if already_submitted r then 1 else 0))%nat ->
  refunds_ok (put_record id r evs w).
Proof.
  intros [Hn He Hc] Hr Hev Hbal. split.
  - by apply map_set_nodup.
  - intros i r0. cbn [put_record rf_records]. rewrite map_get_set. case_bool_decide as Hi.
    + intros [= <-]. subst i. destruct Hr. by split.
    + intros Hr0. destruct (He i r0 Hr0). by split.
  - intros i. rewrite rejections_put, outstanding_put. case_bool_decide as Hi.
    { subst i. unfold submissions, unreported in *. cbn [put_record rf_chain rf_lost]. lia. }
    replace (length (List.filter (about i) evs)) with 0%nat; [unfold submissions, unreported in *; cbn; specialize (Hc i); lia|].
    clear Hbal. induction Hev as [|ev evs Hev _ IH]; [done|]. cbn [List.filter].
    destruct (about i ev) eqn:E; [by apply Hev in E|done].
Qed.

Lemma queue_refund_ok now l w : refunds_ok w -> refunds_ok (snd (queueEscrowRefundSettlement now l w)).
Proof.
  intros Hok. unfold queueEscrowRefundSettlement. destruct (map_get _ _) eqn:E; [done|]. cbn [snd].
  apply put_ok; [done|by split|by repeat constructor|]. simpl.
  pose proof (fo_count w Hok (le_refundRequestId l)) as Hc. unfold outstanding in Hc. rewrite E in Hc. lia.
Qed.

(** Sending changes neither records nor events; a transaction that is not
    reported counts on both sides, the answered one on one. *)
Lemma sent_counts id a w i :
  submissions i (sent id a w) =
    (submissions i w + (unreported i (sent id a w) - unreported i w) +
     (if bool_decide (id = i) then match sa_result a with Ok _ => 1 | Err _ => 0 end else 0))%nat /\
  (unreported i w <= unreported i (sent id a w))%nat.
Proof.
  unfold submissions, unreported, sent. cbn [rf_chain rf_lost]. rewrite !List.filter_app, !length_app. split; [|lia].
  destruct (sa_result a) as [h|m]; cbn [List.filter]; [change (at_key i (id, h)) with (bool_decide (id = i))|];
    case_bool_decide; cbn [length]; lia.
Qed.

Lemma sent_chain id a w x : x ∈ rf_chain w -> x ∈ rf_chain (sent id a w).
Proof. intros Hx. apply elem_of_app. by left. Qed.

Lemma record_ok_sent id a w i r : record_ok w i r -> record_ok (sent id a w) i r.
Proof.
  intros [Hid Htx Hs]. split; [done| |done]. intros Ha. destruct (Htx Ha) as (h & ? & ?).
  exists h. split; [done|]. by apply sent_chain.
Qed.

(** A refused submission, whatever it left on the chain. *)
Lemma sent_refused_ok id a w m : refunds_ok w -> sa_result a = Err m -> refunds_ok (sent id a w).
Proof.
  intros [Hn He Hc] Ha. split; [done|intros i r Hr; apply record_ok_sent, He, Hr|].
  intros i. destruct (sent_counts id a w i) as [Hs Hu]. rewrite Hs, Ha. specialize (Hc i).
  unfold rejections, outstanding in *. cbn [sent rf_records rf_events]. case_bool_decide; lia.
Qed.

(** An answered submission, once the record names it. *)
Lemma sent_accepted_ok id a w r hash now :
  refunds_ok w -> map_get id (rf_records w) = Some r -> already_submitted r = false -> sa_result a = Ok hash ->
  refunds_ok (put_record id (submitted_record now hash r) [ev_submitted id hash] (sent id a w)).
Proof.
  intros [Hn He Hc] Er Ea Hh. destruct (He id r Er) as [Hid Htx Hse]. split.
  - by apply map_set_nodup.
  - intros i r0. cbn [put_record sent rf_records]. rewrite map_get_set. case_bool_decide as Hi.
    + intros [= <-]. subst i. split; [done| |done]. intros _. exists hash. split; [done|].
      cbn [put_record sent rf_chain]. rewrite Hh, !elem_of_app. right. right. by left.
    + intros Hr0. destruct (record_ok_sent id a w i r0 (He i r0 Hr0)). by split.
  - intros i. rewrite rejections_put, outstanding_put. destruct (sent_counts id a w i) as [Hs Hu]. rewrite Hh in Hs.
    specialize (Hc i). unfold submissions, unreported, rejections, outstanding in *.
    cbn [put_record sent rf_chain rf_lost rf_events rf_records List.filter about length] in *.
    rewrite (bool_decide_ext (i = id) (id = i)) by done. case_bool_decide; [subst i|cbn; lia].
    rewrite Er, Ea in Hc. cbn. lia.
Qed.

Lemma submit_ok e id w : refunds_ok w -> refunds_ok (snd (run (do_refund e) (submitRefundToChain id) w)).
Proof.
  intros Hok. unfold submitRefundToChain. rewrite run_bind, run_perform. cbn [do_refund fst snd].
  destruct (map_get id (rf_records w)) as [r|] eqn:Er; [|done]. rewrite run_bind. cbn [need run].
  destruct (already_submitted r) eqn:Ea; [done|]. rewrite run_bind, run_perform. cbn [do_refund fst snd]. cbv zeta.
  destruct (sa_result (ce_submit e id)) as [hash|m] eqn:Ha.
  - rewrite run_perform. cbn [do_refund snd fst]. unfold submitted_section. cbn [sent rf_records]. rewrite Er.
    by apply sent_accepted_ok.
  - rewrite run_bind, run_perform. cbn [do_refund snd fst run]. unfold submit_failed_section. cbn [sent rf_records]. rewrite Er.
    pose proof (sent_refused_ok id _ w m Hok Ha) as Hok'.
    pose proof (fo_count _ Hok' id) as Hc. unfold outstanding in Hc. cbn [sent rf_records] in Hc. rewrite Er, Ea in Hc.
    destruct (fo_each _ Hok' id r Er) as [Hid Htx Hse].
    fold (sent id (ce_submit e id) w) in *.
    destruct (_ <=? _); apply put_ok; try done; try (by repeat constructor); cbn [List.filter about length].
    + rewrite Hc. cbn. lia.
    + rewrite Hc. unfold already_submitted in *. cbn [with_failed_attempt rr_status]. rewrite Ea. lia.
Qed.

Lemma polled_submitted r : is_polled r = true -> already_submitted r = true /\ rr_status r <> rs_settled.
Proof. unfold is_polled, already_submitted. by destruct (rr_status r). Qed.

Lemma in_flight_put i id r evs w : i <> id -> in_flight w i -> in_flight (put_record id r evs w) i.
Proof. intros Hi (r0 & Hr0 & Hp). exists r0. cbn [put_record rf_records]. by rewrite map_get_set_ne. Qed.

Lemma poll_ok now id w :
  refunds_ok w -> in_flight w id ->
  let w' := snd (poll_section now id w) in
  refunds_ok w' /\ in_flight w' id /\ (forall i, in_flight w i -> in_flight w' i) /\
  forall h, fst (poll_section now id w) = Some h ->
    exists r, map_get id (rf_records w') = Some r /\ rr_submittedChainTxId r = Some h.
Proof.
  intros Hok (r & Hr & Hp). cbv zeta. unfold poll_section. rewrite Hr.
  assert (in_flight w id) as Hin by (by exists r).
  destruct (polled_submitted r Hp) as [Ha Hns]. pose proof (fo_each w Hok id r Hr) as [Hid Htx Hse].
  destruct (Htx Ha) as (h & Hh & Hch). unfold chain_tx. rewrite Hh. destruct (str_truthy h); [|done]. cbn [fst snd].
  pose proof (fo_count w Hok id) as Hc. unfold outstanding in Hc. rewrite Hr, Ha in Hc.
  assert (in_flight (put_record id (polled_record now r) [] w) id) as Hin'.
  { eexists. cbn [put_record rf_records]. rewrite map_get_set_eq. done. }
  split_and!; [| done| |].
  - apply put_ok; [done|by split|by constructor|]. unfold already_submitted in *. simpl. rewrite Ha. lia.
  - intros i Hi. destruct (decide (i = id)) as [->|]; [done|by apply in_flight_put].
  - intros h' [= <-]. eexists. cbn [put_record rf_records]. rewrite map_get_set_eq. done.
Qed.

Lemma apply_ok now id h st w r :
  refunds_ok w -> in_flight w id -> map_get id (rf_records w) = Some r -> rr_submittedChainTxId r = Some h ->
  refunds_ok (apply_section now id h st w) /\ forall i, i <> id -> in_flight w i -> in_flight (apply_section now id h st w) i.
Proof.
  intros Hok (r0 & Hr0 & Hp) Hr Hh. assert (r0 = r) as -> by congruence. destruct (polled_submitted r Hp) as [Ha Hns].
  unfold apply_section. rewrite Hr. pose proof (fo_each w Hok id r Hr) as [Hid Htx Hse].
  pose proof (fo_count w Hok id) as Hc. unfold outstanding in Hc. rewrite Hr, Ha in Hc.
  destruct (fs_found st); cbn [negb]; [|by rewrite bool_decide_eq_false_2 by done].
  destruct (negb _).
  - split; [|by intros; apply in_flight_put]. apply put_ok; [done|by split| |].
    + constructor; [|done]. intros i E. by apply bool_decide_eq_true in E.
    + cbn. unfold about. rewrite bool_decide_eq_true_2 by done. cbn. lia.
  - assert (already_submitted (confirmed_record (fs_confirmations st) r) = true) as Hca.
    { unfold is_polled in Hp. unfold already_submitted. simpl. by destruct (rr_status r). }
    destruct (geb (fs_confirmations st) minConfirmations) eqn:Eg; (split; [|by intros; apply in_flight_put]); apply put_ok; try done; try (by repeat constructor).
    + split; [done|by intros _; apply Htx|]. intros _. split; [cbn; congruence|done].
    + cbn. lia.
    + split; [done|by intros _; apply Htx|]. unfold is_polled in Hp. simpl. by destruct (rr_status r).
    + rewrite Hca. cbn. lia.
Qed.

Lemma poll_refunds_ok e l w :
  refunds_ok w -> NoDup l -> Forall (in_flight w) l -> refunds_ok (snd (run (do_refund e) (poll_refunds l) w)).
Proof.
  revert w. induction l as [|id l IH]; intros w Hok Hnd Hfl; [done|]. apply NoDup_cons in Hnd as [Hni Hnd].
  apply Forall_cons in Hfl as [Hid Hfl]. cbn [poll_refunds]. rewrite run_bind, run_perform. cbn [do_refund].
  destruct (poll_ok (ce_now e) id w Hok Hid) as (Hok' & Hin' & Hkeep & Htx).
  destruct (poll_section (ce_now e) id w) as [[h|] w']; cbn [fst snd] in *.
  - rewrite run_bind, run_perform. cbn [do_refund fst snd]. destruct (ce_finality e h) as [st|].
    + rewrite run_bind, run_perform. cbn [do_refund fst snd]. destruct (Htx h eq_refl) as (r & Hr & Hh).
      destruct (apply_ok (ce_now e) id h st w' r) as [Hok'' Hkeep']; [done..|]. apply IH; [done|done|].
      rewrite Forall_forall in Hfl |- *. intros i Hi. apply Hkeep'; [by intros ->|]. by apply Hkeep, Hfl.
    + apply IH; [done|done|]. by eapply Forall_impl.
  - apply IH; [done|done|]. by eapply Forall_impl.
Qed.

Lemma active_refunds_ok w : refunds_ok w -> NoDup (active_refunds w) /\ Forall (in_flight w) (active_refunds w).
Proof.
  intros Hok. assert (forall k v, (k, v) ∈ rf_records w -> le_refundRequestId (rr_entry v) = k /\ map_get k (rf_records w) = Some v) as Hk.
  { intros k v Hin. assert (map_get k (rf_records w) = Some v) as Hg by (apply elem_map_get; [apply Hok|done]).
    split; [|done]. by apply (fo_each w Hok). }
  unfold active_refunds. split.
  - pose proof (fo_nodup w Hok) as Hnd. revert Hk Hnd. generalize (rf_records w) at 1 3 4. intros l Hk Hnd.
    induction l as [|[k v] l IH]; [constructor|]. apply NoDup_cons in Hnd as [Hn Hns]. cbn [map_values map snd List.filter].
    assert (NoDup (map (fun r => le_refundRequestId (rr_entry r)) (List.filter is_polled (map_values l)))) as IH'.
    { apply IH; [|done]. intros k' v' Hin. apply Hk. by right. }
    destruct (is_polled v); [|done]. cbn [map]. constructor; [|done].
    destruct (Hk k v ltac:(by left)) as [-> _]. intros (x & Hx & Hin)%list_elem_of_fmap.
    apply list_elem_of_In, filter_In in Hin as [Hin%list_elem_of_In _].
    apply list_elem_of_fmap in Hin as ([k' v'] & -> & Hkv). apply Hn, list_elem_of_fmap. exists (k', v'). split; [|done].
    simpl in *. destruct (Hk k' v' ltac:(by right)) as [<- _]. done.
  - apply Forall_forall. intros i (r & -> & Hin)%list_elem_of_fmap.
    apply list_elem_of_In, filter_In in Hin as [Hin%list_elem_of_In Hp].
    apply list_elem_of_fmap in Hin as ([k v] & -> & Hkv). simpl in *. destruct (Hk k v Hkv) as [-> Hg]. by exists v.
Qed.

Lemma refund_request_ok e p w : refund_request p -> refunds_ok w -> refunds_ok (snd (run (do_refund e) p w)).
Proof.
  intros Hp Hok. destruct Hp as [l|id|].
  - unfold forget, queue. rewrite run_bind, run_perform. cbn [do_refund]. pose proof (queue_refund_ok (ce_now e) l w Hok).
    by destruct (queueEscrowRefundSettlement (ce_now e) l w).
  - by apply submit_ok.
  - unfold reconcileRefunds. rewrite run_bind, run_perform. cbn [do_refund fst snd].
    destruct (active_refunds_ok w Hok) as [Hnd Hfl]. destruct (active_refunds w) as [|i l]; [done|].
    rewrite run_bind, run_perform. cbn [do_refund fst snd]. destruct (ce_ledger e); [|done]. by apply poll_refunds_ok.
Qed.

Lemma reached_ok w : reached w -> refunds_ok w.
Proof. induction 1 as [|w p e _ IH Hp]; [|by apply refund_request_ok]. split; [constructor|done|done]. Qed.

(** (C5) The payments of a refund are accounted for, when refund requests are
    served one after the other: whatever the chain answers, and even though a
    submission that throws may have been accepted, the transactions of a refund
    that the chain accepted are those no answer reported, those a later finality
    check did not report as successful (a missing status counts as such), and one
    more exactly when the record is submitted, pending finality or settled.  So a
    second transaction is accepted only after an unreported acceptance or such a
    check of the first.  A submitted, pending or settled record names an
    accepted transaction of its own refund, and a settled one has at least the
    configured confirmations on that transaction. *)
Theorem refund_payments_accounted w id r :
  reached w -> map_get id (rf_records w) = Some r ->
  submissions id w = (unreported id w + rejections id w + if already_submitted r then 1 else 0)%nat /\
  (already_submitted r = true -> exists h, rr_submittedChainTxId r = Some h /\ (id, h) ∈ rf_chain w) /\
  (rr_status r = rs_settled ->
     rr_settlementChainTxId r = rr_submittedChainTxId r /\ geb (rr_confirmations r) minConfirmations = true).
Proof.
  intros Hok%reached_ok Hr. pose proof (fo_count w Hok id) as Hc. unfold outstanding in Hc. rewrite Hr in Hc.
  destruct (fo_each w Hok id r Hr). done.
Qed.
End Chain.

(** ** Concrete runs *)

Definition sample_refund : EscrowRefundLedgerEntry :=
  {| le_refundRequestId := "r1"; le_bookingIntentId := "b1"; le_escrowHoldId := "h1"; le_buyerId := "buyer";
     le_supplierId := "supplier"; le_grossAmountCents := of_Z 1000; le_platformFeeReversedCents := of_Z 50;
     le_prepaidTaxReversedCents := of_Z 80; le_netRefundCents := of_Z 1080; le_currency := "USD" |}.

Definition chain_says (hash : string) (confirmations : Z) : ChainEnv :=
  {| ce_now := 1000; ce_submit := fun _ => accepted_as hash; ce_ledger := true;
     ce_finality := fun _ => Some {| fs_found := true; fs_successful := Some true; fs_ledger := None;
                                     fs_confirmations := of_Z confirmations |} |}.

Definition after_queue : Refunds := snd (run (do_refund (of_Z 3) (chain_says "h1" 0)) (forget (queue sample_refund)) no_refunds).

Definition after_submit : Refunds := snd (run (do_refund (of_Z 3) (chain_says "h1" 0)) (submitRefundToChain "r1") after_queue).

Definition after_settle : Refunds := snd (run (do_refund (of_Z 3) (chain_says "h1" 4)) reconcileRefunds after_submit).

Lemma after_queue_reached : reached (of_Z 3) after_queue.
Proof. apply reached_next; constructor. Qed.

Lemma refund_payments_accounted_witness :
  exists r, map_get "r1" (rf_records after_settle) = Some r /\ rr_status r = rs_settled /\
    submissions "r1" after_settle = 1%nat /\ geb (rr_confirmations r) (of_Z 3) = true.
Proof.
  destruct (map_get "r1" (rf_records after_settle)) as [r|] eqn:E; [|vm_compute in E; discriminate E].
  destruct (refund_payments_accounted (of_Z 3) after_settle "r1" r) as (Hc & Htx & Hs).
  - apply reached_next; [apply reached_next; [exact after_queue_reached|]|]; constructor.
  - exact E.
  - assert (rr_status r = rs_settled) as Hst by (vm_compute in E; injection E as <-; reflexivity).
    exists r. split; [reflexivity|]. split; [exact Hst|]. split; [|exact (proj2 (Hs Hst))].
    rewrite Hc. unfold already_submitted. rewrite Hst. vm_compute. reflexivity.
Defined.

(** The submission of a refund times out although the chain accepted it, the
    caller tries again with a new transaction, and the refund is paid twice,
    with no transaction found unsuccessful. *)
Definition chain_times_out (hash : string) : ChainEnv :=
  {| ce_now := 1000; ce_submit := fun _ => timed_out hash; ce_ledger := true; ce_finality := fun _ => None |}.

Definition after_time_out : Refunds := snd (run (do_refund (of_Z 3) (chain_times_out "h1")) (submitRefundToChain "r1") after_queue).

Definition after_retry : Refunds := snd (run (do_refund (of_Z 3) (chain_says "h2" 0)) (submitRefundToChain "r1") after_time_out).

Lemma lost_answer_pays_twice :
  reached (of_Z 3) after_retry /\ submissions "r1" after_retry = 2%nat /\ unreported "r1" after_retry = 1%nat /\
  rejections "r1" after_retry = 0%nat.
Proof.
  split; [|by vm_compute]. apply reached_next; [apply reached_next; [exact after_queue_reached|]|]; constructor.
Qed.

(** One event of a handler, whatever the chain answers. *)
Definition exec_refund X (ev : RefundEv X) (w : Refunds) (x : X) (w' : Refunds) : Prop :=
  exists e, do_refund (of_Z 3) e X ev w = (x, w').

Definition two_submissions : Config RefundEv RefundError Refunds :=
  {| cf_state := after_queue; cf_pool := [submitRefundToChain "r1"; submitRefundToChain "r1"] |}.

Definition both_submitted : Config RefundEv RefundError Refunds :=
  follow (fun e => do_refund (of_Z 3) e)
    [(0%nat, chain_says "h1" 0); (1%nat, chain_says "h1" 0); (0%nat, chain_says "h1" 0); (1%nat, chain_says "h2" 0);
     (0%nat, chain_says "h1" 0); (1%nat, chain_says "h2" 0)] two_submissions.

(** Two submissions of one refund that overlap both pay it: each looks at
    the record before the other's transaction is answered, the chain accepts
    both and rejects neither, and the record keeps only the second
    transaction. *)
Theorem concurrent_submissions_pay_twice :
  exists c r, rtc (step exec_refund refund_request) {| cf_state := after_queue; cf_pool := [] |} c /\
    map_get "r1" (rf_records (cf_state c)) = Some r /\ rr_status r = rs_submitted /\
    submissions "r1" (cf_state c) = 2%nat /\ rejections "r1" (cf_state c) = 0%nat /\ rr_submittedChainTxId r = Some "h2"%string.
Proof.
  exists both_submitted. eexists. split; [|by vm_compute].
  etrans; [apply (admit_steps _ _ _ [] [submitRefundToChain "r1"; submitRefundToChain "r1"]); repeat constructor|].
  apply follow_steps. intros e X ev w. exists e. apply surjective_pairing.
Qed.

(** ** The breakdown of a refund *)

Record RefundBreakdown : Type := {
  bk_valid : bool;
  bk_buyerGetsCents : num;
  bk_supplierForfeitsCents : num;
  bk_platformForfeitsFeeCents : num;
  bk_treasuryForfeitsTaxCents : num
}.

Definition verifyRefundSettlementBreakdown (r : RefundSettlementRecord) : RefundBreakdown :=
  let l := rr_entry r in
  let netCheck := eqb (le_netRefundCents l) (add (le_grossAmountCents l) (le_prepaidTaxReversedCents l)) in
  let feeCheck := geb (le_platformFeeReversedCents l) zero && leb (le_platformFeeReversedCents l) (le_grossAmountCents l) in
  let taxCheck := geb (le_prepaidTaxReversedCents l) zero in
  {| bk_valid := netCheck && feeCheck && taxCheck; bk_buyerGetsCents := le_netRefundCents l;
     bk_supplierForfeitsCents := le_grossAmountCents l; bk_platformForfeitsFeeCents := le_platformFeeReversedCents l;
     bk_treasuryForfeitsTaxCents := le_prepaidTaxReversedCents l |}.

Definition in_cents (l : EscrowRefundLedgerEntry) (gross fee tax net : Z) : Prop :=
  le_grossAmountCents l = Fin (gross * U) /\ le_platformFeeReversedCents l = Fin (fee * U) /\
  le_prepaidTaxReversedCents l = Fin (tax * U) /\ le_netRefundCents l = Fin (net * U).

(** On amounts in whole cents the check is the equation it stands for. *)
Lemma breakdown_exact r gross fee tax net :
  in_cents (rr_entry r) gross fee tax net -> Z.abs (gross + tax) <= 2 ^ 53 ->
  bk_valid (verifyRefundSettlementBreakdown r) = true <-> net = gross + tax /\ 0 <= fee <= gross /\ 0 <= tax.
Proof.
  intros (Hg & Hf & Ht & Hn) Hb. unfold verifyRefundSettlementBreakdown. cbn [bk_valid]. rewrite Hg, Hf, Ht, Hn.
  rewrite add_cents by done. unfold geb, zero. rewrite !andb_true_iff, !leb_fin, !Z.leb_le, eqb_eq by done.
  pose proof U_pos. split; [intros [[[= Hnet] [? ?]] ?]|intros (-> & ? & ?)]; [|split; [split; [done|]|]; nia].
  apply Z.mul_cancel_r in Hnet; [|lia]. split; [done|]. split; nia.
Qed.
