(* ===== verification/Merkle.v ===== *)
(** * Merkle: evidence batches and inclusion proofs

    The Merkle trees of [services/merkleTree.service.ts] and the evidence batches
    that [services/disputeEvidenceAnchor.service.ts] anchors on chain.  Byte
    strings are strings of characters below 256 (a text is given by its UTF-8
    bytes); SHA-256 is a parameter, of which only the length of a digest is used.
    Freedom from collisions is only asked of the strings that were hashed. *)
From stdpp Require Import base list strings.
From Stdlib Require Import ZArith Lia Ascii.
From S2P Require Import Prelude.
Local Open Scope nat_scope.

(** ** Hexadecimal *)

Definition hex_value (c : ascii) : option nat :=
  let n := nat_of_ascii c in
  if (48 <=? n) && (n <=? 57) then Some (n - 48)
  else if (97 <=? n) && (n <=? 102) then Some (n - 87)
  else if (65 <=? n) && (n <=? 70) then Some (n - 55)
  else None.

Definition hex_char (n : nat) : ascii := ascii_of_nat (if n <? 10 then 48 + n else 87 + n).

(** [digest("hex")]. *)
Fixpoint to_hex (s : string) : string :=
  match s with
  | EmptyString => EmptyString
  | String c s' => String (hex_char (nat_of_ascii c / 16)) (String (hex_char (nat_of_ascii c mod 16)) (to_hex s'))
  end.

(** [Buffer.from(s, "hex")]: pairs of digits up to the first that is none. *)
Fixpoint from_hex (s : string) : string :=
  match s with
  | String a (String b s') =>
      match hex_value a, hex_value b with
      | Some x, Some y => String (ascii_of_nat (16 * x + y)) (from_hex s')
      | _, _ => EmptyString
      end
  | _ => EmptyString
  end.

Lemma hex_char_roundtrip c :
  hex_value (hex_char (nat_of_ascii c / 16)) = Some (nat_of_ascii c / 16) /\
  hex_value (hex_char (nat_of_ascii c mod 16)) = Some (nat_of_ascii c mod 16) /\
  ascii_of_nat (16 * (nat_of_ascii c / 16) + nat_of_ascii c mod 16) = c /\
  lower_ascii (hex_char (nat_of_ascii c / 16)) = hex_char (nat_of_ascii c / 16) /\
  lower_ascii (hex_char (nat_of_ascii c mod 16)) = hex_char (nat_of_ascii c mod 16).
Proof. destruct c as [[] [] [] [] [] [] [] []]; vm_compute; repeat split. Qed.

Lemma hex_value_lower c : hex_value (lower_ascii c) = hex_value c.
Proof. destruct c as [[] [] [] [] [] [] [] []]; vm_compute; reflexivity. Qed.

Lemma from_to_hex s : from_hex (to_hex s) = s.
Proof.
  induction s as [|c s IH]; [done|]. destruct (hex_char_roundtrip c) as (H1 & H2 & H3 & _).
  cbn [to_hex from_hex]. by rewrite H1, H2, H3, IH.
Qed.

Lemma lower_to_hex s : to_lower (to_hex s) = to_hex s.
Proof.
  induction s as [|c s IH]; [done|]. destruct (hex_char_roundtrip c) as (_ & _ & _ & H1 & H2).
  cbn [to_hex to_lower]. by rewrite H1, H2, IH.
Qed.

Lemma from_hex_lower s : from_hex (to_lower s) = from_hex s.
Proof.
  assert (forall n s, String.length s <= n -> from_hex (to_lower s) = from_hex s) as H; [|by apply (H (String.length s))].
  clear s. intros n. induction n as [|n IH]; intros s Hn; [by destruct s; [|simpl in Hn; lia]|].
  destruct s as [|a [|b s]]; [done..|]. cbn [to_lower from_hex]. rewrite !hex_value_lower.
  destruct (hex_value a), (hex_value b); try done. f_equal. apply IH. simpl in Hn. lia.
Qed.

(** ** Trees *)

Inductive position : Type := left_of | right_of.

Record MerkleProofStep : Type := { mp_position : position; mp_hash : string }.

Record MerkleProof : Type := { mk_leaf : string; mk_leafIndex : Z; mk_proof : list MerkleProofStep; mk_root : string }.

Record MerkleTreeResult : Type := { mt_root : string; mt_leaves : list string; mt_tree : list (list string) }.

Section Merkle.
Context (sha256 : string -> string).

Definition leaf_input (content : string) : string := String (ascii_of_nat 0) content.
Definition node_input (leftHex rightHex : string) : string := String (ascii_of_nat 1) (from_hex leftHex +:+ from_hex rightHex).

Definition hashLeaf (content : string) : string := to_hex (sha256 (leaf_input content)).
Definition hashNode (leftHex rightHex : string) : string := to_hex (sha256 (node_input leftHex rightHex)).

(** One level up; the last node of an odd level is paired with itself. *)
Fixpoint next_level (level : list string) : list string :=
  match level with
  | [] => []
  | [a] => [hashNode a a]
  | a :: b :: rest => hashNode a b :: next_level rest
  end.

(** The levels from a level up.  A level of [n] nodes needs at most [n]
    rounds. *)
Fixpoint levels (fuel : nat) (level : list string) : list (list string) :=
  match fuel, level with
  | S fuel, _ :: _ :: _ => level :: levels fuel (next_level level)
  | _, _ => [level]
  end.

Definition zeros : string := Nat.iter 64 (fun s => String "0"%char s) EmptyString.

Definition buildTree (items : list string) (isPreHashed : bool) : MerkleTreeResult :=
  match items with
  | [] => {| mt_root := zeros; mt_leaves := []; mt_tree := [[zeros]] |}
  | _ =>
      let leaves := map (fun item => if isPreHashed then item else hashLeaf item) items in
      let tree := levels (length leaves) leaves in
      {| mt_root := default ""%string (last tree ≫= head); mt_leaves := leaves; mt_tree := tree |}
  end.

(** The step of a proof at one level. *)
Definition proof_step (level : list string) (i : nat) : MerkleProofStep :=
  if Nat.odd i then {| mp_position := left_of; mp_hash := default ""%string (level !! (i - 1)) |}
  else match level !! S i with
       | Some h => {| mp_position := right_of; mp_hash := h |}
       | None => {| mp_position := right_of; mp_hash := default ""%string (level !! i) |}
       end.

(** The steps at every level but the last. *)
Fixpoint proof_steps (tree : list (list string)) (i : nat) : list MerkleProofStep :=
  match tree with
  | level :: ((_ :: _) as upper) => proof_step level i :: proof_steps upper (Nat.div2 i)
  | _ => []
  end.

Inductive MerkleError : Type := IndexOutOfBounds (index : Z) (leaves : nat).

Definition getProof (items : list string) (index : Z) (isPreHashed : bool) : result MerkleError MerkleProof :=
  let t := buildTree items isPreHashed in
  if (index <? 0)%Z || (Z.of_nat (length (mt_leaves t)) <=? index)%Z
  then Err (IndexOutOfBounds index (length (mt_leaves t)))
  else Ok {| mk_leaf := default ""%string (mt_leaves t !! Z.to_nat index); mk_leafIndex := index;
             mk_proof := proof_steps (mt_tree t) (Z.to_nat index); mk_root := mt_root t |}.

Definition apply_step (computedHash : string) (step : MerkleProofStep) : string :=
  let stepHash := to_lower (mp_hash step) in
  match mp_position step with
  | left_of => hashNode stepHash computedHash
  | right_of => hashNode computedHash stepHash
  end.

Definition verifyProof (leaf : string) (proof : list MerkleProofStep) (targetRoot : string) : bool :=
  if negb (str_truthy leaf) || negb (str_truthy targetRoot) then false
  else bool_decide (fold_left apply_step proof (to_lower leaf) = to_lower targetRoot).

Definition verifyEvidence (content : string) (proof : list MerkleProofStep) (targetRoot : string) : bool :=
  verifyProof (hashLeaf content) proof targetRoot.

(** ** Levels *)

Fixpoint node_inputs (level : list string) : list string :=
  match level with
  | [] => []
  | [a] => [node_input a a]
  | a :: b :: rest => node_input a b :: node_inputs rest
  end.

Lemma pair_ind (P : list string -> Prop) :
  P [] -> (forall a, P [a]) -> (forall a b l, P l -> P (a :: b :: l)) -> forall l, P l.
Proof.
  intros H0 H1 H2 l. enough (forall n l, length l <= n -> P l) as H by (by apply (H (length l))).
  clear l. intros n. induction n as [|n IH]; intros l Hl; [by destruct l; [|simpl in Hl; lia]|].
  destruct l as [|a [|b l]]; [done|done|]. apply H2, IH. simpl in Hl. lia.
Qed.

Lemma next_level_inputs l : next_level l = map (fun s => to_hex (sha256 s)) (node_inputs l).
Proof. induction l as [|a|a b l IH] using pair_ind; [done..|]. simpl. by rewrite IH. Qed.

Lemma next_level_length l : length (next_level l) = Nat.div2 (S (length l)).
Proof. induction l as [|a|a b l IH] using pair_ind; [done..|]. simpl. by rewrite IH. Qed.

(** A node's children. *)
Lemma node_inputs_children l s :
  s ∈ node_inputs l -> exists a b, s = node_input a b /\ a ∈ l /\ b ∈ l.
Proof.
  induction l as [|a|a b l IH] using pair_ind; cbn [node_inputs].
  - by intros ?%elem_of_nil.
  - intros ->%list_elem_of_singleton. exists a, a. split; [done|]. split; by left.
  - intros [->|H]%elem_of_cons; [exists a, b; split; [done|]; split; [by left|right; by left]|].
    destruct (IH H) as (x & y & -> & ? & ?). exists x, y. split; [done|]. split; by right; right.
Qed.

(** The parent of the node at position [i]. *)
Lemma next_level_parent l i a :
  l !! i = Some a -> next_level l !! Nat.div2 i = Some (apply_step (to_lower a) (proof_step l i)).
Proof.
  revert i. induction l as [|x|x y l IH] using pair_ind; intros i.
  - done.
  - destruct i as [|i]; [|done]. intros [= ->]. unfold proof_step, apply_step, hashNode, node_input. simpl.
    by rewrite !from_hex_lower.
  - destruct i as [|[|i]]; intros Hi.
    + injection Hi as ->. unfold proof_step, apply_step, hashNode, node_input. simpl. by rewrite !from_hex_lower.
    + injection Hi as ->. unfold proof_step, apply_step, hashNode, node_input. simpl. by rewrite !from_hex_lower.
    + cbn [next_level Nat.div2]. change ((hashNode x y :: next_level l) !! S (Nat.div2 i)) with (next_level l !! Nat.div2 i).
      rewrite (IH i Hi). f_equal. f_equal. unfold proof_step. cbn [Nat.odd]. unfold Nat.odd. cbn [Nat.even].
      destruct (negb (Nat.even i)) eqn:Eo; [|done]. destruct i; [done|]. do 2 f_equal. simpl. by rewrite Nat.sub_0_r.
Qed.

Lemma node_is_lower l i a : next_level l !! i = Some a -> to_lower a = a.
Proof.
  rewrite next_level_inputs, list_lookup_fmap. intros (s & _ & ->)%fmap_Some. apply lower_to_hex.
Qed.

Lemma next_level_shorter l fuel : 2 <= length l <= S fuel -> 0 < length (next_level l) <= fuel.
Proof.
  rewrite next_level_length, Nat.div2_div. intros. split; [apply Nat.div_str_pos; lia|].
  enough (S (length l) / 2 < length l) by lia. apply Nat.Div0.div_lt_upper_bound; lia.
Qed.

(** Enough rounds lead to one node. *)
Lemma levels_root fuel level : 0 < length level <= fuel -> exists r, last (levels fuel level) = Some [r].
Proof.
  revert level. induction fuel as [|fuel IH]; intros level Hl; [lia|].
  destruct level as [|a [|b level]]; [simpl in Hl; lia|by exists a|]. cbn [levels].
  assert (0 < length (next_level (a :: b :: level)) <= fuel) as Hn by (apply next_level_shorter; cbn [length] in *; lia).
  destruct (IH _ Hn) as (r & Hr). exists r. rewrite last_cons, Hr. done.
Qed.

Lemma levels_nonempty fuel level : exists l t, levels fuel level = l :: t.
Proof. destruct fuel, level as [|a [|b level]]; simpl; eauto. Qed.

(** ** Completeness *)

Lemma proof_steps_cons l1 l2 t i : proof_steps (l1 :: l2 :: t) i = proof_step l1 i :: proof_steps (l2 :: t) (Nat.div2 i).
Proof. done. Qed.

Definition top (tree : list (list string)) : string := default ""%string (last tree ≫= head).

Lemma proof_leads_up fuel level i a :
  0 < length level <= fuel -> level !! i = Some a ->
  fold_left apply_step (proof_steps (levels fuel level) i) (to_lower a) = to_lower (top (levels fuel level)).
Proof.
  revert level i a. induction fuel as [|fuel IH]; intros level i a Hl Hi; [lia|].
  destruct level as [|x [|y level]]; [simpl in Hl; lia| |].
  { destruct i; [|done]. injection Hi as ->. done. }
  cbn [levels]. set (up := next_level (x :: y :: level)) in *.
  destruct (levels_nonempty fuel up) as (l & t & Hup). rewrite Hup, proof_steps_cons. cbn [fold_left]. rewrite <- Hup.
  pose proof (next_level_parent _ _ _ Hi) as Hp. fold up in Hp.
  assert (0 < length up <= fuel) as Hlen by (apply next_level_shorter; cbn [length] in *; lia).
  pose proof (IH up _ _ Hlen Hp) as HI. rewrite (node_is_lower _ _ _ Hp) in HI. rewrite HI. f_equal. unfold top. rewrite last_cons.
  destruct (levels_root fuel up Hlen) as (r & ->). done.
Qed.

(** ** Soundness *)

(** The strings hashed while a tree is built, and while a proof is checked. *)
Fixpoint levels_inputs (fuel : nat) (level : list string) : list string :=
  match fuel, level with
  | S fuel, _ :: _ :: _ => node_inputs level ++ levels_inputs fuel (next_level level)
  | _, _ => []
  end.

Definition tree_inputs (items : list string) : list string :=
  map leaf_input items ++ levels_inputs (length items) (map hashLeaf items).

Definition step_input (computedHash : string) (step : MerkleProofStep) : string :=
  match mp_position step with
  | left_of => node_input (to_lower (mp_hash step)) computedHash
  | right_of => node_input computedHash (to_lower (mp_hash step))
  end.

Fixpoint proof_inputs (computedHash : string) (proof : list MerkleProofStep) : list string :=
  match proof with
  | [] => []
  | step :: proof => step_input computedHash step :: proof_inputs (apply_step computedHash step) proof
  end.

Definition evidence_inputs (content : string) (proof : list MerkleProofStep) : list string :=
  leaf_input content :: proof_inputs (to_lower (hashLeaf content)) proof.

(** No two of the given strings have the same digest. *)
Definition collision_free (inputs : list string) : Prop :=
  forall x y, x ∈ inputs -> y ∈ inputs -> sha256 x = sha256 y -> x = y.

Lemma apply_step_input h step : apply_step h step = to_hex (sha256 (step_input h step)).
Proof. unfold apply_step, step_input. by destruct (mp_position step). Qed.

Lemma proof_input_elem h p1 step p2 :
  step_input (fold_left apply_step p1 h) step ∈ proof_inputs h (p1 ++ step :: p2).
Proof. revert h. induction p1 as [|s p1 IH]; intros h; cbn; [by left|]. right. apply IH. Qed.

Lemma levels_inputs_spec fuel level :
  exists k, last (levels fuel level) = Some (Nat.iter k next_level level) /\
    forall j s, j < k -> s ∈ node_inputs (Nat.iter j next_level level) -> s ∈ levels_inputs fuel level.
Proof.
  revert level. induction fuel as [|fuel IH]; intros level; [exists 0; split; [done|lia]|].
  destruct level as [|a [|b level]]; [exists 0; split; [done|lia]..|]. cbn [levels levels_inputs].
  destruct (IH (next_level (a :: b :: level))) as (k & Hk & Hin). exists (S k). split.
  - rewrite last_cons, Hk. by rewrite Nat.iter_succ_r.
  - intros [|j] s Hj Hs; [apply elem_of_app; by left|]. apply elem_of_app. right. apply (Hin j); [lia|].
    by rewrite <- Nat.iter_succ_r.
Qed.

Section Sound.
Context (Hdigest : forall x, String.length (sha256 x) = 32).
Context (items : list string) (content : string) (proof : list MerkleProofStep).
Context (Hfree : collision_free (tree_inputs items ++ evidence_inputs content proof)).

Definition leaf_hashes : list string := map hashLeaf items.
Definition start : string := to_lower (hashLeaf content).

Lemma start_hash : start = hashLeaf content.
Proof. apply lower_to_hex. Qed.

(** Every value on the way up, and every node, is a digest. *)
Lemma computed_digest p : exists s, fold_left apply_step p start = to_hex (sha256 s).
Proof.
  destruct p as [|st p _] using rev_ind; [rewrite start_hash; by eexists|].
  rewrite fold_left_app. cbn. rewrite apply_step_input. by eexists.
Qed.

Lemma node_digest j a : a ∈ Nat.iter j next_level leaf_hashes -> exists s, a = to_hex (sha256 s).
Proof.
  destruct j as [|j]; cbn.
  - intros (x & -> & _)%list_elem_of_fmap. by eexists.
  - rewrite next_level_inputs. intros (x & -> & _)%list_elem_of_fmap. by eexists.
Qed.

Lemma split_node a b h st :
  (exists s, a = to_hex (sha256 s)) -> (exists s, b = to_hex (sha256 s)) -> (exists s, h = to_hex (sha256 s)) ->
  step_input h st = node_input a b -> h = a \/ h = b.
Proof.
  intros (sa & ->) (sb & ->) (sh & ->). unfold step_input, node_input.
  destruct (mp_position st); rewrite !from_to_hex; intros [= Heq].
  - apply string_app_inj_r in Heq as [_ ->]; [by right|by rewrite !Hdigest].
  - apply string_app_inj in Heq as [-> _]; [by left|by rewrite !Hdigest].
Qed.

Lemma to_hex_inj s t : to_hex s = to_hex t -> s = t.
Proof. intros H. by rewrite <- (from_to_hex s), H, from_to_hex. Qed.

(** A value on the way up that is a node of the tree comes from an item. *)
Lemma walk_down k p1 p2 j :
  (forall j s, j < k -> s ∈ node_inputs (Nat.iter j next_level leaf_hashes) -> s ∈ tree_inputs items) ->
  j <= k -> proof = p1 ++ p2 -> fold_left apply_step p1 start ∈ Nat.iter j next_level leaf_hashes -> content ∈ items.
Proof.
  intros Hin. revert p1 p2. induction j as [|j IH]; intros p1 p2 Hj Hp Hel.
  - cbn in Hel. apply list_elem_of_fmap in Hel as (item & Hh & Hitem).
    assert (leaf_input item ∈ tree_inputs items ++ evidence_inputs content proof) as Hi.
    { apply elem_of_app. left. apply elem_of_app. left. apply list_elem_of_fmap. eauto. }
    destruct p1 as [|st p1 _] using rev_ind.
    + cbn in Hh. rewrite start_hash in Hh. apply to_hex_inj in Hh. apply Hfree in Hh; [by injection Hh as ->| |done].
      apply elem_of_app. right. by left.
    + rewrite fold_left_app in Hh. cbn in Hh. rewrite apply_step_input in Hh. apply to_hex_inj, Hfree in Hh; [|  |done].
      * exfalso. unfold step_input, leaf_input, node_input in Hh. destruct (mp_position st); discriminate Hh.
      * apply elem_of_app. right. right. rewrite Hp, <- app_assoc. apply proof_input_elem.
  - cbn in Hel. rewrite next_level_inputs in Hel. apply list_elem_of_fmap in Hel as (s & Hh & Hs).
    assert (s ∈ tree_inputs items ++ evidence_inputs content proof) as Hi.
    { apply elem_of_app. left. by apply (Hin j). }
    destruct (node_inputs_children _ _ Hs) as (a & b & -> & Ha & Hb).
    destruct p1 as [|st p1 _] using rev_ind.
    + exfalso. cbn in Hh. rewrite start_hash in Hh. apply to_hex_inj, Hfree in Hh; [done| |done].
      apply elem_of_app. right. by left.
    + rewrite fold_left_app in Hh. cbn in Hh. rewrite apply_step_input in Hh. apply to_hex_inj, Hfree in Hh; [| |done].
      * destruct (split_node a b (fold_left apply_step p1 start) st) as [Heq|Heq];
          [by apply (node_digest j)|by apply (node_digest j)|apply computed_digest|done|..];
          (apply (IH p1 (st :: p2)); [lia|by rewrite Hp, <- app_assoc|by rewrite Heq]).
      * apply elem_of_app. right. right. rewrite Hp, <- app_assoc. apply proof_input_elem.
Qed.
End Sound.

Lemma to_hex_length s : String.length (to_hex s) = 2 * String.length s.
Proof. induction s as [|c s IH]; [done|]. cbn [to_hex String.length]. rewrite IH. lia. Qed.

Lemma digest_truthy s : (forall x, String.length (sha256 x) = 32) -> str_truthy (to_hex (sha256 s)) = true.
Proof.
  intros Hd. pose proof (to_hex_length (sha256 s)) as Hl. rewrite Hd in Hl. by destruct (to_hex (sha256 s)).
Qed.

Lemma buildTree_cons items : items <> [] ->
  buildTree items false =
  {| mt_root := top (levels (length items) (map hashLeaf items)); mt_leaves := map hashLeaf items;
     mt_tree := levels (length items) (map hashLeaf items) |}.
Proof. destruct items as [|x l]; [done|]. intros _. cbn [buildTree]. by rewrite length_map. Qed.

(** The root is a node of the highest level. *)
Lemma root_of_tree items : items <> [] ->
  exists k, mt_root (buildTree items false) ∈ Nat.iter k next_level (leaf_hashes items) /\
    forall j s, j < k -> s ∈ node_inputs (Nat.iter j next_level (leaf_hashes items)) -> s ∈ tree_inputs items.
Proof.
  intros Hne. rewrite buildTree_cons by done. cbn [mt_root]. unfold leaf_hashes, tree_inputs.
  destruct (levels_inputs_spec (length items) (map hashLeaf items)) as (k & Hk & Hin).
  destruct (levels_root (length items) (map hashLeaf items)) as (r & Hr).
  { rewrite length_map. destruct items; [done|]. cbn. lia. }
  exists k. unfold top. rewrite Hk in Hr. injection Hr as Hr. rewrite Hk. cbn. rewrite Hr. split; [by left|].
  intros j s Hj Hs. apply elem_of_app. right. by apply (Hin j).
Qed.

Lemma merkle_proof_accepted items i content :
  (forall x, String.length (sha256 x) = 32) -> items !! i = Some content ->
  exists p, getProof items (Z.of_nat i) false = Ok p /\ mk_leaf p = hashLeaf content /\
    mk_root p = mt_root (buildTree items false) /\ verifyEvidence content (mk_proof p) (mk_root p) = true.
Proof.
  intros Hd Hi. assert (items <> []) as Hne by (by intros ->). pose proof (lookup_lt_Some _ _ _ Hi) as Hlt.
  unfold getProof. rewrite buildTree_cons by done. cbn [mt_leaves mt_tree mt_root]. rewrite length_map, Nat2Z.id.
  replace ((Z.of_nat i <? 0)%Z || (Z.of_nat (length items) <=? Z.of_nat i)%Z) with false by (symmetry; lia).
  assert (map hashLeaf items !! i = Some (hashLeaf content)) as Hl by (by rewrite list_lookup_fmap, Hi).
  eexists. split; [done|]. cbn [mk_leaf mk_root mk_proof]. rewrite Hl. split; [done|]. split; [done|].
  unfold verifyEvidence, verifyProof. unfold hashLeaf at 1. rewrite digest_truthy by done.
  destruct (root_of_tree items Hne) as (k & Hr & _). apply node_digest in Hr as (s & Hr).
  rewrite buildTree_cons in Hr by done. cbn [mt_root] in Hr.
  rewrite Hr at 1. rewrite digest_truthy by done. cbn [negb orb]. apply bool_decide_eq_true.
  apply proof_leads_up; [rewrite length_map; lia|done].
Qed.

(** (C29) No proof can be forged without a collision: if among the strings hashed
    while the tree was built and while the proof is checked no two different ones
    have the same digest, then evidence that is accepted against the root is an
    item of the batch, whatever steps the proof consists of. *)
Theorem merkle_proof_sound items content proof :
  (forall x, String.length (sha256 x) = 32) -> items <> [] ->
  collision_free (tree_inputs items ++ evidence_inputs content proof) ->
  verifyEvidence content proof (mt_root (buildTree items false)) = true -> content ∈ items.
Proof.
  intros Hd Hne Hfree. unfold verifyEvidence, verifyProof. destruct (_ || _); [done|]. intros Hv%bool_decide_eq_true.
  destruct (root_of_tree items Hne) as (k & Hr & Hin).
  destruct (node_digest items k _ Hr) as (s & Hs). rewrite Hs, lower_to_hex, <- Hs in Hv.
  apply (walk_down Hd items content proof Hfree k proof [] k Hin); [lia|by rewrite app_nil_r|].
  unfold start. by rewrite Hv.
Qed.

(** The root does not fix the batch: an odd batch and the batch that repeats its
    last item have the same root. *)
Lemma repeated_last_item_same_root a b c :
  mt_root (buildTree [a; b; c] false) = mt_root (buildTree [a; b; c; c] false).
Proof. done. Qed.

(** ** Evidence batches *)

Record InputEvidenceItem : Type := { ie_id : string; ie_content : string; ie_disputeId : option string }.

Record BatchItem : Type := {
  bi_id : string;
  bi_disputeId : option string;
  bi_content : string;
  bi_leafHash : string;
  bi_leafIndex : Z;
  bi_proof : list MerkleProofStep
}.

Record EvidenceBatch : Type := { eb_merkleRoot : string; eb_items : list BatchItem }.

Record AnchoredEvidenceItem : Type := { ae_item : BatchItem; ae_merkleRoot : string; ae_txId : string; ae_anchoredAt : Z }.

Inductive AnchorError : Type := EmptyBatch | ProofError (e : MerkleError) | AnchorFailed (message : string).

Definition batch_item (contents : list string) (index : nat) (item : InputEvidenceItem) : result MerkleError BatchItem :=
  p ← getProof contents (Z.of_nat index) false;
  mret {| bi_id := ie_id item; bi_disputeId := ie_disputeId item; bi_content := ie_content item;
          bi_leafHash := mk_leaf p; bi_leafIndex := Z.of_nat index; bi_proof := mk_proof p |}.

Fixpoint batch_items (contents : list string) (index : nat) (items : list InputEvidenceItem) : result MerkleError (list BatchItem) :=
  match items with
  | [] => mret []
  | item :: items => x ← batch_item contents index item; xs ← batch_items contents (S index) items; mret (x :: xs)
  end.

Definition createBatch (evidenceItems : list InputEvidenceItem) : result AnchorError EvidenceBatch :=
  match evidenceItems with
  | [] => Err EmptyBatch
  | _ =>
      let contents := map ie_content evidenceItems in
      match batch_items contents 0 evidenceItems with
      | Err e => Err (ProofError e)
      | Ok items => Ok {| eb_merkleRoot := mt_root (buildTree contents false); eb_items := items |}
      end
  end.

(** [submit] is what Horizon answered to the memo transaction. *)
Definition anchorBatch (evidenceItems : list InputEvidenceItem) (submit : string -> result string string) (now : Z) :
    result AnchorError (list AnchoredEvidenceItem) :=
  batch ← createBatch evidenceItems;
  match submit (eb_merkleRoot batch) with
  | Err m => Err (AnchorFailed m)
  | Ok hash => Ok (map (fun x => {| ae_item := x; ae_merkleRoot := eb_merkleRoot batch; ae_txId := hash; ae_anchoredAt := now |})
                       (eb_items batch))
  end.

Inductive ChainVerdict : Type := Unretrievable | TransactionNotFound | NoMemo | ProofMismatch | ValidEvidence (merkleRoot : string).

(** [memo] is what Horizon answered: a failure, no transaction, or the memo. *)
Definition verifyEvidenceOnChain (content : string) (proof : list MerkleProofStep)
    (memo : result string (option (option string))) : ChainVerdict :=
  match memo with
  | Err _ => Unretrievable
  | Ok None => TransactionNotFound
  | Ok (Some m) =>
      let chainMemo := to_lower (default ""%string m) in
      if negb (str_truthy chainMemo) then NoMemo
      else if negb (verifyEvidence content proof chainMemo) then ProofMismatch
      else ValidEvidence chainMemo
  end.

(** A batch item stands for its evidence, with a proof that is accepted. *)
Definition item_proved (root : string) (e : InputEvidenceItem) (x : BatchItem) : Prop :=
  bi_id x = ie_id e /\ bi_disputeId x = ie_disputeId e /\ bi_content x = ie_content e /\
  bi_leafHash x = hashLeaf (ie_content e) /\ verifyEvidence (bi_content x) (bi_proof x) root = true.

Lemma batch_items_proved contents k items :
  (forall x, String.length (sha256 x) = 32) -> drop k contents = map ie_content items ->
  exists xs, batch_items contents k items = Ok xs /\ Forall2 (item_proved (mt_root (buildTree contents false))) items xs.
Proof.
  intros Hd. revert k. induction items as [|e items IH]; intros k Hk; [by exists []|]. cbn [batch_items].
  assert (contents !! k = Some (ie_content e)) as He.
  { rewrite <- (Nat.add_0_r k), <- lookup_drop, Hk. done. }
  destruct (merkle_proof_accepted contents k (ie_content e) Hd He) as (p & Hp & Hl & Hr & Hv).
  destruct (IH (S k)) as (xs & Hxs & Hf).
  { rewrite (drop_S _ _ _ He) in Hk. by injection Hk. }
  unfold batch_item. rewrite Hp. cbn. rewrite Hxs. eexists. split; [done|]. constructor; [|done].
  unfold item_proved. cbn. rewrite <- Hr. done.
Qed.

Lemma createBatch_proved evidence :
  (forall x, String.length (sha256 x) = 32) -> evidence <> [] ->
  exists xs, createBatch evidence = Ok {| eb_merkleRoot := mt_root (buildTree (map ie_content evidence) false); eb_items := xs |} /\
    Forall2 (item_proved (mt_root (buildTree (map ie_content evidence) false))) evidence xs.
Proof.
  intros Hd Hne. destruct (batch_items_proved (map ie_content evidence) 0 evidence Hd eq_refl) as (xs & Hxs & Hf).
  exists xs. split; [|done]. unfold createBatch. rewrite Hxs. by destruct evidence.
Qed.

(** Anchored evidence can be proved on chain: anchoring a non-empty batch
    whose memo transaction Horizon accepts returns one item per piece of evidence,
    in order, and every one of them is found valid by the on-chain check with its
    own content and proof when Horizon returns the anchored root as the memo, in
    whatever case its letters are. *)
Theorem anchored_evidence_verifies evidence submit now hash memo :
  (forall x, String.length (sha256 x) = 32) -> evidence <> [] ->
  submit (mt_root (buildTree (map ie_content evidence) false)) = Ok hash ->
  to_lower memo = mt_root (buildTree (map ie_content evidence) false) ->
  exists anchored, anchorBatch evidence submit now = Ok anchored /\
    Forall2 (fun e a => bi_id (ae_item a) = ie_id e /\ bi_content (ae_item a) = ie_content e /\ ae_txId a = hash /\
               verifyEvidenceOnChain (ie_content e) (bi_proof (ae_item a)) (Ok (Some (Some memo))) =
                 ValidEvidence (ae_merkleRoot a)) evidence anchored.
Proof.
  intros Hd Hne Hs Hm. destruct (createBatch_proved evidence Hd Hne) as (xs & Hxs & Hf).
  unfold anchorBatch. rewrite Hxs. cbn [mbind result_bind eb_merkleRoot eb_items]. rewrite Hs. eexists. split; [done|]. apply Forall2_fmap_r. eapply Forall2_impl; [exact Hf|].
  intros e x (Hid & _ & Hc & _ & Hv). cbn. split; [done|]. split; [done|]. split; [done|]. rewrite Hm.
  destruct (root_of_tree (map ie_content evidence)) as (k & Hr & _); [by destruct evidence|]. apply node_digest in Hr as (s & Hr).
  rewrite Hc in Hv. rewrite Hv. rewrite Hr. by rewrite digest_truthy.
Qed.

End Merkle.

(** ** A concrete batch *)

(** The text itself, cut or filled to the length of a digest, for concrete
    inputs. *)
Fixpoint fit (n : nat) (s : string) : string :=
  match n, s with
  | O, _ => EmptyString
  | S n, EmptyString => String "."%char (fit n EmptyString)
  | S n, String c s => String c (fit n s)
  end.

Definition fit32 (s : string) : string := fit 32 s.

Lemma fit_length n s : String.length (fit n s) = n.
Proof. revert s. induction n as [|n IH]; intros [|c s]; simpl; by rewrite ?IH. Qed.

Definition sample_evidence : list InputEvidenceItem :=
  [{| ie_id := "e1"; ie_content := "photo"; ie_disputeId := None |};
   {| ie_id := "e2"; ie_content := "chat log"; ie_disputeId := Some "d1"%string |};
   {| ie_id := "e3"; ie_content := "receipt"; ie_disputeId := None |}].

Lemma anchored_evidence_verifies_witness :
  exists anchored, anchorBatch fit32 sample_evidence (fun _ => Ok "tx"%string) 0 = Ok anchored /\ length anchored = 3.
Proof.
  destruct (anchored_evidence_verifies fit32 sample_evidence (fun _ => Ok "tx"%string) 0 "tx"
              (mt_root (buildTree fit32 (map ie_content sample_evidence) false))) as (anchored & Ha & Hf);
    [intros x; apply fit_length|discriminate|reflexivity|vm_compute; reflexivity|].
  exists anchored. split; [exact Ha|]. rewrite <- (Forall2_length _ _ _ Hf). reflexivity.
Defined.

Definition collide_free_dec (inputs : list string) : bool :=
  forallb (fun x => forallb (fun y => implb (bool_decide (fit32 x = fit32 y)) (bool_decide (x = y))) inputs) inputs.

Lemma collide_free_dec_ok inputs : collide_free_dec inputs = true -> collision_free fit32 inputs.
Proof.
  unfold collide_free_dec, collision_free. rewrite forallb_forall. intros H x y Hx%list_elem_of_In Hy%list_elem_of_In Heq.
  specialize (H x Hx). rewrite forallb_forall in H. specialize (H y Hy). rewrite implb_true_iff in H.
  by rewrite !bool_decide_eq_true in H; apply H.
Qed.

Lemma merkle_proof_sound_witness :
  "chat log"%string ∈ ["photo"; "chat log"; "receipt"]%string.
Proof.
  apply (merkle_proof_sound fit32 ["photo"; "chat log"; "receipt"]%string "chat log"
           (proof_steps (mt_tree (buildTree fit32 ["photo"; "chat log"; "receipt"]%string false)) 1));
    [intros x; apply fit_length|discriminate|apply collide_free_dec_ok; vm_compute; reflexivity|vm_compute; reflexivity].
Defined.
