(* ===== verification/PartnerQuota.v ===== *)
(** * PartnerQuota: daily and monthly request quotas

    [services/partnerQuotaService.ts]: the reset times in a partner's time zone,
    the quota check over an interface of stores, and the in-memory and the SQL
    store.  What [Intl] says of a time zone (the local date and the name of the
    offset at an instant) is a parameter.  Times are epoch milliseconds; the SQL
    store also reads the clock of the database. *)
From stdpp Require Import base list strings gmap.
From Stdlib Require Import ZArith Lia Ascii.
From S2P Require Import Prelude JsNumber Async.
Local Open Scope Z_scope.

Record QuotaRow : Type := {
  qr_token_id : string;
  qr_daily_limit : Z;
  qr_monthly_limit : Z;
  qr_daily_used : Z;
  qr_monthly_used : Z;
  qr_daily_reset_at : Z;
  qr_monthly_reset_at : Z;
  qr_timezone : string;
  qr_notified : bool;
  qr_updated_at : Z;
  qr_created_at : Z
}.

Record QuotaStatus : Type := {
  qs_tokenId : string;
  qs_dailyUsed : Z;
  qs_dailyLimit : Z;
  qs_monthlyUsed : Z;
  qs_monthlyLimit : Z;
  qs_dailyResetAt : Z;
  qs_monthlyResetAt : Z;
  qs_timezone : string;
  qs_dailyPercentUsed : num;
  qs_monthlyPercentUsed : num
}.

Inductive Exceeded : Type := ex_daily | ex_monthly | ex_both.

Record ConsumeResult : Type := { cr_allowed : bool; cr_status : QuotaStatus; cr_exceeded : option Exceeded }.

(** ** Reset times *)

(** The number of the day [y-m-d] counted from 1970-01-01, with days beyond the
    end of the month running on. *)
Definition day_number (y m d : Z) : Z :=
  let y' := if m <=? 2 then y - 1 else y in
  let m' := (m + 9) mod 12 in
  365 * y' + y' / 4 - y' / 100 + y' / 400 + (153 * m' + 2) / 5 + d - 1 - 719468.

(** [Date.UTC(y, m - 1, d, h)]. *)
Definition date_utc (y m d h : Z) : Z := (day_number y m d * 24 + h) * 3600000.

Definition digit (c : ascii) : option Z :=
  let n := Z.of_nat (nat_of_ascii c) in if (48 <=? n) && (n <=? 57) then Some (n - 48) else None.

(** The digits at the start of a string, with what follows them. *)
Fixpoint digits (acc : Z) (s : string) : Z * string :=
  match s with
  | String c s' => match digit c with Some d => digits (10 * acc + d) s' | None => (acc, s) end
  | EmptyString => (acc, EmptyString)
  end.

Definition number_at (s : string) : option (Z * string) :=
  match s with
  | String c _ => match digit c with Some _ => Some (digits 0 s) | None => None end
  | EmptyString => None
  end.

(** [(?:UTC|GMT)([+-])(\d+)(?::(\d+))?] at the start of a string. *)
Definition offset_here (s : string) : option Z :=
  match s with
  | String a (String b (String c (String sign s'))) =>
      let zone := String a (String b (String c EmptyString)) in
      if (bool_decide (zone = "UTC"%string) || bool_decide (zone = "GMT"%string)) &&
         (bool_decide (sign = "+"%char) || bool_decide (sign = "-"%char)) then
        match number_at s' with
        | None => None
        | Some (hours, rest) =>
            let minutes := match rest with
                           | String ":" rest' => match number_at rest' with Some (n, _) => n | None => 0 end
                           | _ => 0
                           end in
            Some ((if bool_decide (sign = "+"%char) then 1 else -1) * (hours * 60 + minutes))
        end
      else None
  | _ => None
  end.

Fixpoint offset_anywhere (s : string) : option Z :=
  match offset_here s with
  | Some n => Some n
  | None => match s with String _ s' => offset_anywhere s' | EmptyString => None end
  end.

Definition abbrMap : list (string * Z) :=
  [("EST", -300); ("EDT", -240); ("CST", -360); ("CDT", -300); ("MST", -420); ("MDT", -360); ("PST", -480); ("PDT", -420);
   ("AKST", -540); ("AKDT", -480); ("HST", -600); ("HAST", -600); ("GMT", 0); ("BST", 60); ("CET", 60); ("CEST", 120);
   ("EET", 120); ("EEST", 180); ("WET", 0); ("WEST", 60); ("IST", 60); ("JST", 540); ("KST", 540); ("CST_CN", 480);
   ("HKT", 480); ("SGT", 480); ("AEST", 600); ("AEDT", 660); ("ACST", 570); ("ACDT", 630); ("AWST", 480); ("NZST", 720);
   ("NZDT", 780); ("IST_IN", 330)]%string.

Definition parseOffset (tzName : string) : Z :=
  if bool_decide (tzName = "UTC"%string) || bool_decide (tzName = "GMT"%string) || bool_decide (tzName = "Z"%string) then 0
  else match offset_anywhere tzName with
       | Some n => n
       | None => default 0 (snd <$> find_first (fun p => bool_decide (fst p = tzName)) abbrMap)
       end.

Section Quota.
Context (localDate : string -> Z -> Z * Z * Z) (offsetName : string -> Z -> string).

Definition midnightInTz (timezone : string) (year month day : Z) : Z :=
  let noonUtc := date_utc year month day 12 in
  date_utc year month day 0 - parseOffset (offsetName timezone noonUtc) * 60000.

Definition nextDailyReset (timezone : string) (now : Z) : Z :=
  let '(year, month, day) := localDate timezone now in midnightInTz timezone year month (day + 1).

Definition nextMonthlyReset (timezone : string) (now : Z) : Z :=
  let '(year, month, _) := localDate timezone now in
  let nextMonth := if month =? 12 then 1 else month + 1 in
  let nextYear := if month =? 12 then year + 1 else year in
  midnightInTz timezone nextYear nextMonth 1.

(** ** Stores *)

(** What the service asks of a store: one row per token, and an update that
    counts a request.  [db] is the clock of the database. *)
Class QuotaStore (S : Type) : Type := {
  getOrCreate : string -> Z -> Z -> S -> QuotaRow * S;
  consume : string -> Z -> Z -> bool -> Z -> Z -> S -> S;
  markNotified : string -> S -> S
}.

Definition new_row (token : string) (now stamp : Z) : QuotaRow :=
  {| qr_token_id := token; qr_daily_limit := 10000; qr_monthly_limit := 300000; qr_daily_used := 0; qr_monthly_used := 0;
     qr_daily_reset_at := nextDailyReset "UTC" now; qr_monthly_reset_at := nextMonthlyReset "UTC" now;
     qr_timezone := "UTC"; qr_notified := false; qr_updated_at := stamp; qr_created_at := stamp |}.

Definition counted (r : QuotaRow) (daily monthly dailyReset monthlyReset : Z) (notified : bool) (stamp : Z) : QuotaRow :=
  {| qr_token_id := qr_token_id r; qr_daily_limit := qr_daily_limit r; qr_monthly_limit := qr_monthly_limit r;
     qr_daily_used := daily; qr_monthly_used := monthly; qr_daily_reset_at := dailyReset;
     qr_monthly_reset_at := monthlyReset; qr_timezone := qr_timezone r; qr_notified := notified;
     qr_updated_at := stamp; qr_created_at := qr_created_at r |}.

Definition notified (r : QuotaRow) : QuotaRow :=
  counted r (qr_daily_used r) (qr_monthly_used r) (qr_daily_reset_at r) (qr_monthly_reset_at r) true (qr_updated_at r).

Record InMemoryQuotas : Type := { im_rows : gmap string QuotaRow }.

#[export] Instance InMemoryQuotaStore : QuotaStore InMemoryQuotas := {|
  getOrCreate token now _ s :=
    match im_rows s !! token with
    | Some row => (row, s)
    | None => (new_row token now now, {| im_rows := <[token := new_row token now now]> (im_rows s) |})
    end;
  consume token dailyReset monthlyReset notified now _ s :=
    match im_rows s !! token with
    | None => s
    | Some row =>
        let d := qr_daily_reset_at row <=? now in
        let m := qr_monthly_reset_at row <=? now in
        {| im_rows := <[token := counted row
             (if d then 1 else qr_daily_used row + 1) (if m then 1 else qr_monthly_used row + 1)
             (if d then dailyReset else qr_daily_reset_at row) (if m then monthlyReset else qr_monthly_reset_at row)
             notified now]> (im_rows s) |}
    end;
  markNotified token s := {| im_rows := alter notified token (im_rows s) |}
|}.

Record SqlQuotas : Type := { sq_rows : gmap string QuotaRow }.

Definition touched (stamp : Z) (r : QuotaRow) : QuotaRow :=
  counted r (qr_daily_used r) (qr_monthly_used r) (qr_daily_reset_at r) (qr_monthly_reset_at r) (qr_notified r) stamp.

#[export] Instance SqlQuotaStore : QuotaStore SqlQuotas := {|
  getOrCreate token now db s :=
    let row := match sq_rows s !! token with Some row => touched db row | None => new_row token now db end in
    (row, {| sq_rows := <[token := row]> (sq_rows s) |});
  consume token dailyReset monthlyReset notified _ db s :=
    match sq_rows s !! token with
    | None => s
    | Some row =>
        {| sq_rows := <[token := counted row
             (if qr_updated_at row <? dailyReset then 1 else qr_daily_used row + 1)
             (if qr_updated_at row <? monthlyReset then 1 else qr_monthly_used row + 1)
             dailyReset monthlyReset notified db]> (sq_rows s) |}
    end;
  markNotified token s := {| sq_rows := alter notified token (sq_rows s) |}
|}.

(** ** The service *)

Definition percent (used limit : Z) : num :=
  let p := if 0 <? limit then mul (div (of_Z used) (of_Z limit)) (of_Z 100) else zero in
  div (math_round (mul p (of_Z 100))) (of_Z 100).

Definition toQuotaStatus (r : QuotaRow) : QuotaStatus :=
  {| qs_tokenId := qr_token_id r; qs_dailyUsed := qr_daily_used r; qs_dailyLimit := qr_daily_limit r;
     qs_monthlyUsed := qr_monthly_used r; qs_monthlyLimit := qr_monthly_limit r;
     qs_dailyResetAt := qr_daily_reset_at r; qs_monthlyResetAt := qr_monthly_reset_at r; qs_timezone := qr_timezone r;
     qs_dailyPercentUsed := percent (qr_daily_used r) (qr_daily_limit r);
     qs_monthlyPercentUsed := percent (qr_monthly_used r) (qr_monthly_limit r) |}.

(** The row as it counts at [now]: a counter whose window is over is zero. *)
Definition effective (now : Z) (r : QuotaRow) : QuotaRow :=
  let d := qr_daily_reset_at r <=? now in
  let m := qr_monthly_reset_at r <=? now in
  counted r (if d then 0 else qr_daily_used r) (if m then 0 else qr_monthly_used r)
    (if d then nextDailyReset (qr_timezone r) now else qr_daily_reset_at r)
    (if m then nextMonthlyReset (qr_timezone r) now else qr_monthly_reset_at r) (qr_notified r) (qr_updated_at r).

Definition APPROACHING_THRESHOLD : num := lit 8 10.

Definition approaching (r : QuotaRow) : bool :=
  geb (div (of_Z (qr_daily_used r + 1)) (of_Z (qr_daily_limit r))) APPROACHING_THRESHOLD ||
  geb (div (of_Z (qr_monthly_used r + 1)) (of_Z (qr_monthly_limit r))) APPROACHING_THRESHOLD.

Inductive QuotaEv : Type -> Type :=
| GetOrCreateEv (token : string) (now : Z) : QuotaEv QuotaRow
| ConsumeEv (token : string) (dailyReset monthlyReset : Z) (notified : bool) (now : Z) : QuotaEv unit.

Definition checkAndConsume (token : string) (now : Z) : Prog QuotaEv Empty_set ConsumeResult :=
  row ← perform (GetOrCreateEv token now);
  let eff := effective now row in
  let dailyExceeded := qr_daily_limit row <=? qr_daily_used eff in
  let monthlyExceeded := qr_monthly_limit row <=? qr_monthly_used eff in
  if dailyExceeded || monthlyExceeded then
    mret {| cr_allowed := false; cr_status := toQuotaStatus eff;
            cr_exceeded := Some (if dailyExceeded && monthlyExceeded then ex_both
                                 else if dailyExceeded then ex_daily else ex_monthly) |}
  else
    let shouldNotify := approaching eff && negb (qr_notified row) in
    _ ← perform (ConsumeEv token (qr_daily_reset_at eff) (qr_monthly_reset_at eff) (qr_notified row || shouldNotify) now);
    updatedRow ← perform (GetOrCreateEv token now);
    mret {| cr_allowed := true; cr_status := toQuotaStatus updatedRow; cr_exceeded := None |}.

Definition getQuotaStatus (token : string) (now : Z) : Prog QuotaEv Empty_set QuotaStatus :=
  row ← perform (GetOrCreateEv token now);
  mret (toQuotaStatus (effective now row)).

Definition do_quota {S} `{!QuotaStore S} (db : Z) X (ev : QuotaEv X) (s : S) : X * S :=
  match ev in QuotaEv X return X * S with
  | GetOrCreateEv token now => getOrCreate token now db s
  | ConsumeEv token d m n now => (tt, consume token d m n now db s)
  end.

(** The requests of one token, each with the clock of the service and that of
    the database, served one after the other. *)
Fixpoint serve {S} `{!QuotaStore S} (token : string) (times : list (Z * Z)) (s : S) : list bool * S :=
  match times with
  | [] => ([], s)
  | (now, db) :: times =>
      let '(r, s') := run (do_quota db) (checkAndConsume token now) s in
      let '(bs, s'') := serve token times s' in
      (match r with Ok c => cr_allowed c | Err _ => false end :: bs, s'')
  end.

(** ** What is enforced *)

(** One request on the in-memory store, on both branches. *)
Lemma check_refused token now db s r :
  im_rows s !! token = Some r ->
  (qr_daily_limit r <=? qr_daily_used (effective now r)) || (qr_monthly_limit r <=? qr_monthly_used (effective now r)) = true ->
  exists c, run (do_quota db) (checkAndConsume token now) s = (Ok c, s) /\ cr_allowed c = false.
Proof.
  intros Hr He. unfold checkAndConsume. rewrite run_bind, run_perform. cbn [do_quota getOrCreate InMemoryQuotaStore]. rewrite Hr.
  cbn [fst snd]. rewrite He. eexists. split; [done|done].
Qed.

Lemma check_allowed token now db s r :
  im_rows s !! token = Some r ->
  qr_daily_used (effective now r) < qr_daily_limit r -> qr_monthly_used (effective now r) < qr_monthly_limit r ->
  exists c n, run (do_quota db) (checkAndConsume token now) s =
    (Ok c, {| im_rows := <[token := counted r (qr_daily_used (effective now r) + 1) (qr_monthly_used (effective now r) + 1)
                                      (qr_daily_reset_at (effective now r)) (qr_monthly_reset_at (effective now r)) n now]>
                           (im_rows s) |}) /\ cr_allowed c = true.
Proof.
  intros Hr Hd Hm. unfold checkAndConsume. rewrite run_bind, run_perform. cbn [do_quota getOrCreate InMemoryQuotaStore]. rewrite Hr.
  cbn [fst snd]. rewrite (proj2 (Z.leb_gt _ _) Hd), (proj2 (Z.leb_gt _ _) Hm). cbn [orb].
  rewrite run_bind, run_perform. cbn [do_quota consume InMemoryQuotaStore fst snd]. rewrite Hr.
  rewrite run_bind, run_perform. cbn [do_quota getOrCreate InMemoryQuotaStore im_rows]. rewrite lookup_insert_eq. cbn [fst snd].
  eexists _, (qr_notified r || approaching (effective now r) && negb (qr_notified r)). rewrite run_mret. split; [apply f_equal2; [reflexivity|]|done]. do 2 f_equal. unfold effective.
  destruct (qr_daily_reset_at r <=? now), (qr_monthly_reset_at r <=? now); reflexivity.
Qed.

(** The quota is exact within a window: as long as neither window is over,
    consecutive requests of a token are allowed until the daily or the monthly
    limit is reached, whichever comes first, and refused from then on; exactly
    the allowed ones are counted in both windows. *)
Theorem quota_window_exact token times s r :
  im_rows s !! token = Some r ->
  0 <= qr_daily_used r <= qr_daily_limit r -> 0 <= qr_monthly_used r <= qr_monthly_limit r ->
  Forall (fun t => fst t < qr_daily_reset_at r /\ fst t < qr_monthly_reset_at r) times ->
  let n := Nat.min (Z.to_nat (Z.min (qr_daily_limit r - qr_daily_used r) (qr_monthly_limit r - qr_monthly_used r)))
                   (length times) in
  fst (serve token times s) = replicate n true ++ replicate (length times - n) false /\
  exists r', im_rows (snd (serve token times s)) !! token = Some r' /\
    qr_daily_used r' = qr_daily_used r + Z.of_nat n /\ qr_monthly_used r' = qr_monthly_used r + Z.of_nat n.
Proof.
  cbv zeta. revert s r. induction times as [|[now db] times IH]; intros s r Hr Hd Hm Ht.
  { rewrite Nat.min_0_r. cbn. split; [done|]. exists r. split; [done|lia]. }
  apply Forall_cons in Ht as [[Ht1 Ht2] Ht]. cbn [fst] in *. cbn [serve].
  assert (effective now r = counted r (qr_daily_used r) (qr_monthly_used r) (qr_daily_reset_at r) (qr_monthly_reset_at r)
            (qr_notified r) (qr_updated_at r)) as He.
  { unfold effective. by rewrite (proj2 (Z.leb_gt _ _) Ht1), (proj2 (Z.leb_gt _ _) Ht2). }
  destruct (Z.lt_ge_cases (qr_daily_used r) (qr_daily_limit r)) as [Hdl|Hdl];
    [destruct (Z.lt_ge_cases (qr_monthly_used r) (qr_monthly_limit r)) as [Hml|Hml]|].
  - destruct (check_allowed token now db s r Hr) as (c & n & Hrun & Hc); [by rewrite He..|]. rewrite Hrun, Hc. rewrite He. cbn.
    set (r1 := counted r _ _ _ _ _ _). set (s1 := {| im_rows := _ |}).
    destruct (IH s1 r1) as (IHb & r' & Hr' & IHd & IHm);
      [apply lookup_insert_eq|unfold r1; cbn; lia|unfold r1; cbn; lia|done|].
    unfold r1 in IHb, IHd, IHm. cbn in IHb, IHd, IHm. destruct (serve token times s1) as [bs s2]. cbn in *.
    replace (Z.to_nat (Z.min (qr_daily_limit r - qr_daily_used r) (qr_monthly_limit r - qr_monthly_used r)))
      with (S (Z.to_nat (Z.min (qr_daily_limit r - (qr_daily_used r + 1)) (qr_monthly_limit r - (qr_monthly_used r + 1))))) by lia.
    cbn [Nat.min replicate Nat.sub app]. rewrite IHb. split; [done|]. exists r'. split; [done|]. lia.
  - destruct (check_refused token now db s r Hr) as (c & Hrun & Hc).
    { rewrite He. cbn. rewrite (proj2 (Z.leb_le _ _) Hml). by rewrite orb_true_r. }
    rewrite Hrun, Hc. destruct (IH s r Hr Hd Hm Ht) as (IHb & Hr').
    replace (Z.to_nat (Z.min _ _)) with 0%nat in * by lia. cbn in *. rewrite Nat.sub_0_r in IHb.
    destruct (serve token times s) as [bs s2]. cbn in *. by rewrite IHb.
  - destruct (check_refused token now db s r Hr) as (c & Hrun & Hc).
    { rewrite He. cbn. by rewrite (proj2 (Z.leb_le _ _) Hdl). }
    rewrite Hrun, Hc. destruct (IH s r Hr Hd Hm Ht) as (IHb & Hr').
    replace (Z.to_nat (Z.min _ _)) with 0%nat in * by lia. cbn in *. rewrite Nat.sub_0_r in IHb.
    destruct (serve token times s) as [bs s2]. cbn in *. by rewrite IHb.
Qed.

(** The first request after the end of the day starts a new window. *)
Lemma daily_reset_restarts token now db s r :
  im_rows s !! token = Some r -> qr_daily_reset_at r <= now < qr_monthly_reset_at r ->
  0 < qr_daily_limit r -> qr_monthly_used r < qr_monthly_limit r ->
  exists c r', run (do_quota db) (checkAndConsume token now) s = (Ok c, {| im_rows := <[token := r']> (im_rows s) |}) /\
    cr_allowed c = true /\ qr_daily_used r' = 1 /\ qr_monthly_used r' = qr_monthly_used r + 1 /\
    qr_daily_reset_at r' = nextDailyReset (qr_timezone r) now.
Proof.
  intros Hr [Hd Hm] Hdl Hml.
  assert (effective now r = counted r 0 (qr_monthly_used r) (nextDailyReset (qr_timezone r) now) (qr_monthly_reset_at r)
            (qr_notified r) (qr_updated_at r)) as He.
  { unfold effective. by rewrite (proj2 (Z.leb_le _ _) Hd), (proj2 (Z.leb_gt _ _) Hm). }
  destruct (check_allowed token now db s r Hr) as (c & n & Hrun & Hc); [by rewrite He..|]. rewrite Hrun, He. eauto 10.
Qed.

(** The flag that silences the alarm is never cleared. *)
Lemma notified_for_ever token now db s r :
  im_rows s !! token = Some r -> qr_notified r = true ->
  exists r', im_rows (snd (run (do_quota db) (checkAndConsume token now) s)) !! token = Some r' /\ qr_notified r' = true.
Proof.
  intros Hr Hn. unfold checkAndConsume. rewrite run_bind, run_perform. cbn [do_quota getOrCreate InMemoryQuotaStore]. rewrite Hr.
  cbn [fst snd]. destruct (_ || _); [by exists r|].
  rewrite run_bind, run_perform. cbn [do_quota consume InMemoryQuotaStore fst snd]. rewrite Hr.
  rewrite run_bind, run_perform. cbn [do_quota getOrCreate InMemoryQuotaStore im_rows]. rewrite lookup_insert_eq. cbn [fst snd run mret Prog_ret im_rows].
  rewrite lookup_insert_eq. eexists. split; [done|]. cbn. by rewrite Hn.
Qed.

(** *** The SQL store *)

(** The clock of the database is not ahead of the service, and the resets
    computed at an instant lie after it. *)
Definition resets_ahead (tz : string) (t : Z * Z) : Prop :=
  snd t <= fst t < nextDailyReset tz (fst t) /\ fst t < nextMonthlyReset tz (fst t).

Definition hardly_used (r : QuotaRow) : Prop :=
  qr_timezone r = "UTC"%string /\ 1 < qr_daily_limit r /\ 1 < qr_monthly_limit r /\
  0 <= qr_daily_used r <= 1 /\ 0 <= qr_monthly_used r <= 1.

Definition sql_ok (token : string) (s : SqlQuotas) : Prop := forall r, sq_rows s !! token = Some r -> hardly_used r.

Lemma effective_ahead now r :
  now < nextDailyReset (qr_timezone r) now -> now < nextMonthlyReset (qr_timezone r) now ->
  now < qr_daily_reset_at (effective now r) /\ now < qr_monthly_reset_at (effective now r).
Proof.
  intros Hd Hm. unfold effective. cbn. destruct (Z.leb_spec (qr_daily_reset_at r) now), (Z.leb_spec (qr_monthly_reset_at r) now); by split.
Qed.

Lemma effective_used now r :
  hardly_used r -> qr_daily_used (effective now r) < qr_daily_limit r /\ qr_monthly_used (effective now r) < qr_monthly_limit r.
Proof. intros (_ & ? & ? & ? & ?). unfold effective. cbn. destruct (_ <=? now), (_ <=? now); lia. Qed.

Lemma sql_check token now db s :
  sql_ok token s -> resets_ahead "UTC" (now, db) ->
  exists c s', run (do_quota db) (checkAndConsume token now) s = (Ok c, s') /\ cr_allowed c = true /\ sql_ok token s'.
Proof.
  intros Hok [[Hdb Hd] Hm]. cbn [fst snd] in *. unfold checkAndConsume. rewrite run_bind, run_perform.
  cbn [do_quota getOrCreate SqlQuotaStore fst snd].
  set (row := match sq_rows s !! token with Some row => touched db row | None => new_row token now db end).
  assert (hardly_used row /\ qr_updated_at row = db) as [Hrow Hup].
  { unfold row. destruct (sq_rows s !! token) as [r|] eqn:Er; [split; [|done]; by apply Hok in Er|].
    unfold hardly_used. cbn. repeat split; lia. }
  clearbody row. destruct (effective_used now row Hrow) as [He1 He2].
  rewrite (proj2 (Z.leb_gt _ _) He1), (proj2 (Z.leb_gt _ _) He2). cbn [orb].
  rewrite run_bind, run_perform. cbn [do_quota consume SqlQuotaStore fst snd sq_rows]. rewrite lookup_insert_eq.
  destruct Hrow as (Htz & Hdl & Hml & _ & _). rewrite <- Htz in Hd, Hm.
  destruct (effective_ahead now row Hd Hm) as [Ha1 Ha2]. rewrite Hup.
  rewrite (proj2 (Z.ltb_lt _ _)) by lia. rewrite (proj2 (Z.ltb_lt db (qr_monthly_reset_at (effective now row)))) by lia.
  rewrite run_bind, run_perform. cbn [do_quota getOrCreate SqlQuotaStore fst snd sq_rows]. rewrite lookup_insert_eq, run_mret.
  do 2 eexists. split; [reflexivity|]. split; [reflexivity|]. intros r. cbn [sq_rows]. rewrite lookup_insert_eq. intros [= <-].
  unfold hardly_used. cbn. repeat split; try done; lia.
Qed.

(** Over the SQL store no quota is ever enforced: on a table where a token
    has no row, or a row that counts at most one request, every one of any number
    of consecutive requests is allowed, and the row never counts more than one
    request, whatever the limits (of at least two) are. *)
Theorem sql_quota_never_refuses token times s :
  sql_ok token s -> Forall (resets_ahead "UTC") times ->
  fst (serve token times s) = replicate (length times) true /\ sql_ok token (snd (serve token times s)).
Proof.
  intros Hok Ht. revert s Hok. induction Ht as [|[now db] times Ht _ IH]; intros s Hok; [done|]. cbn [serve].
  destruct (sql_check token now db s Hok Ht) as (c & s1 & -> & Hc & Hok1).
  destruct (IH s1 Hok1) as [IHb IHs]. destruct (serve token times s1) as [bs s2]. cbn in *. by rewrite Hc, IHb.
Qed.
End Quota.

(** ** Concrete runs: the first day of 1970 in UTC *)

Definition new_year (_ : string) (_ : Z) : Z * Z * Z := (1970, 1, 1).
Definition in_utc (_ : string) (_ : Z) : string := "UTC".

#[local] Instance memory_1970 : QuotaStore InMemoryQuotas := InMemoryQuotaStore new_year in_utc.
#[local] Instance sql_1970 : QuotaStore SqlQuotas := SqlQuotaStore new_year in_utc.

Example new_year_resets :
  nextDailyReset new_year in_utc "UTC" 0 = 86400000 /\ nextMonthlyReset new_year in_utc "UTC" 0 = 31 * 86400000 /\
  parseOffset "GMT+5:30" = 330 /\ parseOffset "GMT-4" = -240 /\ day_number 2024 3 1 = 19783.
Proof. vm_compute. done. Qed.

Definition sample_row : QuotaRow :=
  {| qr_token_id := "k"; qr_daily_limit := 3; qr_monthly_limit := 100; qr_daily_used := 1; qr_monthly_used := 7;
     qr_daily_reset_at := 86400000; qr_monthly_reset_at := 31 * 86400000; qr_timezone := "UTC"; qr_notified := false;
     qr_updated_at := 0; qr_created_at := 0 |}.

Definition sample_memory : InMemoryQuotas := {| im_rows := <["k"%string := sample_row]> ∅ |}.

Definition sample_table : SqlQuotas :=
  {| sq_rows := <["k"%string := counted sample_row 1 1 86400000 (31 * 86400000) false 0]> ∅ |}.

Lemma quota_window_exact_witness :
  fst (serve new_year in_utc "k" [(1, 1); (2, 2); (3, 3)] sample_memory) = [true; true; false].
Proof.
  destruct (quota_window_exact new_year in_utc "k" [(1, 1); (2, 2); (3, 3)] sample_memory sample_row) as [H _];
    [apply lookup_insert_eq|vm_compute; split; discriminate|vm_compute; split; discriminate|repeat constructor|exact H].
Defined.

Lemma sql_quota_never_refuses_witness :
  fst (serve new_year in_utc "k" [(1, 1); (2, 2); (3, 3)] sample_table) = [true; true; true].
Proof.
  apply (sql_quota_never_refuses new_year in_utc "k" [(1, 1); (2, 2); (3, 3)]).
  - intros r. cbn [sample_table sq_rows]. rewrite lookup_insert_eq. intros [= <-]. unfold hardly_used.
    repeat split; try discriminate; reflexivity.
  - repeat constructor; vm_compute; discriminate.
Defined.
