(* ===== verification/Roles.v ===== *)
(** * Roles: tokens, roles and permissions

    [utils/jwt.ts], [middleware/jwtIdentity.ts], [middleware/rbac.ts] and
    [services/permissionCatalog.ts]: verifying the bearer token of a request, the
    closure of the role hierarchy of [roles.json], the permission catalogue with
    its wildcard grants, and the two middleware factories that admit a request.
    [jwtVerify] of the [jose] library is a parameter: it gives the claims of a
    token signed under a key, or rejects it.  A JavaScript [Set] is the list of
    its elements in insertion order. *)
From stdpp Require Import base list strings relations.
From Stdlib Require Import ZArith Lia Ascii.
From S2P Require Import Prelude JsNumber JsMap.
Local Open Scope Z_scope.

(** ** Sets in insertion order *)

Definition set_add (x : string) (s : list string) : list string := if bool_decide (x ∈ s) then s else s ++ [x].

Definition set_of (l : list string) : list string := fold_left (fun s x => set_add x s) l [].

Definition set_has (x : string) (s : list string) : bool := bool_decide (x ∈ s).

Lemma set_add_elem x y s : y ∈ set_add x s <-> y = x \/ y ∈ s.
Proof. unfold set_add. case_bool_decide; [set_solver|]. set_solver. Qed.

Lemma set_add_all_elem l s y : y ∈ fold_left (fun s x => set_add x s) l s <-> y ∈ s \/ y ∈ l.
Proof.
  revert s. induction l as [|x l IH]; intros s; cbn [fold_left]; [set_solver|]. rewrite IH, set_add_elem. set_solver.
Qed.

Lemma set_of_elem l y : y ∈ set_of l <-> y ∈ l.
Proof. unfold set_of. rewrite set_add_all_elem. set_solver. Qed.

(** ** Tokens *)

(** A claim of a token, as far as the code looks at it. *)
Inductive claim : Type :=
| claim_str (s : string)
| claim_num (n : num)
| claim_list (l : list claim)
| claim_other.

Record VerifiedJwtPayload : Type := {
  jp_sub : option claim;
  jp_id : option claim;
  jp_role : option claim;
  jp_aud : option claim;
  jp_iat : option claim;
  jp_exp : option claim
}.

Record VerifyJwtKeyOptions : Type := { vo_issuer : option string; vo_audience : option string }.

(** What the configuration service and the environment hold. *)
Record JwtConfig : Type := {
  jc_secrets : list string;
  jc_env_secret : option string;
  jc_issuer : option string;
  jc_audience : option string
}.

Inductive AuthFailure : Type :=
| MissingBearerTokenError
| InvalidToken
| InvalidAudienceShape
| InvalidAudienceArray
| MissingTimes
| IatInFuture
| JoseRejects.

Definition claim_is_string (c : claim) : bool := match c with claim_str _ => true | _ => false end.

Definition readBearerToken (authorization : option string) : option string :=
  match authorization with
  | None => None
  | Some h =>
      if String.prefix "Bearer " h then
        let token := js_trim (String.substring 7 (String.length h - 7) h) in
        if Nat.ltb 0 (String.length token) then Some token else None
      else None
  end.

Definition getUserId (claims : VerifiedJwtPayload) : string :=
  match (match jp_sub claims with Some c => Some c | None => jp_id claims end) with
  | Some (claim_str s) => if Nat.ltb 0 (String.length (js_trim s)) then js_trim s else EmptyString
  | _ => EmptyString
  end.

Definition truthy_option (o : option string) : option string :=
  match o with Some s => if is_empty_string s then None else Some s | None => None end.

Section Jwt.
Context (jwtVerify : string -> string -> VerifyJwtKeyOptions -> option VerifiedJwtPayload) (config : JwtConfig).

Definition buildVerifyOptions (options : VerifyJwtKeyOptions) : VerifyJwtKeyOptions :=
  {| vo_issuer := truthy_option (match vo_issuer options with Some i => Some i | None => jc_issuer config end);
     vo_audience := truthy_option (match vo_audience options with Some a => Some a | None => jc_audience config end) |}.

Definition verifyJwtWithKey (now : Z) (token secret : string) (options : VerifyJwtKeyOptions)
    : result AuthFailure VerifiedJwtPayload :=
  decoded ← from_option_or
    (jwtVerify token secret {| vo_issuer := truthy_option (vo_issuer options); vo_audience := truthy_option (vo_audience options) |})
    JoseRejects;
  _ ← match jp_aud decoded with
      | None | Some (claim_str _) => Ok tt
      | Some (claim_list l) => throw_if (negb (forallb claim_is_string l)) InvalidAudienceArray
      | Some _ => Err InvalidAudienceShape
      end;
  match jp_exp decoded, jp_iat decoded with
  | Some (claim_num _), Some (claim_num iat) =>
      _ ← throw_if (gtb iat (add (math_floor (div (of_Z now) (of_Z 1000))) (of_Z 300))) IatInFuture;
      mret decoded
  | _, _ => Err MissingTimes
  end.

Fixpoint try_secrets (now : Z) (token : string) (options : VerifyJwtKeyOptions) (secrets : list string)
    : result AuthFailure VerifiedJwtPayload :=
  match secrets with
  | [] => Err InvalidToken
  | secret :: secrets' =>
      match verifyJwtWithKey now token secret options with
      | Ok claims => Ok claims
      | Err _ => try_secrets now token options secrets'
      end
  end.

Definition verifyJwt (now : Z) (token : string) (options : VerifyJwtKeyOptions) : result AuthFailure VerifiedJwtPayload :=
  match jc_secrets config, truthy_option (js_trim <$> jc_env_secret config) with
  | [], Some fromEnv => verifyJwtWithKey now token fromEnv (buildVerifyOptions options)
  | secrets, _ => try_secrets now token (buildVerifyOptions options) secrets
  end.

Definition verifyRequestJwt (now : Z) (authorization expectedIssuer : option string) : result AuthFailure VerifiedJwtPayload :=
  token ← from_option_or (readBearerToken authorization) MissingBearerTokenError;
  verifyJwt now token
    {| vo_issuer := match expectedIssuer with Some i => Some i | None => jc_issuer config end; vo_audience := None |}.

(** The keys a token is tried against. *)
Definition active_keys : list string :=
  match jc_secrets config, truthy_option (js_trim <$> jc_env_secret config) with
  | [], Some fromEnv => [fromEnv]
  | secrets, _ => secrets
  end.

Lemma try_secrets_ok now token options secrets claims :
  try_secrets now token options secrets = Ok claims ->
  exists secret, secret ∈ secrets /\ verifyJwtWithKey now token secret options = Ok claims.
Proof.
  induction secrets as [|secret secrets IH]; cbn; [done|].
  destruct (verifyJwtWithKey now token secret options) eqn:E.
  - intros [= ->]. exists secret. split; [set_solver|done].
  - intros (s & ? & ?)%IH. exists s. split; [set_solver|done].
Qed.

(** A request whose token is accepted carries a token the library accepts under
    an active key, with numeric times and not issued in the future. *)
Lemma verifyRequestJwt_sound now authorization claims :
  verifyRequestJwt now authorization None = Ok claims ->
  exists token secret options, readBearerToken authorization = Some token /\ secret ∈ active_keys /\
    jwtVerify token secret options = Some claims /\
    exists e i, jp_exp claims = Some (claim_num e) /\ jp_iat claims = Some (claim_num i) /\
      gtb i (add (math_floor (div (of_Z now) (of_Z 1000))) (of_Z 300)) = false.
Proof.
  intros (token & Ht & H)%bind_ok. apply from_option_or_ok in Ht. unfold verifyJwt in H.
  assert (exists secret o, secret ∈ active_keys /\ verifyJwtWithKey now token secret o = Ok claims) as (secret & o & Hs & Hv).
  { unfold active_keys. destruct (jc_secrets config) as [|k ks] eqn:E.
    - destruct (truthy_option _); [|done]. eexists _, _. split; [apply list_elem_of_singleton; reflexivity|exact H].
    - apply try_secrets_ok in H as (s & ? & ?). eauto. }
  exists token, secret. unfold verifyJwtWithKey in Hv. apply bind_ok in Hv as (d & Hd & Hv). apply from_option_or_ok in Hd.
  apply bind_ok in Hv as (u & _ & Hv). destruct (jp_exp d) as [[| | |]|] eqn:Ee; try done.
  destruct (jp_iat d) as [[| | |]|] eqn:Ei; try done. inv_ok. subst. eexists. split_and!; eauto 10.
Qed.

End Jwt.

(** ** The role hierarchy *)

(** A value of a configuration file where a string is expected. *)
Inductive cfg : Type := cfg_str (s : string) | cfg_other.

Definition normalizeRole (value : cfg) : string :=
  match value with cfg_str s => to_lower (js_trim s) | cfg_other => EmptyString end.

Definition normalizeRoleList (values : list cfg) : list string :=
  List.filter str_truthy (map normalizeRole values).

(** [roles.json]: the entries of its roles object; [None] is a value that is not
    an array. *)
Definition RolesConfig : Type := list (string * option (list cfg)).

Record RoleHierarchy : Type := { rh_roles : list string; rh_effective : jsmap (list string) }.

Inductive RoleError : Type :=
| NoRolesObject
| EmptyRoleName
| NotAList (role : string)
| UnknownRole (role implied : string)
| CyclicRole (path : list string)
| RanOut.

Fixpoint directImplications_from (entries : RolesConfig) (m : jsmap (list string)) : result RoleError (jsmap (list string)) :=
  match entries with
  | [] => Ok m
  | (rawRole, rawImplications) :: entries' =>
      let role := normalizeRole (cfg_str rawRole) in
      _ ← throw_if (is_empty_string role) EmptyRoleName;
      implied ← from_option_or rawImplications (NotAList role);
      directImplications_from entries' (map_set role (normalizeRoleList implied) m)
  end.

Definition directImplications (entries : RolesConfig) : result RoleError (jsmap (list string)) :=
  directImplications_from entries [].

Definition check_known (m : jsmap (list string)) : result RoleError unit :=
  let unknown := flat_map (fun kv => map (pair (fst kv)) (List.filter (fun i => negb (set_has i (map_keys m))) (snd kv))) m in
  match unknown with (role, implied) :: _ => Err (UnknownRole role implied) | [] => Ok tt end.

Record Resolving : Type := {
  rv_visiting : list string;
  rv_visited : list string;
  rv_effective : jsmap (list string)
}.

Definition enter (role : string) (st : Resolving) : Resolving :=
  {| rv_visiting := set_add role (rv_visiting st); rv_visited := rv_visited st; rv_effective := rv_effective st |}.

Definition leave (role : string) (effective : list string) (st : Resolving) : Resolving :=
  {| rv_visiting := List.filter (fun r => negb (bool_decide (r = role))) (rv_visiting st);
     rv_visited := set_add role (rv_visited st);
     rv_effective := map_set role effective (rv_effective st) |}.

(** The loop over the implied roles, over the recursive call [f]. *)
Fixpoint resolve_all (f : string -> Resolving -> result RoleError (list string * Resolving)) (implied : list string)
    (effective : list string) (st : Resolving) : result RoleError (list string * Resolving) :=
  match implied with
  | [] => Ok (effective, st)
  | i :: implied' =>
      r ← f i st;
      resolve_all f implied' (fold_left (fun s x => set_add x s) (fst r) effective) (snd r)
  end.

Fixpoint resolve (fuel : nat) (m : jsmap (list string)) (role : string) (path : list string) (st : Resolving)
    : result RoleError (list string * Resolving) :=
  match fuel with
  | O => Err RanOut
  | S fuel' =>
      match map_get role (rv_effective st) with
      | Some effective => Ok (effective, st)
      | None =>
          if set_has role (rv_visiting st) then Err (CyclicRole (path ++ [role]))
          else
            r ← resolve_all (fun i => resolve fuel' m i (path ++ [role])) (default [] (map_get role m)) [role] (enter role st);
            Ok (fst r, leave role (fst r) (snd r))
      end
  end.

Fixpoint resolve_roles (fuel : nat) (m : jsmap (list string)) (roles : list string) (st : Resolving) : result RoleError Resolving :=
  match roles with
  | [] => Ok st
  | role :: roles' =>
      if set_has role (rv_visited st) then resolve_roles fuel m roles' st
      else r ← resolve fuel m role [] st; resolve_roles fuel m roles' (snd r)
  end.

(** One call per role on the path, and one more to meet a role again. *)
Definition buildRoleHierarchy (config : option RolesConfig) : result RoleError RoleHierarchy :=
  entries ← from_option_or config NoRolesObject;
  m ← directImplications entries;
  _ ← check_known m;
  st ← resolve_roles (S (length m)) m (map_keys m) {| rv_visiting := []; rv_visited := []; rv_effective := [] |};
  mret {| rh_roles := map_keys m; rh_effective := rv_effective st |}.

Definition isKnownRole (h : RoleHierarchy) (role : string) : bool := set_has role (rh_roles h).

Definition getEffectiveRoles (h : RoleHierarchy) (role : string) : list string := default [] (map_get role (rh_effective h)).

Definition roleSatisfies (h : RoleHierarchy) (role required : string) : bool := set_has required (getEffectiveRoles h role).

(** *** The closure *)

Definition implies (m : jsmap (list string)) (a b : string) : Prop := exists l, map_get a m = Some l /\ b ∈ l.

Definition closed (m : jsmap (list string)) : Prop := forall a b, implies m a b -> b ∈ map_keys m.

Definition acyclic (m : jsmap (list string)) : Prop := forall r, ~ tc (implies m) r r.

(** What an entry of the table promises: the roles reachable from its key, below
    which there is no cycle. *)
Definition sound_entry (m : jsmap (list string)) (r : string) (e : list string) : Prop :=
  (forall x, x ∈ e <-> rtc (implies m) r x) /\ (forall x, rtc (implies m) r x -> ~ tc (implies m) x x).

Definition sound_table (m : jsmap (list string)) (st : Resolving) : Prop :=
  (forall r e, map_get r (rv_effective st) = Some e -> r ∈ map_keys m /\ sound_entry m r e) /\
  (forall r, r ∈ rv_visited st -> is_Some (map_get r (rv_effective st))).

Definition extends (st st' : Resolving) : Prop :=
  rv_visiting st' = rv_visiting st /\
  forall r, is_Some (map_get r (rv_effective st)) -> is_Some (map_get r (rv_effective st')).

Definition shows_cycle (m : jsmap (list string)) (err : RoleError) : Prop :=
  exists path r, err = CyclicRole (path ++ [r]) /\ tc (implies m) r r.

#[export] Instance extends_preorder : PreOrder extends.
Proof.
  split; [intros st; split; auto|]. intros a b c [H1 H2] [H3 H4]. split; [congruence|auto].
Qed.

Lemma implies_default m a b : b ∈ default [] (map_get a m) <-> implies m a b.
Proof.
  unfold implies. destruct (map_get a m) as [l|]; cbn; split.
  - eauto.
  - by intros (? & [= ->] & ?).
  - set_solver.
  - by intros (? & ? & ?).
Qed.

(** The entry of a role from those of the roles it implies. *)
Lemma sound_entry_step m role e :
  (forall x, x ∈ e <-> x = role \/ exists i, implies m role i /\ rtc (implies m) i x) ->
  (forall i x, implies m role i -> rtc (implies m) i x -> ~ tc (implies m) x x) ->
  sound_entry m role e.
Proof.
  intros He Hi. assert (forall x, rtc (implies m) role x -> x = role \/ exists i, implies m role i /\ rtc (implies m) i x) as Hstep.
  { intros x [->|(y & ? & ?)]%rtc_inv; eauto. }
  split.
  - intros x. rewrite He. split; [|auto]. intros [->|(i & ? & ?)]; [constructor|by eapply rtc_l].
  - intros x [->|(i & ? & ?)]%Hstep; [|by eapply Hi]. intros Hc.
    assert (exists i, implies m role i /\ rtc (implies m) i role) as (i & Hri & Hir); [|by apply (Hi i role Hri Hir)].
    inversion Hc; subst; [exists role; split; [done|constructor]|]. eexists. split; [done|]. by apply tc_rtc.
Qed.

(** What resolving a role from a state gives. *)
Definition resolves (m : jsmap (list string)) (role : string) (st : Resolving)
    (out : result RoleError (list string * Resolving)) : Prop :=
  match out with
  | Ok (e, st') => sound_entry m role e /\ sound_table m st' /\ extends st st' /\ is_Some (map_get role (rv_effective st'))
  | Err err => shows_cycle m err
  end.

(** The loop over implied roles, for any [f] that resolves each of them. *)
Lemma resolve_all_spec m f implied e0 st :
  (forall i st', i ∈ implied -> sound_table m st' -> extends st st' -> resolves m i st' (f i st')) ->
  sound_table m st ->
  match resolve_all f implied e0 st with
  | Ok (e, st') =>
      (forall x, x ∈ e <-> x ∈ e0 \/ exists i, i ∈ implied /\ rtc (implies m) i x) /\
      (forall i x, i ∈ implied -> rtc (implies m) i x -> ~ tc (implies m) x x) /\
      sound_table m st' /\ extends st st'
  | Err err => shows_cycle m err
  end.
Proof.
  revert e0 st. induction implied as [|i implied IH]; intros e0 st Hf Hst; cbn [resolve_all].
  { split_and!; [set_solver|set_solver|done|reflexivity]. }
  pose proof (Hf i st ltac:(set_solver) Hst ltac:(reflexivity)) as Hi. unfold resolves in Hi.
  destruct (f i st) as [[e st1]|err]; [|done]. destruct Hi as (He & Hst1 & Hext & _). cbn [mbind result_bind fst snd].
  specialize (IH (fold_left (fun s x => set_add x s) e e0) st1).
  destruct (resolve_all f implied _ st1) as [[e' st']|err].
  - destruct IH as (IH1 & IH2 & IH3 & IH4).
    { intros j st2 Hj ? ?. apply Hf; [set_solver|done|by etrans]. }
    { done. }
    split_and!; [|  |done|by etrans].
    + intros x. rewrite IH1, set_add_all_elem, (proj1 He x). setoid_rewrite elem_of_cons. naive_solver.
    + intros j x [->|Hj]%elem_of_cons; [apply (proj2 He)|by apply IH2].
  - apply IH; [|done]. intros j st2 Hj ? ?. apply Hf; [set_solver|done|by etrans].
Qed.

Lemma leave_enter role e st st' :
  role ∉ rv_visiting st -> extends (enter role st) st' -> rv_visiting (leave role e st') = rv_visiting st.
Proof.
  intros Hr [Hv _]. cbn. rewrite Hv. cbn. unfold set_add. rewrite bool_decide_false by done.
  rewrite List.filter_app. cbn. rewrite bool_decide_true by done. cbn. rewrite app_nil_r.
  induction (rv_visiting st) as [|r l IH]; [done|]. apply not_elem_of_cons in Hr as [Hne Hr]. cbn.
  rewrite bool_decide_false by congruence. cbn. by rewrite IH.
Qed.

Lemma leave_sound m role e st : role ∈ map_keys m -> sound_entry m role e -> sound_table m st -> sound_table m (leave role e st).
Proof.
  intros Hr He [H1 H2]. split; cbn [leave rv_effective rv_visited].
  - intros r e'. rewrite map_get_set. case_bool_decide; [|apply H1]. subst. by intros [= <-].
  - intros r. rewrite set_add_elem, map_get_set. case_bool_decide; [eauto|]. intros [->|?]; [done|auto].
Qed.

Lemma resolve_spec m fuel role path st :
  closed m -> role ∈ map_keys m -> sound_table m st -> NoDup (rv_visiting st) -> rv_visiting st ⊆ map_keys m ->
  (forall p, p ∈ rv_visiting st -> tc (implies m) p role) -> (length m < fuel + length (rv_visiting st))%nat ->
  resolves m role st (resolve fuel m role path st).
Proof.
  intros Hc. revert role path st. induction fuel as [|fuel IH]; intros role path st Hr Hst Hnd Hsub Htc Hfuel.
  { exfalso. pose proof (submseteq_length _ _ (NoDup_submseteq _ _ Hnd Hsub)) as Hl.
    unfold map_keys in Hl. rewrite length_map in Hl. lia. }
  cbn [resolve]. destruct (map_get role (rv_effective st)) as [e|] eqn:Ee.
  { split_and!; [by apply (proj2 (proj1 Hst _ _ Ee))..|done|reflexivity|by rewrite Ee]. }
  unfold set_has. case_bool_decide as Hv; [exists path, role; split; [done|by apply Htc]|].
  assert (forall i st', i ∈ default [] (map_get role m) -> sound_table m st' -> extends (enter role st) st' ->
            resolves m i st' (resolve fuel m i (path ++ [role]) st')) as Hf.
  { intros i st' Hi%implies_default Hst' [Hvis _]. cbn in Hvis. unfold set_add in Hvis. rewrite bool_decide_false in Hvis by done.
    apply IH; rewrite ?Hvis, ?length_app; cbn [length]; [by eapply Hc|done| |set_solver| |lia].
    - apply NoDup_app. split_and!; [done|set_solver|apply NoDup_singleton].
    - intros p [?|Hp]%elem_of_app; [eapply tc_r; [by apply Htc|done]|]. apply list_elem_of_singleton in Hp as ->. by apply tc_once. }
  pose proof (resolve_all_spec m _ _ [role] _ Hf Hst) as Hall.
  destruct (resolve_all _ _ _ _) as [[e st1]|err]; [|done]. destruct Hall as (H1 & H2 & Hst1 & Hext). cbn [mbind result_bind fst snd].
  assert (sound_entry m role e) as He.
  { apply sound_entry_step; [|intros i x ?%implies_default; by apply H2]. intros x. rewrite H1, list_elem_of_singleton.
    by setoid_rewrite implies_default. }
  split_and!; [done|by apply leave_sound|split; [by eapply leave_enter|]|cbn [leave rv_effective]; rewrite map_get_set_eq; eauto].
  intros r Hsome. cbn [leave rv_effective]. rewrite map_get_set. case_bool_decide; [eauto|]. by apply (proj2 Hext).
Qed.

Lemma resolve_roles_spec m roles st :
  closed m -> roles ⊆ map_keys m -> sound_table m st -> rv_visiting st = [] ->
  match resolve_roles (S (length m)) m roles st with
  | Ok st' => sound_table m st' /\ extends st st' /\ (forall r, r ∈ roles -> is_Some (map_get r (rv_effective st')))
  | Err err => shows_cycle m err
  end.
Proof.
  intros Hc. revert st. induction roles as [|role roles IH]; intros st Hsub Hst Hv; cbn [resolve_roles].
  { split_and!; [done|reflexivity|set_solver]. }
  unfold set_has. case_bool_decide as Hvis.
  - specialize (IH st ltac:(set_solver) Hst Hv). destruct (resolve_roles _ _ _ _); [|done]. destruct IH as (? & Hext & IH).
    split_and!; [done..|]. intros r [->|?]%elem_of_cons; [|by apply IH]. apply (proj2 Hext), (proj2 Hst), Hvis.
  - pose proof (resolve_spec m (S (length m)) role [] st Hc ltac:(set_solver) Hst) as Hres. rewrite Hv in Hres.
    specialize (Hres ltac:(constructor) ltac:(set_solver) ltac:(set_solver) ltac:(cbn; lia)). unfold resolves in Hres.
    destruct (resolve _ _ _ _ _) as [[e st1]|err]; [|done]. destruct Hres as (_ & Hst1 & Hext & Hsome). cbn [mbind result_bind snd].
    specialize (IH st1 ltac:(set_solver) Hst1). rewrite (proj1 Hext) in IH. specialize (IH Hv).
    destruct (resolve_roles _ _ _ _); [|done]. destruct IH as (? & Hext' & IH).
    split_and!; [done|by etrans|]. intros r [->|?]%elem_of_cons; [|by apply IH]. by apply (proj2 Hext').
Qed.

Lemma check_known_spec m :
  NoDup (map_keys m) ->
  match check_known m with
  | Ok _ => closed m
  | Err err => exists a b, err = UnknownRole a b /\ implies m a b /\ b ∉ map_keys m
  end.
Proof.
  intros Hnd. unfold check_known. set (unknown := flat_map _ m).
  assert (forall a b, (a, b) ∈ unknown <-> implies m a b /\ b ∉ map_keys m) as Hu.
  { intros a b. unfold unknown. rewrite list_elem_of_In, in_flat_map. split.
    - intros ([k l] & Hin & Hp). apply in_map_iff in Hp as (x & [= -> ->] & Hp). apply filter_In in Hp as [Hp Hn].
      apply negb_true_iff in Hn. unfold set_has in Hn. apply bool_decide_eq_false in Hn. split; [|done]. exists l.
      split; [apply elem_map_get; [done|by apply list_elem_of_In]|by apply list_elem_of_In].
    - intros [(l & Hl & Hb) Hn]. exists (a, l). split; [apply list_elem_of_In; by apply map_get_elem|].
      apply in_map. apply filter_In. split; [by apply list_elem_of_In|]. unfold set_has. by rewrite bool_decide_false. }
  destruct unknown as [|[a b] u]; [|exists a, b; split; [done|]; apply Hu; set_solver].
  intros a b Hab. destruct (decide (b ∈ map_keys m)); [done|]. exfalso. assert ((a, b) ∈ ([] : list (string * string))) by (by apply Hu).
  set_solver.
Qed.

Lemma directImplications_nodup entries m : directImplications entries = Ok m -> NoDup (map_keys m).
Proof.
  unfold directImplications. assert (NoDup (map_keys ([] : jsmap (list string)))) as H by constructor. revert H.
  generalize ([] : jsmap (list string)). induction entries as [|[r i] entries IH]; intros m0 Hnd; cbn; intros H; inv_ok; [by subst|].
  eauto.
Qed.

Lemma implies_dom m r x : implies m r x -> r ∈ map_keys m.
Proof. intros (l & Hl & _). apply map_get_elem in Hl. apply list_elem_of_fmap. by exists (r, l). Qed.

(** A hierarchy that loads: its table is the closure of the file. *)
Lemma built_hierarchy entries h :
  buildRoleHierarchy (Some entries) = Ok h ->
  exists m, directImplications entries = Ok m /\ closed m /\ acyclic m /\ rh_roles h = map_keys m /\
    forall a b, roleSatisfies h a b = true <-> a ∈ map_keys m /\ rtc (implies m) a b.
Proof.
  unfold buildRoleHierarchy. cbn [from_option_or]. intros H. apply bind_ok in H as (? & [= <-] & H).
  apply bind_ok in H as (m & Hm & H). apply bind_ok in H as (u & Hu & H). apply bind_ok in H as (st & Hst & [= <-]).
  pose proof (check_known_spec m (directImplications_nodup _ _ Hm)) as Hk. rewrite Hu in Hk.
  pose proof (resolve_roles_spec m (map_keys m) {| rv_visiting := []; rv_visited := []; rv_effective := [] |} Hk ltac:(set_solver)) as Hr.
  rewrite Hst in Hr. destruct Hr as ([Ht _] & _ & Hall); [split; [done|set_solver]|done|]. exists m. split_and!; [done..| |done|].
  - intros r Hc. assert (exists x, implies m r x) as [x Hx] by (inversion Hc; eauto).
    destruct (Hall r (implies_dom _ _ _ Hx)) as [e He]. apply (proj2 (proj2 (Ht r e He)) r); [constructor|done].
  - intros a b. unfold roleSatisfies, set_has, getEffectiveRoles. rewrite bool_decide_eq_true. cbn [rh_effective].
    destruct (map_get a (rv_effective st)) as [e|] eqn:Ea; cbn [default].
    + destruct (Ht a e Ea) as [Ha [He _]]. rewrite He. tauto.
    + split; [set_solver|]. intros [Ha _]. destruct (Hall a Ha). congruence.
Qed.

(** (C7) The role hierarchy is the reflexive-transitive closure of the roles
    file.  For every file whose entries are well formed, loading it succeeds
    exactly when all implied roles are declared and no role implies itself through
    others; the effective roles of each declared role are then exactly the roles
    reachable from it.  Otherwise the error names an implied role that is not
    declared, or a path whose last role implies itself. *)
Theorem role_hierarchy_exact entries m :
  directImplications entries = Ok m ->
  match buildRoleHierarchy (Some entries) with
  | Ok h => closed m /\ acyclic m /\ rh_roles h = map_keys m /\
            forall a b, roleSatisfies h a b = true <-> a ∈ map_keys m /\ rtc (implies m) a b
  | Err (UnknownRole a b) => implies m a b /\ b ∉ map_keys m
  | Err (CyclicRole path) => closed m /\ exists r, last path = Some r /\ tc (implies m) r r
  | Err _ => False
  end.
Proof.
  intros Hm. destruct (buildRoleHierarchy (Some entries)) as [h|err] eqn:Eb.
  { destruct (built_hierarchy _ _ Eb) as (m' & Hm' & H). by assert (m' = m) as -> by congruence. }
  revert Eb. unfold buildRoleHierarchy. cbn [from_option_or mbind result_bind]. rewrite Hm. cbn [mbind result_bind].
  pose proof (check_known_spec m (directImplications_nodup _ _ Hm)) as Hk.
  destruct (check_known m) as [u|err']; cbn [mbind result_bind]; [|by destruct Hk as (a & b & -> & ? & ?); intros [= <-]].
  pose proof (resolve_roles_spec m (map_keys m) {| rv_visiting := []; rv_visited := []; rv_effective := [] |} Hk ltac:(set_solver)) as Hr.
  destruct (resolve_roles _ _ _ _) as [st|err']; [done|]. destruct Hr as (path & r & -> & Hr); [split; [done|set_solver]|done|].
  intros [= <-]. split; [done|]. exists r. by rewrite last_snoc.
Qed.

(** The file [config/roles.json]. *)
Definition roles_json : RolesConfig :=
  [("admin", Some [cfg_str "support"; cfg_str "professional"; cfg_str "customer"]); ("support", Some [cfg_str "auditor"]);
   ("auditor", Some []); ("professional", Some []); ("supplier", Some []); ("customer", Some [])]%string.

Lemma role_hierarchy_exact_witness :
  match buildRoleHierarchy (Some roles_json) with
  | Ok h => roleSatisfies h "admin" "auditor" = true /\ roleSatisfies h "auditor" "support" = false
  | Err _ => False
  end /\
  exists m, directImplications roles_json = Ok m /\ closed m /\ acyclic m.
Proof.
  split; [vm_compute; by split|]. eexists. split; [reflexivity|].
  pose proof (role_hierarchy_exact roles_json _ eq_refl) as H.
  destruct (buildRoleHierarchy (Some roles_json)) as [h|err] eqn:E; [|by vm_compute in E]. destruct H as (? & ? & _). by split.
Defined.

(** ** Requiring a role *)

Record RequestAuth : Type := { ra_userId : string; ra_role : string }.

Inductive Answer : Type :=
| Respond (status : Z) (message code : string)
| Next.

Inductive RbacAudit : Type :=
| RbacEvent (code : string) (status : Z) (role : option string) (wanted : list string)
| PermissionEvent (action role permission : string) (status : Z).

(** What a middleware leaves behind: the audit events, the identity it attached
    to the request, and how it answered. *)
Record Handled : Type := { hd_audit : list RbacAudit; hd_auth : option RequestAuth; hd_answer : Answer }.

Definition unauthenticated (message : string) : Handled :=
  {| hd_audit := [RbacEvent "RBAC_MISSING" 401 None []]; hd_auth := None;
     hd_answer := Respond 401 message "AUTHENTICATION_REQUIRED" |}.

Definition forbidden : Answer := Respond 403 "Insufficient permissions" "INSUFFICIENT_PERMISSIONS".

Definition claimed_role (claims : VerifiedJwtPayload) : string :=
  normalizeRole (match jp_role claims with Some (claim_str s) => cfg_str s | _ => cfg_other end).

Definition parsedRole (h : RoleHierarchy) (claims : VerifiedJwtPayload) : string :=
  if isKnownRole h (claimed_role claims) then claimed_role claims else "customer".

Inductive RequireError : Type :=
| NoRequiredRole
| UnknownRequiredRole (role : string)
| NoPermission
| UnknownRequiredPermission (permission : string).

Section Middleware.
Context (jwtVerify : string -> string -> VerifyJwtKeyOptions -> option VerifiedJwtPayload) (config : JwtConfig).

(** The common part of both middlewares: who is asking. *)
Definition authenticate (now : Z) (authorization : option string) : result string (string * VerifiedJwtPayload) :=
  match verifyRequestJwt jwtVerify config now authorization None with
  | Err MissingBearerTokenError => Err "Authentication required"%string
  | Err _ => Err "Invalid or expired token"%string
  | Ok claims =>
      if is_empty_string (getUserId claims) then Err "Authentication required"%string else Ok (getUserId claims, claims)
  end.

Definition requireRole (h : RoleHierarchy) (requiredRoles : list string)
    : result RequireError (Z -> option string -> Handled) :=
  let required := set_of (normalizeRoleList (map cfg_str requiredRoles)) in
  _ ← throw_if (Nat.eqb (length required) 0) NoRequiredRole;
  _ ← match find_first (fun r => negb (isKnownRole h r)) required with Some r => Err (UnknownRequiredRole r) | None => Ok tt end;
  mret (fun now authorization =>
    match authenticate now authorization with
    | Err message => unauthenticated message
    | Ok (userId, claims) =>
        let role := parsedRole h claims in
        let authorized := existsb (roleSatisfies h role) required in
        {| hd_audit := if authorized then [] else [RbacEvent "RBAC_FORBIDDEN" 403 (Some role) required];
           hd_auth := Some {| ra_userId := userId; ra_role := role |};
           hd_answer := if authorized then Next else forbidden |}
    end).

(** (C3) A request passes [requireRole] exactly when it carries a token that
    verifies, the token names a user, and the role of the token (or [customer]
    when that role is not declared) reaches one of the required roles in the
    roles file; an authenticated request that does not is answered 403, every
    other one 401, and exactly the refused ones are audited. *)
Theorem requireRole_admits entries m h requiredRoles handler now authorization :
  directImplications entries = Ok m -> buildRoleHierarchy (Some entries) = Ok h -> requireRole h requiredRoles = Ok handler ->
  let out := handler now authorization in
  (hd_answer out = Next <->
     exists claims r, verifyRequestJwt jwtVerify config now authorization None = Ok claims /\ getUserId claims <> EmptyString /\
       r ∈ normalizeRoleList (map cfg_str requiredRoles) /\ parsedRole h claims ∈ map_keys m /\ rtc (implies m) (parsedRole h claims) r) /\
  (hd_answer out = Next <-> hd_audit out = []) /\
  (hd_answer out <> Next -> exists status message code, hd_answer out = Respond status message code /\
     status = (if is_ok (authenticate now authorization) then 403 else 401)).
Proof.
  intros Hm Hb Hreq. apply built_hierarchy in Hb as (m' & Hm' & _ & _ & _ & Hsat). assert (m' = m) as -> by congruence.
  unfold requireRole in Hreq. apply bind_ok in Hreq as (? & _ & Hreq). apply bind_ok in Hreq as (? & _ & [= <-]). cbv zeta.
  unfold authenticate. destruct (verifyRequestJwt jwtVerify config now authorization None) as [claims|err] eqn:Ev.
  2: { assert (forall message, hd_answer (unauthenticated message) <> Next) as Hne by done.
       destruct err; (split_and!; [split; [done|by intros (? & ? & ? & _)]|by split|]; intros _; do 3 eexists; split; reflexivity). }
  destruct (is_empty_string (getUserId claims)) eqn:Eu.
  { split_and!; [split; [done|]|by split|intros _; do 3 eexists; split; reflexivity].
    intros (c & r & [= <-] & Hu & _). by destruct (getUserId claims). }
  cbn [hd_answer hd_audit is_ok].
  assert (existsb (roleSatisfies h (parsedRole h claims)) (set_of (normalizeRoleList (map cfg_str requiredRoles))) = true <->
          exists r, r ∈ normalizeRoleList (map cfg_str requiredRoles) /\ parsedRole h claims ∈ map_keys m /\
            rtc (implies m) (parsedRole h claims) r) as Hex.
  { rewrite existsb_exists. setoid_rewrite <- list_elem_of_In. setoid_rewrite set_of_elem. by setoid_rewrite Hsat. }
  destruct (existsb _ _).
  - split_and!; [split; [intros _|done]|by split|done]. destruct (proj1 Hex eq_refl) as (r & ?). exists claims, r.
    split; [done|]. split; [|done]. by destruct (getUserId claims).
  - split_and!; [split; [done|]|by split|intros _; do 3 eexists; split; reflexivity].
    intros (c & r & [= <-] & _ & Hr). by assert (false = true) by (apply Hex; eauto).
Qed.

End Middleware.

(** A signature check for the witnesses: the token is the role, the key is fixed. *)
Definition demo_verify (token secret : string) (_ : VerifyJwtKeyOptions) : option VerifiedJwtPayload :=
  if bool_decide (secret = "k2"%string) then
    Some {| jp_sub := Some (claim_str " u1 "); jp_id := None; jp_role := Some (claim_str token); jp_aud := None;
            jp_iat := Some (claim_num zero); jp_exp := Some (claim_num one) |}
  else None.

Definition demo_config : JwtConfig :=
  {| jc_secrets := ["k1"; "k2"]%string; jc_env_secret := None; jc_issuer := None; jc_audience := None |}.

Definition demo_admits (requiredRoles : list string) (token : string) : option Answer :=
  match buildRoleHierarchy (Some roles_json) with
  | Ok h => match requireRole demo_verify demo_config h requiredRoles with
            | Ok handler => Some (hd_answer (handler 0 (Some ("Bearer " +:+ token)%string)))
            | Err _ => None
            end
  | Err _ => None
  end.

Lemma requireRole_admits_witness :
  demo_admits ["Support"%string] "Auditor" = Some forbidden /\
  exists m h handler, directImplications roles_json = Ok m /\ buildRoleHierarchy (Some roles_json) = Ok h /\
    requireRole demo_verify demo_config h ["Auditor"%string] = Ok handler /\
    hd_answer (handler 0 (Some "Bearer Support"%string)) = Next /\ exists claims, rtc (implies m) (parsedRole h claims) "auditor"%string.
Proof.
  split; [vm_compute; reflexivity|].
  assert (demo_admits ["Auditor"%string] "Support" = Some Next) as Hd by (vm_compute; reflexivity). unfold demo_admits in Hd.
  destruct (directImplications roles_json) as [m|] eqn:Em; [|by vm_compute in Em].
  destruct (buildRoleHierarchy (Some roles_json)) as [h|] eqn:Eh; [|done].
  destruct (requireRole demo_verify demo_config h ["Auditor"%string]) as [f|] eqn:Er; [|done]. injection Hd as Hd.
  exists m, h, f. split_and!; [done..|].
  destruct (proj1 (proj1 (requireRole_admits demo_verify demo_config roles_json m h ["Auditor"%string] f 0
    (Some "Bearer Support"%string) Em Eh Er)) Hd) as (claims & r & _ & _ & Hr & _ & Hreach). exists claims.
  change (r ∈ ["auditor"%string]) in Hr. apply list_elem_of_singleton in Hr as ->. exact Hreach.
Defined.

(** ** The permission catalogue *)

Definition normalizePermission (value : cfg) : string :=
  match value with cfg_str s => to_lower (js_trim s) | cfg_other => EmptyString end.

Definition normalizePermissionList (values : list cfg) : list string :=
  List.filter str_truthy (map normalizePermission values).

Record PermissionCatalog : Type := { pc_permissions : list string; pc_grantsByRole : jsmap (list string) }.

(** The two files.  The outer [None]: no object, or no such member; the inner
    one: a member of another shape. *)
Definition PermissionsConfig : Type := option (option (list cfg)).
Definition GrantsConfig : Type := option (option (list (string * option (list cfg)))).

Inductive CatalogError : Type :=
| NoPermissionsMember
| PermissionsNotArray
| InvalidPermissionEntry
| DuplicatePermission (permission : string)
| NoGrantsMember
| GrantsNotObject
| EmptyGrantRole
| GrantsNotArray (role : string)
| InvalidGrant (role : string)
| InvalidWildcard (role : string)
| UnknownPermission (role grant : string).

Definition cfg_blank (v : cfg) : bool := match v with cfg_str s => blank s | cfg_other => true end.

Fixpoint check_permissions (seen : list string) (permissions : list cfg) : result CatalogError unit :=
  match permissions with
  | [] => Ok tt
  | perm :: permissions' =>
      _ ← throw_if (cfg_blank perm) InvalidPermissionEntry;
      let normalized := normalizePermission perm in
      _ ← throw_if (set_has normalized seen) (DuplicatePermission normalized);
      check_permissions (set_add normalized seen) permissions'
  end.

Definition validatePermissionsConfig (config : PermissionsConfig) : result CatalogError (list cfg) :=
  member ← from_option_or config NoPermissionsMember;
  permissions ← from_option_or member PermissionsNotArray;
  _ ← check_permissions [] permissions;
  mret permissions.

(** [s.endsWith(":*")] and [s.slice(0, -2)]: the resource of a wildcard. *)
Fixpoint wildcard_resource (s : string) : option string :=
  match s with
  | String a (String b EmptyString) => if Ascii.eqb a ":" && Ascii.eqb b "*" then Some EmptyString else None
  | String a s' => String a <$> wildcard_resource s'
  | EmptyString => None
  end.

Definition check_grant (role : string) (validPermissions : list string) (grant : cfg) : result CatalogError unit :=
  _ ← throw_if (cfg_blank grant) (InvalidGrant role);
  let normalized := normalizePermission grant in
  if bool_decide (normalized = "*"%string) then Ok tt
  else match wildcard_resource normalized with
       | Some resource => throw_if (is_empty_string resource) (InvalidWildcard role)
       | None => throw_if (negb (set_has normalized validPermissions)) (UnknownPermission role normalized)
       end.

Fixpoint all_ok {A} (f : A -> result CatalogError unit) (l : list A) : result CatalogError unit :=
  match l with [] => Ok tt | x :: l' => _ ← f x; all_ok f l' end.

Definition check_role_grants (validPermissions : list string) (entry : string * option (list cfg)) : result CatalogError unit :=
  _ ← throw_if (blank (fst entry)) EmptyGrantRole;
  grants ← from_option_or (snd entry) (GrantsNotArray (fst entry));
  all_ok (check_grant (fst entry) validPermissions) grants.

Definition validateGrantsConfig (config : GrantsConfig) (validPermissions : list string)
    : result CatalogError (list (string * option (list cfg))) :=
  member ← from_option_or config NoGrantsMember;
  entries ← from_option_or member GrantsNotObject;
  _ ← all_ok (check_role_grants validPermissions) entries;
  mret entries.

Definition buildPermissionCatalog (permissionsConfig : PermissionsConfig) (grantsConfig : GrantsConfig)
    : result CatalogError PermissionCatalog :=
  raw ← validatePermissionsConfig permissionsConfig;
  let permissions := set_of (normalizePermissionList raw) in
  entries ← validateGrantsConfig grantsConfig permissions;
  mret {| pc_permissions := permissions;
          pc_grantsByRole := fold_left (fun m e => map_set (normalizePermission (cfg_str (fst e)))
            (set_of (normalizePermissionList (default [] (snd e)))) m) entries [] |}.

(** [s.split(c)]. *)
Fixpoint split_on (c : ascii) (s : string) : list string :=
  match s with
  | EmptyString => [EmptyString]
  | String a s' =>
      if Ascii.eqb a c then EmptyString :: split_on c s'
      else match split_on c s' with part :: parts => String a part :: parts | [] => [String a EmptyString] end
  end.

Definition matchesGrant (permission grant : string) : bool :=
  let normalizedPermission := normalizePermission (cfg_str permission) in
  let normalizedGrant := normalizePermission (cfg_str grant) in
  if bool_decide (normalizedGrant = "*"%string) then true
  else if bool_decide (normalizedPermission = normalizedGrant) then true
  else match wildcard_resource normalizedGrant, split_on ":" normalizedPermission with
       | Some grantResource, [resource; _] => bool_decide (resource = grantResource)
       | _, _ => false
       end.

Definition hasPermission (catalog : PermissionCatalog) (role permission : string) : bool :=
  let normalizedPermission := normalizePermission (cfg_str permission) in
  if negb (set_has normalizedPermission (pc_permissions catalog)) then false
  else match map_get (normalizePermission (cfg_str role)) (pc_grantsByRole catalog) with
       | None | Some [] => false
       | Some grants => existsb (matchesGrant normalizedPermission) grants
       end.

Definition getEffectivePermissions (catalog : PermissionCatalog) (role : string) : list string :=
  match map_get (normalizePermission (cfg_str role)) (pc_grantsByRole catalog) with
  | None | Some [] => []
  | Some grants => set_of (List.filter (fun permission => existsb (matchesGrant permission) grants) (pc_permissions catalog))
  end.

Definition requirePermission (jwtVerify : string -> string -> VerifyJwtKeyOptions -> option VerifiedJwtPayload) (config : JwtConfig)
    (h : RoleHierarchy) (catalog : PermissionCatalog) (requiredPermission : string)
    : result RequireError (Z -> option string -> Handled) :=
  let permission := to_lower (js_trim requiredPermission) in
  _ ← throw_if (is_empty_string permission) NoPermission;
  _ ← throw_if (negb (set_has permission (pc_permissions catalog))) (UnknownRequiredPermission requiredPermission);
  mret (fun now authorization =>
    match authenticate jwtVerify config now authorization with
    | Err message => unauthenticated message
    | Ok (userId, claims) =>
        let role := parsedRole h claims in
        let granted := hasPermission catalog role permission in
        {| hd_audit := PermissionEvent (if granted then "PERMISSION_GRANTED" else "PERMISSION_DENIED") role permission
                         (if granted then 200 else 403) ::
                       (if granted then [] else [RbacEvent "RBAC_FORBIDDEN" 403 (Some role) [permission]]);
           hd_auth := Some {| ra_userId := userId; ra_role := role |};
           hd_answer := if granted then Next else forbidden |}
    end).

(** *** What a grant covers *)

Lemma wildcard_resource_spec s r : wildcard_resource s = Some r <-> s = (r +:+ ":*")%string.
Proof.
  revert r. induction s as [|a s IH]; intros r; [cbn; split; [done|by destruct r]|].
  destruct s as [|b [|c s]].
  - cbn. split; [done|]. by destruct r as [|? [|? ?]].
  - cbn. destruct (Ascii.eqb_spec a ":"), (Ascii.eqb_spec b "*"); cbn; subst; split; try done.
    all: try (intros [= <-]; done). all: destruct r as [|? [|? [|? ?]]]; cbn; intros [= ? ?] || (intros Hx; by inversion Hx); congruence.
  - remember (String b (String c s)) as t eqn:Et. assert (wildcard_resource (String a t) = String a <$> wildcard_resource t) as Hs by (by subst).
    rewrite Hs. clear Hs. split.
    + intros (r' & Hr' & ->)%fmap_Some. apply IH in Hr' as ->. done.
    + destruct r as [|d r]; [intros Hx; subst t; discriminate Hx|]. cbn [String.app]. intros [= -> Ht]. apply IH in Ht. by rewrite Ht.
Qed.

Fixpoint no_char (c : ascii) (s : string) : Prop :=
  match s with EmptyString => True | String a s' => a <> c /\ no_char c s' end.

Lemma split_on_nonempty c s : split_on c s <> [].
Proof. destruct s as [|a s]; cbn; [done|]. destruct (Ascii.eqb a c); [done|]. by destruct (split_on c s). Qed.

Lemma split_on_one c s r : split_on c s = [r] <-> s = r /\ no_char c r.
Proof.
  revert r. induction s as [|a s IH]; intros r; cbn.
  - split; [intros [= <-]; done|]. by intros [<- _].
  - destruct (Ascii.eqb_spec a c) as [->|Hne].
    + split; [intros [= _ H]; by apply split_on_nonempty in H|]. intros [<- [? _]]. done.
    + destruct (split_on c s) as [|p ps] eqn:E; [by apply split_on_nonempty in E|]. split.
      * intros [= <- ->]. destruct (proj1 (IH p) eq_refl) as [-> ?]. done.
      * intros [<- [_ Hn]]. f_equal; [f_equal|]; specialize (proj2 (IH s) (conj eq_refl Hn)); congruence.
Qed.

Lemma split_on_two c s r x : split_on c s = [r; x] <-> s = (r +:+ String c x)%string /\ no_char c r /\ no_char c x.
Proof.
  revert r. induction s as [|a s IH]; intros r; cbn.
  - split; [done|]. by intros [H _]; destruct r.
  - destruct (Ascii.eqb_spec a c) as [->|Hne].
    + split.
      * intros [= <- H]. apply split_on_one in H as [-> ?]. done.
      * intros (H & Hr & Hx). destruct r as [|b r]; cbn in H; [|injection H as -> _; by destruct Hr].
        injection H as ->. f_equal. by apply split_on_one.
    + destruct (split_on c s) as [|p ps] eqn:E; [by apply split_on_nonempty in E|]. split.
      * intros [= <- ->]. destruct (proj1 (IH p) eq_refl) as (-> & ? & ?). done.
      * intros (H & Hr & Hx). destruct r as [|b r]; cbn in H; [injection H as -> ->; done|]. injection H as -> ->.
        destruct Hr as [_ Hr]. specialize (proj2 (IH r) (conj eq_refl (conj Hr Hx))). congruence.
Qed.

(** A grant covers everything, one permission, or the actions of one resource. *)
Definition covers (grant permission : string) : Prop :=
  grant = "*"%string \/ permission = grant \/
  exists resource action, grant = (resource +:+ ":*")%string /\ permission = (resource +:+ String ":" action)%string /\
    no_char ":" resource /\ no_char ":" action.

Lemma matchesGrant_covers permission grant :
  matchesGrant permission grant = true <->
  covers (normalizePermission (cfg_str grant)) (normalizePermission (cfg_str permission)).
Proof.
  unfold matchesGrant, covers. set (g := normalizePermission (cfg_str grant)). set (p := normalizePermission (cfg_str permission)).
  case_bool_decide; [naive_solver|]. case_bool_decide; [naive_solver|]. destruct (wildcard_resource g) as [gr|] eqn:Eg.
  - assert (g = (gr +:+ ":*")%string) as Hg by by apply wildcard_resource_spec.
    destruct (split_on ":" p) as [|r [|x [|]]] eqn:Es.
    3: { apply split_on_two in Es as (Hp & Hr & Hx). rewrite bool_decide_eq_true. split.
         - intros ->. right; right. eauto 10.
         - intros [?|[?|(r' & a & Hg' & Hp' & Hr' & Ha)]]; [done|done|].
           assert (split_on ":" p = [r'; a]) as E1 by (by apply split_on_two). assert (split_on ":" p = [r; x]) as E2 by (by apply split_on_two).
           rewrite E1 in E2. injection E2 as -> ->. assert (wildcard_resource g = Some r) by (by apply wildcard_resource_spec). congruence. }
    all: split; [done|]; intros [?|[?|(r' & a & Hg' & Hp' & Hr' & Ha)]]; [done|done|];
      assert (split_on ":" p = [r'; a]) by (by apply split_on_two); congruence.
  - split; [done|]. intros [?|[?|(r' & a & Hg' & _)]]; [done|done|]. apply wildcard_resource_spec in Hg'. congruence.
Qed.

(** *** Normal forms *)

Lemma lower_space c : is_js_space (lower_ascii c) = is_js_space c.
Proof. by destruct c as [[] [] [] [] [] [] [] []]. Qed.

Lemma lower_idem c : lower_ascii (lower_ascii c) = lower_ascii c.
Proof. by destruct c as [[] [] [] [] [] [] [] []]. Qed.

Lemma all_space_lower s : all_space (to_lower s) = all_space s.
Proof. induction s as [|c s IH]; cbn; [done|]. by rewrite lower_space, IH. Qed.

Lemma trim_lower s : js_trim (to_lower s) = to_lower (js_trim s).
Proof.
  unfold js_trim. assert (trim_start (to_lower s) = to_lower (trim_start s)) as ->.
  { induction s as [|c s IH]; cbn; [done|]. rewrite lower_space. by destruct (is_js_space c). }
  induction (trim_start s) as [|c t IH]; [done|]. cbn. rewrite lower_space, all_space_lower.
  destruct (is_js_space c && all_space t); cbn; by rewrite ?IH.
Qed.

Lemma normalize_idem v : normalizePermission (cfg_str (normalizePermission v)) = normalizePermission v.
Proof.
  destruct v as [s|]; [|done]. cbn [normalizePermission]. rewrite trim_lower, js_trim_idem. induction (js_trim s) as [|c t IH]; cbn; [done|].
  by rewrite lower_idem, IH.
Qed.

Definition normal (s : string) : Prop := normalizePermission (cfg_str s) = s.

Lemma normalizePermissionList_normal l s : s ∈ normalizePermissionList l -> normal s.
Proof.
  unfold normalizePermissionList. rewrite list_elem_of_In, filter_In, in_map_iff. intros [(v & <- & _) _]. apply normalize_idem.
Qed.

(** A catalogue that loads holds normal forms only. *)
Lemma catalog_normal permissionsConfig grantsConfig catalog :
  buildPermissionCatalog permissionsConfig grantsConfig = Ok catalog ->
  (forall p, p ∈ pc_permissions catalog -> normal p) /\
  (forall r gs g, map_get r (pc_grantsByRole catalog) = Some gs -> g ∈ gs -> normal g).
Proof.
  unfold buildPermissionCatalog. intros (raw & _ & (entries & _ & [= <-])%bind_ok)%bind_ok. cbn [pc_permissions pc_grantsByRole]. split.
  - intros p. rewrite set_of_elem. apply normalizePermissionList_normal.
  - assert (forall r gs g, map_get r ([] : jsmap (list string)) = Some gs -> g ∈ gs -> normal g) as H by done. revert H.
    generalize ([] : jsmap (list string)). induction entries as [|e entries IH]; intros m H; cbn [fold_left]; [exact H|].
    apply IH. intros r gs g. rewrite map_get_set. case_bool_decide; [|apply H]. intros [= <-]. rewrite set_of_elem.
    apply normalizePermissionList_normal.
Qed.

(** (C30) Permissions are decided by the grants of the role alone: over a
    catalogue that loads, a role holds a permission exactly when the permission
    is in the catalogue and one of the role's grants covers it (the full
    wildcard, the permission itself, or the wildcard of its resource, which
    never reaches another resource), and the expanded list given to clients
    holds exactly the permissions the check grants. *)
Theorem permission_granted_iff permissionsConfig grantsConfig catalog role permission :
  buildPermissionCatalog permissionsConfig grantsConfig = Ok catalog ->
  (hasPermission catalog role permission = true <->
     normalizePermission (cfg_str permission) ∈ pc_permissions catalog /\
     exists grants g, map_get (normalizePermission (cfg_str role)) (pc_grantsByRole catalog) = Some grants /\ g ∈ grants /\
       covers g (normalizePermission (cfg_str permission))) /\
  (normalizePermission (cfg_str permission) ∈ getEffectivePermissions catalog role <-> hasPermission catalog role permission = true).
Proof.
  intros [Hp Hg]%catalog_normal. set (p := normalizePermission (cfg_str permission)).
  assert (forall grants, map_get (normalizePermission (cfg_str role)) (pc_grantsByRole catalog) = Some grants ->
            existsb (matchesGrant p) grants = true <-> exists g, g ∈ grants /\ covers g p) as Hm.
  { intros grants Hgr. rewrite existsb_exists. setoid_rewrite <- list_elem_of_In. setoid_rewrite matchesGrant_covers.
    assert (normalizePermission (cfg_str p) = p) as -> by apply normalize_idem.
    split; intros (g & Hin & Hc); exists g; (split; [done|]); pose proof (Hg _ _ _ Hgr Hin) as Hn; unfold normal in Hn; congruence. }
  unfold hasPermission, getEffectivePermissions, set_has. fold p.
  destruct (map_get _ (pc_grantsByRole catalog)) as [grants|] eqn:Eg; [specialize (Hm grants eq_refl)|]; case_bool_decide as Hin; cbn [negb].
  1, 2: assert (exists b, match grants with [] => false | _ :: _ => existsb (matchesGrant p) grants end = b /\
                  existsb (matchesGrant p) grants = b) as (b & E1 & E2) by (destruct grants; eauto).
  - rewrite E1. rewrite E2 in Hm. split; [rewrite Hm; naive_solver|]. destruct grants as [|g0 gs]; [cbn in E2; subst b; set_solver|].
    rewrite set_of_elem, list_elem_of_In, filter_In, <- list_elem_of_In, E2. tauto.
  - split; [naive_solver|]. destruct grants as [|g0 gs]; [set_solver|].
    rewrite set_of_elem, list_elem_of_In, filter_In, <- list_elem_of_In. naive_solver.
  - split; [naive_solver|set_solver].
  - split; [naive_solver|set_solver].
Qed.

(** Part of the two files of the repository. *)
Definition demo_permissions : PermissionsConfig :=
  Some (Some (map cfg_str ["bookings:create"; "bookings:read"; "audit:read"; "audit:export"]%string)).

Definition demo_grants : GrantsConfig :=
  Some (Some [("admin", Some [cfg_str "*"]); ("support", Some [cfg_str "Bookings:*"; cfg_str "audit:read"]);
              ("auditor", Some [cfg_str "audit:*"])]%string).

Lemma permission_granted_iff_witness :
  exists catalog, buildPermissionCatalog demo_permissions demo_grants = Ok catalog /\
    hasPermission catalog "Support" "bookings:read" = true /\
    "bookings:read"%string ∈ getEffectivePermissions catalog "Support" /\
    hasPermission catalog "support" "audit:export" = false.
Proof.
  eexists. split; [vm_compute; reflexivity|]. split; [vm_compute; reflexivity|]. split; [|vm_compute; reflexivity].
  eapply (permission_granted_iff demo_permissions demo_grants _ "Support" "bookings:read"); vm_compute; reflexivity.
Defined.
