(* ===== verification/JsonText.v ===== *)
(** * JsonText: reading JSON text back

    [JSON.parse] on the texts [JSON.stringify] writes ([Canonical]), which the
    transcript store encrypts.  How a number is written and read is a parameter.
    An object is the list of its members in the order of the text; a repeated
    key keeps its last value. *)
From stdpp Require Import base list strings sets.
From Stdlib Require Import ZArith Lia Ascii.
From S2P Require Import Prelude JsNumber JsMap Domain Canonical.
Local Open Scope string_scope.

Definition json_space (c : ascii) : bool :=
  let n := nat_of_ascii c in (n =? 32)%nat || (n =? 9)%nat || (n =? 10)%nat || (n =? 13)%nat.

Fixpoint skip_ws (s : string) : string :=
  match s with
  | String c s' => if json_space c then skip_ws s' else s
  | EmptyString => EmptyString
  end.

(** The rest of a string literal, after its opening quote. *)
Fixpoint read_chars (fuel : nat) (s : string) : option (string * string) :=
  match fuel with
  | O => None
  | S n =>
      match s with
      | EmptyString => None
      | String c s' =>
          if Ascii.eqb c dquote then Some (EmptyString, s')
          else match read_char s with
               | None => None
               | Some (a, r) => match read_chars n r with Some (t, r') => Some (String a t, r') | None => None end
               end
      end
  end.

Fixpoint drop_prefix (p s : string) : option string :=
  match p, s with
  | EmptyString, _ => Some s
  | String a p', String b s' => if Ascii.eqb a b then drop_prefix p' s' else None
  | _, EmptyString => None
  end.

Section Parse.
Context (number_toString : num -> string) (number_read : string -> option (num * string)).

Section Loops.
Context (parse_value : string -> option (Json * string)).

Fixpoint parse_items (fuel : nat) (s : string) (acc : list Json) : option (list Json * string) :=
  match fuel with
  | O => None
  | S n =>
      match parse_value s with
      | None => None
      | Some (v, r) =>
          match skip_ws r with
          | String c r' =>
              if Ascii.eqb c "," then parse_items n r' (acc ++ [v])
              else if Ascii.eqb c "]" then Some ((acc ++ [v])%list, r')
              else None
          | EmptyString => None
          end
      end
  end.

Definition parse_member (s : string) : option (string * Json * string) :=
  match skip_ws s with
  | String q r =>
      if Ascii.eqb q dquote then
        match read_chars (S (String.length r)) r with
        | Some (k, r1) =>
            match skip_ws r1 with
            | String c r2 =>
                if Ascii.eqb c ":" then match parse_value r2 with Some (v, r3) => Some (k, v, r3) | None => None end else None
            | EmptyString => None
            end
        | None => None
        end
      else None
  | EmptyString => None
  end.

Fixpoint parse_members (fuel : nat) (s : string) (acc : jsmap Json) : option (jsmap Json * string) :=
  match fuel with
  | O => None
  | S n =>
      match parse_member s with
      | None => None
      | Some (k, v, r) =>
          match skip_ws r with
          | String c r' =>
              if Ascii.eqb c "," then parse_members n r' (map_set k v acc)
              else if Ascii.eqb c "}" then Some (map_set k v acc, r')
              else None
          | EmptyString => None
          end
      end
  end.

End Loops.

(** The first token decides the shape of a value. *)
Fixpoint parse_value (fuel : nat) (s : string) : option (Json * string) :=
  match fuel with
  | O => None
  | S n =>
      match skip_ws s with
      | EmptyString => None
      | String c r as t =>
          if Ascii.eqb c "{" then
            match skip_ws r with
            | String d r' =>
                if Ascii.eqb d "}" then Some (JObj [], r')
                else prod_map JObj id <$> parse_members (parse_value n) (S (String.length r)) r []
            | EmptyString => None
            end
          else if Ascii.eqb c "[" then
            match skip_ws r with
            | String d r' =>
                if Ascii.eqb d "]" then Some (JArr [], r')
                else prod_map JArr id <$> parse_items (parse_value n) (S (String.length r)) r []
            | EmptyString => None
            end
          else if Ascii.eqb c dquote then prod_map JStr id <$> read_chars (S (String.length r)) r
          else match drop_prefix "null" t with
               | Some r' => Some (JNull, r')
               | None => match drop_prefix "true" t with
               | Some r' => Some (JBool true, r')
               | None => match drop_prefix "false" t with
               | Some r' => Some (JBool false, r')
               | None => prod_map JNum id <$> number_read t
               end end end
      end
  end.

Definition JSON_parse (s : string) : option Json :=
  match parse_value (S (String.length s)) s with
  | Some (j, r) => match skip_ws r with EmptyString => Some j | _ => None end
  | None => None
  end.

(** ** What is written is read back *)

(** A value JSON can write: no undefined member, finite numbers, no key twice. *)
Inductive plain : Json -> Prop :=
| plain_null : plain JNull
| plain_bool b : plain (JBool b)
| plain_num n : is_finite n = true -> plain (JNum n)
| plain_str s : plain (JStr s)
| plain_arr l : Forall plain l -> plain (JArr l)
| plain_obj fs : Forall (fun kv => plain (snd kv)) fs -> NoDup (map fst fs) -> plain (JObj fs).

Fixpoint size (j : Json) : nat :=
  match j with
  | JArr l => S (list_sum (map size l))
  | JObj fs => S (list_sum (map (fun kv => size (snd kv)) fs))
  | _ => 1
  end.

(** What may follow a value in a text. *)
Definition stop (r : string) : Prop :=
  match r with EmptyString => True | String c _ => c = ","%char \/ c = "]"%char \/ c = "}"%char end.

(** The first character of a number. *)
Definition number_head (c : ascii) : Prop := c = "-"%char \/ (48 <= nat_of_ascii c <= 57)%nat.

Context (number_first : forall n, is_finite n = true -> exists c t, number_toString n = String c t /\ number_head c)
        (number_back : forall n r, is_finite n = true -> stop r -> number_read (number_toString n +:+ r) = Some (n, r)).

Lemma read_chars_json fuel a r :
  (String.length a < fuel)%nat -> read_chars fuel (json_chars a +:+ String dquote r) = Some (a, r).
Proof.
  revert fuel. induction a as [|c a IH]; intros [|fuel] Hf; cbn in Hf; try lia; [done|].
  cbn [json_chars]. rewrite str_app_assoc. assert (exists d t, json_char c +:+ (json_chars a +:+ String dquote r) = String d t /\ d <> dquote)
    as (d & t & Ht & Hd).
  { destruct c as [[] [] [] [] [] [] [] []]; cbn; eexists _, _; (split; [reflexivity|]); done. }
  rewrite Ht. cbn [read_chars]. destruct (Ascii.eqb_spec d dquote); [done|]. rewrite <- Ht, read_char_json, IH by lia. done.
Qed.

Lemma json_chars_length a : (String.length a <= String.length (json_chars a))%nat.
Proof.
  induction a as [|c a IH]; cbn; [done|]. rewrite str_length_app.
  assert (1 <= String.length (json_char c))%nat by (destruct c as [[] [] [] [] [] [] [] []]; vm_compute; lia). lia.
Qed.

Lemma stop_comma r : stop ("," +:+ r).
Proof. by left. Qed.

(** A value of a text that is one of these characters or none is read as is. *)
Definition reads (pv : string -> option (Json * string)) (j : Json) : Prop :=
  forall r, stop r -> pv (json_text number_toString j +:+ r) = Some (j, r).

Lemma parse_items_json pv l n r acc :
  l <> [] -> (length l <= n)%nat -> Forall (reads pv) l ->
  parse_items pv n (commas (map (json_text number_toString) l) +:+ String "]" r) acc = Some ((acc ++ l)%list, r).
Proof.
  revert n acc. induction l as [|j l IH]; intros [|n] acc Hne Hn Hl; cbn in Hn; try done; try lia.
  apply Forall_cons in Hl as [Hj Hl]. cbn [parse_items]. destruct l as [|j' l].
  - cbn [commas map]. rewrite Hj by (right; by left). done.
  - change (commas (map (json_text number_toString) (j :: j' :: l))) with
      (json_text number_toString j +:+ "," +:+ commas (map (json_text number_toString) (j' :: l))).
    rewrite !str_app_assoc, Hj by apply stop_comma.
    transitivity (parse_items pv n (commas (map (json_text number_toString) (j' :: l)) +:+ String "]" r) (acc ++ [j])); [reflexivity|].
    rewrite IH; [|done|cbn in *; lia|done]. by rewrite <- app_assoc.
Qed.

Definition member_text (kv : string * Json) : string := json_quote (fst kv) +:+ ":" +:+ json_text number_toString (snd kv).

Lemma parse_member_json pv kv r : reads pv (snd kv) -> stop r -> parse_member pv (member_text kv +:+ r) = Some (fst kv, snd kv, r).
Proof.
  destruct kv as [k j]. intros Hj Hr. cbn [snd] in Hj.
  assert (member_text (k, j) +:+ r = String dquote (json_chars k +:+ String dquote (String ":" (json_text number_toString j +:+ r)))) as ->.
  { unfold member_text, json_quote. cbn [fst snd]. rewrite !str_app_assoc.
    change (String dquote ?x +:+ ?y) with (String dquote (x +:+ y)). by rewrite str_app_assoc. }
  set (t := json_chars k +:+ _). assert (read_chars (S (String.length t)) t = Some (k, String ":" (json_text number_toString j +:+ r))) as Ht.
  { apply read_chars_json. unfold t. rewrite str_length_app. pose proof (json_chars_length k). lia. }
  unfold parse_member. change (skip_ws (String dquote t)) with (String dquote t). cbv beta iota.
  change (Ascii.eqb dquote dquote) with true. cbv beta iota. rewrite Ht.
  change (skip_ws (String ":" ?x)) with (String ":" x). cbv beta iota. change (Ascii.eqb ":" ":") with true. cbv beta iota.
  by rewrite Hj.
Qed.

Lemma parse_members_json pv fs n r acc :
  fs <> [] -> (length fs <= n)%nat -> Forall (fun kv => reads pv (snd kv)) fs -> NoDup (map fst (acc ++ fs)) ->
  parse_members pv n (commas (map member_text fs) +:+ String "}" r) acc = Some ((acc ++ fs)%list, r).
Proof.
  revert n acc. induction fs as [|[k j] fs IH]; intros [|n] acc Hne Hn Hl Hnd; cbn in Hn; try done; try lia.
  apply Forall_cons in Hl as [Hj Hl]. cbn [parse_members].
  assert (map_set k j acc = (acc ++ [(k, j)])%list) as Hset.
  { apply map_set_fresh. intros Hin. rewrite map_app in Hnd. apply NoDup_app in Hnd as (_ & Hd & _). apply (Hd k Hin). cbn. left. }
  destruct fs as [|kv fs].
  - cbn [commas map]. rewrite parse_member_json by (done || (right; by right)). cbn [fst snd].
    change (skip_ws (String "}" r)) with (String "}" r). by rewrite Hset.
  - change (commas (map member_text ((k, j) :: kv :: fs))) with (member_text (k, j) +:+ "," +:+ commas (map member_text (kv :: fs))).
    rewrite !str_app_assoc, parse_member_json by (done || apply stop_comma). cbn [fst snd].
    transitivity (parse_members pv n (commas (map member_text (kv :: fs)) +:+ String "}" r) (map_set k j acc)); [reflexivity|].
    rewrite Hset, IH.
    + by rewrite <- app_assoc.
    + done.
    + cbn in *; lia.
    + done.
    + by rewrite <- app_assoc.
Qed.

Lemma drop_prefix_ne p a s c t : a <> c -> drop_prefix (String a p) (String c t) = s -> s = None.
Proof. intros Hne. cbn [drop_prefix]. destruct (Ascii.eqb_spec a c); congruence. Qed.

Lemma number_token c :
  number_head c ->
  json_space c = false /\ Ascii.eqb c "{" = false /\ Ascii.eqb c "[" = false /\ Ascii.eqb c "]" = false /\ Ascii.eqb c dquote = false /\
  "n"%char <> c /\ "t"%char <> c /\ "f"%char <> c.
Proof.
  intros Hc. assert (negb (Ascii.eqb c "-" || ((48 <=? nat_of_ascii c) && (nat_of_ascii c <=? 57))%nat) = false) as Hb.
  { apply negb_false_iff. destruct Hc as [->|[H1 H2]]; [done|]. apply orb_true_iff. right. apply andb_true_iff.
    split; by apply Nat.leb_le. }
  clear Hc. destruct c as [[] [] [] [] [] [] [] []]; vm_compute in Hb; try discriminate Hb; by split_and!.
Qed.

Lemma obj_text fs :
  Forall (fun kv => plain (snd kv)) fs ->
  json_text number_toString (JObj fs) = "{" +:+ commas (map member_text fs) +:+ "}".
Proof.
  intros H. cbn [json_text]. do 3 f_equal. induction H as [|[k v] fs Hv _ IH]; [done|]. cbn in Hv. cbn [map omap list_omap].
  destruct Hv; f_equal; exact IH.
Qed.

(** The text of a value does not start with a space or a closing bracket. *)
Lemma value_token j : plain j -> exists c t, json_text number_toString j = String c t /\ json_space c = false /\ Ascii.eqb c "]" = false.
Proof.
  intros [ |[]|n Hn| | |fs Hfs _].
  1, 2, 3, 5, 6: eexists _, _; split_and!; reflexivity.
  - destruct (number_first n Hn) as (c & t & Hc & Hh). apply number_token in Hh as (? & _ & _ & ? & _). cbn [json_text].
    rewrite Hn. eauto.
  - rewrite obj_text by done. eexists _, _. split_and!; reflexivity.
Qed.

Lemma skip_ws_token c t : json_space c = false -> skip_ws (String c t) = String c t.
Proof. intros H. cbn. by rewrite H. Qed.

Lemma size_pos j : (1 <= size j)%nat.
Proof. destruct j; cbn [size]; lia. Qed.

Lemma sum_cons {A} (f : A -> nat) x l : list_sum (map f (x :: l)) = (f x + list_sum (map f l))%nat.
Proof. done. Qed.

Lemma sum_in {A} (f : A -> nat) l x : x ∈ l -> (f x <= list_sum (map f l))%nat.
Proof. induction 1; rewrite sum_cons; lia. Qed.

Lemma size_text_commas l : (forall x, x ∈ l -> 1 <= String.length x)%nat -> (length l <= S (String.length (commas l)))%nat.
Proof.
  induction l as [|x l IH]; intros H; [cbn; lia|]. destruct l as [|y l]; [cbn; lia|].
  change (commas (x :: y :: l)) with (x +:+ "," +:+ commas (y :: l)). rewrite !str_length_app.
  specialize (IH ltac:(set_solver)). cbn [length] in *. change (String.length ",") with 1%nat. lia.
Qed.

Lemma parse_value_json n j : plain j -> (size j <= n)%nat -> reads (parse_value n) j.
Proof.
  revert j. induction n as [|n IH]; intros j Hj Hn; [destruct j; cbn in Hn; lia|].
  intros r Hr. destruct Hj as [ |b|x Hx|s|l Hl|fs Hfs Hnd].
  - done.
  - by destruct b.
  - cbn [json_text]. rewrite Hx. pose proof (number_back x r Hx Hr) as Hb. destruct (number_first x Hx) as (c & t & Hc & Hh).
    rewrite Hc in Hb |- *. change (String c t +:+ r) with (String c (t +:+ r)) in *. destruct (number_token c Hh) as (Hs & H1 & H2 & _ & H3 & Hn1 & Hn2 & Hn3).
    cbn [parse_value]. rewrite skip_ws_token by done. cbv beta iota. rewrite H1, H2, H3.
    rewrite (drop_prefix_ne "ull" "n" _ c _ Hn1 eq_refl), (drop_prefix_ne "rue" "t" _ c _ Hn2 eq_refl),
      (drop_prefix_ne "alse" "f" _ c _ Hn3 eq_refl). by rewrite Hb.
  - cbn [json_text]. unfold json_quote. change (String dquote ?x +:+ ?y) with (String dquote (x +:+ y)). rewrite str_app_assoc.
    transitivity (prod_map JStr id <$> read_chars (S (String.length (json_chars s +:+ String dquote r))) (json_chars s +:+ String dquote r));
      [reflexivity|]. rewrite read_chars_json; [done|]. rewrite str_length_app. pose proof (json_chars_length s). lia.
  - cbn [size] in Hn. assert (Forall (reads (parse_value n)) l) as Hrs.
    { apply Forall_forall. intros j Hj. apply IH; [by eapply Forall_forall in Hl|]. pose proof (sum_in size l j Hj). lia. }
    destruct l as [|j l]; [done|]. cbn [json_text]. rewrite !str_app_assoc. set (t := commas _ +:+ "]" +:+ r).
    assert (exists c u, t = String c u /\ json_space c = false /\ Ascii.eqb c "]" = false) as (c & u & Ht & Hs & Hc).
    { apply Forall_cons in Hl as [Hj _]. destruct (value_token j Hj) as (c & u & Hju & ? & ?). unfold t. cbn [map]. rewrite Hju.
      destruct l; cbn; eauto. }
    transitivity (prod_map JArr id <$> parse_items (parse_value n) (S (String.length t)) t []).
    + change ("[" +:+ t) with (String "[" t). cbn [parse_value]. change (skip_ws (String "[" t)) with (String "[" t). cbv beta iota.
      change (Ascii.eqb "[" "{") with false. change (Ascii.eqb "[" "[") with true. cbv beta iota.
      replace (skip_ws t) with (String c u) by (rewrite Ht; by rewrite skip_ws_token). cbv beta iota. by rewrite Hc.
    + unfold t. change ("]" +:+ r) with (String "]" r). rewrite parse_items_json; [done|done| |done].
      rewrite str_length_app. pose proof (size_text_commas (map (json_text number_toString) (j :: l))) as Hlen.
      rewrite length_map in Hlen. enough (length (j :: l) <= S (String.length (commas (map (json_text number_toString) (j :: l)))))%nat by lia.
      apply Hlen. intros x (y & -> & Hy)%list_elem_of_fmap. eapply Forall_forall in Hl; [|exact Hy].
      destruct (value_token y Hl) as (? & ? & -> & _). cbn. lia.
  - cbn [size] in Hn. assert (Forall (fun kv => reads (parse_value n) (snd kv)) fs) as Hrs.
    { apply Forall_forall. intros kv Hkv. apply IH; [by eapply Forall_forall in Hfs|].
      pose proof (sum_in (fun kv => size (snd kv)) fs kv Hkv). cbn in *. lia. }
    rewrite obj_text by done. destruct fs as [|kv fs]; [done|]. rewrite !str_app_assoc. set (t := commas _ +:+ "}" +:+ r).
    assert (exists u, t = String dquote u) as (u & Ht). { unfold t. destruct fs; cbn; eauto. }
    transitivity (prod_map JObj id <$> parse_members (parse_value n) (S (String.length t)) t []).
    + rewrite Ht. reflexivity.
    + unfold t. change ("}" +:+ r) with (String "}" r). rewrite parse_members_json; [done|done| |done|done].
      rewrite str_length_app. pose proof (size_text_commas (map member_text (kv :: fs))) as Hlen.
      rewrite length_map in Hlen. enough (length (kv :: fs) <= S (String.length (commas (map member_text (kv :: fs)))))%nat by lia.
      apply Hlen. intros x (y & -> & _)%list_elem_of_fmap. unfold member_text, json_quote. rewrite !str_length_app. cbn [String.length]. lia.
Qed.

Lemma commas_length l : (list_sum (map String.length l) <= String.length (commas l))%nat.
Proof.
  induction l as [|x l IH]; [done|]. destruct l as [|y l]; [rewrite sum_cons; cbn [map list_sum foldr commas]; lia|].
  change (commas (x :: y :: l)) with (x +:+ "," +:+ commas (y :: l)). rewrite !str_length_app, sum_cons. cbn [String.length]. lia.
Qed.

Lemma list_sum_mono {A} (f g : A -> nat) l : (forall x, x ∈ l -> f x <= g x)%nat -> (list_sum (map f l) <= list_sum (map g l))%nat.
Proof.
  induction l as [|x l IH]; intros H; [done|]. specialize (IH ltac:(set_solver)). specialize (H x ltac:(set_solver)).
  rewrite !sum_cons. lia.
Qed.

Lemma size_text n j : (size j <= n)%nat -> plain j -> (size j <= String.length (json_text number_toString j))%nat.
Proof.
  revert j. induction n as [|n IH]; intros j Hn Hj; [pose proof (size_pos j); lia|].
  destruct Hj as [ |[]|x Hx|s|l Hl|fs Hfs Hnd]; cbn [size] in *; [cbn; lia..| | | |].
  - cbn [json_text]. rewrite Hx. destruct (number_first x Hx) as (c & t & -> & _). cbn. lia.
  - cbn. lia.
  - cbn [json_text]. rewrite !str_length_app. pose proof (commas_length (map (json_text number_toString) l)) as Hc. rewrite map_map in Hc.
    enough (list_sum (map size l) <= list_sum (map (fun x => String.length (json_text number_toString x)) l))%nat by (cbn [String.length]; lia).
    apply list_sum_mono. intros j Hj. apply IH; [pose proof (sum_in size l j Hj); lia|by eapply Forall_forall in Hl].
  - rewrite obj_text by done. rewrite !str_length_app. pose proof (commas_length (map member_text fs)) as Hc. rewrite map_map in Hc.
    enough (list_sum (map (fun kv => size (snd kv)) fs) <= list_sum (map (fun kv => String.length (member_text kv)) fs))%nat
      by (cbn [String.length]; lia).
    apply list_sum_mono. intros kv Hkv. unfold member_text. rewrite !str_length_app.
    enough (size (snd kv) <= String.length (json_text number_toString (snd kv)))%nat by lia.
    apply IH; [pose proof (sum_in (fun kv => size (snd kv)) fs kv Hkv); cbn in *; lia|by eapply Forall_forall in Hfs].
Qed.

(** Every plain value is read back from its text. *)
Lemma json_roundtrip j : plain j -> JSON_parse (json_text number_toString j) = Some j.
Proof.
  intros Hj. unfold JSON_parse. pose proof (parse_value_json (S (String.length (json_text number_toString j))) j Hj) as Hp.
  pose proof (size_text (size j) j ltac:(lia) Hj) as Hs. specialize (Hp ltac:(lia) EmptyString I).
  assert (json_text number_toString j +:+ EmptyString = json_text number_toString j) as E.
  { generalize (json_text number_toString j). intros t. induction t as [|c t IHt]; [done|].
    change (String c (t +:+ EmptyString) = String c t). by rewrite IHt. }
  rewrite E in Hp. by rewrite Hp.
Qed.

End Parse.
