(* ===== verification/KeyWrap.v ===== *)
(** * KeyWrap: wrapping data keys

    [aesKeyWrap] and [aesKeyUnwrap] of [services/disputeMediationTranscriptStore.ts].
    The AES block cipher is a parameter.  A buffer is the list of its bytes. *)
From stdpp Require Import base list strings sets.
From Stdlib Require Import ZArith Lia.
From S2P Require Import Prelude.
Local Open Scope Z_scope.

Abbreviation Buffer := (list Z).

Definition is_byte (b : Z) : Prop := 0 <= b < 256.

(** [buffer.subarray(i * 8, (i + 1) * 8)] for each [i]. *)
Fixpoint blocks_of (n : nat) (b : Buffer) : list Buffer :=
  match n with O => [] | S n' => take 8 b :: blocks_of n' (drop 8 b) end.

Definition AES_KW_IV : Buffer := replicate 8 166.

(** The counter as [aesKeyWrap] lays it out over the bytes [0 .. 7] (its first
    loop is overwritten by the second, which starts at byte 7 with the most
    significant byte), and as [aesKeyUnwrap] does (from byte 0). *)
Definition wrap_counter (t : Z) : Buffer := map (fun k => Z.land (Z.shiftr t (8 * k)) 255) [0; 1; 2; 3; 4; 5; 6; 7].
Definition unwrap_counter (t : Z) : Buffer := map (fun k => Z.land (Z.shiftr t (56 - 8 * k)) 255) [0; 1; 2; 3; 4; 5; 6; 7].

Definition xor_bytes : Buffer -> Buffer -> Buffer := zip_with Z.lxor.

Inductive KeyError : Type :=
| BadPlainLength
| BadWrappedLength
| IntegrityCheckFailed
| UnknownKek (id : string).

(** The pairs [(j, i)] in the order of the two loops of [aesKeyWrap]. *)
Definition rounds (n : nat) : list (nat * nat) := flat_map (fun j => map (pair j) (seq 1 n)) (seq 0 6).

Section Cipher.
Context (aes_encrypt aes_decrypt : Buffer -> Buffer -> Buffer).

(** The registers: [A], and [R] with [R[i]] at position [i - 1]. *)
Abbreviation Registers := (Buffer * list Buffer)%type.

Definition counter_of (n : nat) (round : nat * nat) : Z := Z.of_nat (n * fst round + snd round).

Definition wrap_round (counter : Z -> Buffer) (kek : Buffer) (n : nat) (s : Registers) (round : nat * nat) : Registers :=
  let i := pred (snd round) in
  let B := aes_encrypt kek (fst s ++ default [] (snd s !! i)) in
  (xor_bytes (take 8 B) (counter (counter_of n round)), <[i := take 8 (drop 8 B)]> (snd s)).

Definition unwrap_round (counter : Z -> Buffer) (kek : Buffer) (n : nat) (s : Registers) (round : nat * nat) : Registers :=
  let i := pred (snd round) in
  let B := aes_decrypt kek (xor_bytes (fst s) (counter (counter_of n round)) ++ default [] (snd s !! i)) in
  (take 8 B, <[i := take 8 (drop 8 B)]> (snd s)).

(** Both functions over a layout of the counter. *)
Definition wrap_with (counter : Z -> Buffer) (plainKey kek : Buffer) : result KeyError Buffer :=
  let n := (length plainKey / 8)%nat in
  _ ← throw_if (negb (Nat.eqb (8 * n) (length plainKey)) || Nat.ltb n 1) BadPlainLength;
  let '(A, R) := fold_left (wrap_round counter kek n) (rounds n) (AES_KW_IV, blocks_of n plainKey) in
  mret (A ++ mjoin R).

Definition unwrap_with (counter : Z -> Buffer) (wrapped kek : Buffer) : result KeyError Buffer :=
  let n := pred (length wrapped / 8)%nat in
  _ ← throw_if (negb (Nat.eqb (8 * S n) (length wrapped)) || Nat.ltb n 1) BadWrappedLength;
  let '(A, R) := fold_left (unwrap_round counter kek n) (rev (rounds n)) (take 8 wrapped, blocks_of n (drop 8 wrapped)) in
  _ ← throw_if (negb (bool_decide (A = AES_KW_IV))) IntegrityCheckFailed;
  mret (mjoin R).

Definition aesKeyWrap : Buffer -> Buffer -> result KeyError Buffer := wrap_with wrap_counter.
Definition aesKeyUnwrap : Buffer -> Buffer -> result KeyError Buffer := unwrap_with unwrap_counter.

(** ** With one layout, unwrapping inverts wrapping *)

Context (cipher_length : forall kek b, length b = 16%nat -> length (aes_encrypt kek b) = 16%nat)
        (cipher_back : forall kek b, length b = 16%nat -> aes_decrypt kek (aes_encrypt kek b) = b).

Definition registers_ok (n : nat) (s : Registers) : Prop :=
  length (fst s) = 8%nat /\ length (snd s) = n /\ Forall (fun r => length r = 8%nat) (snd s).

Lemma xor_bytes_back a c : length a = length c -> xor_bytes (xor_bytes a c) c = a.
Proof.
  revert c. induction a as [|x a IH]; intros [|y c] H; cbn in *; [done|done|done|]. f_equal.
  - by rewrite Z.lxor_assoc, Z.lxor_nilpotent, Z.lxor_0_r.
  - apply IH. lia.
Qed.

Lemma xor_bytes_length a c : length a = length c -> length (xor_bytes a c) = length a.
Proof. intros H. unfold xor_bytes. rewrite length_zip_with. lia. Qed.

Lemma round_index n (round : nat * nat) (s : Registers) : registers_ok n s -> (1 <= snd round <= n)%nat -> exists r, snd s !! pred (snd round) = Some r /\ length r = 8%nat.
Proof.
  intros (_ & Hl & Hf) Hi. destruct (lookup_lt_is_Some_2 (snd s) (pred (snd round)) ltac:(lia)) as [r Hr]. exists r.
  split; [done|]. by eapply Forall_lookup_1 in Hf.
Qed.

Lemma wrap_round_spec counter kek n (s : Registers) (round : nat * nat) :
  (forall t, length (counter t) = 8%nat) -> registers_ok n s -> (1 <= snd round <= n)%nat ->
  registers_ok n (wrap_round counter kek n s round) /\ unwrap_round counter kek n (wrap_round counter kek n s round) round = s.
Proof.
  intros Hc Hok Hi. destruct (round_index n round s Hok Hi) as (r & Hr & Hlr). destruct Hok as (Ha & Hl & Hf).
  unfold wrap_round, unwrap_round. rewrite Hr. cbn [fst snd]. change (default [] (Some r)) with r. set (B := aes_encrypt kek _).
  assert (length B = 16%nat) as HB by (apply cipher_length; rewrite length_app; lia).
  assert (length (take 8 B) = 8%nat) as H1 by (rewrite length_take; lia).
  assert (length (take 8 (drop 8 B)) = 8%nat) as H2 by (rewrite length_take, length_drop; lia).
  split.
  - split_and!; cbn [fst snd]; [rewrite xor_bytes_length; congruence|by rewrite length_insert|by apply Forall_insert].
  - rewrite xor_bytes_back by congruence. rewrite list_lookup_insert_eq by (apply lookup_lt_Some in Hr; lia).
    change (default [] (Some ?x)) with x.
    assert (take 8 B ++ take 8 (drop 8 B) = B) as ->.
    { rewrite (take_ge (drop 8 B)) by (rewrite length_drop; lia). apply take_drop. }
    unfold B. rewrite cipher_back by (rewrite length_app; lia). rewrite list_insert_insert_eq.
    rewrite take_app_length' by done. rewrite drop_app_length' by done. rewrite take_ge by lia. destruct s as [A R]. cbn [fst snd] in *.
    f_equal. by apply list_insert_id.
Qed.

Lemma wrap_rounds_spec counter kek n l (s : Registers) :
  (forall t, length (counter t) = 8%nat) -> registers_ok n s -> Forall (fun round : nat * nat => 1 <= snd round <= n)%nat l ->
  registers_ok n (fold_left (wrap_round counter kek n) l s) /\
  fold_left (unwrap_round counter kek n) (rev l) (fold_left (wrap_round counter kek n) l s) = s.
Proof.
  intros Hc. revert s. induction l as [|round l IH]; intros s Hok Hl; [done|]. apply Forall_cons in Hl as [Hr Hl]. cbn [fold_left rev].
  destruct (wrap_round_spec counter kek n s round Hc Hok Hr) as [Hok' Hback]. destruct (IH _ Hok' Hl) as [Hok'' IHb].
  split; [done|]. rewrite fold_left_app, IHb. exact Hback.
Qed.

Lemma blocks_of_ok n b : length b = (8 * n)%nat ->
  length (blocks_of n b) = n /\ Forall (fun r => length r = 8%nat) (blocks_of n b) /\ mjoin (blocks_of n b) = b.
Proof.
  revert b. induction n as [|n IH]; intros b Hb; cbn [blocks_of].
  - destruct b; [done|cbn in Hb; lia].
  - destruct (IH (drop 8 b)) as (H1 & H2 & H3); [rewrite length_drop; lia|]. split_and!; [cbn; lia| |].
    + constructor; [rewrite length_take; lia|done].
    + change (take 8 b ++ mjoin (blocks_of n (drop 8 b)) = b). rewrite H3. apply take_drop.
Qed.

Lemma blocks_of_join (R : list Buffer) : Forall (fun r => length r = 8%nat) R -> blocks_of (length R) (mjoin R) = R.
Proof.
  induction 1 as [|r R Hr _ IH]; [done|]. cbn [length blocks_of]. change (mjoin (r :: R)) with (r ++ mjoin R).
  rewrite take_app_length' by done. rewrite drop_app_length' by done. by rewrite IH.
Qed.

Lemma join_length (R : list Buffer) : Forall (fun r => length r = 8%nat) R -> length (mjoin R) = (8 * length R)%nat.
Proof. induction 1 as [|r R Hr _ IH]; [done|]. change (mjoin (r :: R)) with (r ++ mjoin R). rewrite length_app. cbn [length]. lia. Qed.

Lemma rounds_ok n : Forall (fun round : nat * nat => 1 <= snd round <= n)%nat (rounds n).
Proof.
  apply Forall_forall. intros [j i] (j' & _ & H)%list_elem_of_In%in_flat_map. apply in_map_iff in H as (i' & [= _ ->] & H).
  apply in_seq in H. cbn. lia.
Qed.

(** What wrapping a key of whole blocks gives. *)
Lemma wrap_ok counter key kek w :
  (forall t, length (counter t) = 8%nat) -> wrap_with counter key kek = Ok w ->
  let n := (length key / 8)%nat in
  (1 <= n)%nat /\ length key = (8 * n)%nat /\
  exists A R, fold_left (wrap_round counter kek n) (rounds n) (AES_KW_IV, blocks_of n key) = (A, R) /\
    registers_ok n (A, R) /\ w = A ++ mjoin R /\ length w = (8 * S n)%nat /\ take 8 w = A /\ blocks_of n (drop 8 w) = R.
Proof.
  intros Hc. unfold wrap_with. cbv zeta. set (n := (length key / 8)%nat). intros (u & Hg & H)%bind_ok. destruct u.
  apply throw_if_ok, orb_false_iff in Hg as [Hn%negb_false_iff%Nat.eqb_eq Hn1%Nat.ltb_ge].
  destruct (fold_left _ _ _) as [A R] eqn:Ef. injection H as <-. split; [done|]. split; [lia|]. exists A, R.
  destruct (blocks_of_ok n key ltac:(lia)) as (Hb1 & Hb2 & _).
  destruct (wrap_rounds_spec counter kek n (rounds n) (AES_KW_IV, blocks_of n key) Hc) as [Hok _];
    [by split_and!|apply rounds_ok|]. rewrite Ef in Hok. pose proof Hok as (HA & HR & HF). cbn [fst snd] in *.
  split; [done|]. split; [done|]. split; [done|]. split_and!; [|by rewrite take_app_length'|].
  - rewrite length_app, join_length by done. lia.
  - rewrite drop_app_length' by done. rewrite <- HR. by apply blocks_of_join.
Qed.

(** The key comes back whenever both sides lay out the counter the same way. *)
Lemma wrap_roundtrip counter key kek w :
  (forall t, length (counter t) = 8%nat) -> wrap_with counter key kek = Ok w -> unwrap_with counter w kek = Ok key.
Proof.
  intros Hc Hw. destruct (wrap_ok counter key kek w Hc Hw) as (Hn & Hk & A & R & Ef & Hok & -> & Hlw & Ht & Hd).
  unfold unwrap_with. cbv zeta. rewrite Hlw. set (n := (length key / 8)%nat) in *.
  replace (pred (8 * S n / 8))%nat with n by (rewrite (Nat.mul_comm 8), Nat.div_mul; lia).
  rewrite Nat.eqb_refl, (proj2 (Nat.ltb_ge n 1)) by lia. cbn [negb orb throw_if mbind result_bind]. rewrite Ht, Hd.
  destruct (blocks_of_ok n key Hk) as (Hb1 & Hb2 & Hb3).
  destruct (wrap_rounds_spec counter kek n (rounds n) (AES_KW_IV, blocks_of n key) Hc) as [_ Hback];
    [by split_and!|apply rounds_ok|]. rewrite Ef in Hback.  rewrite Hback. rewrite bool_decide_true by done.
  cbn [negb throw_if mbind result_bind mret result_ret]. by rewrite Hb3.
Qed.

(** ** The two layouts differ *)

(** The last block [aesKeyWrap] took from the cipher, and the first block
    [aesKeyUnwrap] hands to it. *)
Definition last_encrypted (kek key : Buffer) : Buffer :=
  let n := (length key / 8)%nat in
  let s := fold_left (wrap_round wrap_counter kek n) (removelast (rounds n)) (AES_KW_IV, blocks_of n key) in
  aes_encrypt kek (fst s ++ default [] (snd s !! pred n)).

Definition first_decrypted (wrapped : Buffer) : Buffer :=
  let n := pred (length wrapped / 8)%nat in
  xor_bytes (take 8 wrapped) (unwrap_counter (Z.of_nat (6 * n))) ++ default [] (blocks_of n (drop 8 wrapped) !! pred n).

Lemma rounds_last n : (1 <= n)%nat -> rounds n = removelast (rounds n) ++ [(5, n)]%nat.
Proof.
  intros Hn. unfold rounds. cbn [seq flat_map]. rewrite !app_nil_r, !app_assoc.
  assert (map (pair 5%nat) (seq 1 n) = map (pair 5%nat) (seq 1 (pred n)) ++ [(5, n)]%nat) as ->.
  { replace n with (pred n + 1)%nat at 1 by lia. rewrite seq_app, map_app. cbn. do 3 f_equal. lia. }
  rewrite app_assoc, removelast_last. done.
Qed.

(** Undoing the wrong layout changes the first byte of the block. *)
Lemma layouts_differ t b : 0 < t < 256 -> length b = 8%nat -> xor_bytes (xor_bytes b (wrap_counter t)) (unwrap_counter t) <> b.
Proof.
  intros Ht Hb Heq. destruct b as [|x b]; [done|]. cbn in Heq. injection Heq as Hx _.
  assert (Z.land (Z.shiftr t 0) 255 = t) as E1.
  { rewrite Z.shiftr_0_r. change 255 with (Z.ones 8). rewrite Z.land_ones by lia. apply Z.mod_small. lia. }
  assert (Z.shiftr t 56 = 0) as E2 by (rewrite Z.shiftr_div_pow2 by lia; apply Z.div_small; lia).
  change (Z.lxor (Z.lxor x (Z.land (Z.shiftr t 0) 255)) (Z.land (Z.shiftr t 56) 255) = x) in Hx.
  rewrite E1, E2, Z.land_0_l, Z.lxor_0_r in Hx.
  assert (Z.lxor x (Z.lxor x t) = 0) as Hz by (rewrite Hx; apply Z.lxor_nilpotent).
  rewrite <- Z.lxor_assoc, Z.lxor_nilpotent, Z.lxor_0_l in Hz. lia.
Qed.

(** Unwrapping does not undo wrapping: whatever the block cipher, for every
    key of at most 42 blocks (the data keys have four) the first block that
    [aesKeyUnwrap] hands to the cipher is not the last block [aesKeyWrap]
    obtained from it, because the two functions lay out the round counter in
    opposite byte orders. *)
Theorem key_wrap_mismatch key kek w :
  (length key <= 336)%nat -> aesKeyWrap key kek = Ok w -> first_decrypted w <> last_encrypted kek key.
Proof.
  intros Hlen Hw. destruct (wrap_ok wrap_counter key kek w ltac:(done) Hw) as (Hn & Hk & A & R & Ef & Hok & -> & Hlw & Ht & Hd).
  unfold first_decrypted, last_encrypted. rewrite Hlw. set (n := (length key / 8)%nat) in *. cbv zeta.
  replace (pred (8 * S n / 8))%nat with n by (rewrite (Nat.mul_comm 8), Nat.div_mul; lia). rewrite Ht.
  pose proof (rounds_ok n) as Hr. rewrite (rounds_last n Hn) in Ef, Hr. apply Forall_app in Hr as [Hr _].
  rewrite fold_left_app in Ef. destruct (blocks_of_ok n key Hk) as (Hb1 & Hb2 & _).
  destruct (wrap_rounds_spec wrap_counter kek n _ (AES_KW_IV, blocks_of n key) ltac:(done) ltac:(by split_and!) Hr) as [Hok' _].
  set (s := fold_left _ (removelast (rounds n)) _) in *. destruct (round_index n (5, n)%nat s Hok' ltac:(cbn [snd]; lia)) as (r & Hri & Hrl).
  cbn [fold_left] in Ef. unfold wrap_round in Ef. cbn [fst snd] in Ef, Hri. rewrite Hri in Ef |- *.
  change (default [] (Some r)) with r in *. set (B := aes_encrypt kek (fst s ++ r)) in *.
  assert (length B = 16%nat) as HB by (apply cipher_length; rewrite length_app; destruct Hok' as [-> _]; lia).
  injection Ef as <- _. intros Heq. apply (f_equal (take 8)) in Heq.
  assert (length (take 8 B) = 8%nat) as Hl8 by (rewrite length_take; lia).
  assert (forall c t, length c = 8%nat -> length (xor_bytes c (wrap_counter t)) = 8%nat) as Hx1
    by (intros c t Hc; rewrite xor_bytes_length; rewrite Hc; done).
  assert (forall c t, length c = 8%nat -> length (xor_bytes c (unwrap_counter t)) = 8%nat) as Hx2
    by (intros c t Hc; rewrite xor_bytes_length; rewrite Hc; done).
  rewrite take_app_length' in Heq by (symmetry; by apply Hx2, Hx1).
  replace (counter_of n (5, n)%nat) with (Z.of_nat (6 * n)) in Heq by (unfold counter_of; cbn [fst snd]; lia).
  apply (layouts_differ (Z.of_nat (6 * n)) (take 8 B)) in Heq; [done|lia|done].
Qed.

End Cipher.

(** A block cipher for the witnesses: each byte is masked with the first byte of
    the key. *)
Definition mask_block (kek b : Buffer) : Buffer := map (Z.lxor (hd 0 kek)) b.

Lemma mask_length kek b : length b = 16%nat -> length (mask_block kek b) = 16%nat.
Proof. intros. unfold mask_block. by rewrite length_map. Qed.

Lemma mask_back kek b : length b = 16%nat -> mask_block kek (mask_block kek b) = b.
Proof.
  intros _. unfold mask_block. rewrite map_map. rewrite <- (map_id b) at 2. apply map_ext. intros x.
  by rewrite <- Z.lxor_assoc, Z.lxor_nilpotent, Z.lxor_0_l.
Qed.

Lemma key_wrap_mismatch_witness :
  exists w, aesKeyWrap mask_block (replicate 32 7) [90] = Ok w /\
    first_decrypted w <> last_encrypted mask_block [90] (replicate 32 7) /\
    aesKeyUnwrap mask_block w [90] = Err IntegrityCheckFailed.
Proof.
  eexists. split; [vm_compute; reflexivity|]. split; [|vm_compute; reflexivity].
  apply (key_wrap_mismatch mask_block mask_block mask_length mask_back); [cbn; lia|vm_compute; reflexivity].
Defined.
