(* ===== verification/Transcripts.v ===== *)
(** * Transcripts: encrypted mediation transcripts

    [services/disputeMediationTranscriptStore.ts]: envelope encryption of a
    segment, the in-memory key service, key provider and repository, the store,
    and the retention sweep.  AES-GCM and SHA-256 are parameters, and so is the
    way JSON writes a number; the random draws of an operation are its arguments.
    Time stamps are epoch milliseconds (the store writes them as ISO strings). *)
From stdpp Require Import base list strings sets.
From Stdlib Require Import ZArith Lia Ascii.
From S2P Require Import Prelude JsNumber JsMap Domain Canonical JsonText KeyWrap.
Local Open Scope Z_scope.

Inductive TranscriptKind : Type := chat | voice | evidence_excerpt | mediator_note.

Inductive TranscriptParticipantRole : Type :=
| tr_buyer | tr_supplier | tr_mediator | tr_senior_arbiter | tr_observer | tr_automation.

Definition role_text (r : TranscriptParticipantRole) : string :=
  match r with
  | tr_buyer => "buyer" | tr_supplier => "supplier" | tr_mediator => "mediator"
  | tr_senior_arbiter => "senior_arbiter" | tr_observer => "observer" | tr_automation => "automation"
  end.

Definition role_of_text (s : string) : option TranscriptParticipantRole :=
  find_first (fun r => bool_decide (role_text r = s))
    [tr_buyer; tr_supplier; tr_mediator; tr_senior_arbiter; tr_observer; tr_automation].

Record TranscriptParticipant : Type := {
  tp_id : string;
  tp_role : TranscriptParticipantRole;
  tp_displayName : option string;
  tp_tenantId : option string
}.

Record PlaintextTranscriptSegment : Type := {
  sg_id : string;
  sg_disputeId : string;
  sg_kind : TranscriptKind;
  sg_participant : TranscriptParticipant;
  sg_body : string;
  sg_authoredAt : option Z;
  sg_metadata : option (list (string * Json))
}.

Inductive TranscriptRetentionStatus : Type := rt_active | rt_retain_pending_purge | rt_purged.

#[export] Instance retention_status_eq_dec : EqDecision TranscriptRetentionStatus.
Proof. solve_decision. Defined.

Record StoredEncryptedTranscript : Type := {
  st_id : string;
  st_disputeId : string;
  st_kind : TranscriptKind;
  st_participantId : string;
  st_participantRole : TranscriptParticipantRole;
  st_ciphertext : Buffer;
  st_gcmNonce : Buffer;
  st_gcmTag : Buffer;
  st_wrappedDek : Buffer;
  st_kekVersionId : string;
  st_bodySha256 : string;
  st_createdAt : Z;
  st_authoredAt : option Z;
  st_retentionOverrideJurisdiction : option string;
  st_retentionOverrideMs : option num;
  st_retentionStatus : TranscriptRetentionStatus;
  st_purgedAt : option Z
}.

(** ** Key services *)

(** What the store asks of a key service; a KEK is known by its version id. *)
Class TranscriptKms (K : Type) : Type := {
  wrapDek : K -> Buffer -> string -> result KeyError Buffer;
  unwrapDek : K -> Buffer -> string -> result KeyError Buffer
}.

(** What it relies on: a wrapped key is unwrapped under the same KEK. *)
Class KmsLaws (K : Type) `{TranscriptKms K} : Prop :=
  unwrap_wrap : forall (kms : K) dek id w, wrapDek kms dek id = Ok w -> unwrapDek kms w id = Ok dek.

Record InMemoryKms : Type := { km_keys : jsmap Buffer }.

Definition registerKek (id : string) (material : Buffer) (k : InMemoryKms) : InMemoryKms :=
  {| km_keys := map_set id material (km_keys k) |}.

Definition InMemoryTranscriptKms (aes_encrypt aes_decrypt : Buffer -> Buffer -> Buffer) : TranscriptKms InMemoryKms := {|
  wrapDek k dek id := key ← from_option_or (map_get id (km_keys k)) (UnknownKek id); aesKeyWrap aes_encrypt dek key;
  unwrapDek k w id := key ← from_option_or (map_get id (km_keys k)) (UnknownKek id); aesKeyUnwrap aes_decrypt w key
|}.

Record KekProvider : Type := { kp_active : string; kp_byId : list string }.

Definition new_provider (initialActive : string) : KekProvider := {| kp_active := initialActive; kp_byId := [initialActive] |}.
Definition register (id : string) (p : KekProvider) : KekProvider := {| kp_active := kp_active p; kp_byId := id :: kp_byId p |}.
Definition setActive (id : string) (p : KekProvider) : KekProvider := {| kp_active := id; kp_byId := id :: kp_byId p |}.
Definition getKekById (p : KekProvider) (id : string) : result KeyError string :=
  if bool_decide (id ∈ kp_byId p) then Ok id else Err (UnknownKek id).

(** ** Retention *)

Definition DEFAULT_RETENTION_MS : Z := 7 * 365 * 24 * 60 * 60 * 1000.

Definition JURISDICTION_RETENTION_OVERRIDES : list (string * Z) :=
  [("gdpr-default", 3 * 365 * 24 * 60 * 60 * 1000); ("finra-us", 10 * 365 * 24 * 60 * 60 * 1000);
   ("fca-uk", 6 * 365 * 24 * 60 * 60 * 1000)]%string.

(** The names every object literal inherits: looking one up gives a value that is
    not a number, and adding it to a number gives a text that compares with none. *)
Definition inherited_names : list string :=
  ["constructor"; "__proto__"; "hasOwnProperty"; "isPrototypeOf"; "propertyIsEnumerable"; "toLocaleString"; "toString"; "valueOf";
   "__defineGetter__"; "__defineSetter__"; "__lookupGetter__"; "__lookupSetter__"]%string.

Definition jurisdiction_ms (j : string) : option num :=
  match find_first (fun p => bool_decide (fst p = j)) JURISDICTION_RETENTION_OVERRIDES with
  | Some (_, ms) => Some (of_Z ms)
  | None => if bool_decide (j ∈ inherited_names) then Some NaN else None
  end.

Record RetentionWindow : Type := {
  rw_closeAtMs : num;
  rw_sourceMs : num;
  rw_overrideMs : option num;
  rw_overrideJurisdiction : option string
}.

Definition computeRetentionClose (createdAtMs : Z) (overrideJurisdiction : option string) (overrideMs : option num) : RetentionWindow :=
  let by_jurisdiction :=
    match overrideJurisdiction with
    | Some j => if is_empty_string j then None else jurisdiction_ms j
    | None => None
    end in
  match overrideMs with
  | Some ms =>
      if is_finite ms && gtb ms zero then
        {| rw_closeAtMs := add (of_Z createdAtMs) ms; rw_sourceMs := ms; rw_overrideMs := Some ms;
           rw_overrideJurisdiction := overrideJurisdiction |}
      else match by_jurisdiction with
           | Some ms' => {| rw_closeAtMs := add (of_Z createdAtMs) ms'; rw_sourceMs := ms'; rw_overrideMs := None;
                            rw_overrideJurisdiction := overrideJurisdiction |}
           | None => {| rw_closeAtMs := add (of_Z createdAtMs) (of_Z DEFAULT_RETENTION_MS);
                        rw_sourceMs := of_Z DEFAULT_RETENTION_MS; rw_overrideMs := None; rw_overrideJurisdiction := None |}
           end
  | None =>
      match by_jurisdiction with
      | Some ms' => {| rw_closeAtMs := add (of_Z createdAtMs) ms'; rw_sourceMs := ms'; rw_overrideMs := None;
                       rw_overrideJurisdiction := overrideJurisdiction |}
      | None => {| rw_closeAtMs := add (of_Z createdAtMs) (of_Z DEFAULT_RETENTION_MS);
                   rw_sourceMs := of_Z DEFAULT_RETENTION_MS; rw_overrideMs := None; rw_overrideJurisdiction := None |}
      end
  end.

(** ** The in-memory repository *)

Definition Rows : Type := jsmap StoredEncryptedTranscript.

Definition insert_row (stored : StoredEncryptedTranscript) (rows : Rows) : Rows := map_set (st_id stored) stored rows.

Definition findById (id : string) (rows : Rows) : option StoredEncryptedTranscript := map_get id rows.

Definition is_purged (r : StoredEncryptedTranscript) : bool := bool_decide (st_retentionStatus r = rt_purged).

Definition listByDispute (disputeId : string) (rows : Rows) : list StoredEncryptedTranscript :=
  js_sort (fun a b => st_createdAt b <? st_createdAt a)
    (List.filter (fun r => bool_decide (st_disputeId r = disputeId) && negb (is_purged r)) (map_values rows)).

Definition expired (nowMs : Z) (r : StoredEncryptedTranscript) : bool :=
  geb (of_Z nowMs)
    (rw_closeAtMs (computeRetentionClose (st_createdAt r) (st_retentionOverrideJurisdiction r) (st_retentionOverrideMs r))).

Definition wipe (nowMs : Z) (r : StoredEncryptedTranscript) : StoredEncryptedTranscript :=
  {| st_id := st_id r; st_disputeId := st_disputeId r; st_kind := st_kind r; st_participantId := st_participantId r;
     st_participantRole := st_participantRole r; st_ciphertext := []; st_gcmNonce := []; st_gcmTag := []; st_wrappedDek := [];
     st_kekVersionId := st_kekVersionId r; st_bodySha256 := st_bodySha256 r; st_createdAt := st_createdAt r;
     st_authoredAt := st_authoredAt r; st_retentionOverrideJurisdiction := st_retentionOverrideJurisdiction r;
     st_retentionOverrideMs := st_retentionOverrideMs r; st_retentionStatus := rt_purged; st_purgedAt := Some nowMs |}.

(** The loop over the rows, with the count so far. *)
Fixpoint purge_from (nowMs limit count : Z) (rows : Rows) : Rows * list string :=
  match rows with
  | [] => ([], [])
  | (k, row) :: rows' =>
      if limit <=? count then (rows, [])
      else if negb (is_purged row) && expired nowMs row then
        let '(rest, ids) := purge_from nowMs limit (count + 1) rows' in ((k, wipe nowMs row) :: rest, st_id row :: ids)
      else let '(rest, ids) := purge_from nowMs limit count rows' in ((k, row) :: rest, ids)
  end.

Definition purgeExpired (nowMs limit : Z) (rows : Rows) : Rows * list string := purge_from nowMs limit 0 rows.

(** ** Sealing and opening a segment *)

Definition opt_field (name : string) (o : option string) : list (string * Json) :=
  match o with Some s => [(name, JStr s)] | None => [] end.

Definition participant_json (p : TranscriptParticipant) : Json :=
  JObj ([("id"%string, JStr (tp_id p)); ("role"%string, JStr (role_text (tp_role p)))] ++
        opt_field "displayName" (tp_displayName p) ++ opt_field "tenantId" (tp_tenantId p)).

Definition payload_json (s : PlaintextTranscriptSegment) : Json :=
  JObj [("body", JStr (sg_body s)); ("metadata", match sg_metadata s with Some fs => JObj fs | None => JNull end);
        ("participant", participant_json (sg_participant s)); ("_ver", JNum (of_Z 1))]%string.

Definition read_str (name : string) (fs : list (string * Json)) : option string :=
  match field name fs with JStr s => Some s | _ => None end.

Definition participant_of (j : Json) : option TranscriptParticipant :=
  match j with
  | JObj fs =>
      id ← read_str "id" fs; text ← read_str "role" fs; r ← role_of_text text;
      Some {| tp_id := id; tp_role := r; tp_displayName := read_str "displayName" fs; tp_tenantId := read_str "tenantId" fs |}
  | _ => None
  end.

Inductive TranscriptError : Type :=
| KeyFailure (e : KeyError)
| GcmRejects
| BadPayload.

Definition key_step {A} (r : result KeyError A) : result TranscriptError A :=
  match r with Ok a => Ok a | Err e => Err (KeyFailure e) end.

Record EncryptSegmentOutput : Type := {
  es_ciphertext : Buffer;
  es_gcmNonce : Buffer;
  es_gcmTag : Buffer;
  es_wrappedDek : Buffer;
  es_kekVersionId : string;
  es_bodySha256 : string
}.

Record AppendOptions : Type := {
  ao_retentionOverrideJurisdiction : option string;
  ao_retentionOverrideMs : option num;
  ao_now : Z
}.

Record StoreState : Type := { ss_provider : KekProvider; ss_rows : Rows }.

Record SweepReport : Type := { sw_purgedIds : list string; sw_jurisdictions : jsmap Z }.

Section Store.
Context (number_toString : num -> string) (number_read : string -> option (num * string)) (sha256 : string -> string).
Context (gcm_seal : Buffer -> Buffer -> string -> Buffer * Buffer) (gcm_open : Buffer -> Buffer -> Buffer -> Buffer -> option string).
Context {K : Type} `{!TranscriptKms K} (kms : K).

Definition encryptSegment (segment : PlaintextTranscriptSegment) (activeKek : string) (plainDek nonce : Buffer)
    : result TranscriptError EncryptSegmentOutput :=
  let payload := json_text number_toString (payload_json segment) in
  let '(ciphertext, gcmTag) := gcm_seal plainDek nonce payload in
  wrappedDek ← key_step (wrapDek kms plainDek activeKek);
  mret {| es_ciphertext := ciphertext; es_gcmNonce := nonce; es_gcmTag := gcmTag; es_wrappedDek := wrappedDek;
          es_kekVersionId := activeKek; es_bodySha256 := sha256 (sg_body segment) |}.

Definition decryptSegment (p : KekProvider) (stored : StoredEncryptedTranscript) : result TranscriptError PlaintextTranscriptSegment :=
  kek ← key_step (getKekById p (st_kekVersionId stored));
  plainDek ← key_step (unwrapDek kms (st_wrappedDek stored) kek);
  plaintext ← from_option_or (gcm_open plainDek (st_gcmNonce stored) (st_gcmTag stored) (st_ciphertext stored)) GcmRejects;
  payload ← from_option_or (JSON_parse number_read plaintext) BadPayload;
  match payload with
  | JObj fs =>
      participant ← from_option_or (participant_of (field "participant" fs)) BadPayload;
      body ← from_option_or (read_str "body" fs) BadPayload;
      mret {| sg_id := st_id stored; sg_disputeId := st_disputeId stored; sg_kind := st_kind stored; sg_participant := participant;
              sg_body := body; sg_authoredAt := st_authoredAt stored;
              sg_metadata := match field "metadata" fs with JObj md => Some md | _ => None end |}
  | _ => Err BadPayload
  end.

Definition sealed (segment : PlaintextTranscriptSegment) (opts : AppendOptions) (e : EncryptSegmentOutput) : StoredEncryptedTranscript :=
  {| st_id := sg_id segment; st_disputeId := sg_disputeId segment; st_kind := sg_kind segment;
     st_participantId := tp_id (sg_participant segment); st_participantRole := tp_role (sg_participant segment);
     st_ciphertext := es_ciphertext e; st_gcmNonce := es_gcmNonce e; st_gcmTag := es_gcmTag e; st_wrappedDek := es_wrappedDek e;
     st_kekVersionId := es_kekVersionId e; st_bodySha256 := es_bodySha256 e; st_createdAt := ao_now opts;
     st_authoredAt := sg_authoredAt segment; st_retentionOverrideJurisdiction := ao_retentionOverrideJurisdiction opts;
     st_retentionOverrideMs := ao_retentionOverrideMs opts; st_retentionStatus := rt_active; st_purgedAt := None |}.

Definition set_rows (rows : Rows) (s : StoreState) : StoreState := {| ss_provider := ss_provider s; ss_rows := rows |}.

Definition appendSegment (segment : PlaintextTranscriptSegment) (opts : AppendOptions) (plainDek nonce : Buffer)
    : M StoreState TranscriptError StoredEncryptedTranscript :=
  s ← get;
  encrypted ← of_result (encryptSegment segment (kp_active (ss_provider s)) plainDek nonce);
  let stored := sealed segment opts encrypted in
  _ ← modify (set_rows (insert_row stored (ss_rows s)));
  mret stored.

Definition getSegment (id : string) (s : StoreState) : result TranscriptError (option PlaintextTranscriptSegment) :=
  match findById id (ss_rows s) with
  | None => Ok None
  | Some stored => if is_purged stored then Ok None else plain ← decryptSegment (ss_provider s) stored; mret (Some plain)
  end.

Fixpoint decrypt_all (p : KekProvider) (l : list StoredEncryptedTranscript) : result TranscriptError (list PlaintextTranscriptSegment) :=
  match l with
  | [] => Ok []
  | stored :: l' => plain ← decryptSegment p stored; rest ← decrypt_all p l'; mret (plain :: rest)
  end.

Definition listDisputeSegments (disputeId : string) (s : StoreState) : result TranscriptError (list PlaintextTranscriptSegment) :=
  decrypt_all (ss_provider s) (listByDispute disputeId (ss_rows s)).

(** [DisputeMediationRetentionRunner.runOnce]. *)
Definition runOnce (batchLimit : option Z) (nowMs : Z) (s : StoreState) : SweepReport * StoreState :=
  let '(rows, purgedIds) := purgeExpired nowMs (default 500 batchLimit) (ss_rows s) in
  let jurisdiction id :=
    default "default-7y"%string (findById id rows ≫= st_retentionOverrideJurisdiction) in
  ({| sw_purgedIds := purgedIds;
      sw_jurisdictions := fold_left (fun m id => map_set (jurisdiction id) (default 0 (map_get (jurisdiction id) m) + 1) m) purgedIds [] |},
   set_rows rows s).

(** What happens to a store over time. *)
Inductive TranscriptOp : Type :=
| OpAppend (segment : PlaintextTranscriptSegment) (opts : AppendOptions) (plainDek nonce : Buffer)
| OpSweep (batchLimit : option Z) (nowMs : Z)
| OpRegister (id : string)
| OpSetActive (id : string).

Definition apply_op (s : StoreState) (op : TranscriptOp) : StoreState :=
  match op with
  | OpAppend segment opts plainDek nonce => snd (appendSegment segment opts plainDek nonce s)
  | OpSweep batchLimit nowMs => snd (runOnce batchLimit nowMs s)
  | OpRegister id => {| ss_provider := register id (ss_provider s); ss_rows := ss_rows s |}
  | OpSetActive id => {| ss_provider := setActive id (ss_provider s); ss_rows := ss_rows s |}
  end.

(** ** A segment can be read until its retention closes *)

Context (number_first : forall n, is_finite n = true -> exists c t, number_toString n = String c t /\ number_head c)
        (number_back : forall n r, is_finite n = true -> stop r -> number_read (number_toString n +:+ r) = Some (n, r)).
Context (gcm_back : forall key nonce text, gcm_open key nonce (snd (gcm_seal key nonce text)) (fst (gcm_seal key nonce text)) = Some text).
Context `{!KmsLaws K}.

Definition metadata_plain (segment : PlaintextTranscriptSegment) : Prop :=
  match sg_metadata segment with Some fs => plain (JObj fs) | None => True end.

Lemma participant_plain p : plain (participant_json p).
Proof.
  unfold participant_json, opt_field. constructor.
  - destruct (tp_displayName p), (tp_tenantId p); repeat constructor.
  - destruct (tp_displayName p), (tp_tenantId p); cbn; by apply (bool_decide_eq_true (NoDup _)).
Qed.

Lemma payload_plain segment : metadata_plain segment -> plain (payload_json segment).
Proof.
  intros Hmd. unfold payload_json. constructor; [|by apply (bool_decide_eq_true (NoDup _))].
  rewrite !Forall_cons. cbn [snd]. split_and!; [constructor| |apply participant_plain|constructor; by rewrite of_Z_exact|constructor].
  unfold metadata_plain in Hmd. by destruct (sg_metadata segment); [|constructor].
Qed.

Lemma participant_back p : participant_of (participant_json p) = Some p.
Proof. destruct p as [id [] [d|] [t|]]; reflexivity. Qed.

(** Whoever knows the KEK reads what was sealed. *)
Lemma decrypt_sealed segment opts kek dek nonce e p :
  encryptSegment segment kek dek nonce = Ok e -> kek ∈ kp_byId p -> metadata_plain segment ->
  decryptSegment p (sealed segment opts e) = Ok segment.
Proof.
  intros He Hk Hmd. unfold encryptSegment in He. destruct (gcm_seal dek nonce _) as [ct tag] eqn:Eg.
  apply bind_ok in He as (w & Hw & [= <-]). unfold key_step in Hw. destruct (wrapDek kms dek kek) as [w'|] eqn:Ew; [|done]. injection Hw as ->.
  unfold decryptSegment, getKekById. cbn [sealed st_kekVersionId st_wrappedDek st_gcmNonce st_gcmTag st_ciphertext
    es_kekVersionId es_wrappedDek es_gcmNonce es_gcmTag es_ciphertext]. rewrite bool_decide_true by done. cbn [key_step mbind result_bind].
  rewrite (unwrap_wrap kms dek kek w Ew). cbn [key_step mbind result_bind].
  pose proof (gcm_back dek nonce (json_text number_toString (payload_json segment))) as Hb. rewrite Eg in Hb. cbn [fst snd] in Hb.
  rewrite Hb. cbn [from_option_or mbind result_bind].
  rewrite (json_roundtrip number_toString number_read number_first number_back _ (payload_plain segment Hmd)).
  cbn [from_option_or mbind result_bind]. unfold payload_json.
  change (field "participant" _) with (participant_json (sg_participant segment)). rewrite participant_back.
  cbn [from_option_or mbind result_bind]. destruct segment as [id d k p' b a [md|]]; reflexivity.
Qed.

(** *** The sweep *)

Definition due (nowMs : Z) (r : StoredEncryptedTranscript) : bool := negb (is_purged r) && expired nowMs r.

(** Every row sits under its own id. *)
Definition rows_ok (rows : Rows) : Prop := NoDup (map_keys rows) /\ Forall (fun kv => st_id (snd kv) = fst kv) rows.

Lemma purge_from_ids nowMs limit count rows :
  snd (purge_from nowMs limit count rows) = take (Z.to_nat (limit - count)) (map st_id (List.filter (due nowMs) (map_values rows))).
Proof.
  revert count. induction rows as [|[k r] rows IH]; intros count; [cbn; by rewrite take_nil|].
  cbn [purge_from map_values map snd List.filter]. fold (due nowMs r).
  destruct (Z.leb_spec limit count) as [Hle|Hlt]; [replace (Z.to_nat (limit - count)) with 0%nat by lia; done|].
  destruct (due nowMs r) eqn:Ed.
  - specialize (IH (count + 1)). destruct (purge_from nowMs limit (count + 1) rows) as [rest ids]. cbn [snd map] in *.
    replace (Z.to_nat (limit - count)) with (S (Z.to_nat (limit - (count + 1)))) by lia. cbn [take]. by rewrite IH.
  - specialize (IH count). by destruct (purge_from nowMs limit count rows) as [rest ids].
Qed.

Lemma purge_from_keys nowMs limit count rows : map_keys (fst (purge_from nowMs limit count rows)) = map_keys rows.
Proof.
  revert count. induction rows as [|[k r] rows IH]; intros count; [done|]. cbn [purge_from].
  destruct (limit <=? count); [done|]. destruct (negb (is_purged r) && expired nowMs r);
    [specialize (IH (count + 1)); destruct (purge_from nowMs limit (count + 1) rows)
    |specialize (IH count); destruct (purge_from nowMs limit count rows)]; cbn in *; by rewrite IH.
Qed.

(** A reported id is that of a row that was due. *)
Lemma purge_from_due nowMs limit count rows id :
  Forall (fun kv => st_id (snd kv) = fst kv) rows -> id ∈ snd (purge_from nowMs limit count rows) ->
  exists r, (id, r) ∈ rows /\ due nowMs r = true.
Proof.
  intros Hid Hin. rewrite purge_from_ids in Hin. apply elem_of_take in Hin as (i & Hi & _). apply list_elem_of_lookup_2 in Hi.
  apply list_elem_of_fmap in Hi as (r & -> & Hr). apply list_elem_of_In, filter_In in Hr as [Hr Hd].
  apply in_map_iff in Hr as ([k r'] & Hr' & Hin). cbn in Hr'. subst r'. apply list_elem_of_In in Hin. exists r. split; [|done].
  pose proof (proj1 (Forall_forall _ _) Hid _ Hin) as Heq. cbn in Heq. by rewrite Heq.
Qed.

Lemma purged_row_due nowMs limit count rows id r :
  rows_ok rows -> map_get id rows = Some r -> id ∈ snd (purge_from nowMs limit count rows) -> due nowMs r = true.
Proof.
  intros [Hnd Hid] Hr (x & Hx & Hd)%(purge_from_due _ _ _ _ _ Hid). apply (elem_map_get _ _ _ Hnd) in Hx. congruence.
Qed.

(** Exactly the rows whose ids are reported are wiped. *)
Lemma purge_from_get nowMs limit count rows id r :
  rows_ok rows -> map_get id rows = Some r ->
  map_get id (fst (purge_from nowMs limit count rows)) =
    Some (if bool_decide (id ∈ snd (purge_from nowMs limit count rows)) then wipe nowMs r else r).
Proof.
  intros [Hnd Hid]. revert count. induction rows as [|[k r0] rows IH]; intros count Hr; [done|].
  cbn [map_keys map fst] in Hnd. apply NoDup_cons in Hnd as [Hk Hnd]. apply Forall_cons in Hid as [Hk0 Hid]. cbn [fst snd] in Hk0.
  assert (forall c, k ∉ snd (purge_from nowMs limit c rows)) as Hnot.
  { intros c (x & Hx & _)%(purge_from_due _ _ _ _ _ Hid). apply Hk, list_elem_of_fmap. by exists (k, x). }
  cbn [purge_from]. rewrite map_get_cons in Hr. destruct (limit <=? count).
  { cbn [fst snd]. rewrite (bool_decide_false (id ∈ [])) by apply not_elem_of_nil. rewrite map_get_cons. exact Hr. }
  fold (due nowMs r0). destruct (decide (k = id)) as [->|Hne].
  - rewrite (bool_decide_true (id = id)) in Hr by done. injection Hr as ->. destruct (due nowMs r).
    + destruct (purge_from nowMs limit (count + 1) rows) as [rest ids]. cbn [fst snd]. rewrite map_get_cons, Hk0.
      rewrite (bool_decide_true (id = id)) by done. by rewrite (bool_decide_true (id ∈ id :: ids)) by left.
    + specialize (Hnot count). destruct (purge_from nowMs limit count rows) as [rest ids]. cbn [fst snd] in *. rewrite map_get_cons.
      rewrite (bool_decide_true (id = id)) by done. by rewrite (bool_decide_false (id ∈ ids)).
  - rewrite (bool_decide_false (k = id)) in Hr by done. destruct (due nowMs r0).
    + specialize (IH Hnd Hid (count + 1) Hr). destruct (purge_from nowMs limit (count + 1) rows) as [rest ids]. cbn [fst snd] in *.
      rewrite map_get_cons, Hk0, (bool_decide_false (k = id)), IH by done.
      by rewrite (bool_decide_ext (id ∈ k :: ids) (id ∈ ids)) by (rewrite elem_of_cons; naive_solver).
    + specialize (IH Hnd Hid count Hr). destruct (purge_from nowMs limit count rows) as [rest ids]. cbn [fst snd] in *.
      by rewrite map_get_cons, (bool_decide_false (k = id)), IH.
Qed.

Lemma purge_from_ok nowMs limit count rows : rows_ok rows -> rows_ok (fst (purge_from nowMs limit count rows)).
Proof.
  intros [Hnd Hid]. split; [by rewrite purge_from_keys|]. clear Hnd. revert count.
  induction Hid as [|[k r] rows Hk Hid IH]; intros count; [constructor|]. cbn [purge_from].
  destruct (limit <=? count); [by constructor|]. destruct (negb (is_purged r) && expired nowMs r);
    [specialize (IH (count + 1)); destruct (purge_from nowMs limit (count + 1) rows)
    |specialize (IH count); destruct (purge_from nowMs limit count rows)]; by constructor.
Qed.

Lemma append_cases segment opts dek nonce s :
  snd (appendSegment segment opts dek nonce s) = s \/
  exists e, snd (appendSegment segment opts dek nonce s) = set_rows (insert_row (sealed segment opts e) (ss_rows s)) s.
Proof.
  unfold appendSegment, get, of_result, modify, mbind, M_bind. cbn.
  destruct (encryptSegment segment _ dek nonce) as [e|err]; cbn; eauto.
Qed.

Lemma insert_row_ok stored rows : rows_ok rows -> rows_ok (insert_row stored rows).
Proof. intros [Hnd Hid]. split; [by apply map_set_nodup|]. by apply map_set_forall. Qed.

Lemma apply_op_ok op s : rows_ok (ss_rows s) -> rows_ok (ss_rows (apply_op s op)).
Proof.
  intros Hok. destruct op as [segment opts dek nonce|limit now| |]; cbn [apply_op]; [| |done|done].
  - destruct (append_cases segment opts dek nonce s) as [->|(e & ->)]; [done|]. by apply insert_row_ok.
  - unfold runOnce, purgeExpired. pose proof (purge_from_ok now (default 500 limit) 0 (ss_rows s) Hok).
    by destruct (purge_from now (default 500 limit) 0 (ss_rows s)).
Qed.

Definition empty_store (kek : string) : StoreState := {| ss_provider := new_provider kek; ss_rows := [] |}.

Lemma history_ok ops kek : rows_ok (ss_rows (fold_left apply_op ops (empty_store kek))).
Proof.
  assert (rows_ok (ss_rows (empty_store kek))) as H by (split; constructor). revert H. generalize (empty_store kek).
  induction ops as [|op ops IH]; intros s H; [done|]. cbn. by apply IH, apply_op_ok.
Qed.

(** (C28) The sweep is exact: after any history of a store, it wipes the first
    [batchLimit] segments, in order of insertion, that are not purged and whose
    retention window has closed, and no other; a wiped segment has no
    ciphertext, nonce, tag or wrapped key left and can no longer be read, and
    every other segment is as it was. *)
Theorem retention_sweep_exact ops kek batchLimit nowMs id r :
  findById id (ss_rows (fold_left apply_op ops (empty_store kek))) = Some r ->
  let s := fold_left apply_op ops (empty_store kek) in
  let report := fst (runOnce batchLimit nowMs s) in
  let s' := snd (runOnce batchLimit nowMs s) in
  sw_purgedIds report =
    take (Z.to_nat (default 500 batchLimit)) (map st_id (List.filter (due nowMs) (map_values (ss_rows s)))) /\
  (id ∈ sw_purgedIds report -> due nowMs r = true /\ getSegment id s' = Ok None /\
     exists r', findById id (ss_rows s') = Some r' /\ st_ciphertext r' = [] /\ st_wrappedDek r' = [] /\ st_gcmNonce r' = [] /\
       st_gcmTag r' = [] /\ st_purgedAt r' = Some nowMs) /\
  (id ∉ sw_purgedIds report -> findById id (ss_rows s') = Some r /\ getSegment id s' = getSegment id s).
Proof.
  pose proof (history_ok ops kek) as Hok. set (s := fold_left apply_op ops (empty_store kek)) in *. intros Hr. cbv zeta.
  unfold runOnce, purgeExpired. pose proof (purge_from_ids nowMs (default 500 batchLimit) 0 (ss_rows s)) as Hids.
  pose proof (purged_row_due nowMs (default 500 batchLimit) 0 (ss_rows s) id r Hok Hr) as Hdue.
  pose proof (purge_from_get nowMs (default 500 batchLimit) 0 (ss_rows s) id r Hok) as Hget.
  destruct (purge_from nowMs (default 500 batchLimit) 0 (ss_rows s)) as [rows ids]. cbn [fst snd] in *.
  specialize (Hget Hr). rewrite Z.sub_0_r in Hids. cbn [sw_purgedIds ss_rows set_rows]. split; [done|]. split; intros Hin.
  - rewrite bool_decide_true in Hget by done. split.
    + by apply Hdue.
    + unfold getSegment, findById. cbn [ss_rows set_rows]. rewrite Hget. split; [done|]. by eexists.
  - rewrite bool_decide_false in Hget by done. unfold getSegment, findById in *. cbn [ss_rows set_rows ss_provider]. by rewrite Hget, Hr.
Qed.

(** *** Reading a segment back *)

(** What may happen meanwhile: other segments, sweeps before the window closes,
    changes of the active key. *)
Definition spares (id : string) (row : StoredEncryptedTranscript) (op : TranscriptOp) : Prop :=
  match op with
  | OpAppend segment _ _ _ => sg_id segment <> id
  | OpSweep _ nowMs => expired nowMs row = false
  | OpRegister _ | OpSetActive _ => True
  end.

Definition holds (id kek : string) (row : StoredEncryptedTranscript) (s : StoreState) : Prop :=
  rows_ok (ss_rows s) /\ findById id (ss_rows s) = Some row /\ kek ∈ kp_byId (ss_provider s).

Lemma apply_op_holds id kek row op s : spares id row op -> holds id kek row s -> holds id kek row (apply_op s op).
Proof.
  intros Hop (Hok & Hrow & Hkek). split; [by apply apply_op_ok|]. unfold findById in *.
  destruct op as [segment opts dek nonce|limit now|i|i]; cbn [apply_op spares] in *; [| |cbn; set_solver..].
  - destruct (append_cases segment opts dek nonce s) as [->|(e & ->)]; [done|]. cbn [ss_rows ss_provider set_rows]. split; [|done].
    unfold insert_row. rewrite map_get_set_ne; [done|]. cbn [sealed st_id]. congruence.
  - unfold runOnce, purgeExpired. pose proof (purge_from_get now (default 500 limit) 0 (ss_rows s) id row Hok Hrow) as Hget.
    pose proof (purged_row_due now (default 500 limit) 0 (ss_rows s) id row Hok Hrow) as Hdue.
    destruct (purge_from now (default 500 limit) 0 (ss_rows s)) as [rows ids]. cbn [fst snd ss_rows ss_provider set_rows] in *.
    split; [|done]. rewrite Hget. rewrite bool_decide_false; [done|]. intros Hin%Hdue. unfold due in Hin. rewrite Hop in Hin.
    by rewrite andb_false_r in Hin.
Qed.

(** (C27) A transcript segment reads back as it was written: over any key
    service that unwraps what it wrapped, once a segment with JSON metadata has
    been appended, it is returned unchanged after any number of other appends,
    registrations and rotations of the active key, and sweeps that run before
    its retention window closes. *)
Theorem transcript_reads_back segment opts plainDek nonce s stored ops :
  rows_ok (ss_rows s) -> kp_active (ss_provider s) ∈ kp_byId (ss_provider s) -> metadata_plain segment ->
  fst (appendSegment segment opts plainDek nonce s) = Ok stored -> Forall (spares (sg_id segment) stored) ops ->
  getSegment (sg_id segment) (fold_left apply_op ops (snd (appendSegment segment opts plainDek nonce s))) = Ok (Some segment).
Proof.
  intros Hok Hact Hmd Happ Hops. destruct (encryptSegment segment (kp_active (ss_provider s)) plainDek nonce) as [e|err] eqn:Ee.
  2: { unfold appendSegment, get, of_result, mbind, M_bind in Happ. rewrite Ee in Happ. done. }
  assert (appendSegment segment opts plainDek nonce s =
            (Ok (sealed segment opts e), set_rows (insert_row (sealed segment opts e) (ss_rows s)) s)) as Eq.
  { unfold appendSegment, get, of_result, modify, mbind, M_bind. by rewrite Ee. }
  rewrite Eq in Happ |- *. cbn [fst snd] in Happ |- *. injection Happ as <-.
  assert (holds (sg_id segment) (kp_active (ss_provider s)) (sealed segment opts e)
            (set_rows (insert_row (sealed segment opts e) (ss_rows s)) s)) as Hh.
  { split; [by apply insert_row_ok|]. split; [apply (map_get_set_eq (sg_id segment))|done]. }
  revert Hh. generalize (set_rows (insert_row (sealed segment opts e) (ss_rows s)) s). clear Eq.
  induction Hops as [|op ops Hop _ IH]; intros s1 Hh; cbn [fold_left]; [|by apply IH, apply_op_holds].
  destruct Hh as (_ & Hrow & Hkek). unfold getSegment. rewrite Hrow. cbn [sealed is_purged st_retentionStatus].
  change (is_purged (sealed segment opts e)) with false. cbv iota.
  by rewrite (decrypt_sealed segment opts (kp_active (ss_provider s)) plainDek nonce e (ss_provider s1) Ee Hkek Hmd).
Qed.

End Store.

(** ** Instances *)

(** The in-memory key service with one layout of the counter on both sides. *)
Definition aligned_kms : TranscriptKms InMemoryKms := {|
  wrapDek k dek id := key ← from_option_or (map_get id (km_keys k)) (UnknownKek id); wrap_with mask_block wrap_counter dek key;
  unwrapDek k w id := key ← from_option_or (map_get id (km_keys k)) (UnknownKek id); unwrap_with mask_block wrap_counter w key
|}.

Lemma aligned_kms_laws : @KmsLaws InMemoryKms aligned_kms.
Proof.
  intros k dek id w. cbn. destruct (map_get id (km_keys k)) as [key|]; [|done]. cbn.
  apply (wrap_roundtrip mask_block mask_block mask_length mask_back). done.
Qed.

(** A seal for the witnesses: the bytes of the text. *)
Definition demo_seal (_ _ : Buffer) (text : string) : Buffer * Buffer :=
  (map (fun c => Z.of_nat (nat_of_ascii c)) (String.list_ascii_of_string text), []).

Definition demo_open (_ _ _ ciphertext : Buffer) : option string :=
  Some (String.string_of_list_ascii (map (fun z => ascii_of_nat (Z.to_nat z)) ciphertext)).

Lemma demo_seal_open key nonce text :
  demo_open key nonce (snd (demo_seal key nonce text)) (fst (demo_seal key nonce text)) = Some text.
Proof.
  unfold demo_open, demo_seal. cbn [fst snd]. f_equal. rewrite map_map. rewrite <- (String.string_of_list_ascii_of_string text) at 2. f_equal.
  rewrite <- (map_id (String.list_ascii_of_string text)) at 2. apply map_ext. intros c. by rewrite Nat2Z.id, ascii_nat_embedding.
Qed.

(** Numbers for the witnesses: a sign and the bits of the units. *)
Fixpoint bits (p : positive) : string :=
  match p with xH => "2" | xO p' => String "0" (bits p') | xI p' => String "1" (bits p') end.

Fixpoint read_bits (s : string) : option (positive * string) :=
  match s with
  | String "0" s' => match read_bits s' with Some (p, r) => Some (xO p, r) | None => None end
  | String "1" s' => match read_bits s' with Some (p, r) => Some (xI p, r) | None => None end
  | String "2" s' => Some (xH, s')
  | _ => None
  end.

Definition demo_toString (n : num) : string :=
  match n with
  | Fin Z0 => "9"
  | Fin (Zpos p) => String "0" (bits p)
  | Fin (Zneg p) => String "-" (bits p)
  | _ => EmptyString
  end.

Definition demo_read (s : string) : option (num * string) :=
  match s with
  | String "9" s' => Some (Fin 0, s')
  | String "0" s' => match read_bits s' with Some (p, r) => Some (Fin (Zpos p), r) | None => None end
  | String "-" s' => match read_bits s' with Some (p, r) => Some (Fin (Zneg p), r) | None => None end
  | _ => None
  end.

Lemma demo_first n : is_finite n = true -> exists c t, demo_toString n = String c t /\ number_head c.
Proof.
  destruct n as [[|p|p]| | |]; try done; intros _; eexists _, _; (split; [reflexivity|]);
    [right; vm_compute; lia|right; vm_compute; lia|by left].
Qed.

Lemma read_bits_back p r : read_bits (bits p +:+ r) = Some (p, r).
Proof.
  induction p as [p IH|p IH|]; [| |done].
  - change (bits (xI p) +:+ r) with (String "1" (bits p +:+ r)). cbn [read_bits]. by rewrite IH.
  - change (bits (xO p) +:+ r) with (String "0" (bits p +:+ r)). cbn [read_bits]. by rewrite IH.
Qed.

Lemma demo_back n r : is_finite n = true -> stop r -> demo_read (demo_toString n +:+ r) = Some (n, r).
Proof.
  destruct n as [[|p|p]| | |]; try done; intros _ _.
  - change (demo_toString (Fin (Zpos p)) +:+ r) with (String "0" (bits p +:+ r)). unfold demo_read. by rewrite read_bits_back.
  - change (demo_toString (Fin (Zneg p)) +:+ r) with (String "-" (bits p +:+ r)). unfold demo_read. by rewrite read_bits_back.
Qed.

Definition demo_segment (id : string) : PlaintextTranscriptSegment :=
  {| sg_id := id; sg_disputeId := "d1"; sg_kind := chat;
     sg_participant := {| tp_id := "p1"; tp_role := tr_mediator; tp_displayName := Some "Mia"%string; tp_tenantId := None |};
     sg_body := "Hello"; sg_authoredAt := None; sg_metadata := Some [("lang"%string, JStr "en")] |}.

Definition demo_opts (now : Z) : AppendOptions :=
  {| ao_retentionOverrideJurisdiction := None; ao_retentionOverrideMs := None; ao_now := now |}.

Definition demo_kms : InMemoryKms := registerKek "v2" [17] (registerKek "v1" [90] {| km_keys := [] |}).

Abbreviation demo_append kms_class := (@appendSegment demo_toString (fun s => s) demo_seal InMemoryKms kms_class demo_kms).
Abbreviation demo_apply kms_class := (@apply_op demo_toString (fun s => s) demo_seal InMemoryKms kms_class demo_kms).
Abbreviation demo_get kms_class := (@getSegment demo_read demo_open InMemoryKms kms_class demo_kms).

Definition demo_key : Buffer := replicate 32 7.

Definition demo_history : list TranscriptOp :=
  [OpSetActive "v2"; OpAppend (demo_segment "s2") (demo_opts 5) demo_key []; OpSweep None 1000].

Lemma transcript_reads_back_witness :
  exists stored, fst (demo_append aligned_kms (demo_segment "s1") (demo_opts 0) demo_key [] (empty_store "v1")) = Ok stored /\
    demo_get aligned_kms "s1" (fold_left (demo_apply aligned_kms) demo_history
      (snd (demo_append aligned_kms (demo_segment "s1") (demo_opts 0) demo_key [] (empty_store "v1")))) = Ok (Some (demo_segment "s1")).
Proof.
  eexists. split; [vm_compute; reflexivity|].
  eapply (transcript_reads_back demo_toString demo_read (fun s => s) demo_seal demo_open (TranscriptKms0 := aligned_kms) demo_kms
    demo_first demo_back demo_seal_open (KmsLaws0 := aligned_kms_laws) (demo_segment "s1")).
  - split; constructor.
  - left.
  - cbn. constructor; [repeat constructor|apply NoDup_singleton].
  - vm_compute; reflexivity.
  - repeat constructor; vm_compute; done.
Defined.

(** Over the in-memory key service itself the same segment cannot be read. *)
Lemma in_memory_kms_unreadable :
  ~ @KmsLaws InMemoryKms (InMemoryTranscriptKms mask_block mask_block) /\
  demo_get (InMemoryTranscriptKms mask_block mask_block) "s1"
    (snd (demo_append (InMemoryTranscriptKms mask_block mask_block) (demo_segment "s1") (demo_opts 0) demo_key [] (empty_store "v1")))
  = Err (KeyFailure IntegrityCheckFailed).
Proof.
  split; [|vm_compute; reflexivity]. intros Hlaws.
  assert (exists w, @wrapDek _ (InMemoryTranscriptKms mask_block mask_block) demo_kms demo_key "v1" = Ok w /\
            @unwrapDek _ (InMemoryTranscriptKms mask_block mask_block) demo_kms w "v1" = Err IntegrityCheckFailed) as (w & Hw & Hu)
    by (eexists; split; vm_compute; reflexivity).
  apply Hlaws in Hw. rewrite Hw in Hu. discriminate Hu.
Qed.

Lemma retention_sweep_exact_witness :
  let s := fold_left (demo_apply aligned_kms) [OpAppend (demo_segment "s1") (demo_opts 0) demo_key []] (empty_store "v1") in
  exists r, findById "s1" (ss_rows s) = Some r /\
    sw_purgedIds (fst (runOnce None (DEFAULT_RETENTION_MS - 1) s)) = [] /\
    sw_purgedIds (fst (runOnce None DEFAULT_RETENTION_MS s)) = ["s1"%string] /\
    demo_get aligned_kms "s1" (snd (runOnce None DEFAULT_RETENTION_MS s)) = Ok None.
Proof.
  eexists. split; [vm_compute; reflexivity|]. split; [vm_compute; reflexivity|]. split; [vm_compute; reflexivity|].
  eapply (retention_sweep_exact demo_toString demo_read (fun s => s) demo_seal demo_open (TranscriptKms0 := aligned_kms) demo_kms
    [OpAppend (demo_segment "s1") (demo_opts 0) demo_key []] "v1" None DEFAULT_RETENTION_MS "s1"); [vm_compute; reflexivity|].
  vm_compute. left.
Defined.

(** A jurisdiction named like a member every object inherits keeps a segment for ever. *)
Lemma inherited_jurisdiction_never_expires nowMs r j :
  j ∈ inherited_names -> st_retentionOverrideMs r = None -> st_retentionOverrideJurisdiction r = Some j -> expired nowMs r = false.
Proof.
  intros Hj Hms Hr. unfold expired, computeRetentionClose. rewrite Hms, Hr.
  assert (is_empty_string j = false /\ jurisdiction_ms j = Some NaN) as [-> ->].
  { revert j Hj Hr. intros j Hj _. revert j Hj. apply Forall_forall. repeat constructor. }
  cbn [rw_closeAtMs]. unfold add. destruct (of_Z (st_createdAt r)), (of_Z nowMs); done.
Qed.
