(* ===== verification/PayoutFees.v ===== *)
(** * PayoutFees: instant-payout fees and partial refunds

    [services/instantPayoutFeeSchedule.ts] (the fee of a payout by supplier tier,
    with a monthly cap over the accrued fees) and
    [services/partialRefundCalculator.ts] (fixed, then proportional deductions,
    rounded by currency).  Amounts are JavaScript numbers; a month is the pair of
    its year and number, which the key of the source prints. *)
From stdpp Require Import base list strings sets.
From Stdlib Require Import ZArith Lia.
From S2P Require Import Prelude JsNumber JsMap.
Local Open Scope Z_scope.

(** ** Fees *)

Inductive TierId : Type := basic | premium | unlisted.

Record TierFeeConfig : Type := { tf_basisPoints : num; tf_flatFee : num; tf_monthlyCap : num }.

Record FeeScheduleConfig : Type := { fs_basic : TierFeeConfig; fs_premium : TierFeeConfig; fs_unlisted : TierFeeConfig }.

Record CalculateFeeInput : Type := { cf_supplierId : string; cf_tier : string; cf_amount : num; cf_currency : string }.

Record FeeSnapshot : Type := {
  sn_supplierId : string;
  sn_tier : TierId;
  sn_amount : num;
  sn_currency : string;
  sn_calculatedAt : Z
}.

Record FeeCalculationResult : Type := {
  fr_fee : num;
  fr_feeBasisPoints : num;
  fr_flatFee : num;
  fr_capped : bool;
  fr_capRemaining : num;
  fr_monthlyAccrual : num;
  fr_monthlyCap : num;
  fr_tier : TierId;
  fr_snapshot : FeeSnapshot
}.

Definition DEFAULT_SCHEDULE : FeeScheduleConfig :=
  {| fs_basic := {| tf_basisPoints := of_Z 150; tf_flatFee := of_Z 0; tf_monthlyCap := of_Z 50000 |};
     fs_premium := {| tf_basisPoints := of_Z 100; tf_flatFee := of_Z 0; tf_monthlyCap := of_Z 200000 |};
     fs_unlisted := {| tf_basisPoints := of_Z 50; tf_flatFee := of_Z 0; tf_monthlyCap := of_Z 0 |} |}.

Definition Month : Type := Z * Z.

Record AccrualEntry : Type := { ae_total : num; ae_monthKey : Month }.

Definition Accruals : Type := jsmap AccrualEntry.

(** [getUTCFullYear] and [getUTCMonth] of an instant. *)
Definition getMonthKey (ms : Z) : Month :=
  let z := ms / 86400000 + 719468 in
  let era := z / 146097 in
  let doe := z mod 146097 in
  let yoe := (doe - doe / 1460 + doe / 36524 - doe / 146096) / 365 in
  let doy := doe - (365 * yoe + yoe / 4 - yoe / 100) in
  let mp := (5 * doy + 2) / 153 in
  let month := if mp <? 10 then mp + 3 else mp - 9 in
  (yoe + era * 400 + (if month <=? 2 then 1 else 0), month).

Definition getAccrualKey (supplierId currency : string) : string := (supplierId +:+ ":" +:+ currency)%string.

Definition getCurrentAccrual (now : Z) (supplierId currency : string) (accruals : Accruals) : num :=
  match map_get (getAccrualKey supplierId currency) accruals with
  | None => zero
  | Some entry => if bool_decide (ae_monthKey entry = getMonthKey now) then ae_total entry else zero
  end.

Definition addAccrual (now : Z) (supplierId currency : string) (amount : num) (accruals : Accruals) : num * Accruals :=
  let key := getAccrualKey supplierId currency in
  let fresh := (amount, map_set key {| ae_total := amount; ae_monthKey := getMonthKey now |} accruals) in
  match map_get key accruals with
  | None => fresh
  | Some entry =>
      if bool_decide (ae_monthKey entry = getMonthKey now) then
        let total := add (ae_total entry) amount in
        (total, map_set key {| ae_total := total; ae_monthKey := ae_monthKey entry |} accruals)
      else fresh
  end.

Inductive FeeError : Type :=
| BadSupplierId
| BadCurrency
| BadAmount (amount : num)
| NotAnInteger (amount : num)
| UnknownTier (tier : string).

Definition tier_of (tier : string) : option TierId :=
  if bool_decide (tier = "basic"%string) then Some basic
  else if bool_decide (tier = "premium"%string) then Some premium
  else if bool_decide (tier = "unlisted"%string) then Some unlisted
  else None.

Definition validateInput (input : CalculateFeeInput) : result FeeError TierId :=
  _ ← throw_if (is_empty_string (cf_supplierId input)) BadSupplierId;
  _ ← throw_if (is_empty_string (cf_currency input)) BadCurrency;
  _ ← throw_if (negb (is_finite (cf_amount input)) || ltb (cf_amount input) zero) (BadAmount (cf_amount input));
  _ ← throw_if (negb (is_integer (cf_amount input))) (NotAnInteger (cf_amount input));
  from_option_or (tier_of (cf_tier input)) (UnknownTier (cf_tier input)).

Definition tier_config (schedule : FeeScheduleConfig) (tier : TierId) : TierFeeConfig :=
  match tier with basic => fs_basic schedule | premium => fs_premium schedule | unlisted => fs_unlisted schedule end.

(** The instants at which one call reads the clock. *)
Record Clock : Type := { ck_read : Z; ck_accrue : Z; ck_stamp : Z }.

Definition total_fee (c : TierFeeConfig) (amount : num) : num :=
  add (math_round (div (mul amount (tf_basisPoints c)) (of_Z 10000))) (tf_flatFee c).

(** The fee, whether it was capped, and what is left of the cap. *)
Definition apply_cap (monthlyCap accrualBefore totalFee : num) : num * bool * num :=
  let accrualAfter := add accrualBefore totalFee in
  if gtb monthlyCap zero then
    if geb accrualBefore monthlyCap then (zero, true, zero)
    else if gtb accrualAfter monthlyCap then (math_max zero (sub monthlyCap accrualBefore), true, zero)
    else (totalFee, false, sub monthlyCap accrualAfter)
  else (totalFee, false, PInf).

Definition calculateFee (schedule : FeeScheduleConfig) (clock : Clock) (input : CalculateFeeInput)
    : M Accruals FeeError FeeCalculationResult :=
  tier ← of_result (validateInput input);
  accruals ← get;
  let c := tier_config schedule tier in
  let accrualBefore := getCurrentAccrual (ck_read clock) (cf_supplierId input) (cf_currency input) accruals in
  let '(finalFee, capped, capRemaining) := apply_cap (tf_monthlyCap c) accrualBefore (total_fee c (cf_amount input)) in
  _ ← (if gtb finalFee zero
       then modify (fun a => snd (addAccrual (ck_accrue clock) (cf_supplierId input) (cf_currency input) finalFee a))
       else mret tt);
  mret {| fr_fee := finalFee; fr_feeBasisPoints := tf_basisPoints c; fr_flatFee := tf_flatFee c; fr_capped := capped;
          fr_capRemaining := capRemaining; fr_monthlyAccrual := add accrualBefore finalFee; fr_monthlyCap := tf_monthlyCap c;
          fr_tier := tier;
          fr_snapshot := {| sn_supplierId := cf_supplierId input; sn_tier := tier; sn_amount := cf_amount input;
                            sn_currency := cf_currency input; sn_calculatedAt := ck_stamp clock |} |}.

Definition getMonthlyAccrual : Z -> string -> string -> Accruals -> num := getCurrentAccrual.

Definition listTiers : list TierId := [basic; premium; unlisted].

Definition getTierConfig (tier : string) : result FeeError TierFeeConfig :=
  t ← from_option_or (tier_of tier) (UnknownTier tier); mret (tier_config DEFAULT_SCHEDULE t).

(** *** What a payout is charged *)

(** A configuration of whole units below [2^53], with a cap. *)
Definition capped_config (cap : Z) (c : TierFeeConfig) : Prop :=
  0 < cap < 2 ^ 53 /\ tf_monthlyCap c = Fin (cap * U) /\
  (exists f, tf_flatFee c = Fin (f * U) /\ 0 <= f <= 2 ^ 53) /\ exists b, tf_basisPoints c = Fin b /\ 0 <= b.

Lemma norm_nonneg z : 0 <= z -> norm z = PInf \/ norm z = Fin z.
Proof.
  intros Hz. unfold norm. pose proof HUGE_pos. destruct (Z.leb_spec HUGE z); [by left|]. destruct (Z.leb_spec z (- HUGE)); [lia|by right].
Qed.

(** A fee is an integer, unless it is beyond the integers doubles represent. *)
Definition whole_or_large (t : num) : Prop :=
  t = PInf \/ exists z, t = Fin z /\ 0 <= z /\ (z < 2 ^ 53 * U -> exists k, z = k * U).

Lemma rnd_nonneg n d : 0 < d -> 0 <= n -> 0 <= rnd n d.
Proof. intros Hd Hn. apply rnd_ge; [done|apply representable_0|lia]. Qed.

Lemma basis_fee_cases x b :
  0 <= x -> 0 <= b -> let fee := math_round (div (mul (Fin x) (Fin b)) (of_Z 10000)) in
  fee = PInf \/ exists k, fee = Fin (k * U) /\ 0 <= k.
Proof.
  intros Hx Hb. cbv zeta. rewrite of_Z_exact by lia. pose proof U_pos as HU. unfold mul.
  destruct (norm_nonneg (rnd (x * b) U)) as [->| ->]; [apply rnd_nonneg; nia|left|].
  - unfold div. rewrite (proj2 (Z.ltb_ge (10000 * U) 0)) by lia. done.
  - unfold div. rewrite (proj2 (Z.eqb_neq (10000 * U) 0)) by lia. rewrite (proj2 (Z.ltb_lt 0 (10000 * U))) by lia.
    assert (0 <= rnd (x * b) U) by (apply rnd_nonneg; nia).
    destruct (norm_nonneg (rnd (rnd (x * b) U * U) (10000 * U))) as [->| ->]; [apply rnd_nonneg; nia|by left|right].
    rewrite round_fin. eexists. split; [done|]. assert (0 <= rnd (rnd (x * b) U * U) (10000 * U)) by (apply rnd_nonneg; nia).
    apply Z.div_pos; lia.
Qed.

Lemma total_fee_whole cap c x : capped_config cap c -> 0 <= x -> whole_or_large (total_fee c (Fin x)).
Proof.
  intros (_ & _ & (f & Hf & Hfr) & (b & Hb & Hb0)) Hx. unfold total_fee. rewrite Hf, Hb. pose proof U_pos as HU.
  destruct (basis_fee_cases x b Hx Hb0) as [->|(k & -> & Hk)]; [by left|]. unfold add.
  assert (0 <= rnd (k * U + f * U) 1) by (apply rnd_nonneg; nia).
  destruct (norm_nonneg (rnd (k * U + f * U) 1)) as [->| ->]; [done|by left|right]. eexists. split; [done|]. split; [done|].
  intros Hlt. destruct (Z.lt_ge_cases (k + f) (2 ^ 53)) as [Hs|Hs].
  - exists (k + f). rewrite <- Z.mul_add_distr_r. pose proof (rnd_exact ((k + f) * U) 1 ltac:(lia)) as E. rewrite Z.mul_1_r in E.
    apply E, representable_int. lia.
  - exfalso. pose proof (rnd_ge (2 ^ 53 * U) (k * U + f * U) 1 ltac:(lia) (representable_int (2 ^ 53) ltac:(lia)) ltac:(nia)). lia.
Qed.

(** The capping rule, on every branch. *)
Lemma apply_cap_spec cap a t :
  0 < cap < 2 ^ 53 -> 0 <= a <= 2 ^ 53 -> whole_or_large t ->
  exists k, fst (fst (apply_cap (Fin (cap * U)) (Fin (a * U)) t)) = Fin (k * U) /\ 0 <= k <= Z.max 0 (cap - a) /\
    (snd (fst (apply_cap (Fin (cap * U)) (Fin (a * U)) t)) = false -> t = Fin (k * U) /\ a + k <= cap) /\
    (snd (fst (apply_cap (Fin (cap * U)) (Fin (a * U)) t)) = true -> k = Z.max 0 (cap - a)).
Proof.
  intros Hcap Ha Ht. pose proof U_pos as HU. unfold apply_cap, gtb, geb. cbn [ltb zero].
  rewrite (proj2 (Z.ltb_lt 0 (cap * U))) by nia. rewrite leb_fin. destruct (Z.leb_spec (cap * U) (a * U)) as [Hle|Hlt]; cbn [fst snd].
  { exists 0. split_and!; [done|lia|lia|done|]. intros _. nia. }
  assert (a < cap) as Hac by nia.
  assert (math_max zero (sub (Fin (cap * U)) (Fin (a * U))) = Fin ((cap - a) * U)) as Hmax.
  { rewrite sub_cents by lia. change zero with (Fin (0 * U)). rewrite max_cents. do 2 f_equal. lia. }
  destruct Ht as [->|(z & -> & Hz & Hint)].
  { change (add (Fin (a * U)) PInf) with PInf. cbn [ltb fst snd]. rewrite Hmax. exists (cap - a). split_and!; [done|lia|lia|done|lia]. }
  unfold add. destruct (norm_nonneg (rnd (a * U + z) 1)) as [->| ->]; [apply rnd_nonneg; nia| |].
  { cbn [ltb fst snd]. rewrite Hmax. exists (cap - a). split_and!; [done|lia|lia|done|lia]. }
  cbn [ltb]. destruct (Z.ltb_spec (cap * U) (rnd (a * U + z) 1)) as [Hgt|Hge]; cbn [fst snd].
  { rewrite Hmax. exists (cap - a). split_and!; [done|lia|lia|done|lia]. }
  assert (a * U + z < (cap + 1) * U) as Hsum.
  { destruct (Z.lt_ge_cases (a * U + z) ((cap + 1) * U)) as [|Hs]; [done|exfalso].
    pose proof (rnd_ge ((cap + 1) * U) (a * U + z) 1 ltac:(lia) (representable_int (cap + 1) ltac:(lia)) ltac:(lia)). nia. }
  destruct Hint as [k ->]; [nia|]. exists k. assert (a + k <= cap) by nia. split_and!; [done|nia|lia|done|done].
Qed.

Lemma apply_cap_uncapped a t : fst (fst (apply_cap zero a t)) = t /\ snd (apply_cap zero a t) = PInf.
Proof. done. Qed.

(** *** A month of payouts *)

(** What has accrued under a key in a month. *)
Definition accrued (m : Month) (key : string) (st : Accruals) : num :=
  match map_get key st with
  | None => zero
  | Some entry => if bool_decide (ae_monthKey entry = m) then ae_total entry else zero
  end.

Definition within_cap (m : Month) (C : Z) (st : Accruals) : Prop :=
  forall key, exists a, accrued m key st = Fin (a * U) /\ 0 <= a <= C.

(** The payouts of one month, to suppliers of tiers whose cap is at most [C]. *)
Definition month_call (schedule : FeeScheduleConfig) (m : Month) (C : Z) (call : Clock * CalculateFeeInput) : Prop :=
  getMonthKey (ck_read (fst call)) = m /\ getMonthKey (ck_accrue (fst call)) = m /\
  forall tier, tier_of (cf_tier (snd call)) = Some tier -> exists cap, capped_config cap (tier_config schedule tier) /\ cap <= C.

Fixpoint pay_out (schedule : FeeScheduleConfig) (calls : list (Clock * CalculateFeeInput)) (st : Accruals)
    : list (string * result FeeError FeeCalculationResult) * Accruals :=
  match calls with
  | [] => ([], st)
  | (clock, input) :: calls' =>
      let '(r, st') := calculateFee schedule clock input st in
      let '(rs, st'') := pay_out schedule calls' st' in
      ((getAccrualKey (cf_supplierId input) (cf_currency input), r) :: rs, st'')
  end.

(** The fee of a payout is [k] whole units; a refused payout is charged nothing. *)
Definition fee_is (kr : string * result FeeError FeeCalculationResult) (k : Z) : Prop :=
  0 <= k /\ match snd kr with Ok r => fr_fee r = Fin (k * U) | Err _ => k = 0 end.

(** The sum of the fees [ks] that are charged under a key. *)
Definition charged (key : string) (rs : list (string * result FeeError FeeCalculationResult)) (ks : list Z) : Z :=
  foldr Z.add 0 (zip_with (fun kr k => if bool_decide (fst kr = key) then k else 0) rs ks).

Lemma charged_nonneg key rs ks : Forall2 fee_is rs ks -> 0 <= charged key rs ks.
Proof. unfold charged. induction 1 as [|kr k rs ks [Hk _] _ IH]; simpl; [done|]. case_bool_decide; lia. Qed.

Lemma validateInput_ok input tier :
  validateInput input = Ok tier -> tier_of (cf_tier input) = Some tier /\ exists x, cf_amount input = Fin x /\ 0 <= x.
Proof.
  unfold validateInput. intros H. inv_ok. split; [done|]. apply orb_false_iff in H1 as [Hf%negb_false_iff Hn].
  destruct (cf_amount input) as [x| | |]; try done. exists x. split; [done|]. cbn in Hn. by apply Z.ltb_ge in Hn.
Qed.

Lemma addAccrual_accrued m now s c a k st key :
  getMonthKey now = m -> accrued m (getAccrualKey s c) st = Fin (a * U) -> Z.abs (a + k) <= 2 ^ 53 ->
  accrued m key (snd (addAccrual now s c (Fin (k * U)) st)) =
    if bool_decide (key = getAccrualKey s c) then Fin ((a + k) * U) else accrued m key st.
Proof.
  intros Hm Ha Hr. pose proof U_pos as HU. unfold addAccrual. rewrite Hm.
  assert (forall e, ae_monthKey e = m -> accrued m key (map_set (getAccrualKey s c) e st) =
            if bool_decide (key = getAccrualKey s c) then ae_total e else accrued m key st) as Hset.
  { intros e He. unfold accrued. rewrite map_get_set. case_bool_decide; [|done]. by rewrite bool_decide_true. }
  assert (accrued m (getAccrualKey s c) st = zero -> (Fin (k * U)) = Fin ((a + k) * U)) as Hz.
  { rewrite Ha. intros [= E]. f_equal. nia. }
  unfold accrued in Ha, Hz. destruct (map_get (getAccrualKey s c) st) as [e|].
  - case_bool_decide as He; cbn [snd]; [|rewrite Hset by done; cbn [ae_total]; by rewrite <- Hz].
    rewrite Hset by done. cbn [ae_total]. by rewrite Ha, add_cents.
  - cbn [snd]. rewrite Hset by done. cbn [ae_total]. by rewrite <- Hz.
Qed.

(** One payout of the month: the fee is an amount of whole units within what is
    left of the cap, and it is what accrues. *)
Lemma calculateFee_month schedule m C clock input st :
  C < 2 ^ 53 -> within_cap m C st -> month_call schedule m C (clock, input) ->
  let key := getAccrualKey (cf_supplierId input) (cf_currency input) in
  let out := calculateFee schedule clock input st in
  exists a k, accrued m key st = Fin (a * U) /\ 0 <= k /\ a + k <= C /\ 0 <= a /\
    match fst out with Ok r => fr_fee r = Fin (k * U) | Err _ => k = 0 end /\
    forall key', accrued m key' (snd out) = if bool_decide (key' = key) then Fin ((a + k) * U) else accrued m key' st.
Proof.
  intros HC Hst (Hm1 & Hm2 & Htier). cbv zeta. set (key := getAccrualKey _ _). destruct (Hst key) as (a & Ha & Har).
  unfold calculateFee, of_result, get, mbind, M_bind. destruct (validateInput input) as [tier|err] eqn:Ev.
  2: { exists a, 0. cbn [fst snd]. split_and!; [done|lia..|done|]. intros key'. case_bool_decide; [|done]. subst. rewrite Ha. do 2 f_equal. lia. }
  apply validateInput_ok in Ev as (Ht & x & Hx & Hx0). destruct (Htier tier Ht) as (cap & Hcap & HcapC). cbn [fst snd] in *.
  assert (getCurrentAccrual (ck_read clock) (cf_supplierId input) (cf_currency input) st = Fin (a * U)) as ->.
  { rewrite <- Ha. unfold getCurrentAccrual, accrued. by rewrite Hm1. }
  pose proof (total_fee_whole cap _ x Hcap Hx0) as Hw. destruct Hcap as (Hc & -> & _). rewrite Hx.
  destruct (apply_cap_spec cap a _ Hc ltac:(lia) Hw) as (k & Hk & Hkr & Hfalse & Htrue).
  destruct (apply_cap _ _ _) as [[fee capped] remaining]. cbn [fst snd] in *. subst fee. exists a, k.
  assert (a + k <= C) as Hsum by lia. pose proof U_pos. unfold gtb. cbn [ltb zero].
  destruct (Z.ltb_spec 0 (k * U)) as [Hpos|Hneg]; cbn [modify mret M_ret fst snd fr_fee].
  - split_and!; [done|lia..|done|]. intros key'. rewrite (addAccrual_accrued m _ _ _ a k st key' Hm2 Ha) by lia. done.
  - assert (k = 0) as -> by nia. split_and!; [done|lia..|done|]. intros key'. case_bool_decide; [|done]. subst. rewrite Ha. do 2 f_equal. lia.
Qed.

(** (C31) The monthly cap on instant-payout fees holds.  Take a month whose
    accruals so far are whole units of at most [C < 2^53], and payouts that read
    the clock in that month, to suppliers of tiers whose cap is a whole number of
    units above 0 and at most [C], whose flat fee is a whole number of units up to 2^53 and
    whose basis points are not negative.  Then over any sequence of them, however
    large the amounts are, every fee is a non-negative number of whole units,
    what accrues under a supplier and currency is exactly the sum of the fees
    charged under it, and it never exceeds [C]. *)
Theorem monthly_fee_cap schedule m C calls st :
  C < 2 ^ 53 -> within_cap m C st -> Forall (month_call schedule m C) calls ->
  exists ks, Forall2 fee_is (fst (pay_out schedule calls st)) ks /\
    forall key, exists a, accrued m key st = Fin (a * U) /\
      accrued m key (snd (pay_out schedule calls st)) = Fin ((a + charged key (fst (pay_out schedule calls st)) ks) * U) /\
      0 <= a /\ a + charged key (fst (pay_out schedule calls st)) ks <= C.
Proof.
  intros HC. revert st. induction calls as [|[clock input] calls IH]; intros st Hst Hcalls; cbn [pay_out].
  { exists []. split; [constructor|]. intros key. destruct (Hst key) as (a & Ha & Har). exists a.
    unfold charged. cbn. rewrite Ha, Z.add_0_r. split_and!; [done|done|lia|lia]. }
  apply Forall_cons in Hcalls as [Hcall Hcalls].
  destruct (calculateFee_month schedule m C clock input st HC Hst Hcall) as (a & k & Ha & Hk & Hsum & Ha0 & Hfee & Hacc).
  destruct (calculateFee schedule clock input st) as [r st1]. cbn [fst snd] in *.
  assert (within_cap m C st1) as Hst1.
  { intros key'. rewrite Hacc. case_bool_decide; [exists (a + k); split; [done|lia]|apply Hst]. }
  destruct (IH st1 Hst1 Hcalls) as (ks & Hks & Hall). destruct (pay_out schedule calls st1) as [rs st2]. cbn [fst snd] in *.
  set (key0 := getAccrualKey _ _) in *. exists (k :: ks). split; [by constructor|]. intros key.
  destruct (Hall key) as (b & Hb & Hfin & Hb0 & Hle). rewrite Hacc in Hb. pose proof U_pos as HU.
  assert (charged key ((key0, r) :: rs) (k :: ks) = (if bool_decide (key = key0) then k else 0) + charged key rs ks) as ->.
  { unfold charged. cbn [zip_with foldr fst]. by rewrite (bool_decide_ext (key0 = key) (key = key0)). }
  case_bool_decide as Hkey.
  - exists a. subst key. injection Hb as Hb. assert (b = a + k) as -> by nia.
    split_and!; [done|rewrite Hfin; do 2 f_equal; lia|lia|lia].
  - exists b. rewrite Z.add_0_l. done.
Qed.

Definition demo_payout (tier : string) (amount : Z) : Clock * CalculateFeeInput :=
  ({| ck_read := 1767225600000; ck_accrue := 1767225600001; ck_stamp := 1767225600002 |},
   {| cf_supplierId := "s1"; cf_tier := tier; cf_amount := of_Z amount; cf_currency := "USD" |}).

Lemma default_basic_capped : capped_config 50000 (tier_config DEFAULT_SCHEDULE basic).
Proof.
  split; [lia|]. cbn [tier_config DEFAULT_SCHEDULE fs_basic tf_monthlyCap tf_flatFee tf_basisPoints]. rewrite !of_Z_exact by lia.
  pose proof U_pos. split_and!; [done|exists 0; split; [done|lia]|exists (150 * U); split; [done|lia]].
Qed.

Lemma demo_month_call amount : month_call DEFAULT_SCHEDULE (2026, 1) 50000 (demo_payout "basic" amount).
Proof.
  split; [reflexivity|]. split; [reflexivity|]. intros tier Htier. cbn in Htier. injection Htier as <-. exists 50000.
  split; [apply default_basic_capped|lia].
Qed.

Definition w_payouts : list (Clock * CalculateFeeInput) := [demo_payout "basic" 3000000; demo_payout "basic" 1000000].

(** A payout of 3 million is charged 45000, and one of 1 million then only the
    5000 the cap leaves. *)
Lemma monthly_fee_cap_witness :
  exists k1 k2, Forall2 fee_is (fst (pay_out DEFAULT_SCHEDULE w_payouts [])) [k1; k2] /\ k1 + k2 = 50000 /\ k1 + k2 <= 50000.
Proof.
  destruct (monthly_fee_cap DEFAULT_SCHEDULE (2026, 1) 50000 w_payouts []) as (ks & Hks & Hall);
    [lia| |repeat constructor; apply demo_month_call|].
  { intros key. exists 0. split; [done|lia]. }
  destruct (Hall "s1:USD"%string) as (a & Ha & Hend & _ & Hle).
  assert (length ks = 2%nat) as Hl by (rewrite <- (Forall2_length _ _ _ Hks); vm_compute; reflexivity).
  destruct ks as [|k1 [|k2 [|k3 ks]]]; try discriminate Hl. exists k1, k2. split; [exact Hks|].
  assert (map fst (fst (pay_out DEFAULT_SCHEDULE w_payouts [])) = ["s1:USD"; "s1:USD"]%string) as Hkeys by (vm_compute; reflexivity).
  destruct (fst (pay_out DEFAULT_SCHEDULE w_payouts [])) as [|[i1 r1] [|[i2 r2] [|]]]; try discriminate Hkeys.
  injection Hkeys as -> ->. unfold charged in Hend, Hle. cbn [zip_with foldr fst] in Hend, Hle.
  rewrite bool_decide_true in Hend, Hle by reflexivity.
  assert (a = 0) as -> by (injection Ha as Ha; pose proof U_pos; nia).
  assert (accrued (2026, 1) "s1:USD" (snd (pay_out DEFAULT_SCHEDULE w_payouts [])) = Fin (50000 * U)) as E by (vm_compute; reflexivity).
  rewrite E in Hend. injection Hend as Hend. pose proof U_pos. split; [nia|lia].
Defined.

(** The key of an accrual has no tier: fees of the uncapped tier use up the cap
    of the basic one. *)
Lemma tiers_share_accruals :
  map (fun kr => match snd kr with Ok r => fr_fee r | Err _ => NaN end)
    (fst (pay_out DEFAULT_SCHEDULE [demo_payout "unlisted" 10000000; demo_payout "basic" 1000000] [])) = [of_Z 50000; of_Z 0].
Proof. vm_compute. reflexivity. Qed.

(** For the uncapped tier the reported cap is zero. *)
Lemma uncapped_reports_zero st :
  match fst (calculateFee DEFAULT_SCHEDULE (fst (demo_payout "unlisted" 1000)) (snd (demo_payout "unlisted" 1000)) st) with
  | Ok r => fr_monthlyCap r = of_Z 0 /\ fr_capRemaining r = PInf
  | Err _ => False
  end.
Proof.
  unfold calculateFee, of_result, get, mbind, M_bind. assert (validateInput (snd (demo_payout "unlisted" 1000)) = Ok unlisted) as -> by (vm_compute; reflexivity).
  cbn [tier_config DEFAULT_SCHEDULE fs_unlisted tf_monthlyCap]. assert (of_Z 0 = zero) as -> by (rewrite of_Z_exact by lia; done).
  unfold apply_cap. change (gtb zero zero) with false. cbv iota beta zeta. destruct (gtb _ zero); cbn; by split.
Qed.

(** ** Partial refunds *)

Inductive RefundRuleType : Type := rule_fixed | rule_percent.

Record RefundRule : Type := { rr_type : RefundRuleType; rr_value : num }.

Inductive RoundingPolicy : Type := half_to_even | half_up | truncate.

Inductive Currency : Type := USD | EUR | GBP | XLM.

Definition CURRENCY_ROUNDING_POLICY (c : Currency) : RoundingPolicy :=
  match c with USD | EUR | GBP => half_to_even | XLM => truncate end.

Inductive PartialRefundError : Type := BadOriginalAmount | BadPercent | BadFixed.

Definition is_rule (t : RefundRuleType) (r : RefundRule) : bool :=
  match t, rr_type r with rule_fixed, rule_fixed | rule_percent, rule_percent => true | _, _ => false end.

Definition check_rule (r : RefundRule) : result PartialRefundError unit :=
  match rr_type r with
  | rule_percent => throw_if (ltb (rr_value r) zero || gtb (rr_value r) (of_Z 100)) BadPercent
  | rule_fixed => throw_if (negb (is_integer (rr_value r)) || ltb (rr_value r) zero) BadFixed
  end.

Fixpoint check_rules (rules : list RefundRule) : result PartialRefundError unit :=
  match rules with [] => Ok tt | r :: rules' => _ ← check_rule r; check_rules rules' end.

Definition floor_zero (a : num) : num := if ltb a zero then zero else a.

Definition deduct_fixed (a : num) (r : RefundRule) : num := floor_zero (sub a (rr_value r)).

Definition deduct_percent (a : num) (r : RefundRule) : num := sub a (mul a (div (rr_value r) (of_Z 100))).

(** [n % 2] for a non-negative integer, and [Math.trunc]. *)
Definition is_even (n : num) : bool := match n with Fin x => zmod x (2 * U) =? 0 | _ => false end.

Definition math_trunc (a : num) : num :=
  match a with Fin x => Fin (Z.quot x U * U) | _ => a end.

Definition roundHalfToEven (n : num) : num :=
  let integerPart := math_floor n in
  let fraction := sub n integerPart in
  if ltb fraction (lit 1 2) then integerPart
  else if gtb fraction (lit 1 2) then add integerPart one
  else if is_even integerPart then integerPart else add integerPart one.

Definition applyRounding (amount : num) (policy : RoundingPolicy) : num :=
  match policy with half_to_even => roundHalfToEven amount | half_up => math_round amount | truncate => math_trunc amount end.

Definition calculate (originalAmount : num) (rules : list RefundRule) (currency : Currency) : result PartialRefundError num :=
  _ ← throw_if (negb (is_integer originalAmount) || ltb originalAmount zero) BadOriginalAmount;
  _ ← check_rules rules;
  let afterFixed := fold_left deduct_fixed (List.filter (is_rule rule_fixed) rules) originalAmount in
  let afterPercent := fold_left deduct_percent (List.filter (is_rule rule_percent) rules) afterFixed in
  mret (applyRounding (floor_zero afterPercent) (CURRENCY_ROUNDING_POLICY currency)).

(** *** Rounding *)

(** The fraction of a non-negative double is a double. *)
Lemma dbl_fraction x : dbl x -> 0 <= x -> dbl (x mod U).
Proof.
  intros [(m & e & He & Hm & Hx) _] Hx0. pose proof U_pos as HU. split.
  - destruct (Z.le_gt_cases 1074 e) as [Hle|Hgt].
    + assert (x mod U = 0) as ->; [|apply representable_0]. rewrite Hx, U_pow. replace e with ((e - 1074) + 1074) by lia.
      rewrite Z.pow_add_r by lia. rewrite Z.mul_assoc. apply Z.mod_mul. lia.
    + exists (m mod 2 ^ (1074 - e)), e. split; [done|]. assert (0 < 2 ^ (1074 - e)) by (apply Z.pow_pos_nonneg; lia).
      assert (0 < 2 ^ e) by (apply Z.pow_pos_nonneg; lia). assert (0 <= m) by nia.
      pose proof (Z.mod_pos_bound m (2 ^ (1074 - e)) ltac:(done)). pose proof (Z.mod_le m (2 ^ (1074 - e)) ltac:(done) ltac:(done)).
      split; [lia|]. rewrite Hx, U_pow. replace (2 ^ 1074) with (2 ^ (1074 - e) * 2 ^ e) by (rewrite <- Z.pow_add_r by lia; f_equal; lia).
      apply Z.mul_mod_distr_r; lia.
  - pose proof (Z.mod_pos_bound x U HU). destruct dbl_U as [_ Hb]. lia.
Qed.

Lemma is_even_int q : is_even (Fin (q * U)) = Z.even q.
Proof.
  unfold is_even. rewrite zmod_eq. pose proof U_pos. rewrite Z.mul_mod_distr_r by lia.
  destruct (Z.even q) eqn:Eq.
  - apply Z.even_spec in Eq as [j ->]. rewrite (Z.mul_comm 2), Z.mod_mul by lia. done.
  - assert (Z.odd q = true) as Ho by (rewrite <- Z.negb_even, Eq; done). apply Z.odd_spec in Ho as [j ->].
    rewrite Z.add_comm, (Z.mul_comm 2), Z.mod_add by lia. apply Z.eqb_neq. rewrite Z.mod_small by lia. lia.
Qed.

(** Banker's rounding: a nearest integer, the even one of two. *)
Lemma roundHalfToEven_spec x N :
  dbl x -> 0 <= x <= N * U -> N <= 2 ^ 53 ->
  exists k, roundHalfToEven (Fin x) = Fin (k * U) /\ 0 <= k <= N /\ 2 * Z.abs (k * U - x) <= U /\
    (2 * Z.abs (k * U - x) = U -> Z.even k = true).
Proof.
  intros Hd Hx HN. pose proof U_pos as HU. destruct half_unit as (h & Hh & Hh0 & Hlit). unfold roundHalfToEven.
  rewrite floor_fin, Hlit. set (q := x / U). pose proof (Z.div_mod x U ltac:(lia)) as Hdm. fold q in Hdm.
  pose proof (Z.mod_pos_bound x U HU) as Hb. assert (0 <= q) by (apply Z.div_pos; lia).
  rewrite sub_exact by (replace (x - q * U) with (x mod U) by lia; apply dbl_fraction; [exact Hd|lia]).
  replace (x - q * U) with (x mod U) by lia. set (f := x mod U) in *. unfold gtb. cbn [ltb].
  assert (f <> 0 -> add (Fin (q * U)) one = Fin ((q + 1) * U) /\ q + 1 <= N) as Hup.
  { intros Hf. assert (q + 1 <= N) by nia. split; [|done]. unfold one. replace U with (1 * U) at 2 by lia. rewrite add_cents; [done|lia]. }
  assert (q <= N) by nia. assert (q * U - x = - f) as E1 by lia. assert ((q + 1) * U - x = U - f) as E2 by lia.
  destruct (Z.ltb_spec f h); [exists q; rewrite E1; split_and!; [done|lia..]|].
  destruct (Hup ltac:(lia)) as [-> Hq]. destruct (Z.ltb_spec h f); [exists (q + 1); rewrite E2; split_and!; [done|lia..]|].
  rewrite is_even_int. destruct (Z.even q) eqn:Ee; [exists q; rewrite E1; split_and!; [done|lia..|done]|].
  exists (q + 1); rewrite E2; split_and!; [done|lia..|]. intros _. by rewrite Z.even_add, Ee.
Qed.

Lemma trunc_spec x N : 0 <= x <= N * U -> exists k, math_trunc (Fin x) = Fin (k * U) /\ 0 <= k <= N /\ k * U <= x < (k + 1) * U.
Proof.
  intros Hx. pose proof U_pos as HU. exists (x / U). unfold math_trunc. rewrite Z.quot_div_nonneg by lia.
  pose proof (Z.div_mod x U ltac:(lia)). pose proof (Z.mod_pos_bound x U HU).
  assert (0 <= x / U) by (apply Z.div_pos; lia). split_and!; [done|lia|nia|lia|lia].
Qed.

(** *** Deductions *)

(** The integer of a fixed deduction, whose value the validator requires to be
    whole. *)
Definition fixed_units (n : num) : Z := match n with Fin x => zdiv x U | _ => 0 end.

Lemma fixed_units_int k : fixed_units (Fin (k * U)) = k.
Proof. unfold fixed_units. rewrite zdiv_eq. pose proof U_pos. by apply Z.div_mul; lia. Qed.

Definition sum_fixed (rules : list RefundRule) : Z :=
  foldr (fun r acc => fixed_units (rr_value r) + acc) 0 (List.filter (is_rule rule_fixed) rules).

Lemma deduct_fixed_exact a f r :
  0 <= a <= 2 ^ 53 -> 0 <= f -> rr_value r = Fin (f * U) -> deduct_fixed (Fin (a * U)) r = Fin (Z.max 0 (a - f) * U).
Proof.
  intros Ha Hf Hr. pose proof U_pos as HU. unfold deduct_fixed, floor_zero. rewrite Hr. destruct (Z.le_gt_cases f a) as [Hle|Hgt].
  - rewrite sub_cents by lia. cbn [ltb zero]. rewrite (proj2 (Z.ltb_ge ((a - f) * U) 0)) by nia. do 2 f_equal. lia.
  - rewrite Z.max_l by lia. unfold sub. cbn [neg]. unfold add, norm. pose proof HUGE_pos.
    pose proof (rnd_le (- U) (a * U + - (f * U)) 1 ltac:(lia) (representable_opp _ (proj1 dbl_U)) ltac:(nia)) as Hneg.
    destruct (Z.leb_spec HUGE (rnd (a * U + - (f * U)) 1)); [lia|]. destruct (Z.leb_spec (rnd (a * U + - (f * U)) 1) (- HUGE)); [done|].
    cbn [ltb zero]. rewrite (proj2 (Z.ltb_lt (rnd (a * U + - (f * U)) 1) 0)) by lia. done.
Qed.

Lemma fixed_value r : check_rule r = Ok tt -> rr_type r = rule_fixed -> exists f, rr_value r = Fin (f * U) /\ 0 <= f.
Proof.
  unfold check_rule. intros H Ht. rewrite Ht in H. apply throw_if_ok, orb_false_iff in H as [Hi%negb_false_iff Hn]. pose proof U_pos.
  destruct (rr_value r) as [x| | |]; try done. destruct (is_integer_multiple x Hi) as [f ->]. exists f. split; [done|].
  cbn in Hn. apply Z.ltb_ge in Hn. nia.
Qed.

Lemma deduct_percent_range r x :
  check_rule r = Ok tt -> rr_type r = rule_percent -> rr_value r <> NaN -> dbl x -> 0 <= x ->
  exists c, deduct_percent (Fin x) r = Fin c /\ dbl c /\ 0 <= c <= x.
Proof.
  unfold check_rule. intros H Ht Hnan Hd Hx. rewrite Ht in H. apply throw_if_ok, orb_false_iff in H as [Hn Hg]. pose proof U_pos as HU.
  unfold deduct_percent. rewrite of_Z_exact in Hg |- * by lia. unfold gtb in Hg. destruct (rr_value r) as [y| | |]; try done.
  cbn in Hn, Hg. apply Z.ltb_ge in Hn. apply Z.ltb_ge in Hg.
  destruct (div_ratio y (100 * U)) as (c & -> & _ & Hc); [lia|lia|]. destruct (mul_ratio x c Hd Hx Hc) as (d & -> & _ & Hdr).
  apply sub_between; [apply dbl_0|done|lia].
Qed.

Lemma check_rules_all rules : check_rules rules = Ok tt <-> Forall (fun r => check_rule r = Ok tt) rules.
Proof.
  induction rules as [|r rules IH]; cbn; [by split; [constructor|]|]. rewrite Forall_cons, <- IH.
  destruct (check_rule r) as [[]|e]; cbn; naive_solver.
Qed.

Lemma fixed_all rules a :
  Forall (fun r => check_rule r = Ok tt) rules -> 0 <= a <= 2 ^ 53 ->
  0 <= sum_fixed rules /\
  fold_left deduct_fixed (List.filter (is_rule rule_fixed) rules) (Fin (a * U)) = Fin (Z.max 0 (a - sum_fixed rules) * U).
Proof.
  intros Hr. revert a. induction Hr as [|r rules Hr _ IH]; intros a Ha; [unfold sum_fixed; cbn; split; [lia|do 2 f_equal; lia]|].
  unfold sum_fixed in *. cbn [List.filter]. destruct (is_rule rule_fixed r) eqn:Et; [|by apply IH].
  assert (rr_type r = rule_fixed) as Ht by (unfold is_rule in Et; by destruct (rr_type r)).
  destruct (fixed_value r Hr Ht) as (f & Hv & Hf). cbn [fold_left foldr]. rewrite (deduct_fixed_exact a f r Ha Hf Hv), Hv, fixed_units_int.
  destruct (IH (Z.max 0 (a - f)) ltac:(lia)) as [Hs ->]. split; [lia|]. do 2 f_equal. lia.
Qed.

Lemma percent_all rules x :
  Forall (fun r => check_rule r = Ok tt /\ rr_value r <> NaN) rules -> dbl x -> 0 <= x ->
  exists c, fold_left deduct_percent (List.filter (is_rule rule_percent) rules) (Fin x) = Fin c /\ dbl c /\ 0 <= c <= x.
Proof.
  intros Hr. revert x. induction Hr as [|r rules [Hr Hnan] _ IH]; intros x Hd Hx; [cbn; exists x; split_and!; [done|apply Hd..|lia|lia]|].
  cbn [List.filter]. destruct (is_rule rule_percent r) eqn:Et; [|by apply IH].
  assert (rr_type r = rule_percent) as Ht by (unfold is_rule in Et; by destruct (rr_type r)). cbn [fold_left].
  destruct (deduct_percent_range r x Hr Ht Hnan Hd Hx) as (c & -> & Hdc & Hc).
  destruct (IH c Hdc ltac:(lia)) as (d & -> & Hdd & Hdr). exists d. split; [done|]. split; [done|]. lia.
Qed.

(** A partial refund is a whole amount between nothing and what the fixed
    deductions leave: for every original amount up to [2^53] and any list of
    rules whose percentages are numbers, the fixed deductions are exact and come
    first wherever they stand in the list, the percentages only lower the
    amount, and rounding never lifts it above; without percentages the refund is
    exactly the original less the deductions, or zero. *)
Theorem partial_refund_sound n rules currency r :
  0 <= n <= 2 ^ 53 -> Forall (fun r => rr_value r <> NaN) rules -> calculate (Fin (n * U)) rules currency = Ok r ->
  exists k, r = Fin (k * U) /\ 0 <= k <= Z.max 0 (n - sum_fixed rules) /\
    (List.filter (is_rule rule_percent) rules = [] -> k = Z.max 0 (n - sum_fixed rules)).
Proof.
  intros Hn Hnan. unfold calculate. intros (u & _ & (u' & Hc & [= <-])%bind_ok)%bind_ok. destruct u'.
  apply check_rules_all in Hc. destruct (fixed_all rules n Hc Hn) as [Hs ->]. set (N := Z.max 0 (n - sum_fixed rules)).
  assert (0 <= N <= 2 ^ 53) as HN by lia. pose proof U_pos as HU. pose proof (dbl_int N ltac:(lia)) as HdN.
  destruct (percent_all rules (N * U)) as (c & Hc' & Hdc & Hcr); [by apply Forall_and|done|nia|].
  rewrite Hc'. unfold floor_zero. cbn [ltb zero]. rewrite (proj2 (Z.ltb_ge c 0)) by lia.
  assert (List.filter (is_rule rule_percent) rules = [] -> c = N * U) as Hnil by (intros E; rewrite E in Hc'; by injection Hc').
  destruct (CURRENCY_ROUNDING_POLICY currency); cbn [applyRounding].
  - destruct (roundHalfToEven_spec c N Hdc Hcr ltac:(lia)) as (k & -> & Hk & Hnear & _). exists k. split_and!; [done|lia..|].
    intros E%Hnil. subst c. rewrite <- Z.mul_sub_distr_r, Z.abs_mul in Hnear. rewrite (Z.abs_eq U) in Hnear by lia.
    assert (Z.abs (k - N) = 0) by nia. lia.
  - destruct (round_between 0 N c ltac:(lia)) as (k & Hk & Hkr). exists k. split_and!; [done|lia..|].
    intros E%Hnil. subst c. rewrite round_int in Hk. injection Hk as Hk. nia.
  - destruct (trunc_spec c N ltac:(lia)) as (k & -> & Hk & Hkc). exists k. split_and!; [done|lia..|]. intros E%Hnil. subst c. nia.
Qed.

Definition demo_rules : list RefundRule :=
  [{| rr_type := rule_percent; rr_value := lit 25 2 |}; {| rr_type := rule_fixed; rr_value := of_Z 500 |}].

Lemma partial_refund_sound_witness :
  calculate (of_Z 10501) demo_rules USD = Ok (of_Z 8751) /\ calculate (of_Z 10501) demo_rules XLM = Ok (of_Z 8750) /\
  exists k, of_Z 8751 = Fin (k * U) /\ 0 <= k <= 10501.
Proof.
  split; [vm_compute; reflexivity|]. split; [vm_compute; reflexivity|].
  destruct (partial_refund_sound 10501 demo_rules USD (of_Z 8751)) as (k & Hk & Hkr & _).
  - lia.
  - repeat constructor; vm_compute; discriminate.
  - vm_compute. reflexivity.
  - exists k. split; [done|]. assert (0 <= sum_fixed demo_rules) by (vm_compute; discriminate). lia.
Defined.

(** A percentage that is not a number passes the checks. *)
Lemma nan_percent_accepted :
  calculate (of_Z 100) [{| rr_type := rule_percent; rr_value := NaN |}] USD = Ok NaN.
Proof. vm_compute. reflexivity. Qed.
