(* ===== verification/AccessReview.v ===== *)
(** * AccessReview: quarterly access reviews

    [services/accessReviewService.ts]: snapshots of the role grants, the sign-off
    of reviewers, gaps between quarters and the reports.  A quarter label is the
    pair of the year and the quarter it prints; the server's calendar, the locale
    order of strings and the printing of numbers and dates are parameters; ids are
    drawn by the caller.  Operations are atomic: none awaits before it has
    changed the store. *)
From stdpp Require Import base list strings sets relations.
From Stdlib Require Import ZArith Lia Ascii.
From S2P Require Import Prelude JsMap Roles.
Local Open Scope Z_scope.

Definition QuarterLabel : Type := Z * Z.

Record AccessGrantEntry : Type := {
  ag_role : string;
  ag_effectivePermissions : list string;
  ag_impliedRoles : list string;
  ag_source : string
}.

Record AccessGrantSnapshot : Type := {
  as_snapshotId : string;
  as_quarterLabel : QuarterLabel;
  as_snapshotDate : Z;
  as_grants : list AccessGrantEntry;
  as_createdAt : Z
}.

Inductive AttestationOutcome : Type := ao_approved | ao_rejected | ao_needs_revision.

#[export] Instance attestation_outcome_eq_dec : EqDecision AttestationOutcome.
Proof. solve_decision. Defined.

Definition outcome_text (o : AttestationOutcome) : string :=
  match o with ao_approved => "approved" | ao_rejected => "rejected" | ao_needs_revision => "needs_revision" end.

Definition parse_outcome (s : string) : option AttestationOutcome :=
  find_first (fun o => bool_decide (outcome_text o = s)) [ao_approved; ao_rejected; ao_needs_revision].

Record AccessReviewAttestation : Type := {
  aa_attestationId : string;
  aa_snapshotId : string;
  aa_quarterLabel : QuarterLabel;
  aa_reviewer : string;
  aa_reviewedAt : Z;
  aa_outcome : AttestationOutcome;
  aa_notes : option string
}.

Record SnapshotStore : Type := {
  rs_snapshots : jsmap AccessGrantSnapshot;
  rs_attestations : jsmap AccessReviewAttestation
}.

(** The store at the start and after [clear]. *)
Definition no_reviews : SnapshotStore := {| rs_snapshots := []; rs_attestations := [] |}.

Inductive ReviewError : Type :=
| RolesInvalid (e : RoleError)
| SnapshotNotFound (id : string)
| ReviewerRequired
| InvalidOutcome (outcome : string)
| DuplicateAttestation (snapshotId reviewer : string) (existing : AttestationOutcome).

(** ** Quarters *)

Section Review.
Context (localCalendar : Z -> Z * Z) (locale_gt : string -> string -> bool).

(** [localCalendar] gives the year and the month, counted from 0. *)
Definition computeQuarterLabel (date : Z) : QuarterLabel :=
  let '(year, month) := localCalendar date in (year, month / 3 + 1).

Fixpoint previous_quarters (count : nat) (year quarter : Z) : list QuarterLabel :=
  match count with
  | O => []
  | S count' =>
      (year, quarter) ::
        (if quarter - 1 <? 1 then previous_quarters count' (year - 1) 4 else previous_quarters count' year (quarter - 1))
  end.

Definition generatePreviousQuarters (count : nat) (from : Z) : list QuarterLabel :=
  let '(year, quarter) := computeQuarterLabel from in previous_quarters count year quarter.

(** ** Grants *)

Definition str_gt (a b : string) : bool := String.ltb b a.

Definition grant_entry (role : string) (effective : list string) : AccessGrantEntry :=
  {| ag_role := role; ag_effectivePermissions := js_sort str_gt effective;
     ag_impliedRoles := js_sort str_gt (List.filter (fun r => negb (bool_decide (r = role))) effective);
     ag_source := "roles.json" |}.

Definition buildGrantEntriesFromHierarchy (h : RoleHierarchy) : list AccessGrantEntry :=
  js_sort (fun a b => locale_gt (ag_role a) (ag_role b))
    (omap (fun role => grant_entry role <$> map_get role (rh_effective h)) (rh_roles h)).

(** What is used when the roles file cannot be read or parsed. *)
Definition default_roles : RolesConfig :=
  [("admin", Some [cfg_str "support"; cfg_str "professional"; cfg_str "customer"]); ("support", Some [cfg_str "auditor"]);
   ("auditor", Some []); ("professional", Some []); ("customer", Some [])]%string.

(** [disk]: the roles object of the file; [None] is a file that cannot be read
    or parsed, [Some None] one without a roles object. *)
Definition readRolesConfigFromDisk (disk : option (option RolesConfig)) : option RolesConfig :=
  default (Some default_roles) disk.

(** ** Snapshots *)

Definition findSnapshotForQuarter (q : QuarterLabel) (s : SnapshotStore) : option AccessGrantSnapshot :=
  find_first (fun x => bool_decide (as_quarterLabel x = q)) (map_values (rs_snapshots s)).

Definition add_snapshot (x : AccessGrantSnapshot) (s : SnapshotStore) : SnapshotStore :=
  {| rs_snapshots := map_set (as_snapshotId x) x (rs_snapshots s); rs_attestations := rs_attestations s |}.

Definition createSnapshot (disk : option (option RolesConfig)) (force : bool) (date now : Z) (id : string)
    : M SnapshotStore ReviewError AccessGrantSnapshot :=
  let quarterLabel := computeQuarterLabel date in
  s ← get;
  match (if force then None else findSnapshotForQuarter quarterLabel s) with
  | Some existing => mret existing
  | None =>
      h ← of_result (match buildRoleHierarchy (readRolesConfigFromDisk disk) with Ok h => Ok h | Err e => Err (RolesInvalid e) end);
      let snapshot := {| as_snapshotId := id; as_quarterLabel := quarterLabel; as_snapshotDate := date;
                         as_grants := buildGrantEntriesFromHierarchy h; as_createdAt := now |} in
      _ ← modify (add_snapshot snapshot);
      mret snapshot
  end.

Definition getSnapshot (id : string) (s : SnapshotStore) : option AccessGrantSnapshot := map_get id (rs_snapshots s).

(** A summary leaves out the grants but their number. *)
Definition SnapshotSummary : Type := string * QuarterLabel * Z * nat * Z.

Definition page {A} (limit offset : nat) (l : list A) : list A := take limit (drop offset l).

Definition page_limit (limit : option nat) : nat := Nat.min (default 50%nat limit) 200.

Definition listSnapshots (quarter : option QuarterLabel) (limit offset : option nat) (s : SnapshotStore)
    : list AccessGrantSnapshot * nat :=
  let all := js_sort (fun a b => as_createdAt a <? as_createdAt b)
    (List.filter (fun x => match quarter with Some q => bool_decide (as_quarterLabel x = q) | None => true end)
      (map_values (rs_snapshots s))) in
  (page (page_limit limit) (default 0%nat offset) all, length all).

Definition listSnapshotSummaries (quarter : option QuarterLabel) (limit offset : option nat) (s : SnapshotStore) : list SnapshotSummary * nat :=
  let '(snapshots, total) := listSnapshots quarter limit offset s in
  (map (fun x => (as_snapshotId x, as_quarterLabel x, as_snapshotDate x, length (as_grants x), as_createdAt x)) snapshots, total).

Definition label_gt (a b : QuarterLabel) : bool := (fst b <? fst a) || ((fst b =? fst a) && (snd b <? snd a)).

Definition detectGaps (lookback : nat) (now : Z) (s : SnapshotStore) : list QuarterLabel * option QuarterLabel :=
  let existing := map as_quarterLabel (map_values (rs_snapshots s)) in
  (List.filter (fun q => negb (bool_decide (q ∈ existing))) (generatePreviousQuarters lookback now), last (js_sort label_gt existing)).

(** ** Attestations *)

Definition add_attestation (x : AccessReviewAttestation) (s : SnapshotStore) : SnapshotStore :=
  {| rs_snapshots := rs_snapshots s; rs_attestations := map_set (aa_attestationId x) x (rs_attestations s) |}.

Definition createAttestation (snapshotId reviewer outcome : string) (notes : option string) (now : Z) (id : string)
    : M SnapshotStore ReviewError AccessReviewAttestation :=
  s ← get;
  snapshot ← of_option (getSnapshot snapshotId s) (SnapshotNotFound snapshotId);
  _ ← guard (blank reviewer) ReviewerRequired;
  o ← of_option (parse_outcome outcome) (InvalidOutcome outcome);
  match List.filter (fun a => bool_decide (aa_snapshotId a = snapshotId) && bool_decide (aa_reviewer a = reviewer))
          (map_values (rs_attestations s)) with
  | existing :: _ => raise (DuplicateAttestation snapshotId reviewer (aa_outcome existing))
  | [] =>
      let attestation := {| aa_attestationId := id; aa_snapshotId := snapshotId; aa_quarterLabel := as_quarterLabel snapshot;
                            aa_reviewer := js_trim reviewer; aa_reviewedAt := now; aa_outcome := o; aa_notes := js_trim <$> notes |} in
      _ ← modify (add_attestation attestation);
      mret attestation
  end.

Definition getAttestation (id : string) (s : SnapshotStore) : option AccessReviewAttestation := map_get id (rs_attestations s).

Definition listAttestations (snapshotId : option string) (quarter : option QuarterLabel) (outcome : option AttestationOutcome)
    (limit offset : option nat) (s : SnapshotStore) : list AccessReviewAttestation * nat :=
  let wanted a :=
    match snapshotId with Some id => is_empty_string id || bool_decide (aa_snapshotId a = id) | None => true end &&
    match quarter with Some q => bool_decide (aa_quarterLabel a = q) | None => true end &&
    match outcome with Some o => bool_decide (aa_outcome a = o) | None => true end in
  let all := js_sort (fun a b => aa_reviewedAt a <? aa_reviewedAt b) (List.filter wanted (map_values (rs_attestations s))) in
  (page (page_limit limit) (default 0%nat offset) all, length all).

(** [loadFromDisk]: the arrays of the two files; [None] is a missing file. *)
Definition loadFromDisk (snapshots : option (list AccessGrantSnapshot)) (attestations : option (list AccessReviewAttestation))
    (s : SnapshotStore) : SnapshotStore :=
  fold_left (fun s x => add_attestation x s) (default [] attestations)
    (fold_left (fun s x => add_snapshot x s) (default [] snapshots) s).

(** ** What a snapshot records *)

Lemma grants_elem h g :
  g ∈ buildGrantEntriesFromHierarchy h <->
  exists role e, role ∈ rh_roles h /\ map_get role (rh_effective h) = Some e /\ g = grant_entry role e.
Proof.
  unfold buildGrantEntriesFromHierarchy. rewrite js_sort_elem, list_elem_of_omap. split.
  - intros (role & Hr & (e & He & ->)%fmap_Some). eauto 10.
  - intros (role & e & Hr & He & ->). exists role. split; [done|]. by rewrite He.
Qed.

(** A snapshot records the access the roles file grants: for every roles
    file that loads there is one entry for each declared role and no other, its
    permissions are exactly the roles reachable from it, and its implied roles
    those it reaches in one step or more. *)
Theorem snapshot_records_grants entries m h :
  directImplications entries = Ok m -> buildRoleHierarchy (Some entries) = Ok h ->
  (forall role, role ∈ map_keys m <-> exists g, g ∈ buildGrantEntriesFromHierarchy h /\ ag_role g = role) /\
  forall g, g ∈ buildGrantEntriesFromHierarchy h ->
    (forall b, b ∈ ag_effectivePermissions g <-> rtc (implies m) (ag_role g) b) /\
    (forall b, b ∈ ag_impliedRoles g <-> tc (implies m) (ag_role g) b).
Proof.
  intros Hm (m' & Hm' & _ & Hac & Hroles & Hsat)%built_hierarchy. assert (m' = m) as -> by congruence.
  assert (forall role, role ∈ map_keys m -> exists e, map_get role (rh_effective h) = Some e) as Htotal.
  { intros role Hr. assert (roleSatisfies h role role = true) as H by (apply Hsat; split; [done|constructor]).
    unfold roleSatisfies, set_has, getEffectiveRoles in H. apply bool_decide_eq_true in H.
    destruct (map_get role (rh_effective h)); [eauto|set_solver]. }
  split.
  - intros role. split.
    + intros Hr. destruct (Htotal role Hr) as [e He]. exists (grant_entry role e). split; [|done]. apply grants_elem.
      exists role, e. by rewrite Hroles.
    + intros (g & (role' & e & Hr & _ & ->)%grants_elem & <-). by rewrite <- Hroles.
  - intros g (role & e & Hr & He & ->)%grants_elem. cbn [ag_role ag_effectivePermissions ag_impliedRoles grant_entry].
    assert (forall b, b ∈ e <-> rtc (implies m) role b) as Hreach.
    { intros b. rewrite Hroles in Hr. specialize (Hsat role b). unfold roleSatisfies, set_has, getEffectiveRoles in Hsat.
      rewrite He, bool_decide_eq_true in Hsat. cbn in Hsat. tauto. }
    split; intros b; rewrite js_sort_elem; [done|]. rewrite list_elem_of_In, filter_In, <- list_elem_of_In, Hreach.
    rewrite negb_true_iff, bool_decide_eq_false. split.
    + intros [[->|(y & Hy & Hyb)]%rtc_inv Hne]; [done|]. eapply tc_rtc_r; [by apply tc_once|done].
    + intros Htc. split; [by apply tc_rtc|]. intros ->. by apply (Hac role).
Qed.

(** ** One snapshot per quarter *)

Lemma createSnapshot_cases disk force date now id s :
  snd (createSnapshot disk force date now id s) = s \/
  exists x, snd (createSnapshot disk force date now id s) = add_snapshot x s /\ as_snapshotId x = id /\
    as_quarterLabel x = computeQuarterLabel date /\ (force = false -> findSnapshotForQuarter (computeQuarterLabel date) s = None).
Proof.
  unfold createSnapshot, get, of_result, modify, mbind, M_bind. cbn.
  destruct force; cbn.
  - destruct (buildRoleHierarchy _); cbn; [|by left]. right. eexists. by split_and!.
  - destruct (findSnapshotForQuarter _ s) eqn:Ef; cbn; [by left|]. destruct (buildRoleHierarchy _); cbn; [|by left].
    right. eexists. by split_and!.
Qed.

(** A snapshot call: the roles file, the date, the clock and the fresh id. *)
Definition snapshot_call (s : SnapshotStore) (c : option (option RolesConfig) * Z * Z * string) : SnapshotStore :=
  let '(disk, date, now, id) := c in snd (createSnapshot disk false date now id s).

Definition call_id (c : option (option RolesConfig) * Z * Z * string) : string := let '(_, _, _, id) := c in id.

Lemma findSnapshot_None q s :
  findSnapshotForQuarter q s = None <-> q ∉ map as_quarterLabel (map_values (rs_snapshots s)).
Proof.
  unfold findSnapshotForQuarter. rewrite find_first_None. split.
  - intros H (x & -> & Hx)%list_elem_of_fmap. apply H in Hx. by apply bool_decide_eq_false in Hx.
  - intros H x Hx. apply bool_decide_eq_false. intros <-. apply H, list_elem_of_fmap. eauto.
Qed.

(** Without [force] there is at most one snapshot per quarter, and a
    snapshot is never changed: over any sequence of calls with fresh ids, the
    labels of the stored snapshots are pairwise different, and every snapshot
    stored before is still there as it was. *)
Theorem one_snapshot_per_quarter calls s :
  NoDup (map_keys (rs_snapshots s) ++ map call_id calls) -> NoDup (map as_quarterLabel (map_values (rs_snapshots s))) ->
  NoDup (map as_quarterLabel (map_values (rs_snapshots (fold_left snapshot_call calls s)))) /\
  forall id x, getSnapshot id s = Some x -> getSnapshot id (fold_left snapshot_call calls s) = Some x.
Proof.
  revert s. induction calls as [|[[[disk date] now] id] calls IH]; intros s Hids Hq; [by split|]. cbn [fold_left snapshot_call].
  cbn [map call_id] in Hids.
  assert (NoDup (map_keys (rs_snapshots s) ++ map call_id calls) /\ id ∉ map_keys (rs_snapshots s)) as [Hids' Hid].
  { apply NoDup_app in Hids as (H1 & H2 & H3). apply NoDup_cons in H3 as [_ H3]. split; [|intros H; apply (H2 id H); left].
    apply NoDup_app. split_and!; [done| |done]. intros x Hx Hin. apply (H2 x Hx). by right. }
  destruct (createSnapshot_cases disk false date now id s) as [->|(x & -> & Hx & Hlabel & Hnone)]; [by apply IH|].
  specialize (Hnone eq_refl). apply findSnapshot_None in Hnone.
  assert (rs_snapshots (add_snapshot x s) = rs_snapshots s ++ [(id, x)]) as Hset.
  { cbn. rewrite Hx. by apply map_set_fresh. }
  destruct (IH (add_snapshot x s)) as [IH1 IH2].
  - rewrite Hset. unfold map_keys. rewrite map_app. cbn. by rewrite <- app_assoc.
  - rewrite Hset. unfold map_values. rewrite !map_app. cbn. rewrite Hlabel. apply NoDup_app. split_and!; [done| |apply NoDup_singleton].
    intros q Hin Hq1. apply list_elem_of_singleton in Hq1. by subst q.
  - split; [done|]. intros i y Hy. apply IH2. unfold getSnapshot in *. rewrite Hset.
    cbn. rewrite <- (map_set_fresh id x) by done. rewrite map_get_set_ne; [done|]. intros ->. apply map_get_None in Hid. congruence.
Qed.

(** ** One sign-off per reviewer *)

Definition attest_call (s : SnapshotStore) (c : string * string * string * option string * Z * string) : SnapshotStore :=
  let '(snapshotId, reviewer, outcome, notes, now, id) := c in snd (createAttestation snapshotId reviewer outcome notes now id s).

Definition attest_id (c : string * string * string * option string * Z * string) : string := let '(_, _, _, _, _, id) := c in id.
Definition attest_reviewer (c : string * string * string * option string * Z * string) : string := let '(_, r, _, _, _, _) := c in r.

Definition signed (a : AccessReviewAttestation) : string * string := (aa_snapshotId a, aa_reviewer a).

Lemma createAttestation_cases snapshotId reviewer outcome notes now id s :
  snd (createAttestation snapshotId reviewer outcome notes now id s) = s \/
  exists x, snd (createAttestation snapshotId reviewer outcome notes now id s) = add_attestation x s /\ aa_attestationId x = id /\
    signed x = (snapshotId, js_trim reviewer) /\ (snapshotId, reviewer) ∉ map signed (map_values (rs_attestations s)).
Proof.
  unfold createAttestation, get, of_option, guard, modify, mbind, M_bind. destruct (getSnapshot snapshotId s); [|by left].
  cbn [from_option_or]. destruct (blank reviewer); [by left|]. cbn [mret M_ret]. destruct (parse_outcome outcome); [|by left].
  cbn [from_option_or]. destruct (List.filter _ _) as [|x l] eqn:Ef; [|by left]. right. eexists. split_and!; [done..|].
  intros (att & Ha & Hin)%list_elem_of_fmap. assert (att ∈ ([] : list AccessReviewAttestation)) as Hnil; [|set_solver].
  rewrite <- Ef. apply list_elem_of_In, filter_In. split; [by apply list_elem_of_In|]. unfold signed in Ha. injection Ha as -> ->.
  by rewrite !bool_decide_true.
Qed.

(** Reviewers named without surrounding white space sign a snapshot at most once. *)
Lemma trimmed_reviewers_sign_once calls s :
  NoDup (map_keys (rs_attestations s) ++ map attest_id calls) -> NoDup (map signed (map_values (rs_attestations s))) ->
  Forall (fun c => js_trim (attest_reviewer c) = attest_reviewer c) calls ->
  NoDup (map signed (map_values (rs_attestations (fold_left attest_call calls s)))).
Proof.
  revert s. induction calls as [|[[[[[snapshotId reviewer] outcome] notes] now] id] calls IH]; intros s Hids Hq Ht; [done|].
  apply Forall_cons in Ht as [Ht Hts]. cbn [attest_reviewer] in Ht. cbn [fold_left attest_call]. cbn [map attest_id] in Hids.
  assert (NoDup (map_keys (rs_attestations s) ++ map attest_id calls) /\ id ∉ map_keys (rs_attestations s)) as [Hids' Hid].
  { apply NoDup_app in Hids as (H1 & H2 & H3). apply NoDup_cons in H3 as [_ H3]. split; [|intros H; apply (H2 id H); left].
    apply NoDup_app. split_and!; [done| |done]. intros x Hx Hin. apply (H2 x Hx). by right. }
  destruct (createAttestation_cases snapshotId reviewer outcome notes now id s) as [->|(x & -> & Hx & Hsig & Hnew)]; [by apply IH|].
  assert (rs_attestations (add_attestation x s) = rs_attestations s ++ [(id, x)]) as Hset.
  { cbn. rewrite Hx. by apply map_set_fresh. }
  apply IH; [| |done].
  - rewrite Hset. unfold map_keys. rewrite map_app. cbn. by rewrite <- app_assoc.
  - rewrite Hset. unfold map_values. rewrite !map_app. cbn. rewrite Hsig, Ht. apply NoDup_app. split_and!; [done| |apply NoDup_singleton].
    intros q Hin Hq1. apply list_elem_of_singleton in Hq1. by subst q.
Qed.

(** ** Reports *)

Definition has_char (c : ascii) (s : string) : bool := existsb (Ascii.eqb c) (String.list_ascii_of_string s).

Definition quote_char : ascii := ascii_of_nat 34.
Definition newline_char : ascii := ascii_of_nat 10.

Fixpoint double_quotes (s : string) : string :=
  match s with
  | EmptyString => EmptyString
  | String c s' => if Ascii.eqb c quote_char then String c (String c (double_quotes s')) else String c (double_quotes s')
  end.

Definition escapeCsvField (value : string) : string :=
  if has_char "," value || has_char quote_char value || has_char newline_char value
  then String quote_char (double_quotes value +:+ String quote_char EmptyString)
  else value.

Record AccessReviewReport : Type := {
  rp_reportId : string;
  rp_quarterLabel : QuarterLabel;
  rp_snapshot : AccessGrantSnapshot;
  rp_attestations : list AccessReviewAttestation;
  rp_generatedAt : Z;
  rp_reviewed : bool
}.

Definition generateReport (snapshotId reportId : string) (now : Z) (s : SnapshotStore) : result ReviewError AccessReviewReport :=
  snapshot ← from_option_or (getSnapshot snapshotId s) (SnapshotNotFound snapshotId);
  let attestations := fst (listAttestations (Some snapshotId) None None None None s) in
  mret {| rp_reportId := reportId; rp_quarterLabel := as_quarterLabel snapshot; rp_snapshot := snapshot;
          rp_attestations := attestations; rp_generatedAt := now; rp_reviewed := negb (Nat.eqb (length attestations) 0) |}.

Fixpoint join (sep : string) (l : list string) : string :=
  match l with [] => EmptyString | [x] => x | x :: l' => x +:+ sep +:+ join sep l' end.

Section Csv.
Context (label_text : QuarterLabel -> string) (iso : Z -> string).

Definition grant_line (g : AccessGrantEntry) : string :=
  join "," [ag_role g; escapeCsvField (join "; " (ag_effectivePermissions g)); escapeCsvField (join "; " (ag_impliedRoles g)); ag_source g].

Definition attestation_line (a : AccessReviewAttestation) : string :=
  join "," [aa_attestationId a; aa_reviewer a; iso (aa_reviewedAt a); outcome_text (aa_outcome a);
            match aa_notes a with Some n => if is_empty_string n then EmptyString else escapeCsvField n | None => EmptyString end].

Definition formatCsvReport (r : AccessReviewReport) : string :=
  join (String newline_char EmptyString)
    (["# SOC2 Access Review Report - " +:+ label_text (rp_quarterLabel r); "# Report ID: " +:+ rp_reportId r;
      "# Generated: " +:+ iso (rp_generatedAt r); "# Snapshot: " +:+ as_snapshotId (rp_snapshot r);
      "# Snapshot Date: " +:+ iso (as_snapshotDate (rp_snapshot r));
      "# Reviewed: " +:+ (if rp_reviewed r then "true" else "false"); "";
      "# Access Grants"; "role,effective_permissions,implied_roles,source"]%string ++
     map grant_line (as_grants (rp_snapshot r)) ++
     [""; "# Attestations"; "attestation_id,reviewer,reviewed_at,outcome,notes"]%string ++
     (if Nat.eqb (length (rp_attestations r)) 0 then ["N/A,N/A,N/A,pending_review,"%string]
      else map attestation_line (rp_attestations r))).

(** [generateAttestedReportsCsvBundle]: a report and an empty line for each
    snapshot that was signed, with the ids drawn for the reports. *)
Definition generateAttestedReportsCsvBundle (ids : string -> string) (now : Z) (s : SnapshotStore) : string :=
  join (String newline_char EmptyString)
    (flat_map (fun snapshotId =>
       match generateReport snapshotId (ids snapshotId) now s with
       | Ok report => [formatCsvReport report; EmptyString]
       | Err _ => []
       end) (set_of (map aa_snapshotId (map_values (rs_attestations s))))).

End Csv.

(** A report holds the newest fifty sign-offs of its snapshot at most. *)
Lemma report_keeps_fifty snapshotId reportId now s r :
  generateReport snapshotId reportId now s = Ok r -> (length (rp_attestations r) <= 50)%nat.
Proof.
  unfold generateReport. intros H. inv_ok. subst. cbn [rp_attestations listAttestations fst]. unfold page, page_limit.
  rewrite length_take. apply Nat.le_min_l.
Qed.

(** A reader of one field, as spreadsheets read it: a field that starts with a
    quote ends at the next single quote, others at a comma or the end of line. *)
Fixpoint read_quoted (s : string) : option (string * string) :=
  match s with
  | EmptyString => None
  | String c s' =>
      if Ascii.eqb c quote_char then
        match s' with
        | String d s'' => if Ascii.eqb d quote_char
                          then match read_quoted s'' with Some (v, r) => Some (String quote_char v, r) | None => None end
                          else Some (EmptyString, s')
        | EmptyString => Some (EmptyString, EmptyString)
        end
      else match read_quoted s' with Some (v, r) => Some (String c v, r) | None => None end
  end.

Fixpoint read_bare (s : string) : string * string :=
  match s with
  | EmptyString => (EmptyString, EmptyString)
  | String c s' => if Ascii.eqb c "," || Ascii.eqb c newline_char then (EmptyString, s)
                   else let '(v, r) := read_bare s' in (String c v, r)
  end.

Definition read_field (s : string) : option (string * string) :=
  match s with
  | String c s' => if Ascii.eqb c quote_char then read_quoted s' else Some (read_bare s)
  | EmptyString => Some (EmptyString, EmptyString)
  end.

Definition field_end (r : string) : Prop := match r with EmptyString => True | String c _ => c = ","%char \/ c = newline_char end.

Lemma read_quoted_back v r : field_end r -> read_quoted (double_quotes v +:+ String quote_char r) = Some (v, r).
Proof.
  intros Hr. induction v as [|c v IH].
  - change (read_quoted (String quote_char r) = Some (EmptyString, r)). destruct r as [|d r]; [done|]. by destruct Hr as [->| ->].
  - cbn [double_quotes]. destruct (Ascii.eqb_spec c quote_char) as [->|Hne].
    + change (String quote_char (String quote_char (double_quotes v)) +:+ String quote_char r)
        with (String quote_char (String quote_char (double_quotes v +:+ String quote_char r))).
      cbn [read_quoted]. rewrite !Ascii.eqb_refl. by rewrite IH.
    + change (String c (double_quotes v) +:+ String quote_char r) with (String c (double_quotes v +:+ String quote_char r)).
      cbn [read_quoted]. rewrite (proj2 (Ascii.eqb_neq c quote_char) Hne). by rewrite IH.
Qed.

Lemma read_bare_back v r :
  field_end r -> has_char "," v = false -> has_char newline_char v = false -> read_bare (v +:+ r) = (v, r).
Proof.
  intros Hr. induction v as [|c v IH]; intros H1 H2.
  - change (read_bare r = (EmptyString, r)). destruct r as [|d r]; [done|]. by destruct Hr as [->| ->].
  - change (String c v +:+ r) with (String c (v +:+ r)). unfold has_char in H1, H2. cbn [String.list_ascii_of_string existsb] in H1, H2.
    apply orb_false_iff in H1 as [H1 H1']. apply orb_false_iff in H2 as [H2 H2']. cbn [read_bare].
    rewrite Ascii.eqb_sym, H1, (Ascii.eqb_sym c), H2. cbn [orb]. by rewrite IH.
Qed.

(** An escaped field reads back: whatever a field of the CSV report holds,
    commas, quotes and line breaks included, a reader gets it back exactly and
    stops at the end of the field. *)
Theorem csv_field_roundtrip v r : field_end r -> read_field (escapeCsvField v +:+ r) = Some (v, r).
Proof.
  intros Hr. unfold escapeCsvField. destruct (_ || _ || _) eqn:E.
  - change (String quote_char (double_quotes v +:+ String quote_char EmptyString) +:+ r)
      with (String quote_char ((double_quotes v +:+ String quote_char EmptyString) +:+ r)).
    rewrite str_app_assoc. cbn [read_field]. rewrite Ascii.eqb_refl. by apply read_quoted_back.
  - apply orb_false_iff in E as [[E1 E2]%orb_false_iff E3]. destruct v as [|c v].
    + change (read_field r = Some (EmptyString, r)). destruct r as [|d r]; [done|]. by destruct Hr as [->| ->].
    + pose proof (read_bare_back (String c v) r Hr E1 E3) as Hb. change (String c v +:+ r) with (String c (v +:+ r)) in *.
      unfold read_field. unfold has_char in E2. cbn [String.list_ascii_of_string existsb] in E2. apply orb_false_iff in E2 as [E2 _].
      rewrite Ascii.eqb_sym, E2. by rewrite Hb.
Qed.

End Review.

(** ** Instances *)

Lemma snapshot_records_grants_witness :
  exists m h, directImplications roles_json = Ok m /\ buildRoleHierarchy (Some roles_json) = Ok h /\
    (forall b, b ∈ ag_effectivePermissions (grant_entry "support" ["support"; "auditor"]%string) <-> rtc (implies m) "support"%string b).
Proof.
  destruct (directImplications roles_json) as [m|] eqn:Em; [|by vm_compute in Em].
  destruct (buildRoleHierarchy (Some roles_json)) as [h|] eqn:Eh; [|by vm_compute in Eh]. exists m, h. split; [done|]. split; [done|].
  destruct (snapshot_records_grants str_gt roles_json m h Em Eh) as [_ Hg].
  apply (Hg (grant_entry "support" ["support"; "auditor"]%string)). vm_compute in Eh. injection Eh as <-.
  apply grants_elem. exists "support"%string, ["support"; "auditor"]%string. split_and!; [|done|done].
  apply list_elem_of_In. vm_compute. tauto.
Defined.

(** The entry of admin lists a role that the file does not give it directly. *)
Lemma implied_roles_are_transitive :
  exists h, buildRoleHierarchy (Some roles_json) = Ok h /\
    exists g, g ∈ buildGrantEntriesFromHierarchy str_gt h /\ ag_role g = "admin"%string /\ "auditor"%string ∈ ag_impliedRoles g.
Proof.
  destruct (buildRoleHierarchy (Some roles_json)) as [h|] eqn:Eh; [|by vm_compute in Eh]. exists h. split; [done|].
  vm_compute in Eh. injection Eh as <-. eexists. split; [apply grants_elem; eexists _, _; split_and!; [left|vm_compute; reflexivity|reflexivity]|].
  split; [done|]. apply list_elem_of_In. vm_compute. tauto.
Qed.

Definition demo_calendar (date : Z) : Z * Z := (2026 + date / 12, date mod 12).

Definition demo_calls : list (option (option RolesConfig) * Z * Z * string) :=
  [(Some (Some roles_json), 1, 10, "a"%string); (None, 2, 20, "b"%string); (Some (Some roles_json), 3, 30, "c"%string)].

Lemma one_snapshot_per_quarter_witness :
  map as_quarterLabel (map_values (rs_snapshots (fold_left (snapshot_call demo_calendar str_gt) demo_calls no_reviews))) =
    [(2026, 1); (2026, 2)] /\
  NoDup (map as_quarterLabel (map_values (rs_snapshots (fold_left (snapshot_call demo_calendar str_gt) demo_calls no_reviews)))).
Proof.
  split; [vm_compute; reflexivity|].
  apply (one_snapshot_per_quarter demo_calendar str_gt demo_calls no_reviews); [|constructor].
  apply (bool_decide_eq_true (NoDup _)). vm_compute. reflexivity.
Defined.

Lemma csv_field_roundtrip_witness :
  field_end ",approved"%string /\ read_field (escapeCsvField "a, b" +:+ ",approved")%string = Some ("a, b", ",approved")%string.
Proof. split; [by left|]. apply (csv_field_roundtrip "a, b" ",approved"). by left. Defined.

(** The duplicate check compares the name as given with the trimmed one that is
    stored: a reviewer named with a trailing space signs any number of times. *)
Lemma padded_reviewer_signs_twice :
  let s := fold_left (snapshot_call demo_calendar str_gt) demo_calls no_reviews in
  let calls := [("a", "bob ", "approved", None, 40, "x"); ("a", "bob ", "rejected", None, 41, "y")]%string in
  map signed (map_values (rs_attestations (fold_left attest_call calls s))) = [("a", "bob"); ("a", "bob")]%string.
Proof. vm_compute. reflexivity. Qed.

(** A reviewer name is not escaped: a comma in it shifts the columns. *)
Lemma reviewer_shifts_columns a :
  aa_attestationId a = "x"%string -> aa_reviewer a = "Bob, QA"%string ->
  exists rest, read_field (String.substring 2 4 (attestation_line (fun _ => "t"%string) a)) = Some ("Bob", rest)%string.
Proof. intros H1 H2. unfold attestation_line. rewrite H1, H2. by eexists. Qed.
