(* ===== verification/Timezones.v ===== *)
(** * Timezones: the time zone and the regions of a store

    [services/timezoneResolverService.ts] over the time-zone records of
    [modules/slots/slot-repository.ts].  Whether [Intl] knows a zone is a
    parameter.  The audit events of a resolution are part of its answer. *)
From stdpp Require Import base list strings sets.
From Stdlib Require Import ZArith Lia Ascii.
From S2P Require Import Prelude JsMap Roles.

Record TimezoneOverride : Type := { to_timezone : string; to_setAt : string; to_setBy : string; to_reason : option string }.

Record StoreTimezoneConfig : Type := {
  sc_storeId : string;
  sc_timezoneOverride : option TimezoneOverride;
  sc_regionCodes : option (list string)
}.

Record SupplierTimezoneContext : Type := {
  su_supplierId : string;
  su_supplierDefaultTimezone : option TimezoneOverride;
  su_stores : jsmap StoreTimezoneConfig
}.

Record TenantTimezoneContext : Type := { te_tenantId : string; te_tenantDefaultTimezone : string }.

Inductive TzSource : Type := from_store | from_supplier | from_tenant.

Record TimezoneResolutionResult : Type := {
  tz_timezone : string;
  tz_source : TzSource;
  tz_storeId : option string;
  tz_set : option (string * string * option string)
}.

Record TimezoneResolutionAuditEvent : Type := {
  tv_supplierId : string;
  tv_tenantId : string;
  tv_storeId : option string;
  tv_resolvedTimezone : string;
  tv_source : TzSource;
  tv_candidates : option string * option string * string;
  tv_resolvedAt : string;
  tv_actorId : option string
}.

Inductive TzError : Type :=
| InvalidTimezoneError (timezone : string)
| SetAtRequired
| SetByRequired
| SupplierIdRequired
| TenantIdRequired
| TenantNotFound (tenantId : string)
| StoreIdRequired.

(** ** Validity *)

Definition is_letter (c : ascii) : bool :=
  let n := nat_of_ascii c in ((65 <=? n) && (n <=? 90) || (97 <=? n) && (n <=? 122))%nat.

Definition is_zone_char (c : ascii) : bool :=
  let n := nat_of_ascii c in
  is_letter c || ((48 <=? n) && (n <=? 57))%nat || Ascii.eqb c "_" || Ascii.eqb c "+" || Ascii.eqb c "-".

Definition zone_chars (s : string) : bool := forallb is_zone_char (String.list_ascii_of_string s).

(** [/^[A-Za-z][A-Za-z0-9_+-]*(?:\/[A-Za-z0-9_+-]+){0,2}$/]. *)
Definition VALID_TZ_REGEX (s : string) : bool :=
  match split_on "/" s with
  | String c first :: rest =>
      is_letter c && zone_chars first && Nat.leb (length rest) 2 && forallb (fun p => negb (is_empty_string p) && zone_chars p) rest
  | _ => false
  end.

Section Resolver.
Context (intl_knows : string -> bool).

Definition isValidIanaTimezone (timezone : string) : bool := VALID_TZ_REGEX timezone && intl_knows timezone.

Definition validateTimezoneOverride (override : TimezoneOverride) : result TzError unit :=
  _ ← throw_if (negb (isValidIanaTimezone (to_timezone override))) (InvalidTimezoneError (to_timezone override));
  _ ← throw_if (is_empty_string (to_setAt override)) SetAtRequired;
  throw_if (is_empty_string (to_setBy override)) SetByRequired.

(** ** Resolution *)

Definition store_override (supplier : option SupplierTimezoneContext) (storeId : option string) : option (string * TimezoneOverride) :=
  match storeId, supplier with
  | Some id, Some ctx => if is_empty_string id then None else pair id <$> (map_get id (su_stores ctx) ≫= sc_timezoneOverride)
  | _, _ => None
  end.

Definition of_tenant (tz : string) : TimezoneResolutionResult :=
  {| tz_timezone := tz; tz_source := from_tenant; tz_storeId := None; tz_set := None |}.

Definition of_override (source : TzSource) (storeId : option string) (o : TimezoneOverride) : TimezoneResolutionResult :=
  {| tz_timezone := to_timezone o; tz_source := source; tz_storeId := storeId; tz_set := Some (to_setAt o, to_setBy o, to_reason o) |}.

Definition resolveTimezoneSync (supplier : option SupplierTimezoneContext) (tenant : TenantTimezoneContext) (storeId : option string)
    : result TzError TimezoneResolutionResult :=
  let tenantTz := te_tenantDefaultTimezone tenant in
  _ ← throw_if (negb (isValidIanaTimezone tenantTz)) (InvalidTimezoneError tenantTz);
  r1 ← match supplier ≫= su_supplierDefaultTimezone with
       | Some o => _ ← validateTimezoneOverride o; mret (of_override from_supplier None o)
       | None => mret (of_tenant tenantTz)
       end;
  match store_override supplier storeId with
  | Some (id, o) => _ ← validateTimezoneOverride o; mret (of_override from_store (Some id) o)
  | None => mret r1
  end.

Record Directory : Type := { di_suppliers : jsmap SupplierTimezoneContext; di_tenants : jsmap TenantTimezoneContext }.

Definition resolveTimezone (d : Directory) (now : string) (supplierId tenantId : string) (storeId actorId : option string)
    : result TzError (TimezoneResolutionResult * TimezoneResolutionAuditEvent) :=
  _ ← throw_if (is_empty_string supplierId) SupplierIdRequired;
  _ ← throw_if (is_empty_string tenantId) TenantIdRequired;
  let supplier := map_get supplierId (di_suppliers d) in
  tenant ← from_option_or (map_get tenantId (di_tenants d)) (TenantNotFound tenantId);
  let tenantTz := te_tenantDefaultTimezone tenant in
  _ ← throw_if (negb (isValidIanaTimezone tenantTz)) (InvalidTimezoneError tenantTz);
  r1 ← match supplier ≫= su_supplierDefaultTimezone with
       | Some o => _ ← validateTimezoneOverride o; mret (of_override from_supplier None o, Some (to_timezone o))
       | None => mret (of_tenant tenantTz, None)
       end;
  r2 ← match store_override supplier storeId with
       | Some (id, o) => _ ← validateTimezoneOverride o; mret (of_override from_store (Some id) o, Some (to_timezone o))
       | None => mret (fst r1, None)
       end;
  mret (fst r2,
        {| tv_supplierId := supplierId; tv_tenantId := tenantId; tv_storeId := storeId; tv_resolvedTimezone := tz_timezone (fst r2);
           tv_source := tz_source (fst r2); tv_candidates := (snd r2, snd r1, tenantTz); tv_resolvedAt := now; tv_actorId := actorId |}).

(** ** Changing overrides *)

Definition with_override (o : option TimezoneOverride) (storeId : string) (c : StoreTimezoneConfig) : StoreTimezoneConfig :=
  {| sc_storeId := storeId; sc_timezoneOverride := o; sc_regionCodes := sc_regionCodes c |}.

Definition setStoreTimezoneOverride (now supplierId storeId timezone actorId : string) (reason : option string)
    (ctx : SupplierTimezoneContext) : result TzError SupplierTimezoneContext :=
  _ ← throw_if (negb (isValidIanaTimezone timezone)) (InvalidTimezoneError timezone);
  _ ← throw_if (is_empty_string storeId) StoreIdRequired;
  let override := {| to_timezone := timezone; to_setAt := now; to_setBy := actorId; to_reason := reason |} in
  let existing := default {| sc_storeId := storeId; sc_timezoneOverride := None; sc_regionCodes := None |} (map_get storeId (su_stores ctx)) in
  mret {| su_supplierId := supplierId; su_supplierDefaultTimezone := su_supplierDefaultTimezone ctx;
          su_stores := map_set storeId (with_override (Some override) storeId existing) (su_stores ctx) |}.

Definition setSupplierDefaultTimezone (now supplierId timezone actorId : string) (reason : option string)
    (ctx : SupplierTimezoneContext) : result TzError SupplierTimezoneContext :=
  _ ← throw_if (negb (isValidIanaTimezone timezone)) (InvalidTimezoneError timezone);
  mret {| su_supplierId := supplierId;
          su_supplierDefaultTimezone := Some {| to_timezone := timezone; to_setAt := now; to_setBy := actorId; to_reason := reason |};
          su_stores := su_stores ctx |}.

Definition clearStoreTimezoneOverride (storeId : string) (ctx : SupplierTimezoneContext) : SupplierTimezoneContext :=
  match map_get storeId (su_stores ctx) with
  | None => ctx
  | Some existing =>
      match sc_timezoneOverride existing with
      | None => ctx
      | Some _ =>
          {| su_supplierId := su_supplierId ctx; su_supplierDefaultTimezone := su_supplierDefaultTimezone ctx;
             su_stores := map_set storeId (with_override None (sc_storeId existing) existing) (su_stores ctx) |}
      end
  end.

(** ** Regions *)

Definition getRegionsForStore (supplier : option SupplierTimezoneContext) (storeId : option string) : list string :=
  match storeId, supplier with
  | Some id, Some ctx => if is_empty_string id then [] else default [] (map_get id (su_stores ctx) ≫= sc_regionCodes)
  | _, _ => []
  end.

Definition getAllRegionsForSupplier (supplier : option SupplierTimezoneContext) : list string :=
  match supplier with
  | None => []
  | Some ctx => set_of (flat_map (fun c => default [] (sc_regionCodes c)) (map_values (su_stores ctx)))
  end.

(** ** Both resolvers agree *)

(** The two resolvers agree: for ids that are given and a tenant that is
    known, the asynchronous resolver returns exactly what the synchronous one
    returns on the contexts of the directory, errors included, and its audit
    event records the zone and the level it came from. *)
Theorem resolvers_agree d now supplierId tenantId storeId actorId tenant :
  supplierId <> EmptyString -> tenantId <> EmptyString -> map_get tenantId (di_tenants d) = Some tenant ->
  match resolveTimezone d now supplierId tenantId storeId actorId, resolveTimezoneSync (map_get supplierId (di_suppliers d)) tenant storeId with
  | Ok (r, event), Ok r' => r = r' /\ tv_resolvedTimezone event = tz_timezone r' /\ tv_source event = tz_source r'
  | Err e, Err e' => e = e'
  | _, _ => False
  end.
Proof.
  intros Hs Ht Hten. unfold resolveTimezone, resolveTimezoneSync. rewrite Hten.
  destruct supplierId as [|c s]; [done|]. destruct tenantId as [|c' s']; [done|]. cbn [is_empty_string throw_if mbind result_bind from_option_or].
  destruct (negb (isValidIanaTimezone (te_tenantDefaultTimezone tenant))); [done|]. cbn [throw_if mbind result_bind].
  destruct (_ ≫= su_supplierDefaultTimezone) as [o|]; cbn [mbind result_bind].
  - destruct (validateTimezoneOverride o) as [u|e]; cbn; [|done].
    destruct (store_override _ storeId) as [[id o']|]; cbn; [|by split_and!]. destruct (validateTimezoneOverride o'); cbn; [by split_and!|done].
  - destruct (store_override _ storeId) as [[id o']|]; cbn; [|by split_and!]. destruct (validateTimezoneOverride o'); cbn; [by split_and!|done].
Qed.

(** An override is what the store resolves to, until it is cleared; no other
    store is affected. *)
Lemma override_set_and_cleared now supplierId storeId timezone actorId reason ctx ctx' tenant other :
  now <> EmptyString -> actorId <> EmptyString ->
  setStoreTimezoneOverride now supplierId storeId timezone actorId reason ctx = Ok ctx' ->
  (forall r, resolveTimezoneSync (Some ctx') tenant (Some storeId) = Ok r -> tz_timezone r = timezone /\ tz_source r = from_store) /\
  (other <> storeId -> store_override (Some ctx') (Some other) = store_override (Some ctx) (Some other)) /\
  store_override (Some (clearStoreTimezoneOverride storeId ctx')) (Some storeId) = None.
Proof.
  intros Hnow Hactor. unfold setStoreTimezoneOverride. intros (u & Hv & (u' & Hid & [= <-])%bind_ok)%bind_ok. destruct u, u'.
  apply throw_if_ok, negb_false_iff in Hv. apply throw_if_ok in Hid. split_and!.
  - intros r. unfold resolveTimezoneSync, store_override. rewrite Hid. cbn [su_stores]. rewrite map_get_set_eq. cbn.
    destruct (negb _); [done|]. cbn. intros (r1 & _ & H)%bind_ok. apply bind_ok in H as (v & _ & [= <-]). done.
  - intros Hne. unfold store_override. destruct (is_empty_string other); [done|]. cbn [su_stores]. by rewrite map_get_set_ne.
  - unfold clearStoreTimezoneOverride. cbn [su_stores]. rewrite map_get_set_eq. cbn [with_override sc_timezoneOverride]. unfold store_override.
    rewrite Hid. cbn [su_stores]. rewrite map_get_set_eq. done.
Qed.

(** The regions of a supplier are those of its stores. *)
Lemma supplier_regions ctx r :
  NoDup (map_keys (su_stores ctx)) ->
  r ∈ getAllRegionsForSupplier (Some ctx) <->
  exists id c, map_get id (su_stores ctx) = Some c /\ r ∈ default [] (sc_regionCodes c).
Proof.
  intros Hnd. unfold getAllRegionsForSupplier. rewrite set_of_elem, list_elem_of_In, in_flat_map. split.
  - intros (c & Hc & Hr). apply in_map_iff in Hc as ([id c'] & <- & Hin). exists id, c'.
    split; [apply elem_map_get; [done|by apply list_elem_of_In]|by apply list_elem_of_In].
  - intros (id & c & Hc & Hr). exists c. split; [|by apply list_elem_of_In]. apply in_map_iff. exists (id, c).
    split; [done|]. apply list_elem_of_In. by apply map_get_elem.
Qed.

End Resolver.

Definition demo_directory : Directory :=
  {| di_suppliers := [("s1"%string, {| su_supplierId := "s1"; su_supplierDefaultTimezone := None;
       su_stores := [("st"%string, {| sc_storeId := "st"; sc_regionCodes := Some ["DE"%string];
         sc_timezoneOverride := Some {| to_timezone := "Europe/Berlin"; to_setAt := "t"; to_setBy := "u"; to_reason := None |} |})] |})];
     di_tenants := [("t1"%string, {| te_tenantId := "t1"; te_tenantDefaultTimezone := "UTC" |})] |}.

Lemma resolvers_agree_witness :
  match resolveTimezone (fun _ => true) demo_directory "now" "s1" "t1" (Some "st"%string) None,
        resolveTimezoneSync (fun _ => true) (map_get "s1"%string (di_suppliers demo_directory))
          {| te_tenantId := "t1"; te_tenantDefaultTimezone := "UTC" |} (Some "st"%string) with
  | Ok (r, event), Ok r' => r = r' /\ tv_resolvedTimezone event = tz_timezone r' /\ tv_source event = tz_source r'
  | Err e, Err e' => e = e'
  | _, _ => False
  end /\
  match resolveTimezone (fun _ => true) demo_directory "now" "s1" "t1" (Some "st"%string) None with
  | Ok (r, _) => tz_timezone r = "Europe/Berlin"%string | Err _ => False end.
Proof.
  split; [|vm_compute; reflexivity].
  apply (resolvers_agree (fun _ => true) demo_directory "now" "s1" "t1" (Some "st"%string) None
    {| te_tenantId := "t1"; te_tenantDefaultTimezone := "UTC" |}); [done|done|vm_compute; reflexivity].
Defined.
