(* ===== verification/Recurrence.v ===== *)
(** * Recurrence: expanding recurrence rules and holiday impact

    [services/recurrenceService.ts]: the EXDATE lines of a rule text, the
    expansion of a rule with exclusions and blackout windows, the in-memory
    holiday registry, and the impact analysis in its asynchronous and its
    synchronous form.  The RRULE library, [Intl] dates, [Date.parse] of a day and
    number printing are parameters.  Dates are epoch milliseconds. *)
From stdpp Require Import base list strings sets.
From Stdlib Require Import ZArith Lia Ascii.
From S2P Require Import Prelude JsNumber JsMap Roles Timezones.
Local Open Scope Z_scope.

Definition MAX_OCCURRENCES : nat := 200.
Definition MAX_EXDATES : nat := 100.

Record BlackoutWindow : Type := { bw_startMs : num; bw_endMs : num; bw_label : option string }.

Record ExpandRRuleResult : Type := {
  ex_occurrences : list Z;
  ex_excludedByExdate : list Z;
  ex_excludedByBlackout : list Z
}.

Inductive RecurrenceError : Type :=
| EmptyRule
| TooManyExdates
| InvalidRRule
| UnboundedRRule
| BadInterval
| TooManyOccurrences.

(** ** EXDATE lines *)

Definition day_ms : Z := 86400000.

Definition digit_value (c : ascii) : option Z :=
  let n := Z.of_nat (nat_of_ascii c) in if (48 <=? n) && (n <=? 57) then Some (n - 48) else None.

(** [\d{n}]: exactly [n] digits, and the rest. *)
Fixpoint digits_n (n : nat) (acc : Z) (s : string) : option (Z * string) :=
  match n with
  | O => Some (acc, s)
  | S n' =>
      match s with
      | String c s' => match digit_value c with Some d => digits_n n' (10 * acc + d) s' | None => None end
      | EmptyString => None
      end
  end.

(** The day [Date.UTC(year, month - 1, day)] falls on: months and days beyond
    their range run on, and years below 100 count from 1900. *)
Definition utc_day (year month day : Z) : Z :=
  let year := (if year <? 100 then 1900 + year else year) + (month - 1) / 12 in
  let month := (month - 1) mod 12 + 1 in
  let y := if month <=? 2 then year - 1 else year in
  let m := (month + 9) mod 12 in
  365 * y + y / 4 - y / 100 + y / 400 + (153 * m + 2) / 5 + day - 1 - 719468.

(** [/Z$/i]. *)
Fixpoint strip_z (s : string) : string :=
  match s with
  | EmptyString => EmptyString
  | String c EmptyString => if Ascii.eqb (lower_ascii c) "z" then EmptyString else s
  | String c s' => String c (strip_z s')
  end.

Definition parseSingleExdate (value : string) : option Z :=
  '(year, s1) ← digits_n 4 0 (js_trim (strip_z value));
  '(month, s2) ← digits_n 2 0 s1;
  '(day, s3) ← digits_n 2 0 s2;
  match s3 with
  | EmptyString => Some (utc_day year month day * day_ms)
  | String "T" s4 => match digits_n 6 0 s4 with Some _ => Some (utc_day year month day * day_ms) | None => None end
  | _ => None
  end.

Definition is_line_end (c : ascii) : bool := let n := nat_of_ascii c in ((n =? 10) || (n =? 13))%nat.

(** A prefix up to the case of letters; the rest of the text. *)
Fixpoint drop_ci (p s : string) : option string :=
  match p, s with
  | EmptyString, _ => Some s
  | String a p', String b s' => if Ascii.eqb (lower_ascii a) (lower_ascii b) then drop_ci p' s' else None
  | _, EmptyString => None
  end.

Fixpoint after_colon (s : string) : option string :=
  match s with
  | String c s' => if Ascii.eqb c ":" then Some s' else after_colon s'
  | EmptyString => None
  end.

Fixpoint take_line (s : string) : string * string :=
  match s with
  | String c s' => if is_line_end c then (EmptyString, s) else let '(l, r) := take_line s' in (String c l, r)
  | EmptyString => (EmptyString, EmptyString)
  end.

(** A line that starts with EXDATE, optional parameters up to a colon, then the
    values to the end of the line: the values and what follows them. *)
Definition exdate_here (s : string) : option (string * string) :=
  r ← drop_ci "EXDATE" s;
  t ← match r with
      | String ";" r' => after_colon r'
      | String ":" r' => Some r'
      | _ => None
      end;
  let '(values, rest) := take_line t in
  if is_empty_string values then None else Some (values, rest).

(** All matches, from left to right; every round consumes a character. *)
Fixpoint exdate_lines (fuel : nat) (line_start : bool) (s : string) : list string :=
  match fuel with
  | O => []
  | S fuel' =>
      match s with
      | EmptyString => []
      | String c s' =>
          match (if line_start then exdate_here s else None) with
          | Some (values, rest) => values :: exdate_lines fuel' false rest
          | None => exdate_lines fuel' (is_line_end c) s'
          end
      end
  end.

Definition parseExdates (rruleText : string) : result RecurrenceError (list Z) :=
  let values := flat_map (fun l => List.filter str_truthy (map js_trim (split_on "," (js_trim l))))
    (exdate_lines (S (String.length rruleText)) true rruleText) in
  let exdates := omap parseSingleExdate values in
  _ ← throw_if (Nat.ltb MAX_EXDATES (length exdates)) TooManyExdates;
  mret exdates.

Definition sameUtcDay (a b : Z) : bool := a / day_ms =? b / day_ms.

(** ** Expansion *)

Record RRule : Type := { ru_count : option num; ru_until : bool; ru_interval : option num; ru_first : nat -> list Z }.

(** A zero INTERVAL field: at the start of a field, an optional sign, zeros only,
    and the end of the field or of the text. *)
Fixpoint zeros_then_end (seen : bool) (s : string) : bool :=
  match s with
  | EmptyString => seen
  | String c s' => if Ascii.eqb c "0" then zeros_then_end true s' else seen && Ascii.eqb c ";"
  end.

Definition interval_here (s : string) : bool :=
  match drop_ci "INTERVAL=" s with
  | Some (String "-" r) => zeros_then_end false r
  | Some r => zeros_then_end false r
  | None => false
  end.

Fixpoint zero_interval (field_start : bool) (s : string) : bool :=
  (field_start && interval_here s) ||
  match s with
  | EmptyString => false
  | String c s' => zero_interval (Ascii.eqb c ";" || Nat.eqb (nat_of_ascii c) 10) s'
  end.

(** [text.split(/\r?\n/)]. *)
Fixpoint split_lines (s : string) : list string :=
  match s with
  | EmptyString => [EmptyString]
  | String c s' =>
      let rest := split_lines s' in
      if Nat.eqb (nat_of_ascii c) 10 then EmptyString :: rest
      else match s' with
           | String d s'' =>
               if Nat.eqb (nat_of_ascii c) 13 && Nat.eqb (nat_of_ascii d) 10 then rest
               else match rest with l :: ls => String c l :: ls | [] => [String c EmptyString] end
           | EmptyString => match rest with l :: ls => String c l :: ls | [] => [String c EmptyString] end
           end
  end.

Fixpoint join_lines (l : list string) : string :=
  match l with [] => EmptyString | [x] => x | x :: l' => x +:+ String (ascii_of_nat 10) (join_lines l') end.

Definition rrule_only (rruleText : string) : string :=
  join_lines (List.filter (fun line => match drop_ci "EXDATE" (js_trim line) with Some _ => false | None => true end) (split_lines rruleText)).

Definition in_blackout (occ : Z) (b : BlackoutWindow) : bool := geb (of_Z occ) (bw_startMs b) && leb (of_Z occ) (bw_endMs b).

(** The loop that sorts the raw occurrences into the three lists. *)
Fixpoint sift (exdates : list Z) (blackouts : list BlackoutWindow) (raw : list Z) : ExpandRRuleResult :=
  match raw with
  | [] => {| ex_occurrences := []; ex_excludedByExdate := []; ex_excludedByBlackout := [] |}
  | occ :: raw' =>
      let r := sift exdates blackouts raw' in
      if existsb (fun e => sameUtcDay e occ) exdates then
        {| ex_occurrences := ex_occurrences r; ex_excludedByExdate := occ :: ex_excludedByExdate r;
           ex_excludedByBlackout := ex_excludedByBlackout r |}
      else if existsb (in_blackout occ) blackouts then
        {| ex_occurrences := ex_occurrences r; ex_excludedByExdate := ex_excludedByExdate r;
           ex_excludedByBlackout := occ :: ex_excludedByBlackout r |}
      else
        {| ex_occurrences := occ :: ex_occurrences r; ex_excludedByExdate := ex_excludedByExdate r;
           ex_excludedByBlackout := ex_excludedByBlackout r |}
  end.

Section Expansion.
Context (rrulestr : string -> option RRule).

Definition expandRRuleWithExdate (rruleText : string) (blackouts : list BlackoutWindow) : result RecurrenceError ExpandRRuleResult :=
  _ ← throw_if (blank rruleText) EmptyRule;
  exdates ← parseExdates rruleText;
  rule ← from_option_or (rrulestr (rrule_only rruleText)) InvalidRRule;
  _ ← throw_if (leb (default zero (ru_count rule)) zero && negb (ru_until rule)) UnboundedRRule;
  _ ← throw_if (match ru_interval rule with Some i => ltb i one | None => false end || zero_interval true rruleText) BadInterval;
  let raw := ru_first rule (S MAX_OCCURRENCES) in
  _ ← throw_if (Nat.ltb MAX_OCCURRENCES (length raw)) TooManyOccurrences;
  mret (sift exdates blackouts raw).

Definition expandRRule (rruleText : string) : result RecurrenceError (list Z) :=
  r ← expandRRuleWithExdate rruleText []; mret (ex_occurrences r).

Lemma parseExdates_bound rruleText exdates : parseExdates rruleText = Ok exdates -> (length exdates <= MAX_EXDATES)%nat.
Proof. unfold parseExdates. intros H. inv_ok. subst. by apply Nat.ltb_ge. Qed.

Lemma filter_sublist_of {A : Type} (p : A -> bool) (l : list A) : List.filter p l `sublist_of` l.
Proof. induction l as [|x l IH]; [done|]. cbn [List.filter]. destruct (p x); by constructor. Qed.

(** An occurrence falls on an excluded day. *)
Definition on_exdate (exdates : list Z) (occ : Z) : bool := existsb (fun e => sameUtcDay e occ) exdates.

Lemma sift_exact exdates blackouts raw :
  let black := fun occ => existsb (in_blackout occ) blackouts in
  sift exdates blackouts raw =
    {| ex_occurrences := List.filter (fun occ => negb (on_exdate exdates occ) && negb (black occ)) raw;
       ex_excludedByExdate := List.filter (on_exdate exdates) raw;
       ex_excludedByBlackout := List.filter (fun occ => negb (on_exdate exdates occ) && black occ) raw |}.
Proof.
  intros black. induction raw as [|occ raw IH]; [done|]. cbn [sift List.filter]. rewrite IH. fold (on_exdate exdates occ) (black occ).
  destruct (on_exdate exdates occ), (black occ); done.
Qed.

Lemma three_way_perm {A : Type} (p q : A -> bool) (l : list A) :
  l ≡ₚ List.filter (fun x => negb (p x) && negb (q x)) l ++ List.filter p l ++ List.filter (fun x => negb (p x) && q x) l.
Proof.
  induction l as [|x l IH]; [done|]. cbn [List.filter]. destruct (p x), (q x); cbn [negb andb app].
  - rewrite <- Permutation_middle. by rewrite <- IH.
  - rewrite <- Permutation_middle. by rewrite <- IH.
  - rewrite (app_assoc _ _ (x :: _)), <- Permutation_middle, <- app_assoc. by rewrite <- IH.
  - cbn [app]. by rewrite <- IH.
Qed.

(** An occurrence on the UTC day of an excluded date, and one inside a blackout
    window. *)
Definition excluded_day (exdates : list Z) (occ : Z) : Prop := exists e, e ∈ exdates /\ e / day_ms = occ / day_ms.
Definition blacked_out (blackouts : list BlackoutWindow) (occ : Z) : Prop :=
  exists b, b ∈ blackouts /\ geb (of_Z occ) (bw_startMs b) = true /\ leb (of_Z occ) (bw_endMs b) = true.

Lemma on_exdate_iff exdates occ : on_exdate exdates occ = true <-> excluded_day exdates occ.
Proof.
  unfold on_exdate, excluded_day, sameUtcDay. rewrite existsb_exists. setoid_rewrite <- list_elem_of_In.
  by setoid_rewrite Z.eqb_eq.
Qed.

Lemma in_blackout_iff blackouts occ : existsb (in_blackout occ) blackouts = true <-> blacked_out blackouts occ.
Proof.
  unfold blacked_out. rewrite existsb_exists. setoid_rewrite <- list_elem_of_In. unfold in_blackout.
  by setoid_rewrite andb_true_iff.
Qed.

(** (C32) An expansion that succeeds sorts every raw occurrence of the rule, at
    most 200 of them, into exactly one of three lists that keep the rule's order:
    the ones on the UTC day of some EXDATE; of the rest, the ones inside a
    blackout window, its ends included; and the ones kept, which are neither.
    The rule had an end, at most 100 excluded days were read from the text, and
    [expandRRule] returns the kept ones of the same expansion. *)
Theorem expansion_exact rruleText blackouts r :
  expandRRuleWithExdate rruleText blackouts = Ok r ->
  exists rule exdates,
    rrulestr (rrule_only rruleText) = Some rule /\ parseExdates rruleText = Ok exdates /\
    (length exdates <= MAX_EXDATES)%nat /\
    (leb (default zero (ru_count rule)) zero = false \/ ru_until rule = true) /\
    let raw := ru_first rule (S MAX_OCCURRENCES) in
    (length raw <= MAX_OCCURRENCES)%nat /\
    raw ≡ₚ ex_occurrences r ++ ex_excludedByExdate r ++ ex_excludedByBlackout r /\
    ex_occurrences r `sublist_of` raw /\ ex_excludedByExdate r `sublist_of` raw /\ ex_excludedByBlackout r `sublist_of` raw /\
    (forall occ, occ ∈ ex_occurrences r <-> occ ∈ raw /\ ~ excluded_day exdates occ /\ ~ blacked_out blackouts occ) /\
    (forall occ, occ ∈ ex_excludedByExdate r <-> occ ∈ raw /\ excluded_day exdates occ) /\
    (forall occ, occ ∈ ex_excludedByBlackout r <-> occ ∈ raw /\ ~ excluded_day exdates occ /\ blacked_out blackouts occ) /\
    (blackouts = [] -> expandRRule rruleText = Ok (ex_occurrences r)).
Proof.
  intros Hr. pose proof Hr as H. unfold expandRRuleWithExdate in H. inv_ok.
  match goal with
  | E : rrulestr _ = Some ?rule, X : parseExdates _ = Ok ?exdates |- _ => exists rule, exdates; split; [exact E|]; split; [exact X|]
  end.
  split; [eauto using parseExdates_bound|].
  match goal with E : leb _ zero && _ = false |- _ => rename E into Eend end.
  match goal with E : Nat.ltb MAX_OCCURRENCES _ = false |- _ => apply Nat.ltb_ge in E; rename E into Hmax end.
  match goal with E : sift _ _ _ = r |- _ => rewrite <- E, sift_exact in *; clear E end.
  split; [apply andb_false_iff in Eend as [?|?%negb_false_iff]; auto|]. cbv zeta. split; [exact Hmax|].
  cbn [ex_occurrences ex_excludedByExdate ex_excludedByBlackout].
  split; [apply three_way_perm|]. do 3 (split; [apply filter_sublist_of|]).
  do 3 (split; [intros occ; rewrite list_elem_of_In, filter_In, <- list_elem_of_In, <- on_exdate_iff, <- ?in_blackout_iff,
                  ?andb_true_iff, ?negb_true_iff, ?not_true_iff_false; done|]).
  intros ->. unfold expandRRule. by rewrite Hr.
Qed.

End Expansion.

(** ** Holidays *)

Inductive Observance : Type := full_day | half_day | morning | afternoon | bank_holiday.

Record RegionalHoliday : Type := {
  rh_date : string;
  rh_name : string;
  rh_regionCodes : list string;
  rh_observanceType : Observance;
  rh_isSuppressedByDefault : option bool;
  rh_notes : option string
}.

Inductive ResolutionHint : Type := suppress | flag_only | adjust_hours.

Record HolidayImpact : Type := {
  hi_dateIso : string;
  hi_timestampMs : Z;
  hi_holiday : RegionalHoliday;
  hi_affectedRegionCodes : list string;
  hi_resolutionHint : ResolutionHint
}.

Record HolidayImpactAnalysis : Type := {
  ha_totalOccurrences : nat;
  ha_affectedOccurrences : nat;
  ha_impactedOccurrences : list HolidayImpact;
  ha_uniqueRegionCodes : list string;
  ha_uniqueHolidayNames : list string;
  ha_summary : string;
  ha_analysisGeneratedAt : string;
  ha_supplierId : option string;
  ha_storeId : option string;
  ha_regionCodesScoped : list string
}.

Definition pickResolutionHint (h : RegionalHoliday) : ResolutionHint :=
  if default false (rh_isSuppressedByDefault h) then suppress
  else match rh_observanceType h with
       | bank_holiday => suppress
       | half_day | morning | afternoon => adjust_hours
       | full_day => flag_only
       end.

(** [filter.includes(r)]. *)
Definition includes (l : list string) (r : string) : bool := bool_decide (r ∈ l).

(** [Array.from(set).sort()]. *)
Definition sorted_set (l : list string) : list string := js_sort (fun x y => String.ltb y x) (set_of l).

Section Analysis.
Context (rrulestr : string -> option RRule) (intl_knows : string -> bool).
Context (intl_date : string -> Z -> option string) (utc_date iso_day : Z -> string).
Context (date_parse : string -> option Z) (print : num -> string).

(** [dayEndMs >= startMs && dayMs <= endMs]; a date that does not parse is never in range. *)
Definition inRange (startMs endMs : Z) (h : RegionalHoliday) : bool :=
  match date_parse (rh_date h +:+ "T00:00:00Z") with
  | Some dayMs => (startMs <=? dayMs + day_ms - 1) && (dayMs <=? endMs)
  | None => false
  end.

Definition matchesRegion (filter : option (list string)) (h : RegionalHoliday) : bool :=
  match filter with
  | None | Some [] => true
  | Some f => existsb (includes f) (rh_regionCodes h)
  end.

Definition listHolidaysInRange (holidays : list RegionalHoliday) (startMs endMs : Z) (regionCodes : option (list string)) : list RegionalHoliday :=
  List.filter (matchesRegion regionCodes) (List.filter (inRange startMs endMs) holidays).

Definition formatDateInTimezone (epochMs : Z) (tz : string) : string := default (utc_date epochMs) (intl_date tz epochMs).

Definition sameDayIso (aIso : string) (occurrenceMs : Z) (tz : string) : bool :=
  bool_decide (formatDateInTimezone occurrenceMs tz = aIso) || bool_decide (iso_day occurrenceMs = aIso).

(** The regions of a holiday that count, given the regions in effect. *)
Definition affected_regions (effective : list string) (h : RegionalHoliday) : list string :=
  match effective with
  | [] => rh_regionCodes h
  | _ => List.filter (includes effective) (rh_regionCodes h)
  end.

(** The body of the inner loop. *)
Definition impact_of (effective : list string) (tz : string) (occMs : Z) (h : RegionalHoliday) : option HolidayImpact :=
  match affected_regions effective h with
  | [] => None
  | regions =>
      if sameDayIso (rh_date h) occMs tz then
        Some {| hi_dateIso := formatDateInTimezone occMs tz; hi_timestampMs := occMs; hi_holiday := h;
                hi_affectedRegionCodes := regions; hi_resolutionHint := pickResolutionHint h |}
      else None
  end.

Definition impacts (effective : list string) (tz : string) (occurrences : list Z) (holidays : list RegionalHoliday) : list HolidayImpact :=
  flat_map (fun occMs => omap (impact_of effective tz occMs) holidays) occurrences.

Fixpoint join_with (sep : string) (l : list string) : string :=
  match l with [] => EmptyString | [x] => x | x :: l' => x +:+ sep +:+ join_with sep l' end.

Definition no_occurrences : string := "No occurrences generated by the RRULE.".

Definition buildSummary (total affected : nat) (holidayNames regionCodes : list string) : string :=
  let n (k : nat) := of_Z (Z.of_nat k) in
  if Nat.eqb total 0 then no_occurrences
  else if Nat.eqb affected 0 then "All " +:+ print (n total) +:+ " occurrence(s) are clear of regional holidays in the scoped regions."
  else
    let pct := math_round (mul (div (n affected) (n total)) (of_Z 100)) in
    let holidayStr := match holidayNames with [] => EmptyString | _ => " (" +:+ join_with ", " holidayNames +:+ ")" end in
    let regionStr := match regionCodes with [] => EmptyString | _ => " in " +:+ print (n (length regionCodes)) +:+ " region(s)" end in
    print (n affected) +:+ " of " +:+ print (n total) +:+ " occurrence(s) (" +:+ print pct +:+ "%) intersect" +:+
      (if Nat.ltb 1 (String.length holidayStr) then EmptyString else "s") +:+ " with" +:+ holidayStr +:+ regionStr +:+ ".".

Definition emptyAnalysis (now : string) (supplierId storeId : option string) (scoped : option (list string)) : HolidayImpactAnalysis :=
  {| ha_totalOccurrences := 0; ha_affectedOccurrences := 0; ha_impactedOccurrences := []; ha_uniqueRegionCodes := [];
     ha_uniqueHolidayNames := []; ha_summary := no_occurrences; ha_analysisGeneratedAt := now;
     ha_supplierId := supplierId; ha_storeId := storeId; ha_regionCodesScoped := default [] scoped |}.

(** The regions in effect: those of the store or supplier, cut down to the scope
    when there are any, otherwise the scope. *)
Definition scope_regions (scoped : option (list string)) (base : list string) : list string :=
  match scoped with
  | None | Some [] => base
  | Some f => match base with [] => f | _ => List.filter (includes f) base end
  end.

Definition base_regions (supplier : option SupplierTimezoneContext) (storeId : option string) : list string :=
  if str_truthy (default EmptyString storeId) then getRegionsForStore supplier storeId else getAllRegionsForSupplier supplier.

(** What both analyses build from their occurrences, holidays, regions and zone. *)
Definition build_analysis (now : string) (supplierId storeId : option string) (effective : list string) (tz : string)
    (occurrences : list Z) (holidays : list RegionalHoliday) : HolidayImpactAnalysis :=
  let found := impacts effective tz occurrences holidays in
  let regions := sorted_set (flat_map hi_affectedRegionCodes found) in
  let names := sorted_set (map (fun i => rh_name (hi_holiday i)) found) in
  {| ha_totalOccurrences := length occurrences; ha_affectedOccurrences := length found; ha_impactedOccurrences := found;
     ha_uniqueRegionCodes := regions; ha_uniqueHolidayNames := names;
     ha_summary := buildSummary (length occurrences) (length found) names regions; ha_analysisGeneratedAt := now;
     ha_supplierId := supplierId; ha_storeId := storeId; ha_regionCodesScoped := effective |}.

(** [resolveTimezone] in a [try], with UTC when it throws; no tenant, no resolution. *)
Definition zone_of (d : Directory) (now supplierId : string) (tenantId storeId actorId : option string) : string :=
  if str_truthy (default EmptyString tenantId) then
    match resolveTimezone intl_knows d now supplierId (default EmptyString tenantId) storeId actorId with
    | Ok r => tz_timezone (fst r)
    | Err _ => "UTC"
    end
  else "UTC".

Definition supplier_of (d : Directory) (supplierId : option string) : option SupplierTimezoneContext :=
  if str_truthy (default EmptyString supplierId) then map_get (default EmptyString supplierId) (di_suppliers d) else None.

Definition analyze (d : Directory) (seed : list RegionalHoliday) (now rruleText : string)
    (supplierId storeId tenantId : option string) (scoped : option (list string)) (actorId : option string)
    (blackouts : list BlackoutWindow) : result RecurrenceError HolidayImpactAnalysis :=
  r ← expandRRuleWithExdate rrulestr rruleText blackouts;
  match ex_occurrences r with
  | [] => mret (emptyAnalysis now supplierId storeId scoped)
  | (startMs :: _) as occurrences =>
      let endMs := List.last occurrences startMs in
      let supplier := supplier_of d supplierId in
      let effective := scope_regions scoped (match supplier with Some _ => base_regions supplier storeId | None => [] end) in
      let tz := match supplier with
                | Some _ => zone_of d now (default EmptyString supplierId) tenantId storeId actorId
                | None => "UTC"
                end in
      let holidays := listHolidaysInRange seed startMs endMs (match effective with [] => None | _ => Some effective end) in
      mret (build_analysis now supplierId storeId effective tz occurrences holidays)
  end.

Definition analyzeSync (now rruleText : string) (supplierContext : option SupplierTimezoneContext) (storeId : option string)
    (resolvedTimezone : option string) (scoped : option (list string)) (holidays : list RegionalHoliday)
    (blackouts : list BlackoutWindow) : result RecurrenceError HolidayImpactAnalysis :=
  r ← expandRRuleWithExdate rrulestr rruleText blackouts;
  match ex_occurrences r with
  | [] => mret (emptyAnalysis now (su_supplierId <$> supplierContext) storeId scoped)
  | (startMs :: _) as occurrences =>
      let endMs := List.last occurrences startMs in
      let tz := default "UTC" resolvedTimezone in
      let effective := scope_regions scoped (base_regions supplierContext storeId) in
      mret (build_analysis now (su_supplierId <$> supplierContext) storeId effective tz occurrences
              (List.filter (inRange startMs endMs) holidays))
  end.

(** ** What an analysis reports *)

Lemma impact_of_region_free effective tz occMs h :
  matchesRegion (Some effective) h = false -> impact_of effective tz occMs h = None.
Proof.
  unfold matchesRegion, impact_of, affected_regions. destruct effective as [|e effective]; [done|]. intros Hno.
  assert (List.filter (includes (e :: effective)) (rh_regionCodes h) = []) as ->; [|done].
  induction (rh_regionCodes h) as [|r l IH]; [done|]. cbn [existsb List.filter] in *.
  apply orb_false_iff in Hno as [-> Hl]. by apply IH.
Qed.

Lemma omap_filter_redundant {A B : Type} (keep : A -> bool) (f : A -> option B) (l : list A) :
  (forall x, keep x = false -> f x = None) -> omap f (List.filter keep l) = omap f l.
Proof.
  intros Hf. induction l as [|x l IH]; [done|]. cbn [List.filter]. destruct (keep x) eqn:E; csimpl; [by rewrite IH|].
  by rewrite (Hf x E), IH.
Qed.

(** The registry's region filter drops only holidays the loop would skip. *)
Lemma impacts_region_filter effective tz occurrences holidays :
  impacts effective tz occurrences (List.filter (matchesRegion (match effective with [] => None | _ => Some effective end)) holidays) =
  impacts effective tz occurrences holidays.
Proof.
  unfold impacts. induction occurrences as [|o l IH]; [done|]. cbn [flat_map]. rewrite IH. f_equal.
  apply omap_filter_redundant. intros h. destruct effective; [done|]. apply impact_of_region_free.
Qed.

Lemma impacts_elem effective tz occurrences holidays i :
  i ∈ impacts effective tz occurrences holidays <->
  exists o h, o ∈ occurrences /\ h ∈ holidays /\ impact_of effective tz o h = Some i.
Proof.
  unfold impacts. rewrite list_elem_of_In, in_flat_map. split.
  - intros (o & Ho & (h & Hh & E)%list_elem_of_In%list_elem_of_omap). exists o, h. by rewrite list_elem_of_In.
  - intros (o & h & Ho & Hh & E). exists o. rewrite <- list_elem_of_In. split; [done|].
    apply list_elem_of_In, list_elem_of_omap. eauto.
Qed.

(** A reported impact lies on the holiday, in the regions in effect. *)
Lemma impact_of_some effective tz o h i :
  impact_of effective tz o h = Some i <->
  affected_regions effective h <> [] /\ sameDayIso (rh_date h) o tz = true /\
  i = {| hi_dateIso := formatDateInTimezone o tz; hi_timestampMs := o; hi_holiday := h;
         hi_affectedRegionCodes := affected_regions effective h; hi_resolutionHint := pickResolutionHint h |}.
Proof.
  unfold impact_of. destruct (affected_regions effective h) as [|r l]; [by split; [|intros []]|].
  destruct (sameDayIso _ _ _); split; [intros [= <-]|intros (_ & _ & ->)| |intros (_ & ? & _)]; done.
Qed.

Definition analysis_zone (d : Directory) (now : string) (supplierId tenantId storeId actorId : option string) : string :=
  match supplier_of d supplierId with
  | Some _ => zone_of d now (default EmptyString supplierId) tenantId storeId actorId
  | None => "UTC"
  end.

(** The two analyses agree: over the in-memory registry and a directory that
    files a supplier under its own id, the asynchronous analysis is the
    synchronous one on that supplier's context, the zone the resolver answers
    and the registry's holidays, errors included; and when it succeeds on a rule
    with occurrences, an impact is reported exactly for each kept occurrence and
    each holiday of the range that falls on its day, in the occurrence's zone or
    in UTC, with a region in effect. *)
Theorem analyses_agree d seed now rruleText supplierId storeId tenantId scoped actorId blackouts :
  su_supplierId <$> supplier_of d supplierId = supplierId ->
  let tz := analysis_zone d now supplierId tenantId storeId actorId in
  let effective := scope_regions scoped (base_regions (supplier_of d supplierId) storeId) in
  analyze d seed now rruleText supplierId storeId tenantId scoped actorId blackouts =
    analyzeSync now rruleText (supplier_of d supplierId) storeId (Some tz) scoped seed blackouts /\
  (forall a r o l,
     analyze d seed now rruleText supplierId storeId tenantId scoped actorId blackouts = Ok a ->
     expandRRuleWithExdate rrulestr rruleText blackouts = Ok r -> ex_occurrences r = o :: l ->
     forall i, i ∈ ha_impactedOccurrences a <->
       exists occ h, occ ∈ o :: l /\ h ∈ seed /\ inRange o (List.last (o :: l) o) h = true /\
         affected_regions effective h <> [] /\ sameDayIso (rh_date h) occ tz = true /\
         i = {| hi_dateIso := formatDateInTimezone occ tz; hi_timestampMs := occ; hi_holiday := h;
                hi_affectedRegionCodes := affected_regions effective h; hi_resolutionHint := pickResolutionHint h |}).
Proof.
  intros Hown tz effective.
  assert ((match supplier_of d supplierId with Some _ => base_regions (supplier_of d supplierId) storeId | None => [] end) =
          base_regions (supplier_of d supplierId) storeId) as Hbase.
  { destruct (supplier_of d supplierId); [done|]. unfold base_regions, getRegionsForStore, getAllRegionsForSupplier.
    destruct storeId; by destruct (str_truthy _). }
  assert (analyze d seed now rruleText supplierId storeId tenantId scoped actorId blackouts =
    analyzeSync now rruleText (supplier_of d supplierId) storeId (Some tz) scoped seed blackouts) as Heq.
  { unfold analyze, analyzeSync. destruct (expandRRuleWithExdate _ _ _) as [r|e]; [|done]. cbn.
    rewrite Hown. destruct (ex_occurrences r) as [|o l]; [done|]. cbv zeta. rewrite Hbase. fold effective.
    unfold tz, analysis_zone, build_analysis, listHolidaysInRange. rewrite impacts_region_filter. done. }
  split; [exact Heq|]. intros a r o l Ha Hr Hl i. rewrite Heq in Ha. unfold analyzeSync in Ha. rewrite Hr in Ha. cbn in Ha.
  rewrite Hl in Ha. injection Ha as <-. cbn [build_analysis ha_impactedOccurrences]. rewrite impacts_elem.
  fold effective. setoid_rewrite impact_of_some. setoid_rewrite list_elem_of_In. setoid_rewrite filter_In.
  split; [intros (occ & h & ? & [? ?] & ? & ? & ->)|intros (occ & h & ? & ? & ? & ? & ? & ->)]; exists occ, h; auto 10.
Qed.

End Analysis.

(** ** Witnesses and cases *)

Definition w_ms (day hour : Z) : Z := utc_day 2026 6 day * day_ms + hour * 3600000.

Definition w_rule : RRule :=
  {| ru_count := Some (of_Z 3); ru_until := false; ru_interval := Some one; ru_first := fun n => take n [w_ms 1 2; w_ms 2 2; w_ms 3 2] |}.

Definition w_rrulestr (text : string) : option RRule := if bool_decide (text = "FREQ=DAILY;COUNT=3") then Some w_rule else None.

Definition w_text : string := "FREQ=DAILY;COUNT=3" +:+ String (ascii_of_nat 10) "EXDATE;TZID=America/New_York:20260602T090000, x".

Definition w_blackout : BlackoutWindow := {| bw_startMs := of_Z (w_ms 3 2); bw_endMs := of_Z (w_ms 3 4); bw_label := None |}.

Definition w_expanded : ExpandRRuleResult :=
  {| ex_occurrences := [w_ms 1 2]; ex_excludedByExdate := [w_ms 2 2]; ex_excludedByBlackout := [w_ms 3 2] |}.

Lemma expansion_exact_witness :
  expandRRuleWithExdate w_rrulestr w_text [w_blackout] = Ok w_expanded /\
  exists rule exdates,
    w_rrulestr (rrule_only w_text) = Some rule /\ parseExdates w_text = Ok exdates /\
    (forall occ, occ ∈ ex_occurrences w_expanded <->
       occ ∈ ru_first rule (S MAX_OCCURRENCES) /\ ~ excluded_day exdates occ /\ ~ blacked_out [w_blackout] occ) /\
    (forall occ, occ ∈ ex_excludedByExdate w_expanded <-> occ ∈ ru_first rule (S MAX_OCCURRENCES) /\ excluded_day exdates occ).
Proof.
  split; [vm_compute; reflexivity|].
  destruct (expansion_exact w_rrulestr w_text [w_blackout] w_expanded)
    as (rule & exdates & ? & ? & _ & _ & _ & _ & _ & _ & _ & ? & ? & _);
    [vm_compute; reflexivity|]. exists rule, exdates. split; [assumption|]. split; [assumption|]. split; assumption.
Defined.

(** New York is four hours behind UTC in June; other zones are UTC here. *)
Definition w_label (day : Z) : string :=
  if day =? utc_day 2026 5 31 then "2026-05-31" else if day =? utc_day 2026 6 1 then "2026-06-01"
  else if day =? utc_day 2026 6 2 then "2026-06-02" else "2026-06-03".

Definition w_iso (ms : Z) : string := w_label (ms / day_ms).

Definition w_intl (tz : string) (ms : Z) : option string :=
  if bool_decide (tz = "America/New_York") then Some (w_iso (ms - 4 * 3600000)) else if bool_decide (tz = "UTC") then Some (w_iso ms) else None.

Definition w_parse (text : string) : option Z :=
  if bool_decide (text = "2026-05-31T00:00:00Z") then Some (utc_day 2026 5 31 * day_ms)
  else if bool_decide (text = "2026-06-01T00:00:00Z") then Some (utc_day 2026 6 1 * day_ms) else None.

Definition w_holiday (date name region : string) (o : Observance) : RegionalHoliday :=
  {| rh_date := date; rh_name := name; rh_regionCodes := [region]; rh_observanceType := o; rh_isSuppressedByDefault := None; rh_notes := None |}.

Definition w_supplier : SupplierTimezoneContext :=
  {| su_supplierId := "s"; su_supplierDefaultTimezone := None;
     su_stores := [("st", {| sc_storeId := "st"; sc_timezoneOverride := None; sc_regionCodes := Some ["US"] |})] |}.

Definition w_directory : Directory :=
  {| di_suppliers := [("s", w_supplier)]; di_tenants := [("t", {| te_tenantId := "t"; te_tenantDefaultTimezone := "America/New_York" |})] |}.

Definition w_analyze (seed : list RegionalHoliday) (scoped : option (list string)) : result RecurrenceError HolidayImpactAnalysis :=
  analyze w_rrulestr (fun _ => true) w_intl w_iso w_iso w_parse (fun _ => EmptyString) w_directory seed "now" w_text
    (Some "s") (Some "st") (Some "t") scoped None [w_blackout].

Definition w_us : RegionalHoliday := w_holiday "2026-06-01" "Founders" "US" bank_holiday.

Lemma analyses_agree_witness :
  w_analyze [w_us] None =
    analyzeSync w_rrulestr w_intl w_iso w_iso w_parse (fun _ => EmptyString) "now" w_text (Some w_supplier) (Some "st")
      (Some "America/New_York") None [w_us] [w_blackout] /\
  ha_affectedOccurrences <$> (match w_analyze [w_us] None with Ok a => Some a | Err _ => None end) = Some 1%nat.
Proof.
  split; [|vm_compute; reflexivity].
  apply (analyses_agree w_rrulestr (fun _ => true) w_intl w_iso w_iso w_parse (fun _ => EmptyString) w_directory [w_us] "now" w_text
    (Some "s") (Some "st") (Some "t") None None [w_blackout]). vm_compute. reflexivity.
Defined.

Definition reported (r : result RecurrenceError HolidayImpactAnalysis) : list string :=
  match r with Ok a => map (fun i => rh_name (hi_holiday i)) (ha_impactedOccurrences a) | Err _ => [] end.

(** A scope that shares no region with the store leaves no region in effect,
    and then the holidays of every region are reported. *)
Lemma disjoint_scope_reports_everything :
  base_regions (Some w_supplier) (Some "st") = ["US"] /\
  reported (w_analyze [w_holiday "2026-06-01" "Republic day" "IT" full_day] (Some ["DE"])) = ["Republic day"].
Proof. split; vm_compute; reflexivity. Qed.

(** The first occurrence is on 31 May in New York; a holiday on 31 May is dropped
    by the range in UTC before the local days are compared. *)
Lemma local_holiday_missed :
  sameDayIso w_intl w_iso w_iso "2026-05-31" (w_ms 1 2) "America/New_York" = true /\
  reported (w_analyze [w_holiday "2026-05-31" "Eve" "US" bank_holiday] None) = [].
Proof. split; vm_compute; reflexivity. Qed.

(** The affected count is of pairs: one occurrence, two holidays on its day. *)
Lemma affected_exceeds_total :
  match w_analyze [w_us; w_holiday "2026-06-01" "Second" "US" half_day] None with
  | Ok a => ha_totalOccurrences a = 1%nat /\ ha_affectedOccurrences a = 2%nat
  | Err _ => False
  end.
Proof. vm_compute. split; reflexivity. Qed.
