(* ===== verification/Subscriptions.v ===== *)
(** * Subscriptions: subscription products and the slots minted for them

    [services/subscriptionService.ts] over the in-memory repositories of
    [modules/subscriptions/], run by [scheduler/subscriptionSlotGenerator.ts].
    Times and durations are whole milliseconds.  The service only reads the slot
    repository, through its interface, so the store of slots is a parameter. *)
From stdpp Require Import base list strings sets pretty.
From Stdlib Require Import ZArith Lia Ascii.
From S2P Require Import Prelude JsNumber Domain SlotRepo Roles.
Local Open Scope Z_scope.

Record SubscriptionProductRecord : Type := {
  sp_id : string;
  sp_name : string;
  sp_description : option string;
  sp_professional : string;
  sp_slotDurationMs : Z;
  sp_recurrenceRule : string;
  sp_timezone : string;
  sp_priceCents : num;
  sp_currency : string;
  sp_maxSubscribers : option Z;
  sp_active : bool;
  sp_createdAt : string;
  sp_updatedAt : string
}.

Inductive SubscriptionStatus : Type := sub_active | sub_paused | sub_cancelled.

#[export] Instance subscription_status_eq_dec : EqDecision SubscriptionStatus.
Proof. solve_decision. Defined.

Record SubscriptionRecord : Type := {
  sub_id : string;
  sub_productId : string;
  sub_subscriberId : string;
  sub_status : SubscriptionStatus;
  sub_nextSlotStartMs : Z;
  sub_slotOffsetMs : Z;
  sub_slotsMinted : Z;
  sub_pausedAt : option string;
  sub_cancelledAt : option string;
  sub_createdAt : string;
  sub_updatedAt : string
}.

(** What a handler may throw; [Diverges] stands for a call that never returns,
    which no [catch] sees. *)
Inductive SubscriptionError : Type :=
| SubscriptionProductNotFound (productId : string)
| SubscriptionNotFound (subscriptionId : string)
| DuplicateSubscription (productId subscriberId : string)
| SubscriptionCapacityExceeded (productId : string)
| InvalidSubscriptionState (subscriptionId : string) (current target : SubscriptionStatus)
| SchedulingConflict (subscriptionId professional : string) (startTime endTime : Z)
| ProductInactive (productId : string)
| InvalidProduct (field : string)
| Diverges.

(** ** Recurrence rules *)

Inductive Freq : Type := freq_daily | freq_weekly | freq_monthly.

Record Rule : Type := { rl_interval : Z; rl_count : option Z; rl_freq : Freq; rl_byDays : list string }.

Fixpoint after_prefix (p s : string) : option string :=
  match p, s with
  | EmptyString, _ => Some s
  | String a p', String b s' => if Ascii.eqb a b then after_prefix p' s' else None
  | _, EmptyString => None
  end.

(** The leftmost match of a literal followed by what [f] reads. *)
Fixpoint match_after {A} (p : string) (f : string -> option A) (s : string) : option A :=
  match after_prefix p s ≫= f with
  | Some a => Some a
  | None => match s with EmptyString => None | String _ s' => match_after p f s' end
  end.

Fixpoint span_chars (ok : ascii -> bool) (s : string) : string :=
  match s with
  | String c s' => if ok c then String c (span_chars ok s') else EmptyString
  | EmptyString => EmptyString
  end.

Definition decimal_digit (c : ascii) : bool := let n := nat_of_ascii c in Nat.leb 48 n && Nat.leb n 57.

Fixpoint decimal (acc : Z) (s : string) : Z :=
  match s with
  | String c s' => decimal (10 * acc + (Z.of_nat (nat_of_ascii c) - 48)) s'
  | EmptyString => acc
  end.

(** [(\d+)], as a number. *)
Definition read_number (s : string) : option Z :=
  let d := span_chars decimal_digit s in if is_empty_string d then None else Some (decimal 0 d).

Definition read_freq (s : string) : option Freq :=
  match after_prefix "DAILY" s, after_prefix "WEEKLY" s, after_prefix "MONTHLY" s with
  | Some _, _, _ => Some freq_daily
  | _, Some _, _ => Some freq_weekly
  | _, _, Some _ => Some freq_monthly
  | _, _, _ => None
  end.

Definition day_char (c : ascii) : bool := let n := nat_of_ascii c in (Nat.leb 65 n && Nat.leb n 90) || Ascii.eqb c ",".

Definition read_days (s : string) : option (list string) :=
  let d := span_chars day_char s in if is_empty_string d then None else Some (map js_trim (split_on "," d)).

Definition parse_rule (recurrenceRule : string) : Rule :=
  let upper := to_upper recurrenceRule in
  {| rl_interval := default 1 (match_after "INTERVAL=" read_number upper);
     rl_count := match_after "COUNT=" read_number upper;
     rl_freq := default freq_daily (match_after "FREQ=" read_freq upper);
     rl_byDays := default [] (match_after "BYDAY=" read_days upper) |}.

Definition DAY_MS : Z := 86400000.

(** [Object.entries(dayMap).find(...)] at [date.getUTCDay()]. *)
Definition day_name (ms : Z) : string :=
  default EmptyString (["SU"; "MO"; "TU"; "WE"; "TH"; "FR"; "SA"]%string !! Z.to_nat ((ms / DAY_MS + 4) mod 7)).

Definition day_matches (r : Rule) (current : Z) : bool :=
  match rl_freq r with
  | freq_monthly => false
  | _ => match rl_byDays r with [] => true | days => bool_decide (day_name current ∈ days) end
  end.

Definition rule_step (r : Rule) : Z :=
  match rl_freq r with freq_weekly => rl_interval r * 7 * DAY_MS | _ => rl_interval r * DAY_MS end.

Definition below_count (r : Rule) (count : Z) : bool := match rl_count r with Some m => count <? m | None => true end.

(** The [while] loop; [None] when the fuel does not suffice. *)
Fixpoint expand_loop (fuel : nat) (r : Rule) (dur horizonEnd current count : Z) : option (list (Z * Z)) :=
  match fuel with
  | O => None
  | S fuel' =>
      if (current <? horizonEnd) && below_count r count then
        if day_matches r current
        then cons (current, current + dur) <$> expand_loop fuel' r dur horizonEnd (current + rule_step r) (count + 1)
        else expand_loop fuel' r dur horizonEnd (current + rule_step r) count
      else Some []
  end.

Definition enough_fuel (r : Rule) (horizonMs : Z) : nat :=
  S (S (Z.to_nat (horizonMs / rule_step r) + Z.to_nat (default 0 (rl_count r)))).

(** [None] stands for a call that never returns. *)
Definition expandRecurrence (recurrenceRule : string) (startMs slotDurationMs horizonMs : Z) : option (list (Z * Z)) :=
  let r := parse_rule recurrenceRule in
  expand_loop (enough_fuel r horizonMs) r slotDurationMs (startMs + horizonMs) startMs 0.

(** ** Repositories *)

Record SubState : Type := {
  ss_products : list SubscriptionProductRecord;
  ss_productSequence : Z;
  ss_subs : list SubscriptionRecord;
  ss_subSequence : Z
}.

Definition new_state : SubState := {| ss_products := []; ss_productSequence := 1; ss_subs := []; ss_subSequence := 1 |}.

Definition product_is (id : string) (p : SubscriptionProductRecord) : bool := bool_decide (sp_id p = id).
Definition sub_is (id : string) (s : SubscriptionRecord) : bool := bool_decide (sub_id s = id).
Definition sub_live (s : SubscriptionRecord) : bool :=
  bool_decide (sub_status s = sub_active) || bool_decide (sub_status s = sub_paused).
Definition sub_of (productId subscriberId : string) (s : SubscriptionRecord) : bool :=
  bool_decide (sub_productId s = productId) && bool_decide (sub_subscriberId s = subscriberId).

Definition findProduct (id : string) (s : SubState) : option SubscriptionProductRecord := find_first (product_is id) (ss_products s).
Definition findSub (id : string) (s : SubState) : option SubscriptionRecord := find_first (sub_is id) (ss_subs s).

Definition findByProductAndSubscriber (productId subscriberId : string) (s : SubState) : option SubscriptionRecord :=
  find_first (fun x => sub_of productId subscriberId x && sub_live x) (ss_subs s).

Definition listActiveByProduct (productId : string) (s : SubState) : list SubscriptionRecord :=
  List.filter (fun x => bool_decide (sub_productId x = productId) && bool_decide (sub_status x = sub_active)) (ss_subs s).

Definition listActiveDueBefore (beforeMs : Z) (batchSize : nat) (s : SubState) : list SubscriptionRecord :=
  take batchSize (js_sort (fun a b => sub_nextSlotStartMs b <? sub_nextSlotStartMs a)
    (List.filter (fun x => bool_decide (sub_status x = sub_active) && (sub_nextSlotStartMs x <=? beforeMs)) (ss_subs s))).

Definition set_subs (l : list SubscriptionRecord) (s : SubState) : SubState :=
  {| ss_products := ss_products s; ss_productSequence := ss_productSequence s; ss_subs := l; ss_subSequence := ss_subSequence s |}.

Definition update_sub (id : string) (f : SubscriptionRecord -> SubscriptionRecord) (s : SubState) : SubState :=
  set_subs (update_first (sub_is id) f (ss_subs s)) s.

(** A subscription with another status and marks. *)
Definition with_status_marks (status : SubscriptionStatus) (pausedAt cancelledAt : option string) (now : string) (x : SubscriptionRecord) : SubscriptionRecord :=
  {| sub_id := sub_id x; sub_productId := sub_productId x; sub_subscriberId := sub_subscriberId x; sub_status := status;
     sub_nextSlotStartMs := sub_nextSlotStartMs x; sub_slotOffsetMs := sub_slotOffsetMs x; sub_slotsMinted := sub_slotsMinted x;
     sub_pausedAt := pausedAt; sub_cancelledAt := cancelledAt; sub_createdAt := sub_createdAt x; sub_updatedAt := now |}.

(** A subscription whose cursor and counter have moved. *)
Definition with_cursor (next minted : Z) (now : string) (x : SubscriptionRecord) : SubscriptionRecord :=
  {| sub_id := sub_id x; sub_productId := sub_productId x; sub_subscriberId := sub_subscriberId x; sub_status := sub_status x;
     sub_nextSlotStartMs := next; sub_slotOffsetMs := sub_slotOffsetMs x; sub_slotsMinted := minted;
     sub_pausedAt := sub_pausedAt x; sub_cancelledAt := sub_cancelledAt x; sub_createdAt := sub_createdAt x; sub_updatedAt := now |}.

(** ** Products *)

Record CreateProductInput : Type := {
  ci_name : string;
  ci_description : option string;
  ci_professional : string;
  ci_slotDurationMs : Z;
  ci_recurrenceRule : string;
  ci_timezone : option string;
  ci_priceCents : option num;
  ci_currency : option string;
  ci_maxSubscribers : option Z
}.

Definition S_M : Type -> Type := M SubState SubscriptionError.

Definition productRepo_create (now : string) (input : CreateProductInput) : S_M SubscriptionProductRecord :=
  s ← get;
  let product :=
    {| sp_id := "sp-" +:+ pretty (ss_productSequence s); sp_name := js_trim (ci_name input); sp_description := ci_description input;
       sp_professional := js_trim (ci_professional input); sp_slotDurationMs := ci_slotDurationMs input;
       sp_recurrenceRule := js_trim (ci_recurrenceRule input); sp_timezone := default "UTC" (ci_timezone input);
       sp_priceCents := default zero (ci_priceCents input); sp_currency := default "USD" (ci_currency input);
       sp_maxSubscribers := ci_maxSubscribers input; sp_active := true; sp_createdAt := now; sp_updatedAt := now |} in
  _ ← put {| ss_products := ss_products s ++ [product]; ss_productSequence := ss_productSequence s + 1;
             ss_subs := ss_subs s; ss_subSequence := ss_subSequence s |};
  mret product.

Definition createProduct (now : string) (input : CreateProductInput) : S_M SubscriptionProductRecord :=
  _ ← guard (blank (ci_name input)) (InvalidProduct "name");
  _ ← guard (blank (ci_professional input)) (InvalidProduct "professional");
  _ ← guard (ci_slotDurationMs input <=? 0) (InvalidProduct "slotDurationMs");
  _ ← guard (blank (ci_recurrenceRule input)) (InvalidProduct "recurrenceRule");
  _ ← guard (match ci_priceCents input with Some p => ltb p zero | None => false end) (InvalidProduct "priceCents");
  productRepo_create now input.

Definition getProduct (productId : string) : S_M SubscriptionProductRecord :=
  s ← get; of_option (findProduct productId s) (SubscriptionProductNotFound productId).

Definition listProducts (professional : option string) (s : SubState) : list SubscriptionProductRecord :=
  match professional with
  | Some p => if is_empty_string p then List.filter sp_active (ss_products s)
              else List.filter (fun x => bool_decide (sp_professional x = p)) (ss_products s)
  | None => List.filter sp_active (ss_products s)
  end.

Definition deactivated (now : string) (p : SubscriptionProductRecord) : SubscriptionProductRecord :=
  {| sp_id := sp_id p; sp_name := sp_name p; sp_description := sp_description p; sp_professional := sp_professional p;
     sp_slotDurationMs := sp_slotDurationMs p; sp_recurrenceRule := sp_recurrenceRule p; sp_timezone := sp_timezone p;
     sp_priceCents := sp_priceCents p; sp_currency := sp_currency p; sp_maxSubscribers := sp_maxSubscribers p;
     sp_active := false; sp_createdAt := sp_createdAt p; sp_updatedAt := now |}.

Definition deactivateProduct (now productId : string) : S_M SubscriptionProductRecord :=
  p ← getProduct productId;
  _ ← modify (fun s => {| ss_products := update_first (product_is productId) (deactivated now) (ss_products s);
                          ss_productSequence := ss_productSequence s; ss_subs := ss_subs s; ss_subSequence := ss_subSequence s |});
  mret (deactivated now p).

(** ** Subscriptions *)

Definition returned {A} (o : option A) : S_M A := of_option o Diverges.

Definition at_capacity (product : SubscriptionProductRecord) (s : SubState) : bool :=
  match sp_maxSubscribers product with
  | Some m => m <=? Z.of_nat (length (listActiveByProduct (sp_id product) s))
  | None => false
  end.

Definition subscriptionRepo_create (now : string) (productId subscriberId : string) (next offset : Z) : S_M SubscriptionRecord :=
  s ← get;
  let sub := {| sub_id := "sub-" +:+ pretty (ss_subSequence s); sub_productId := productId; sub_subscriberId := subscriberId;
                sub_status := sub_active; sub_nextSlotStartMs := next; sub_slotOffsetMs := offset; sub_slotsMinted := 0;
                sub_pausedAt := None; sub_cancelledAt := None; sub_createdAt := now; sub_updatedAt := now |} in
  _ ← put {| ss_products := ss_products s; ss_productSequence := ss_productSequence s;
             ss_subs := ss_subs s ++ [sub]; ss_subSequence := ss_subSequence s + 1 |};
  mret sub.

Definition subscribe (now : string) (nowMs : Z) (productId subscriberId : string) (slotOffsetMs : option Z) : S_M SubscriptionRecord :=
  product ← getProduct productId;
  _ ← guard (negb (sp_active product)) (ProductInactive productId);
  s ← get;
  _ ← guard (at_capacity product s) (SubscriptionCapacityExceeded productId);
  _ ← guard (match findByProductAndSubscriber productId subscriberId s with Some _ => true | None => false end)
        (DuplicateSubscription productId subscriberId);
  let offsetMs := default 0 slotOffsetMs in
  slots ← returned (expandRecurrence (sp_recurrenceRule product) (nowMs + offsetMs) (sp_slotDurationMs product) (sp_slotDurationMs product * 365));
  subscriptionRepo_create now productId subscriberId (match slots with (first, _) :: _ => first | [] => nowMs end) offsetMs.

(** Look a subscription up, check its status, store it with another. *)
Definition change_status (subscriptionId : string) (allowed : SubscriptionStatus -> bool) (target : SubscriptionStatus)
    (f : SubscriptionRecord -> SubscriptionRecord) : S_M SubscriptionRecord :=
  s ← get;
  sub ← of_option (findSub subscriptionId s) (SubscriptionNotFound subscriptionId);
  _ ← guard (negb (allowed (sub_status sub))) (InvalidSubscriptionState subscriptionId (sub_status sub) target);
  _ ← modify (update_sub subscriptionId f);
  mret (f sub).

Definition pauseSubscription (now subscriptionId : string) : S_M SubscriptionRecord :=
  change_status subscriptionId (fun st => bool_decide (st = sub_active)) sub_paused
    (fun x => with_status_marks sub_paused (Some now) (sub_cancelledAt x) now x).

Definition resumeSubscription (now subscriptionId : string) : S_M SubscriptionRecord :=
  change_status subscriptionId (fun st => bool_decide (st = sub_paused)) sub_active
    (fun x => with_status_marks sub_active None (sub_cancelledAt x) now x).

Definition cancelSubscription (now subscriptionId : string) : S_M SubscriptionRecord :=
  change_status subscriptionId (fun st => negb (bool_decide (st = sub_cancelled))) sub_cancelled
    (fun x => with_status_marks sub_cancelled (sub_pausedAt x) (Some now) now x).

Definition getSubscription (subscriptionId : string) : S_M SubscriptionRecord :=
  s ← get; of_option (findSub subscriptionId s) (SubscriptionNotFound subscriptionId).

Definition listSubscriptions (productId : option string) (s : SubState) : list SubscriptionRecord :=
  match productId with Some p => if is_empty_string p then [] else listActiveByProduct p s | None => [] end.

(** ** Minting *)

Record MintResult : Type := {
  mr_subscriptionId : string;
  mr_slotId : string;
  mr_professional : string;
  mr_startTime : Z;
  mr_endTime : Z;
  mr_nextSlotStartMs : Z
}.

Record GenerateSlotsResult : Type := { gs_processed : nat; gs_minted : list MintResult; gs_skipped : nat; gs_conflicts : list string }.

Section Minting.
Context {T : Type} `{SlotRepository T} (slots : T).

Definition mintSlot (subscription : SubscriptionRecord) : S_M MintResult :=
  s ← get;
  product ← of_option (findProduct (sub_productId subscription) s) (SubscriptionProductNotFound (sub_productId subscription));
  let startTime := sub_nextSlotStartMs subscription in
  let endTime := startTime + sp_slotDurationMs product in
  _ ← guard (hasConflict (sp_professional product) startTime endTime None slots)
        (SchedulingConflict (sub_id subscription) (sp_professional product) startTime endTime);
  nextSlots ← returned (expandRecurrence (sp_recurrenceRule product) endTime (sp_slotDurationMs product) (sp_slotDurationMs product * 2));
  mret {| mr_subscriptionId := sub_id subscription;
          mr_slotId := "slot-sub-" +:+ sub_id subscription +:+ "-" +:+ pretty (sub_slotsMinted subscription + 1);
          mr_professional := sp_professional product; mr_startTime := startTime; mr_endTime := endTime;
          mr_nextSlotStartMs := match nextSlots with (first, _) :: _ => first | [] => endTime end |}.

(** One turn of the batch: the outcome is a mint, a conflict or a skip. *)
Inductive Turn : Type := Minted (r : MintResult) | Conflicted (id : string) | Skipped.

Definition turn (now : string) (sub : SubscriptionRecord) : S_M Turn :=
  try_catch
    (r ← mintSlot sub;
     _ ← modify (update_sub (sub_id sub) (fun x => with_cursor (mr_nextSlotStartMs r) (sub_slotsMinted sub + 1) now x));
     mret (Minted r))
    (fun e =>
       match e with
       | Diverges => raise Diverges
       | SchedulingConflict _ _ _ _ =>
           s ← get;
           _ ← match findProduct (sub_productId sub) s with
               | Some product => modify (update_sub (sub_id sub) (fun x =>
                   with_cursor (sub_nextSlotStartMs sub + sp_slotDurationMs product) (sub_slotsMinted x) now x))
               | None => mret tt
               end;
           mret (Conflicted (sub_id sub))
       | _ => mret Skipped
       end).

Fixpoint turns (now : string) (subs : list SubscriptionRecord) : S_M (list Turn) :=
  match subs with
  | [] => mret []
  | sub :: subs' => t ← turn now sub; ts ← turns now subs'; mret (t :: ts)
  end.

Definition generateSlotsForDueSubscriptions (now : string) (nowMs : Z) (batchSize : nat) : S_M GenerateSlotsResult :=
  s ← get;
  let dueSubs := listActiveDueBefore nowMs batchSize s in
  ts ← turns now dueSubs;
  mret {| gs_processed := length dueSubs;
          gs_minted := omap (fun t => match t with Minted r => Some r | _ => None end) ts;
          gs_skipped := length (List.filter (fun t => match t with Skipped => true | _ => false end) ts);
          gs_conflicts := omap (fun t => match t with Conflicted id => Some id | _ => None end) ts |}.

End Minting.

(** ** What an expansion returns *)

Lemma loop_more_fuel r dur horizonEnd fuel fuel' current count l :
  expand_loop fuel r dur horizonEnd current count = Some l -> (fuel <= fuel')%nat ->
  expand_loop fuel' r dur horizonEnd current count = Some l.
Proof.
  revert fuel' current count l. induction fuel as [|fuel IH]; intros [|fuel'] current count l H Hle; cbn [expand_loop] in *; try done; [lia|].
  destruct (_ && _); [|done]. destruct (day_matches r current).
  - apply fmap_Some in H as (l' & H & ->). by rewrite (IH fuel' _ _ l') by (done || lia).
  - apply (IH fuel'); [done|lia].
Qed.

(** The instants the cursor visits, and the first of them a count admits. *)
Definition visited (start step : Z) (n : nat) : list Z := map (fun k => start + Z.of_nat k * step) (seq 0 n).
Definition limited {A} (count : option Z) (done : Z) (l : list A) : list A :=
  match count with Some m => take (Z.to_nat (m - done)) l | None => l end.

Lemma visited_S start step n : visited start step (S n) = start :: visited (start + step) step n.
Proof.
  unfold visited. cbn [seq map]. f_equal; [lia|]. rewrite <- seq_shift, map_map. apply map_ext. lia.
Qed.

Lemma below_count_true r count : below_count r count = true <-> match rl_count r with Some m => count < m | None => True end.
Proof. unfold below_count. destruct (rl_count r); [by rewrite Z.ltb_lt|done]. Qed.

Lemma limited_none {A} (r : Rule) (count : Z) (l : list A) : below_count r count = false -> limited (rl_count r) count l = [].
Proof.
  unfold below_count, limited. destruct (rl_count r) as [m|]; [|done]. rewrite Z.ltb_ge. intros H.
  by replace (Z.to_nat (m - count)) with 0%nat by lia.
Qed.

Lemma limited_cons {A} (r : Rule) (count : Z) (x : A) (l : list A) :
  below_count r count = true -> limited (rl_count r) count (x :: l) = x :: limited (rl_count r) (count + 1) l.
Proof.
  unfold below_count, limited. destruct (rl_count r) as [m|]; [|done]. rewrite Z.ltb_lt. intros H.
  by replace (Z.to_nat (m - count)) with (S (Z.to_nat (m - (count + 1)))) by lia.
Qed.

Lemma expand_loop_steps r dur horizonEnd n fuel current count :
  (forall k, (k < n)%nat <-> current + Z.of_nat k * rule_step r < horizonEnd) -> (n < fuel)%nat ->
  expand_loop fuel r dur horizonEnd current count =
  Some (map (fun c => (c, c + dur)) (limited (rl_count r) count (List.filter (day_matches r) (visited current (rule_step r) n)))).
Proof.
  revert fuel current count. induction n as [|n IH]; intros [|fuel] current count Hn Hf; [lia| |lia|]; cbn [expand_loop].
  - assert (current <? horizonEnd = false) as -> by (apply Z.ltb_ge; specialize (Hn 0%nat); lia).
    unfold visited, limited. cbn. destruct (rl_count r); [by rewrite take_nil|done].
  - assert (current <? horizonEnd = true) as -> by (apply Z.ltb_lt; specialize (Hn 0%nat); lia). cbn [andb].
    destruct (below_count r count) eqn:Ec; [|by rewrite limited_none].
    assert (forall k, (k < n)%nat <-> current + rule_step r + Z.of_nat k * rule_step r < horizonEnd) as Hn'.
    { intros k. specialize (Hn (S k)). lia. }
    rewrite visited_S. cbn [List.filter]. destruct (day_matches r current).
    + rewrite (IH fuel) by (done || lia). rewrite limited_cons by done. done.
    + by rewrite (IH fuel) by (done || lia).
Qed.

(** With no step the loop either stops at once, or counts its one instant to the
    end, or never stops. *)
Lemma expand_loop_stuck r dur horizonEnd current :
  rule_step r = 0 -> current < horizonEnd -> (day_matches r current = false \/ rl_count r = None) ->
  forall fuel count, below_count r count = true -> expand_loop fuel r dur horizonEnd current count = None.
Proof.
  intros Hs Hc Hd fuel. induction fuel as [|fuel IH]; intros count Hb; [done|]. cbn [expand_loop].
  rewrite (proj2 (Z.ltb_lt _ _) Hc), Hb, Hs. cbn [andb]. rewrite Z.add_0_r. destruct (day_matches r current) eqn:Em.
  - destruct Hd as [|Hd]; [done|]. rewrite IH; [done|]. by apply below_count_true; rewrite Hd.
  - by apply IH.
Qed.

Lemma expand_loop_counts r dur horizonEnd current m :
  rule_step r = 0 -> day_matches r current = true -> rl_count r = Some m ->
  forall fuel count, (Z.to_nat (m - count) < fuel)%nat -> is_Some (expand_loop fuel r dur horizonEnd current count).
Proof.
  intros Hs Hd Hm fuel. induction fuel as [|fuel IH]; intros count Hf; [lia|]. cbn [expand_loop].
  destruct (current <? horizonEnd); [|by eexists]. cbn [andb]. destruct (below_count r count) eqn:Hb; [|by eexists].
  apply below_count_true in Hb. rewrite Hm in Hb. rewrite Hs, Hd, Z.add_0_r. apply fmap_is_Some, IH. lia.
Qed.

Lemma decimal_nonneg s acc : 0 <= acc -> forallb decimal_digit (String.list_ascii_of_string s) = true -> 0 <= decimal acc s.
Proof.
  revert acc. induction s as [|c s IH]; intros acc Ha Hd; cbn in *; [done|]. apply andb_true_iff in Hd as [Hc Hd].
  apply IH; [|done]. unfold decimal_digit in Hc. apply andb_true_iff in Hc as [Hc _]. apply Nat.leb_le in Hc. lia.
Qed.

Lemma span_chars_ok ok s : forallb ok (String.list_ascii_of_string (span_chars ok s)) = true.
Proof. induction s as [|c s IH]; cbn; [done|]. destruct (ok c) eqn:E; cbn; [by rewrite E|done]. Qed.

Lemma match_after_from {A} p (f : string -> option A) s a : match_after p f s = Some a -> exists t, f t = Some a.
Proof.
  induction s as [|c s IH]; cbn [match_after].
  - destruct (after_prefix p EmptyString) as [t|]; cbn; [|done]. destruct (f t) eqn:E; [|done]. intros [= <-]. eauto.
  - destruct (after_prefix p (String c s)) as [t|]; cbn; [|done]. destruct (f t) eqn:E; [|done]. intros [= <-]. eauto.
Qed.

Lemma read_number_nonneg s n : read_number s = Some n -> 0 <= n.
Proof.
  unfold read_number. destruct (is_empty_string _); [done|]. intros [= <-]. apply decimal_nonneg; [done|apply span_chars_ok].
Qed.

Lemma parsed_numbers rule : 0 <= rl_interval (parse_rule rule) /\ forall m, rl_count (parse_rule rule) = Some m -> 0 <= m.
Proof.
  unfold parse_rule. cbn [rl_interval rl_count]. split.
  - destruct (match_after "INTERVAL=" read_number _) as [n|] eqn:E; cbn; [|lia].
    apply match_after_from in E as (t & E). by eapply read_number_nonneg.
  - intros m E. apply match_after_from in E as (t & E). by eapply read_number_nonneg.
Qed.

Lemma rule_step_interval r : rule_step r = rl_interval r * (match rl_freq r with freq_weekly => 7 * DAY_MS | _ => DAY_MS end).
Proof. unfold rule_step. destruct (rl_freq r); lia. Qed.

(** An expansion is exact, and never returns exactly when its rule stands
    still: with a positive interval it returns the instants the cursor visits
    before the horizon that fall on a wanted day, cut off at COUNT, each with the
    duration of a slot; with INTERVAL=0 and a horizon ahead it never returns,
    whatever the fuel, unless COUNT is zero or every turn of the loop yields a
    slot until COUNT is reached. *)
Theorem expandRecurrence_exact rule start dur horizon :
  let r := parse_rule rule in
  0 <= rl_interval r /\
  (0 < rl_interval r ->
     exists n, (forall k, (k < n)%nat <-> start + Z.of_nat k * rule_step r < start + horizon) /\
       expandRecurrence rule start dur horizon =
       Some (map (fun c => (c, c + dur)) (limited (rl_count r) 0 (List.filter (day_matches r) (visited start (rule_step r) n))))) /\
  (rl_interval r = 0 ->
     expandRecurrence rule start dur horizon = None <->
     0 < horizon /\ rl_count r <> Some 0 /\ (rl_count r = None \/ day_matches r start = false)) /\
  (expandRecurrence rule start dur horizon = None ->
     forall fuel, expand_loop fuel r dur (start + horizon) start 0 = None).
Proof.
  intros r. destruct (parsed_numbers rule) as [Hi Hm]. fold r in Hi, Hm.
  assert (0 < rl_interval r -> exists n, (forall k, (k < n)%nat <-> start + Z.of_nat k * rule_step r < start + horizon) /\
       expandRecurrence rule start dur horizon =
       Some (map (fun c => (c, c + dur)) (limited (rl_count r) 0 (List.filter (day_matches r) (visited start (rule_step r) n))))) as Hpos.
  { intros Hp. assert (0 < rule_step r) as Hs by (rewrite rule_step_interval; unfold DAY_MS; destruct (rl_freq r); lia).
    assert (forall k, (k < Z.to_nat ((horizon + rule_step r - 1) / rule_step r))%nat <-> start + Z.of_nat k * rule_step r < start + horizon) as Hn.
    { intros k. pose proof (Z.div_mod (horizon + rule_step r - 1) (rule_step r) ltac:(lia)) as Hd.
      pose proof (Z.mod_pos_bound (horizon + rule_step r - 1) (rule_step r) Hs). split; intros Hk; [nia|].
      assert (Z.of_nat k < (horizon + rule_step r - 1) / rule_step r) by nia. lia. }
    eexists. split; [exact Hn|]. unfold expandRecurrence. fold r. apply expand_loop_steps; [exact Hn|]. unfold enough_fuel.
    assert ((horizon + rule_step r - 1) / rule_step r <= horizon / rule_step r + 1).
    { rewrite <- (Z.div_add _ 1) by lia. apply Z.div_le_mono; lia. }
    lia. }
  assert (rl_interval r = 0 -> rule_step r = 0) as Hzero by (intros E; rewrite rule_step_interval, E; lia).
  assert (rl_interval r = 0 -> 0 < horizon -> rl_count r <> Some 0 -> (rl_count r = None \/ day_matches r start = false) ->
    forall fuel, expand_loop fuel r dur (start + horizon) start 0 = None) as Hstuck.
  { intros E Hh Hc Hd fuel. apply expand_loop_stuck; [auto|lia|tauto|]. apply below_count_true.
    destruct (rl_count r) as [m|] eqn:Em; [|done]. specialize (Hm m eq_refl). assert (m <> 0) by congruence. lia. }
  assert (rl_interval r = 0 -> expandRecurrence rule start dur horizon = None ->
     0 < horizon /\ rl_count r <> Some 0 /\ (rl_count r = None \/ day_matches r start = false)) as Hback.
  { intros E Hnone. unfold expandRecurrence in Hnone. fold r in Hnone. unfold enough_fuel in Hnone.
    assert (0 < horizon /\ rl_count r <> Some 0) as [Hh Hc].
    { cbn [expand_loop] in Hnone. destruct (start <? start + horizon) eqn:El; [|done]. apply Z.ltb_lt in El. split; [lia|]. intros Ec.
      unfold below_count in Hnone. by rewrite Ec in Hnone. }
    split; [done|]. split; [done|]. destruct (rl_count r) as [m|] eqn:Em; [|by left]. right.
    destruct (day_matches r start) eqn:Ed; [|done]. exfalso.
    destruct (expand_loop_counts r dur (start + horizon) start m (Hzero E) Ed Em
      (S (S (Z.to_nat (horizon / rule_step r) + Z.to_nat (default 0 (Some m))))) 0) as [l Hl]; [|congruence]. cbn [default]. rewrite Z.sub_0_r. cbn. lia. }
  split; [done|]. split; [done|]. split.
  - intros E. split; [by apply Hback|]. intros (? & ? & ?). unfold expandRecurrence. by apply Hstuck.
  - intros Hnone fuel. destruct (decide (rl_interval r = 0)) as [E|E].
    + destruct (Hback E Hnone) as (? & ? & ?). by apply Hstuck.
    + destruct Hpos as (n & _ & Hsome); [lia|]. congruence.
Qed.

#[local] Arguments expandRecurrence : simpl never.

(** ** What a mint returns *)

Section Mints.
Context {T : Type} `{SlotRepository T} (slots : T).

(** Minting ignores the recurrence: for every product whose slots are at
    most half as long as the step of its rule, the next slot after a mint starts
    exactly where the minted one ends, whatever FREQ, INTERVAL, BYDAY or COUNT say. *)
Theorem minted_back_to_back s sub product r s' :
  findProduct (sub_productId sub) s = Some product -> 0 < sp_slotDurationMs product ->
  2 * sp_slotDurationMs product <= rule_step (parse_rule (sp_recurrenceRule product)) ->
  mintSlot slots sub s = (Ok r, s') ->
  s' = s /\ mr_startTime r = sub_nextSlotStartMs sub /\ mr_endTime r = mr_startTime r + sp_slotDurationMs product /\
  mr_nextSlotStartMs r = mr_endTime r /\
  hasConflict (sp_professional product) (mr_startTime r) (mr_endTime r) None slots = false.
Proof.
  intros Hp Hdur Hstep Hm. unfold mintSlot in Hm. apply M_bind_ok in Hm as (s0 & s1 & [= <- <-] & Hm).
  rewrite Hp in Hm. apply M_bind_ok in Hm as (p & s1 & [= <- <-] & Hm).
  apply M_bind_ok in Hm as (u & s1 & (Hc & -> & _)%guard_ok & Hm).
  apply M_bind_ok in Hm as (l & s1 & Hl & [= <- <-]). unfold returned, of_option in Hl.
  destruct (expandRecurrence _ _ _ _) as [l'|] eqn:El; [|done]. injection Hl as -> ->. cbn.
  split_and!; try done. unfold expandRecurrence in El. unfold enough_fuel in El.
  set (q := parse_rule (sp_recurrenceRule product)) in *. set (e := sub_nextSlotStartMs sub + sp_slotDurationMs product) in *.
  cbn [expand_loop] in El. destruct (_ && _); [|by injection El as <-].
  assert (e + rule_step q <? e + sp_slotDurationMs product * 2 = false) as Hstop by (apply Z.ltb_ge; lia).
  rewrite Hstop in El. cbn [andb] in El. destruct (day_matches q e); cbn in El; by injection El as <-.
Qed.

(** ** The batch *)

Lemma mintSlot_keeps sub s r s' : mintSlot slots sub s = (r, s') -> s' = s.
Proof.
  unfold mintSlot, get, of_option, guard, returned, mbind, M_bind, mret, M_ret, raise, of_option, from_option_or.
  destruct (findProduct _ s); [|by intros [= _ <-]]. destruct (hasConflict _ _ _ _ _); [by intros [= _ <-]|].
  destruct (expandRecurrence _ _ _ _); by intros [= _ <-].
Qed.
End Mints.

(** ** Any sequence of requests *)

Definition same_terms (x y : SubscriptionRecord) : Prop :=
  sub_id y = sub_id x /\ sub_productId y = sub_productId x /\ sub_subscriberId y = sub_subscriberId x /\
  sub_slotOffsetMs y = sub_slotOffsetMs x /\ sub_createdAt y = sub_createdAt x /\
  sub_slotsMinted x <= sub_slotsMinted y /\ sub_nextSlotStartMs x <= sub_nextSlotStartMs y.

(** A subscription keeps its terms, its counter and cursor only move forward, and
    once it is cancelled it never changes again. *)
Definition grows (x y : SubscriptionRecord) : Prop := same_terms x y /\ (sub_status x = sub_cancelled -> y = x).

Definition evolves (s s' : SubState) : Prop := forall x, x ∈ ss_subs s -> exists y, y ∈ ss_subs s' /\ grows x y.

Record inv (s : SubState) : Prop := {
  inv_ids : NoDup (map sub_id (ss_subs s));
  inv_names : forall x, x ∈ ss_subs s -> exists k, sub_id x = "sub-" +:+ pretty k /\ k < ss_subSequence s;
  inv_live : forall p c, (length (List.filter (fun x => sub_of p c x && sub_live x) (ss_subs s)) <= 1)%nat;
  inv_products : forall p, p ∈ ss_products s -> 0 < sp_slotDurationMs p
}.

Lemma grows_refl x : grows x x.
Proof. unfold grows, same_terms. split; [split_and!; done || lia|done]. Qed.

Lemma evolves_same s s' : ss_subs s' = ss_subs s -> evolves s s'.
Proof. intros E x Hx. exists x. rewrite E. split; [done|apply grows_refl]. Qed.

Lemma evolves_refl s : evolves s s.
Proof. by apply evolves_same. Qed.

Lemma evolves_trans s1 s2 s3 : evolves s1 s2 -> evolves s2 s3 -> evolves s1 s3.
Proof.
  intros H12 H23 x Hx. destruct (H12 x Hx) as (y & Hy & Gxy). destruct (H23 y Hy) as (z & Hz & Gyz). exists z. split; [done|].
  destruct Gxy as [(? & ? & ? & ? & ? & ? & ?) Hc], Gyz as [(? & ? & ? & ? & ? & ? & ?) Hc']. split.
  - unfold same_terms. split_and!; congruence || lia.
  - intros Hx'. specialize (Hc Hx'). subst y. by apply Hc'.
Qed.

Lemma find_first_split {A : Type} (p : A -> bool) (f : A -> A) (l : list A) (x : A) :
  find_first p l = Some x -> exists l1 l2, l = l1 ++ x :: l2 /\ update_first p f l = l1 ++ f x :: l2.
Proof.
  induction l as [|y l IH]; cbn; [done|]. destruct (p y) eqn:E.
  - intros [= ->]. by exists [], l.
  - intros (l1 & l2 & -> & Hu)%IH. exists (y :: l1), l2. by rewrite Hu.
Qed.

Lemma update_sub_ok id f x s :
  inv s -> findSub id s = Some x -> sub_status x <> sub_cancelled -> same_terms x (f x) -> (sub_live (f x) = true -> sub_live x = true) ->
  inv (update_sub id f s) /\ evolves s (update_sub id f s).
Proof.
  intros Hinv Hx Hs Ht Hl. destruct Hinv as [H1 H2 H3 H4]. unfold findSub in Hx.
  destruct (find_first_split (sub_is id) f _ _ Hx) as (l1 & l2 & E1 & E2).
  pose proof Ht as (Hid & Hp & Hc & _). split.
  - constructor; cbn [ss_subs ss_subSequence ss_products update_sub set_subs]; rewrite ?E2.
    + rewrite E1 in H1. rewrite !map_app in *. cbn in *. by rewrite Hid.
    + intros y Hy. rewrite E1 in H2. apply elem_of_app in Hy as [Hy|[->|Hy]%elem_of_cons].
      * apply H2. set_solver.
      * rewrite Hid. apply H2. set_solver.
      * apply H2. set_solver.
    + intros p c. specialize (H3 p c). rewrite E1 in H3. rewrite !List.filter_app, !length_app in *. cbn [List.filter] in *.
      assert (sub_of p c (f x) = sub_of p c x) as -> by (unfold sub_of; by rewrite Hp, Hc).
      destruct (sub_of p c x); cbn [andb] in *; [|lia]. destruct (sub_live (f x)); [|destruct (sub_live x); cbn in *; lia].
      rewrite Hl in H3 by done. cbn in *. lia.
    + done.
  - intros y Hy. cbn [ss_subs update_sub set_subs]. rewrite E2. rewrite E1 in Hy.
    apply elem_of_app in Hy as [Hy|[->|Hy]%elem_of_cons].
    + exists y. split; [set_solver|apply grows_refl].
    + exists (f x). split; [set_solver|]. by split.
    + exists y. split; [set_solver|apply grows_refl].
Qed.

Lemma change_status_ok id allowed target f s r s' :
  (forall x, findSub id s = Some x -> allowed (sub_status x) = true ->
     sub_status x <> sub_cancelled /\ same_terms x (f x) /\ (sub_live (f x) = true -> sub_live x = true)) ->
  inv s -> change_status id allowed target f s = (r, s') -> inv s' /\ evolves s s'.
Proof.
  intros Hf Hinv H. unfold change_status, get, of_option, guard, modify, mbind, M_bind, mret, M_ret, raise, from_option_or in H.
  destruct (findSub id s) as [x|] eqn:Ex; [|injection H as _ <-; split; [done|apply evolves_refl]].
  destruct (allowed (sub_status x)) eqn:Ea; cbn in H; injection H as _ <-; [|split; [done|apply evolves_refl]].
  destruct (Hf x eq_refl Ea) as (? & ? & ?). by apply (update_sub_ok id f x).
Qed.

Lemma with_marks_terms st p c now x : same_terms x (with_status_marks st p c now x).
Proof. unfold same_terms. cbn. split_and!; done || lia. Qed.

Lemma expand_loop_from fuel r dur horizonEnd current count l :
  0 <= rule_step r -> expand_loop fuel r dur horizonEnd current count = Some l -> Forall (fun p => current <= fst p) l.
Proof.
  intros Hs. revert current count l. induction fuel as [|fuel IH]; intros current count l H; [done|]. cbn [expand_loop] in H.
  destruct (_ && _); [|injection H as <-; constructor]. destruct (day_matches r current).
  - apply fmap_Some in H as (l' & H & ->). constructor; [cbn; lia|]. eapply Forall_impl; [by eapply IH|]. cbn. lia.
  - eapply Forall_impl; [by eapply IH|]. cbn. lia.
Qed.

Section Histories.
Context {T : Type} `{SlotRepository T} (slots : T).

Lemma minted_forward s sub r s' :
  inv s -> mintSlot slots sub s = (Ok r, s') -> sub_nextSlotStartMs sub <= mr_nextSlotStartMs r.
Proof.
  intros Hinv Hm. unfold mintSlot in Hm. apply M_bind_ok in Hm as (s0 & s1 & [= <- <-] & Hm).
  unfold of_option, from_option_or, mbind, M_bind in Hm. destruct (findProduct _ s) as [p|] eqn:Ep; [|done].
  unfold guard in Hm. destruct (hasConflict _ _ _ _ _); [done|]. cbn in Hm. unfold returned, of_option, from_option_or in Hm.
  destruct (expandRecurrence _ _ _ _) as [l|] eqn:El; [|done]. injection Hm as <- _. cbn [mr_nextSlotStartMs].
  apply find_first_Some in Ep as [_ Ep]. pose proof (inv_products s Hinv p Ep) as Hdur.
  assert (0 <= rule_step (parse_rule (sp_recurrenceRule p))) as Hstep.
  { rewrite rule_step_interval. destruct (parsed_numbers (sp_recurrenceRule p)). unfold DAY_MS. destruct (rl_freq _); lia. }
  unfold expandRecurrence in El. apply expand_loop_from in El; [|exact Hstep].
  destruct l as [|[first e] l]; [lia|]. apply Forall_cons in El as [El _]. cbn in El. lia.
Qed.

Lemma find_own sub s : inv s -> sub ∈ ss_subs s -> findSub (sub_id sub) s = Some sub.
Proof.
  intros Hinv. pose proof (inv_ids s Hinv) as Hnd. unfold findSub. clear Hinv. revert Hnd. induction (ss_subs s) as [|x l IH]; intros Hnd Hin; [set_solver|].
  cbn in Hnd. apply NoDup_cons in Hnd as [Hx Hnd]. cbn [find_first]. unfold sub_is at 1. case_bool_decide as E.
  - apply elem_of_cons in Hin as [->|Hin]; [done|]. exfalso. apply Hx. rewrite E. by apply list_elem_of_fmap_2.
  - apply elem_of_cons in Hin as [->|Hin]; [done|]. by apply IH.
Qed.

Lemma move_cursor_ok sub next minted now s :
  inv s -> sub ∈ ss_subs s -> sub_status sub = sub_active -> sub_nextSlotStartMs sub <= next -> sub_slotsMinted sub <= minted sub ->
  let s' := update_sub (sub_id sub) (fun x => with_cursor next (minted x) now x) s in
  inv s' /\ evolves s s' /\ (forall y, y ∈ ss_subs s -> sub_id y <> sub_id sub -> y ∈ ss_subs s').
Proof.
  intros Hinv Hin Hact Hnext Hm s'. pose proof (find_own sub s Hinv Hin) as Hf.
  destruct (update_sub_ok (sub_id sub) (fun x => with_cursor next (minted x) now x) sub s) as [H1 H2];
    [done|done|congruence|unfold same_terms; cbn; split_and!; done|done|].
  split; [done|]. split; [done|]. intros y Hy Hne. unfold findSub in Hf.
  destruct (find_first_split (sub_is (sub_id sub)) (fun x => with_cursor next (minted x) now x) _ _ Hf) as (l1 & l2 & E1 & E2).
  cbn [s' ss_subs update_sub set_subs]. rewrite E2. rewrite E1 in Hy. apply elem_of_app in Hy as [Hy|[->|Hy]%elem_of_cons]; [set_solver|done|set_solver].
Qed.

Lemma turn_ok now sub s r s' :
  inv s -> sub ∈ ss_subs s -> sub_status sub = sub_active -> turn slots now sub s = (r, s') ->
  inv s' /\ evolves s s' /\ (forall y, y ∈ ss_subs s -> sub_id y <> sub_id sub -> y ∈ ss_subs s').
Proof.
  intros Hinv Hin Hact Ht. unfold turn, try_catch, modify, mbind, M_bind, mret, M_ret in Ht.
  destruct (mintSlot slots sub s) as [[m|e] s1] eqn:Em; pose proof (mintSlot_keeps _ _ _ _ _ Em) as ->.
  - injection Ht as _ <-. pose proof (minted_forward _ _ _ _ Hinv Em).
    apply (move_cursor_ok sub (mr_nextSlotStartMs m) (fun _ => sub_slotsMinted sub + 1)); done || lia.
  - assert (inv s /\ evolves s s /\ (forall y, y ∈ ss_subs s -> sub_id y <> sub_id sub -> y ∈ ss_subs s)) as Hsame
      by (split; [done|]; split; [apply evolves_refl|done]).
    destruct e; try (by injection Ht as _ <-). unfold get in Ht. destruct (findProduct _ s) as [p|] eqn:Ep; injection Ht as _ <-; [|done].
    apply find_first_Some in Ep as [_ Ep]. pose proof (inv_products s Hinv p Ep).
    apply (move_cursor_ok sub _ (fun x => sub_slotsMinted x)); done || lia.
Qed.

Lemma turns_ok now subs s r s' :
  inv s -> NoDup (map sub_id subs) -> (forall x, x ∈ subs -> x ∈ ss_subs s /\ sub_status x = sub_active) ->
  turns slots now subs s = (r, s') -> inv s' /\ evolves s s'.
Proof.
  revert s r s'. induction subs as [|sub subs IH]; intros s r s' Hinv Hnd Hall Ht; cbn [turns] in Ht.
  { injection Ht as _ <-. split; [done|apply evolves_refl]. }
  cbn in Hnd. apply NoDup_cons in Hnd as [Hfresh Hnd]. destruct (Hall sub ltac:(left)) as [Hin Hact].
  unfold mbind, M_bind in Ht. destruct (turn slots now sub s) as [[t|e] s1] eqn:E1; pose proof (turn_ok _ _ _ _ _ Hinv Hin Hact E1) as (H1 & H2 & H3).
  2: { injection Ht as _ <-. done. }
  destruct (turns slots now subs s1) as [rs s2] eqn:E2. destruct (IH s1 rs s2) as [H4 H5]; [done|done| |done|].
  { intros x Hx. destruct (Hall x ltac:(by right)) as [Hxs Hxa]. split; [|done]. apply H3; [done|]. intros E. apply Hfresh. rewrite <- E. by apply list_elem_of_fmap_2. }
  destruct rs; injection Ht as _ <-; (split; [done|by eapply evolves_trans]).
Qed.

Lemma due_members nowMs n s x :
  x ∈ listActiveDueBefore nowMs n s -> x ∈ ss_subs s /\ sub_status x = sub_active /\ sub_nextSlotStartMs x <= nowMs.
Proof.
  unfold listActiveDueBefore. intros Hx. apply subseteq_take in Hx. rewrite js_sort_elem, list_elem_of_In, filter_In in Hx.
  destruct Hx as [Hx [Ha%bool_decide_eq_true Hn%Z.leb_le]%andb_true_iff]. split; [by apply list_elem_of_In|done].
Qed.

Lemma due_distinct nowMs n s : inv s -> NoDup (map sub_id (listActiveDueBefore nowMs n s)).
Proof.
  intros Hinv. unfold listActiveDueBefore. eapply sublist_NoDup; [|apply (fmap_sublist sub_id), sublist_take].
  rewrite js_sort_perm. eapply sublist_NoDup; [apply Hinv|]. apply (fmap_sublist sub_id). induction (ss_subs s) as [|x l IH]; [done|].
  cbn [List.filter]. destruct (_ && _); by constructor.
Qed.

Lemma created_product_ok now input s r s' :
  inv s -> createProduct now input s = (r, s') -> inv s' /\ evolves s s'.
Proof.
  intros Hinv Hc. unfold createProduct, guard, raise, mbind, M_bind in Hc.
  assert (inv s /\ evolves s s) as Hsame by (split; [done|apply evolves_refl]).
  destruct (blank (ci_name input)); [by injection Hc as _ <-|]. cbn in Hc. destruct (blank (ci_professional input)); [by injection Hc as _ <-|].
  cbn in Hc. destruct (ci_slotDurationMs input <=? 0) eqn:Hdur; [by injection Hc as _ <-|]. cbn in Hc.
  destruct (blank (ci_recurrenceRule input)); [by injection Hc as _ <-|]. cbn in Hc.
  destruct (match ci_priceCents input with Some _ => _ | None => _ end); [by injection Hc as _ <-|]. cbn in Hc. injection Hc as _ <-.
  apply Z.leb_gt in Hdur. split; [|by apply evolves_same]. destruct Hinv as [H1 H2 H3 H4]. constructor; try done. cbn.
  intros p [Hp| ->%list_elem_of_singleton]%elem_of_app; [by apply H4|done].
Qed.

Lemma deactivated_ok now id s r s' : inv s -> deactivateProduct now id s = (r, s') -> inv s' /\ evolves s s'.
Proof.
  intros Hinv Hd. unfold deactivateProduct, getProduct, get, of_option, modify, mbind, M_bind, mret, M_ret, from_option_or in Hd.
  destruct (findProduct id s) eqn:Ep; injection Hd as _ <-; [|split; [done|apply evolves_refl]]. split; [|by apply evolves_same].
  destruct Hinv as [H1 H2 H3 H4]. constructor; try done. cbn. intros p Hp. apply elem_of_update_first in Hp as [Hp|(x & Hx & ->)]; [by apply H4|].
  cbn. apply find_first_Some in Hx as [_ Hx]. by apply H4.
Qed.

Lemma sub_name_inj (k k' : Z) : ("sub-" +:+ pretty k)%string = ("sub-" +:+ pretty k')%string -> k = k'.
Proof. intros E. injection E as E. by apply (inj pretty). Qed.

Lemma subscribed_ok now nowMs p c off s r s' :
  inv s -> subscribe now nowMs p c off s = (r, s') -> inv s' /\ evolves s s'.
Proof.
  intros Hinv Hs. assert (inv s /\ evolves s s) as Hsame by (split; [done|apply evolves_refl]).
  unfold subscribe, getProduct, get, of_option, guard, raise, returned, mbind, M_bind, mret, M_ret, from_option_or in Hs.
  destruct (findProduct p s) as [product|]; [|by injection Hs as _ <-]. destruct (negb (sp_active product)); [by injection Hs as _ <-|].
  destruct (at_capacity product s); [by injection Hs as _ <-|].
  destruct (findByProductAndSubscriber p c s) eqn:Ef; [by injection Hs as _ <-|]. unfold of_option, from_option_or in Hs.
  destruct (expandRecurrence _ _ _ _) as [l|]; [|by injection Hs as _ <-]. injection Hs as _ <-.
  unfold findByProductAndSubscriber in Ef. rewrite find_first_None in Ef. destruct Hinv as [H1 H2 H3 H4]. split.
  - constructor; cbn; [| | |done].
    + rewrite map_app. cbn. apply NoDup_app. split_and!; [done| |apply NoDup_singleton]. intros id Hid ->%list_elem_of_singleton.
      apply list_elem_of_fmap in Hid as (x & E & Hx). destruct (H2 x Hx) as (k & Ek & Hk). rewrite Ek in E. apply sub_name_inj in E. lia.
    + intros x [Hx| ->%list_elem_of_singleton]%elem_of_app; [|exists (ss_subSequence s); split; [done|lia]].
      destruct (H2 x Hx) as (k & ? & ?). exists k. split; [done|lia].
    + intros q d. rewrite List.filter_app, length_app. cbn [List.filter]. specialize (H3 q d).
      match goal with |- context [sub_of q d ?x && _] => destruct (sub_of q d x) eqn:E end; [|cbn; rewrite Nat.add_0_r; exact H3].
      apply andb_true_iff in E as [Eq%bool_decide_eq_true Ed%bool_decide_eq_true]. cbn in Eq, Ed. subst q d.
      assert (List.filter (fun x => sub_of p c x && sub_live x) (ss_subs s) = []) as ->; [|cbn [andb]; destruct (sub_live _); cbn; lia].
      clear -Ef. induction (ss_subs s) as [|x l IH]; [done|]. cbn [List.filter]. rewrite (Ef x ltac:(left)). apply IH. intros y Hy. apply Ef. by right.
  - intros x Hx. exists x. split; [cbn; set_solver|apply grows_refl].
Qed.

(** The requests of clients and the ticks of the generator. *)
Inductive SubOp : Type :=
| OpProduct (now : string) (input : CreateProductInput)
| OpDeactivate (now productId : string)
| OpSubscribe (now : string) (nowMs : Z) (productId subscriberId : string) (slotOffsetMs : option Z)
| OpPause (now id : string)
| OpResume (now id : string)
| OpCancel (now id : string)
| OpGenerate (now : string) (nowMs : Z) (batchSize : nat).

Definition apply_sub_op (s : SubState) (op : SubOp) : SubState :=
  match op with
  | OpProduct now input => snd (createProduct now input s)
  | OpDeactivate now id => snd (deactivateProduct now id s)
  | OpSubscribe now nowMs p c off => snd (subscribe now nowMs p c off s)
  | OpPause now id => snd (pauseSubscription now id s)
  | OpResume now id => snd (resumeSubscription now id s)
  | OpCancel now id => snd (cancelSubscription now id s)
  | OpGenerate now nowMs n => snd (generateSlotsForDueSubscriptions slots now nowMs n s)
  end.

Lemma live_unless_cancelled x : sub_live x = negb (bool_decide (sub_status x = sub_cancelled)).
Proof. unfold sub_live. by destruct (sub_status x). Qed.

Lemma apply_sub_op_ok s op : inv s -> inv (apply_sub_op s op) /\ evolves s (apply_sub_op s op).
Proof.
  intros Hinv. destruct op; cbn [apply_sub_op].
  - destruct (createProduct _ _ s) eqn:E. by eapply created_product_ok.
  - destruct (deactivateProduct _ _ s) eqn:E. by eapply deactivated_ok.
  - destruct (subscribe _ _ _ _ _ s) eqn:E. by eapply subscribed_ok.
  - destruct (pauseSubscription _ _ s) eqn:E. eapply change_status_ok; [|done|exact E]. intros x _ Ha%bool_decide_eq_true.
    split; [congruence|]. split; [apply with_marks_terms|]. intros _. rewrite live_unless_cancelled. by rewrite Ha.
  - destruct (resumeSubscription _ _ s) eqn:E. eapply change_status_ok; [|done|exact E]. intros x _ Ha%bool_decide_eq_true.
    split; [congruence|]. split; [apply with_marks_terms|]. intros _. rewrite live_unless_cancelled. by rewrite Ha.
  - destruct (cancelSubscription _ _ s) eqn:E. eapply change_status_ok; [|done|exact E]. intros x _ Ha.
    split; [by apply negb_true_iff, bool_decide_eq_false in Ha|]. split; [apply with_marks_terms|done].
  - destruct (generateSlotsForDueSubscriptions _ _ _ _ s) as [r s'] eqn:E.
    unfold generateSlotsForDueSubscriptions, get, mbind, M_bind, mret, M_ret in E.
    destruct (turns slots now (listActiveDueBefore nowMs batchSize s) s) as [ts s1] eqn:Et.
    assert (inv s1 /\ evolves s s1) as Hres.
    { eapply turns_ok; [done|by apply due_distinct| |exact Et]. intros x Hx. by destruct (due_members _ _ _ _ Hx) as (? & ? & _). }
    destruct ts; by injection E as _ <-.
Qed.

Lemma new_state_inv : inv new_state.
Proof. constructor; cbn; [constructor|set_solver|lia|set_solver]. Qed.

Lemma histories_ok ops s : inv s -> inv (fold_left apply_sub_op ops s) /\ evolves s (fold_left apply_sub_op ops s).
Proof.
  revert s. induction ops as [|op ops IH]; intros s Hinv; [split; [done|apply evolves_refl]|]. cbn [fold_left].
  destruct (apply_sub_op_ok s op Hinv) as [H1 H2]. destruct (IH _ H1) as [H3 H4]. split; [done|by eapply evolves_trans].
Qed.

(** (C33) Whatever requests and generator ticks are served in whatever order, a
    subscriber has at most one live subscription to a product; a subscription is
    never lost, keeps its product, subscriber and offset, its counter and cursor
    only move forward, and once cancelled it never changes again. *)
Theorem one_live_subscription before after :
  let s := fold_left apply_sub_op before new_state in
  let s' := fold_left apply_sub_op after s in
  (forall p c, (length (List.filter (fun x => sub_of p c x && sub_live x) (ss_subs s')) <= 1)%nat) /\
  NoDup (map sub_id (ss_subs s')) /\
  forall x, x ∈ ss_subs s -> exists y, y ∈ ss_subs s' /\ same_terms x y /\ (sub_status x = sub_cancelled -> y = x).
Proof.
  intros s s'. destruct (histories_ok before new_state new_state_inv) as [Hs _]. fold s in Hs.
  destruct (histories_ok after s Hs) as [Hs' He]. fold s' in Hs', He. split; [apply Hs'|]. split; [apply Hs'|]. exact He.
Qed.

End Histories.

(** ** Concrete runs *)

Definition june_first : Z := 20605 * DAY_MS + 9 * 3600000.

Definition w_product (rule : string) (max : option Z) : CreateProductInput :=
  {| ci_name := "Coaching"; ci_description := None; ci_professional := "ana"; ci_slotDurationMs := 3600000; ci_recurrenceRule := rule;
     ci_timezone := None; ci_priceCents := None; ci_currency := None; ci_maxSubscribers := max |}.

Definition w_none : InMemorySlots.t := {| InMemorySlots.slots := [] |}.

Definition w_weekly : SubState :=
  fold_left (apply_sub_op w_none)
    [OpProduct "t" (w_product "FREQ=WEEKLY;BYDAY=MO" None); OpSubscribe "t" june_first "sp-1" "bea" None] new_state.

Definition w_sub : SubscriptionRecord :=
  {| sub_id := "sub-1"; sub_productId := "sp-1"; sub_subscriberId := "bea"; sub_status := sub_active; sub_nextSlotStartMs := june_first;
     sub_slotOffsetMs := 0; sub_slotsMinted := 0; sub_pausedAt := None; sub_cancelledAt := None; sub_createdAt := "t"; sub_updatedAt := "t" |}.

Lemma weekly_mint :
  mintSlot w_none w_sub w_weekly =
  (Ok {| mr_subscriptionId := "sub-1"; mr_slotId := "slot-sub-sub-1-1"; mr_professional := "ana"; mr_startTime := june_first;
         mr_endTime := june_first + 3600000; mr_nextSlotStartMs := june_first + 3600000 |}, w_weekly).
Proof. vm_compute. reflexivity. Qed.

(** A weekly subscription: the slot after the one of 9 o'clock is that of 10 o'clock. *)
Lemma minted_back_to_back_witness :
  findSub "sub-1" w_weekly = Some w_sub /\
  exists r, mintSlot w_none w_sub w_weekly = (Ok r, w_weekly) /\ mr_nextSlotStartMs r = mr_endTime r /\ mr_endTime r = june_first + 3600000.
Proof.
  split; [vm_compute; reflexivity|]. eexists. split; [apply weekly_mint|].
  destruct (findProduct "sp-1" w_weekly) as [product|] eqn:Ep; [|vm_compute in Ep; discriminate Ep]. vm_compute in Ep. injection Ep as <-.
  edestruct (minted_back_to_back w_none w_weekly w_sub) as (_ & _ & ? & ? & _); [vm_compute; reflexivity| | |apply weekly_mint|];
    [vm_compute; reflexivity|vm_compute; discriminate|]. by split.
Defined.

(** Minted slots are never stored: two subscriptions to one professional get the
    same hour in one tick, and no conflict is reported. *)
Lemma overlapping_slots_minted :
  let s := fold_left (apply_sub_op w_none) [OpSubscribe "t" june_first "sp-1" "cid" None] w_weekly in
  match fst (generateSlotsForDueSubscriptions w_none "t" june_first 50 s) with
  | Ok g => map (fun r => (mr_professional r, mr_startTime r)) (gs_minted g) = [("ana", june_first); ("ana", june_first)]%string /\ gs_conflicts g = []
  | Err _ => False
  end.
Proof. vm_compute. split; reflexivity. Qed.

(** Capacity counts active subscriptions and is not checked on resuming. *)
Lemma resume_exceeds_capacity :
  let s := fold_left (apply_sub_op w_none)
    [OpProduct "t" (w_product "FREQ=DAILY" (Some 1)); OpSubscribe "t" june_first "sp-1" "bea" None; OpPause "t" "sub-1";
     OpSubscribe "t" june_first "sp-1" "cid" None; OpResume "t" "sub-1"] new_state in
  length (listActiveByProduct "sp-1" s) = 2%nat.
Proof. vm_compute. reflexivity. Qed.

(** A product with INTERVAL=0 is accepted, and subscribing to it never returns. *)
Lemma zero_interval_subscription_hangs :
  let s := fold_left (apply_sub_op w_none) [OpProduct "t" (w_product "FREQ=DAILY;INTERVAL=0" None)] new_state in
  is_Some (findProduct "sp-1" s) /\ fst (subscribe "t" june_first "sp-1" "bea" None s) = Err Diverges.
Proof. vm_compute. split; [eauto|reflexivity]. Qed.

Lemma expandRecurrence_exact_witness :
  expandRecurrence "freq=weekly;count=2" june_first 3600000 (30 * DAY_MS) =
    Some [(june_first, june_first + 3600000); (june_first + 7 * DAY_MS, june_first + 7 * DAY_MS + 3600000)] /\
  forall fuel, expand_loop fuel (parse_rule "FREQ=WEEKLY;BYDAY=TU;INTERVAL=0;COUNT=3") 3600000 (june_first + DAY_MS) june_first 0 = None.
Proof.
  split; [vm_compute; reflexivity|].
  apply (expandRecurrence_exact "FREQ=WEEKLY;BYDAY=TU;INTERVAL=0;COUNT=3" june_first 3600000 DAY_MS). vm_compute. reflexivity.
Defined.
