(* ===== verification/Sweepers.v ===== *)
(** * Sweepers: the workers that give up expired holds

    [scheduler/refundableHoldSweeper.ts] over [services/schedulingService.ts], and
    [scheduler/holdAutoRefundWorker.ts] over
    [modules/booking-intents/booking-intent-service.ts].  A sweep is one
    synchronous section; the refund worker is run alone, one handler after the
    other.  The endless loops around a sweep are left out. *)
From stdpp Require Import base list strings sets gmap pretty.
From Stdlib Require Import ZArith Lia.
From S2P Require Import Prelude JsNumber JsMap Domain Pricing BookingRepo SlotRepo Scheduling Async BookingService BookingLifecycle EscrowProjector.
Local Open Scope Z_scope.

(** ** The refundable-hold sweeper *)

Inductive RefundableHoldStatus : Type := rh_active | rh_confirmed | rh_released | rh_expired.

#[export] Instance refundable_hold_status_eq_dec : EqDecision RefundableHoldStatus.
Proof. solve_decision. Defined.

Record RefundableHold : Type := {
  rf_id : string;
  rf_slotId : string;
  rf_tenantId : option string;
  rf_customerId : string;
  rf_status : RefundableHoldStatus;
  rf_createdAt : Z;
  rf_expiresAt : Z;
  rf_confirmedAt : option Z;
  rf_releasedAt : option Z
}.

(** [InMemoryRefundableHoldRepository]. *)
Record HoldRepo : Type := { hr_holds : jsmap RefundableHold; hr_sequence : Z }.

Definition with_hold_id (id : string) (h : RefundableHold) : RefundableHold :=
  {| rf_id := id; rf_slotId := rf_slotId h; rf_tenantId := rf_tenantId h; rf_customerId := rf_customerId h; rf_status := rf_status h;
     rf_createdAt := rf_createdAt h; rf_expiresAt := rf_expiresAt h; rf_confirmedAt := rf_confirmedAt h; rf_releasedAt := rf_releasedAt h |}.

Definition create_hold (h : RefundableHold) (r : HoldRepo) : RefundableHold * HoldRepo :=
  let record := with_hold_id ("hold-" +:+ pretty (hr_sequence r)) h in
  (record, {| hr_holds := map_set (rf_id record) record (hr_holds r); hr_sequence := hr_sequence r + 1 |}).

Definition find_hold (id : string) (r : HoldRepo) : option RefundableHold := map_get id (hr_holds r).

Definition hold_with_status (status : RefundableHoldStatus) (at_ms : Z) (h : RefundableHold) : RefundableHold :=
  {| rf_id := rf_id h; rf_slotId := rf_slotId h; rf_tenantId := rf_tenantId h; rf_customerId := rf_customerId h; rf_status := status;
     rf_createdAt := rf_createdAt h; rf_expiresAt := rf_expiresAt h;
     rf_confirmedAt := match status with rh_confirmed => Some at_ms | _ => rf_confirmedAt h end;
     rf_releasedAt := match status with rh_released | rh_expired => Some at_ms | _ => rf_releasedAt h end |}.

Inductive HoldRepoError : Type := HoldMissing (id : string).

Definition hold_updateStatus (id : string) (status : RefundableHoldStatus) (at_ms : Z) (r : HoldRepo)
    : result HoldRepoError (RefundableHold * HoldRepo) :=
  h ← from_option_or (find_hold id r) (HoldMissing id);
  let updated := hold_with_status status at_ms h in
  mret (updated, {| hr_holds := map_set id updated (hr_holds r); hr_sequence := hr_sequence r |}).

(** ** Fair selection *)

Definition tenantKey (h : RefundableHold) : string := default "__default__" (rf_tenantId h).

Record Bucket : Type := { bk_items : list RefundableHold; bk_count : nat }.

Definition add_to_bucket (m : jsmap Bucket) (h : RefundableHold) : jsmap Bucket :=
  let items := match map_get (tenantKey h) m with Some b => bk_items b | None => [] end in
  map_set (tenantKey h) {| bk_items := items ++ [h]; bk_count := 0 |} m.

Definition tenantBuckets (candidates : list RefundableHold) : jsmap Bucket := fold_left add_to_bucket candidates [].

(** [count < maxPerTenantPerBatch]; no cap is Infinity. *)
Definition below_cap (cap : option nat) (count : nat) : bool := match cap with Some c => Nat.ltb count c | None => true end.

(** One pass over the buckets; the flag is [progress]. *)
Fixpoint round (batch : nat) (cap : option nat) (buckets : jsmap Bucket) (selected : list RefundableHold)
    : jsmap Bucket * list RefundableHold * bool :=
  match buckets with
  | [] => ([], selected, false)
  | (k, b) :: buckets' =>
      if Nat.leb batch (length selected) then (buckets, selected, false)
      else
        match bk_items b with
        | item :: rest =>
            if below_cap cap (bk_count b) then
              let '(bs, sel, _) := round batch cap buckets' (selected ++ [item]) in
              ((k, {| bk_items := rest; bk_count := S (bk_count b) |}) :: bs, sel, true)
            else let '(bs, sel, p) := round batch cap buckets' selected in ((k, b) :: bs, sel, p)
        | [] => let '(bs, sel, p) := round batch cap buckets' selected in ((k, b) :: bs, sel, p)
        end
  end.

(** The [while] loop; [None] when the fuel does not suffice. *)
Fixpoint passes (fuel : nat) (batch : nat) (cap : option nat) (buckets : jsmap Bucket) (selected : list RefundableHold) : option (list RefundableHold) :=
  match fuel with
  | O => None
  | S fuel' =>
      if Nat.ltb (length selected) batch then
        let '(bs, sel, progress) := round batch cap buckets selected in
        if progress then passes fuel' batch cap bs sel else Some sel
      else Some selected
  end.

(** Every pass that makes progress selects a candidate. *)
Definition fairScheduleCandidates (candidates : list RefundableHold) (batch : nat) (cap : option nat) : option (list RefundableHold) :=
  passes (S (length candidates)) batch cap (tenantBuckets candidates) [].

(** ** A sweep *)

Record SweeperConfig : Type := { sw_batchSize : nat; sw_safetyThreshold : Z; sw_maxPerTenantPerBatch : option nat }.

Definition DEFAULT_SWEEPER : SweeperConfig := {| sw_batchSize := 100; sw_safetyThreshold := 10000; sw_maxPerTenantPerBatch := None |}.

Record SweepResult : Type := {
  sr_releasedCount : nat;
  sr_skippedBecauseThreshold : bool;
  sr_skippedBecausePaused : nat;
  sr_candidatesCount : nat
}.

Record HoldReleasedEvent : Type := { hv_holdId : string; hv_slotId : string; hv_tenantId : option string; hv_releasedAt : Z }.

Definition due (now : Z) (h : RefundableHold) : bool := bool_decide (rf_status h = rh_active) && (rf_expiresAt h <=? now).

Section Sweep.
Context {T : Type} `{SlotRepository T}.

Record SweepState : Type := { sv_holds : HoldRepo; sv_sched : Sched T; sv_events : list HoldReleasedEvent }.

Definition tenant_paused (sched : Sched T) (h : RefundableHold) : bool :=
  match rf_tenantId h with Some t => str_truthy t && isTenantPaused t sched | None => false end.

(** The body of the release loop; a release that throws is logged and ignored. *)
Definition release_hold (now : Z) (s : SweepState * nat) (candidate : RefundableHold) : SweepState * nat :=
  let '(st, n) := s in
  match find_hold (rf_id candidate) (sv_holds st) with
  | Some current =>
      if bool_decide (rf_status current = rh_active) then
        let sched := snd (release_call (rf_slotId current) (sv_sched st)) in
        match hold_updateStatus (rf_id current) rh_expired now (sv_holds st) with
        | Ok (_, holds) =>
            ({| sv_holds := holds; sv_sched := sched;
                sv_events := sv_events st ++ [{| hv_holdId := rf_id current; hv_slotId := rf_slotId current;
                                                 hv_tenantId := rf_tenantId current; hv_releasedAt := now |}] |}, S n)
        | Err _ => (st, n)
        end
      else (st, n)
  | None => (st, n)
  end.

Definition sweepRefundableHoldExpiryOnce (cfg : SweeperConfig) (now : Z) (st : SweepState) : option (SweepResult * SweepState) :=
  let expiredCandidates := List.filter (due now) (map_values (hr_holds (sv_holds st))) in
  let eligible := List.filter (fun h => negb (tenant_paused (sv_sched st) h)) expiredCandidates in
  let paused := length (List.filter (tenant_paused (sv_sched st)) expiredCandidates) in
  if sw_safetyThreshold cfg <? Z.of_nat (length eligible) then
    Some ({| sr_releasedCount := 0; sr_skippedBecauseThreshold := true; sr_skippedBecausePaused := paused;
             sr_candidatesCount := length eligible |}, st)
  else
    batch ← fairScheduleCandidates eligible (sw_batchSize cfg) (sw_maxPerTenantPerBatch cfg);
    let '(st', n) := fold_left (release_hold now) batch (st, 0%nat) in
    Some ({| sr_releasedCount := n; sr_skippedBecauseThreshold := false; sr_skippedBecausePaused := paused;
             sr_candidatesCount := length eligible |}, st').

End Sweep.
Arguments SweepState : clear implicits.

(** ** Fairness *)

Definition items_of (t : string) (l : list RefundableHold) : list RefundableHold := List.filter (fun h => bool_decide (tenantKey h = t)) l.

Lemma items_of_app t l1 l2 : items_of t (l1 ++ l2) = items_of t l1 ++ items_of t l2.
Proof. apply List.filter_app. Qed.

Lemma buckets_spec candidates :
  NoDup (map_keys (tenantBuckets candidates)) /\
  (forall k b, (k, b) ∈ tenantBuckets candidates -> bk_count b = 0%nat /\ bk_items b = items_of k candidates) /\
  (forall k, k ∉ map_keys (tenantBuckets candidates) -> items_of k candidates = []).
Proof.
  unfold tenantBuckets. induction candidates as [|h l (IH1 & IH2 & IH3)] using rev_ind.
  { split_and!; [constructor|intros ? ? H%elem_of_nil; done|done]. }
  rewrite fold_left_app. cbn [fold_left]. set (m := fold_left add_to_bucket l []) in *.
  assert (forall k b, map_get k m = Some b -> bk_items b = items_of k l) as Hget by (intros k b Hb%map_get_elem; by apply IH2).
  assert (match map_get (tenantKey h) m with Some b => bk_items b | None => [] end = items_of (tenantKey h) l) as Hown.
  { destruct (map_get (tenantKey h) m) eqn:E; [by apply Hget|]. symmetry. by apply IH3, map_get_None. }
  unfold add_to_bucket. rewrite Hown.
  set (b' := {| bk_items := items_of (tenantKey h) l ++ [h]; bk_count := 0 |}).
  assert (NoDup (map_keys (map_set (tenantKey h) b' m))) as Hnd by by apply map_set_nodup.
  assert (forall k, items_of k (l ++ [h]) = items_of k l ++ (if bool_decide (tenantKey h = k) then [h] else [])) as Hsnoc.
  { intros k. rewrite items_of_app. unfold items_of at 2. cbn. by destruct (bool_decide _). }
  split_and!; [done| |].
  - intros k b Hb. apply elem_map_get in Hb; [|done]. rewrite map_get_set in Hb. rewrite Hsnoc.
    destruct (bool_decide_reflect (k = tenantKey h)) as [->|Hne].
    + injection Hb as <-. by rewrite bool_decide_true.
    + rewrite bool_decide_false by congruence. rewrite app_nil_r. by apply IH2, map_get_elem.
  - intros k Hk%map_get_None. rewrite map_get_set in Hk. rewrite Hsnoc. case_bool_decide as E; [done|].
    rewrite bool_decide_false by congruence. rewrite app_nil_r. by apply IH3, map_get_None.
Qed.

Definition can_take (cap : option nat) (b : Bucket) : bool :=
  match bk_items b with [] => false | _ => below_cap cap (bk_count b) end.

Definition pick (cap : option nat) (kb : string * Bucket) : option RefundableHold :=
  if can_take cap kb.2 then head (bk_items kb.2) else None.

Definition bucket_step (cap : option nat) (kb : string * Bucket) : string * Bucket :=
  if can_take cap kb.2 then (kb.1, {| bk_items := tail (bk_items kb.2); bk_count := S (bk_count kb.2) |}) else kb.

(** A pass serves the buckets in order until the batch is full. *)
Lemma round_spec batch cap bs sel bs' sel' p :
  round batch cap bs sel = (bs', sel', p) ->
  exists pre post, bs = pre ++ post /\ bs' = map (bucket_step cap) pre ++ post /\ sel' = sel ++ omap (pick cap) pre /\
    (post = [] \/ (batch <= length sel')%nat) /\ (p = true <-> omap (pick cap) pre <> []) /\
    ((length sel <= batch)%nat -> (length sel' <= batch)%nat).
Proof.
  revert sel bs' sel' p. induction bs as [|[k b] bs IH]; intros sel bs' sel' p H; cbn [round] in H.
  { injection H as <- <- <-. exists [], []. cbn. rewrite app_nil_r. split_and!; auto; done. }
  destruct (Nat.leb_spec batch (length sel)) as [Hfull|Hroom].
  { injection H as <- <- <-. exists [], ((k, b) :: bs). cbn. rewrite app_nil_r. split_and!; auto; done. }
  destruct (can_take cap b) eqn:Ec.
  - assert (exists item rest, bk_items b = item :: rest /\ below_cap cap (bk_count b) = true) as (item & rest & Ei & Eb).
    { unfold can_take in Ec. destruct (bk_items b); [done|]. eauto. }
    rewrite Ei, Eb in H. destruct (round batch cap bs (sel ++ [item])) as [[bs1 sel1] p1] eqn:E1. injection H as <- <- <-.
    destruct (IH _ _ _ _ E1) as (pre & post & -> & -> & -> & Hp & _ & Hl). exists ((k, b) :: pre), post.
    assert (pick cap (k, b) = Some item) as Hpick by (unfold pick; cbn; by rewrite Ec, Ei).
    assert (bucket_step cap (k, b) = (k, {| bk_items := rest; bk_count := S (bk_count b) |})) as Hstep by (unfold bucket_step; cbn; by rewrite Ec, Ei).
    cbn [map app omap list_omap]. rewrite Hpick, Hstep. rewrite <- app_assoc in *. cbn in *. split_and!; try done.
    intros _. apply Hl. rewrite length_app. cbn. lia.
  - assert ((let '(r, s, q) := round batch cap bs sel in ((k, b) :: r, s, q)) = (bs', sel', p)) as H'.
    { unfold can_take in Ec. destruct (bk_items b); [exact H|]. rewrite Ec in H. exact H. }
    destruct (round batch cap bs sel) as [[bs1 sel1] p1] eqn:E1. injection H' as <- <- <-.
    destruct (IH _ _ _ _ E1) as (pre & post & -> & -> & -> & Hp & Hpr & Hl). exists ((k, b) :: pre), post.
    assert (pick cap (k, b) = None) as Hpick by (unfold pick; cbn; by rewrite Ec).
    assert (bucket_step cap (k, b) = (k, b)) as Hstep by (unfold bucket_step; cbn; by rewrite Ec).
    cbn [map app omap list_omap]. rewrite Hpick, Hstep. split_and!; done.
Qed.

Section Fair.
Context (candidates : list RefundableHold) (batch : nat) (cap : option nat).

(** How many of a tenant's candidates may be taken. *)
Definition limit_of (t : string) : nat :=
  match cap with Some c => Nat.min c (length (items_of t candidates)) | None => length (items_of t candidates) end.

(** [bs] and [selected] agree with the candidates: what is selected of a tenant is
    a prefix of its candidates, and the rest is still in its bucket. *)
Definition agrees (bs : jsmap Bucket) (selected : list RefundableHold) : Prop :=
  NoDup (map_keys bs) /\ (forall k, k ∉ map_keys bs -> items_of k candidates = [] /\ items_of k selected = []) /\
  (forall k b, (k, b) ∈ bs ->
     (bk_count b <= limit_of k)%nat /\ bk_items b = drop (bk_count b) (items_of k candidates) /\
     items_of k selected = take (bk_count b) (items_of k candidates)).

Lemma can_take_limit bs selected k b :
  agrees bs selected -> (k, b) ∈ bs -> can_take cap b = true <-> (bk_count b < limit_of k)%nat.
Proof.
  intros (_ & _ & H) Hin. destruct (H k b Hin) as (Hc & Hi & _). unfold can_take, limit_of in *. rewrite Hi.
  destruct (drop (bk_count b) (items_of k candidates)) as [|x l] eqn:Ed.
  - apply (f_equal length) in Ed. rewrite length_drop in Ed. cbn in Ed. split; [done|]. destruct cap; lia.
  - apply (f_equal length) in Ed. rewrite length_drop in Ed. cbn in Ed. unfold below_cap. destruct cap as [c|]; [rewrite Nat.ltb_lt; lia|]. split; [lia|done].
Qed.

Lemma picks_of_tenant (bs : list (string * Bucket)) (t : string) :
  NoDup (map_keys bs) -> (forall k b x, (k, b) ∈ bs -> x ∈ bk_items b -> tenantKey x = k) ->
  items_of t (omap (pick cap) bs) = match map_get t bs with Some b => option_list (pick cap (t, b)) | None => [] end.
Proof.
  intros Hnd Hkeys. induction bs as [|[k b] bs IH]; [done|]. cbn in Hnd. apply NoDup_cons in Hnd as [Hk Hnd].
  cbn [omap list_omap]. rewrite map_get_cons.
  assert (items_of t (omap (pick cap) bs) = match map_get t bs with Some b => option_list (pick cap (t, b)) | None => [] end) as IH'
    by (apply IH; [done|]; intros k' b' x Hb; apply (Hkeys k' b' x); by right).
  destruct (pick cap (k, b)) as [x|] eqn:Ep.
  - assert (tenantKey x = k) as Hx.
    { apply (Hkeys k b); [left|]. unfold pick in Ep. cbn in Ep. destruct (can_take cap b); [|done]. destruct (bk_items b); [done|]. injection Ep as ->. left. }
    change (items_of t (x :: omap (pick cap) bs)) with (if bool_decide (tenantKey x = t) then x :: items_of t (omap (pick cap) bs) else items_of t (omap (pick cap) bs)).
    rewrite Hx. case_bool_decide as E; [|done]. subst t. rewrite Ep, IH'. cbn.
    assert (map_get k bs = None) as -> by by apply map_get_None. done.
  - case_bool_decide as E; [|done]. subst t. rewrite Ep, IH'. assert (map_get k bs = None) as -> by by apply map_get_None. done.
Qed.

Lemma agrees_keys bs selected k b x : agrees bs selected -> (k, b) ∈ bs -> x ∈ bk_items b -> tenantKey x = k.
Proof.
  intros (_ & _ & H) Hin Hx. destruct (H k b Hin) as (_ & Hi & _). rewrite Hi in Hx. apply subseteq_drop in Hx.
  unfold items_of in Hx. rewrite list_elem_of_In, filter_In in Hx. by destruct Hx as [_ Hx%bool_decide_eq_true].
Qed.

Lemma step_keys (pre : list (string * Bucket)) : map_keys (map (bucket_step cap) pre) = map_keys pre.
Proof.
  unfold map_keys. rewrite map_map. apply map_ext. intros [k b]. unfold bucket_step. by destruct (can_take _ _).
Qed.

Lemma map_get_app (m1 m2 : list (string * Bucket)) k : map_get k (m1 ++ m2) = match map_get k m1 with Some b => Some b | None => map_get k m2 end.
Proof. unfold map_get. rewrite find_first_app. by destruct (find_first (at_key k) m1). Qed.

(** A pass keeps the agreement; the buckets it served have moved on by one if they could. *)
Lemma pass_agrees pre post selected :
  agrees (pre ++ post) selected -> agrees (map (bucket_step cap) pre ++ post) (selected ++ omap (pick cap) pre).
Proof.
  intros Hag. pose proof Hag as (Hnd & Hout & Hin). assert (map_keys (pre ++ post) = map_keys pre ++ map_keys post) as Hkeys by apply map_app.
  assert (map_keys (map (bucket_step cap) pre ++ post) = map_keys (pre ++ post)) as Hsame.
  { rewrite Hkeys, <- (step_keys pre). apply map_app. }
  rewrite Hkeys in Hnd. pose proof (proj1 (NoDup_app _ _) Hnd) as (Hndpre & Hdis & Hndpost).
  assert (forall t, items_of t (omap (pick cap) pre) = match map_get t pre with Some b => option_list (pick cap (t, b)) | None => [] end) as Hpicks.
  { intros t. apply picks_of_tenant; [done|]. intros k b x Hb. apply (agrees_keys _ _ k b x Hag). apply elem_of_app. by left. }
  split; [by rewrite Hsame, Hkeys|]. split.
  - rewrite Hsame. intros k Hk. rewrite items_of_app, Hpicks. destruct (Hout k Hk) as [? ->]. split; [done|].
    assert (map_get k pre = None) as ->; [|done]. apply map_get_None. intros Hx. apply Hk. rewrite Hkeys. apply elem_of_app. by left.
  - intros k b Hb. rewrite items_of_app, Hpicks. apply elem_of_app in Hb as [Hb|Hb].
    + apply list_elem_of_fmap in Hb as ([k0 b0] & E & Hb0). pose proof (elem_map_get _ _ _ Hndpre Hb0) as Hg.
      assert ((k0, b0) ∈ pre ++ post) as Hb0' by (apply elem_of_app; by left). destruct (Hin k0 b0 Hb0') as (Hc & Hi & Hs).
      pose proof (can_take_limit _ _ k0 b0 Hag Hb0') as Hcan. unfold bucket_step in E. cbn in E.
      destruct (can_take cap b0) eqn:Ec; injection E as -> ->; rewrite Hg; unfold pick; cbn; rewrite Ec; cbn.
      * assert (bk_count b0 < limit_of k0)%nat as Hlt by by apply Hcan. rewrite Hi, Hs.
        assert (limit_of k0 <= length (items_of k0 candidates))%nat as Hlen by (unfold limit_of; destruct cap; lia).
        destruct (lookup_lt_is_Some_2 (items_of k0 candidates) (bk_count b0)) as [x Hx]; [lia|].
        rewrite (drop_S _ _ _ Hx). cbn. split_and!; [lia|done|]. by rewrite (take_S_r _ _ _ Hx).
      * rewrite app_nil_r. done.
    + assert (map_get k pre = None) as ->.
      { apply map_get_None. intros Hx. apply (Hdis k Hx). unfold map_keys. apply list_elem_of_fmap. by exists (k, b). }
      rewrite app_nil_r. apply Hin. apply elem_of_app. by right.
Qed.

Definition level (j : nat) (bs : jsmap Bucket) : Prop := forall k b, (k, b) ∈ bs -> bk_count b = Nat.min j (limit_of k).

Definition near_level (j : nat) (bs : jsmap Bucket) : Prop :=
  forall k b, (k, b) ∈ bs -> bk_count b = Nat.min j (limit_of k) \/ bk_count b = Nat.min (S j) (limit_of k).

Lemma step_level j bs selected pre post :
  agrees bs selected -> level j bs -> bs = pre ++ post ->
  near_level j (map (bucket_step cap) pre ++ post) /\ (post = [] -> level (S j) (map (bucket_step cap) pre ++ post)).
Proof.
  intros Hag Hl ->.
  assert (level (S j) (map (bucket_step cap) pre)) as Hpre.
  { intros k b ([k0 b0] & E & Hb)%list_elem_of_fmap. assert ((k0, b0) ∈ pre ++ post) as Hb' by (apply elem_of_app; by left).
    pose proof (Hl k0 b0 Hb') as Hc. pose proof (can_take_limit _ _ k0 b0 Hag Hb') as Hcan. unfold bucket_step in E. cbn in E.
    destruct (can_take cap b0); injection E as -> ->; cbn [bk_count].
    - assert (bk_count b0 < limit_of k0)%nat by by apply Hcan. lia.
    - assert (~ (bk_count b0 < limit_of k0)%nat) by (intros H; by apply Hcan in H). lia. }
  split.
  - intros k b [Hb|Hb]%elem_of_app; [right; by apply Hpre|left]. apply Hl. apply elem_of_app. by right.
  - intros ->. rewrite app_nil_r. exact Hpre.
Qed.

(** What the selection promises. *)
Definition fair (selected : list RefundableHold) : Prop :=
  (length selected <= batch)%nat /\
  (forall t, items_of t selected `prefix_of` items_of t candidates /\ (length (items_of t selected) <= limit_of t)%nat) /\
  (forall t u, (length (items_of u selected) <= S (length (items_of t selected)))%nat \/ length (items_of t selected) = limit_of t) /\
  ((length selected < batch)%nat -> forall t, length (items_of t selected) = limit_of t).

Lemma selected_count bs selected t :
  agrees bs selected ->
  (exists b, (t, b) ∈ bs /\ length (items_of t selected) = bk_count b) \/ (limit_of t = 0%nat /\ items_of t selected = [] /\ items_of t candidates = []).
Proof.
  intros (Hnd & Hout & Hin). destruct (map_get t bs) as [b|] eqn:E.
  - apply map_get_elem in E. left. exists b. split; [done|]. destruct (Hin t b E) as (Hc & _ & ->). rewrite length_take.
    assert (limit_of t <= length (items_of t candidates))%nat by (unfold limit_of; destruct cap; lia). lia.
  - right. apply map_get_None in E. destruct (Hout t E) as [Ht ->]. unfold limit_of. rewrite Ht. cbn. destruct cap; auto using Nat.min_0_r.
Qed.

Lemma near_level_fair j bs selected :
  agrees bs selected -> near_level j bs -> (length selected <= batch)%nat -> ((length selected < batch)%nat -> level (S j) bs /\ forall k b, (k, b) ∈ bs -> bk_count b = limit_of k) -> fair selected.
Proof.
  intros Hag Hn Hlen Hfull. split; [done|]. split.
  - intros t. destruct (selected_count _ _ t Hag) as [(b & Hb & E)|(-> & -> & ->)]; [|split; [done|cbn; lia]].
    destruct Hag as (_ & _ & Hin). destruct (Hin t b Hb) as (Hc & _ & Hs). split; [|lia]. rewrite Hs. apply prefix_take.
  - split.
    + intros t u. destruct (selected_count _ _ t Hag) as [(b & Hb & Et)|(Hz & -> & _)]; [|right; by rewrite Hz].
      destruct (selected_count _ _ u Hag) as [(c & Hc & Eu)|(_ & -> & _)]; [|left; cbn; lia].
      pose proof (Hn t b Hb). pose proof (Hn u c Hc). lia.
    + intros Hlt t. destruct (selected_count _ _ t Hag) as [(b & Hb & Et)|(-> & -> & _)]; [|done].
      rewrite Et. by apply (Hfull Hlt).
Qed.

Lemma passes_fair fuel j bs selected :
  agrees bs selected -> level j bs -> (length selected <= batch)%nat -> (length candidates < fuel + j)%nat -> (0 < fuel)%nat ->
  exists sel, passes fuel batch cap bs selected = Some sel /\ fair sel.
Proof.
  revert j bs selected. induction fuel as [|fuel IH]; intros j bs selected Hag Hl Hlen Hfuel Hpos; [lia|]. cbn [passes].
  destruct (Nat.ltb_spec (length selected) batch) as [Hlt|Hge].
  2: { eexists. split; [done|]. eapply (near_level_fair j); try done; [|lia]. intros k b Hb. left. by apply Hl. }
  destruct (round batch cap bs selected) as [[bs' sel'] p] eqn:Er.
  destruct (round_spec _ _ _ _ _ _ _ Er) as (pre & post & E & -> & -> & Hpost & Hp & Hbound). specialize (Hbound Hlen).
  assert (agrees (map (bucket_step cap) pre ++ post) (selected ++ omap (pick cap) pre)) as Hag' by (apply pass_agrees; by rewrite <- E).
  destruct (step_level j bs selected pre post Hag Hl E) as [Hnear Hlevel].
  destruct p.
  - assert (j < length candidates)%nat as Hj.
    { destruct (omap (pick cap) pre) as [|x l] eqn:Ep; [by destruct (proj1 Hp eq_refl)|].
      assert (x ∈ omap (pick cap) pre) as Hx by (rewrite Ep; left). apply list_elem_of_omap in Hx as ([k b] & Hb & Hx).
      assert ((k, b) ∈ bs) as Hb' by (rewrite E; apply elem_of_app; by left).
      unfold pick in Hx. cbn in Hx. destruct (can_take cap b) eqn:Ec; [|done].
      apply (can_take_limit _ _ k b Hag Hb') in Ec. rewrite (Hl k b Hb') in Ec.
      assert (limit_of k <= length (items_of k candidates))%nat by (unfold limit_of; destruct cap; lia).
      assert (length (items_of k candidates) <= length candidates)%nat by apply filter_length_le. lia. }
    destruct post as [|q post].
    + apply (IH (S j)); try done; [by apply Hlevel|lia..].
    + destruct Hpost as [?|Hpost]; [done|]. destruct fuel as [|fuel]; [lia|]. cbn [passes].
      destruct (Nat.ltb_spec (length (selected ++ omap (pick cap) pre)) batch) as [?|_]; [lia|]. eexists. split; [done|].
      eapply (near_level_fair j); try done. lia.
  - assert (omap (pick cap) pre = []) as Ep by (destruct (omap (pick cap) pre) as [|x l]; [done|]; by assert (false = true) by (by apply Hp)).
    rewrite Ep, app_nil_r in *. destruct Hpost as [->|?]; [|lia]. eexists. split; [done|]. eapply (near_level_fair j); try done. intros _.
    specialize (Hlevel eq_refl). split; [done|]. intros k b Hb. pose proof (Hlevel k b Hb) as Hc. destruct (decide (limit_of k <= S j)%nat); [lia|].
    exfalso. assert (bk_count b < limit_of k)%nat as Hcan by lia. rewrite app_nil_r in Hb, Hag'.
    apply list_elem_of_fmap in Hb as ([k0 b0] & Eb & Hb0). assert ((k0, b0) ∈ bs) as Hb0' by (rewrite E; apply elem_of_app; by left).
    assert (pick cap (k0, b0) = None) as Hno.
    { destruct (pick cap (k0, b0)) as [x|] eqn:Epk; [|done]. assert (x ∈ omap (pick cap) pre) as Hx by (apply list_elem_of_omap; eauto). rewrite Ep in Hx. by apply elem_of_nil in Hx. }
    unfold pick in Hno. unfold bucket_step in Eb. cbn in Hno, Eb. destruct (can_take cap b0) eqn:Ec.
    + unfold can_take in Ec. destruct (bk_items b0); done.
    + injection Eb as -> ->. apply (can_take_limit _ _ k0 b0 Hag Hb0') in Hcan. congruence.
Qed.
End Fair.

Lemma selection_spec candidates batch cap :
  exists selected, fairScheduleCandidates candidates batch cap = Some selected /\ fair candidates batch cap selected.
Proof.
  destruct (buckets_spec candidates) as (Hnd & Hin & Hout).
  apply (passes_fair candidates batch cap (S (length candidates)) 0); [| |cbn; lia|lia|lia].
  - split; [done|]. split; [intros k Hk; split; [by apply Hout|done]|]. intros k b Hb. destruct (Hin k b Hb) as [-> ->]. split; [lia|]. done.
  - intros k b Hb. destruct (Hin k b Hb) as [-> _]. done.
Qed.

(** (C36) The selection terminates and is fair: it takes at most a batch, and of
    every tenant a prefix of its candidates in order, never more than the cap; no
    tenant gets two more than another unless the other's candidates or cap are
    used up; and a batch that is not full has taken all that the caps allow. *)
Theorem selection_fair candidates batch cap :
  exists selected, fairScheduleCandidates candidates batch cap = Some selected /\
    (length selected <= batch)%nat /\
    (forall t, items_of t selected `prefix_of` items_of t candidates /\ (length (items_of t selected) <= limit_of candidates cap t)%nat) /\
    (forall t u, (length (items_of u selected) <= S (length (items_of t selected)))%nat \/
       length (items_of t selected) = limit_of candidates cap t) /\
    ((length selected < batch)%nat -> forall t, length (items_of t selected) = limit_of candidates cap t).
Proof. exact (selection_spec candidates batch cap). Qed.

(** ** What a sweep does *)

Lemma items_of_elem t l h : h ∈ items_of t l <-> h ∈ l /\ tenantKey h = t.
Proof. unfold items_of. by rewrite list_elem_of_In, filter_In, <- list_elem_of_In, bool_decide_eq_true. Qed.

Lemma fair_members candidates batch cap selected h : fair candidates batch cap selected -> h ∈ selected -> h ∈ candidates.
Proof.
  intros (_ & Hp & _) Hh. destruct (Hp (tenantKey h)) as [Hpre _]. assert (h ∈ items_of (tenantKey h) selected) as Hi by (by apply items_of_elem).
  destruct Hpre as [l E]. assert (h ∈ items_of (tenantKey h) candidates) as Hc by (rewrite E; apply elem_of_app; by left).
  by apply items_of_elem in Hc as [? _].
Qed.

Lemma nodup_by_tenant l : (forall t, NoDup (items_of t l)) -> NoDup l.
Proof.
  induction l as [|h l IH]; intros H; [constructor|]. constructor.
  - intros Hh. pose proof (H (tenantKey h)) as Hk. unfold items_of in Hk. cbn in Hk. rewrite bool_decide_true in Hk by done.
    apply NoDup_cons in Hk as [Hk _]. apply Hk. by apply (items_of_elem (tenantKey h) l h).
  - apply IH. intros t. pose proof (H t) as Ht. unfold items_of in *. cbn in Ht. destruct (bool_decide _); [by apply NoDup_cons in Ht as [_ ?]|done].
Qed.

Lemma fair_distinct candidates batch cap selected :
  fair candidates batch cap selected -> NoDup (map rf_id candidates) -> NoDup (map rf_id selected).
Proof.
  intros Hf Hnd. pose proof Hf as (_ & Hp & _). assert (NoDup candidates) as Hc by by apply NoDup_fmap_1 in Hnd.
  assert (NoDup selected) as Hs.
  { apply nodup_by_tenant. intros t. destruct (Hp t) as [[l E] _]. assert (NoDup (items_of t candidates)) as Ht.
    { unfold items_of. apply NoDup_ListNoDup, List.NoDup_filter. by apply NoDup_ListNoDup. }
    rewrite E in Ht. by apply NoDup_app in Ht as [? _]. }
  apply NoDup_fmap_2_strong; [|done]. intros x y Hx Hy Exy. apply (fair_members _ _ _ _ _ Hf) in Hx, Hy.
  apply list_elem_of_lookup_1 in Hx as [i Hi]. apply list_elem_of_lookup_1 in Hy as [j Hj].
  assert (forall n z, candidates !! n = Some z -> map rf_id candidates !! n = Some (rf_id z)) as Hmap.
  { intros n z Hz. pose proof (list_lookup_fmap rf_id candidates n) as E. rewrite Hz in E. exact E. }
  assert (i = j); [|congruence]. apply (NoDup_lookup (map rf_id candidates) i j (rf_id x)); [done|by apply Hmap|]. rewrite Exy. by apply Hmap.
Qed.

Section SweepFacts.
Context {T : Type} `{SlotRepositoryLaws T}.
Implicit Types (st : SweepState T) (sched : Sched T).

(** Every hold is stored under its own id, once. *)
Definition wf_holds (r : HoldRepo) : Prop :=
  NoDup (map_keys (hr_holds r)) /\ forall id h, map_get id (hr_holds r) = Some h -> rf_id h = id.

Lemma updated_hold id at_ms h r :
  wf_holds r -> find_hold id r = Some h ->
  exists r', hold_updateStatus id rh_expired at_ms r = Ok (hold_with_status rh_expired at_ms h, r') /\ wf_holds r' /\
    forall id', find_hold id' r' = if bool_decide (id' = id) then Some (hold_with_status rh_expired at_ms h) else find_hold id' r.
Proof.
  intros [Hnd Hid] Hh. unfold hold_updateStatus. rewrite Hh. cbn [from_option_or mbind result_bind].
  exists {| hr_holds := map_set id (hold_with_status rh_expired at_ms h) (hr_holds r); hr_sequence := hr_sequence r |}. split; [done|].
  unfold find_hold, wf_holds in *. cbn [hr_holds]. split.
  - split; [by apply map_set_nodup|]. intros id' h'. rewrite map_get_set. case_bool_decide as E; [|apply Hid]. intros [= <-]. subst id'. cbn. by apply Hid.
  - intros id'. by rewrite map_get_set.
Qed.

Lemma released_slots id sched :
  sc_pausedTenants (snd (release_call id sched)) = sc_pausedTenants sched /\
  sc_reservedBundles (snd (release_call id sched)) = sc_reservedBundles sched /\
  forall k, findSlot k (sc_slots (snd (release_call id sched))) =
    if bool_decide (k = id) then set_bookable true <$> findSlot k (sc_slots sched) else findSlot k (sc_slots sched).
Proof.
  unfold release_call, call, releaseSlot, lift_slot. destruct (findSlot id (sc_slots sched)) as [x|] eqn:E.
  - destruct (law_updateBookable id true (sc_slots sched)) as (t & Et & _); [by eexists|]. rewrite Et. cbn. split; [done|]. split; [done|].
    intros k. case_bool_decide as Ek; [subst k; rewrite E; cbn; by eapply findSlot_update_eq|]. by eapply findSlot_update_ne.
  - rewrite law_updateBookable_missing by done. cbn. split; [done|]. split; [done|]. intros k. case_bool_decide as Ek; [|done]. subst k. by rewrite E.
Qed.

Definition released_event (now : Z) (h : RefundableHold) : HoldReleasedEvent :=
  {| hv_holdId := rf_id h; hv_slotId := rf_slotId h; hv_tenantId := rf_tenantId h; hv_releasedAt := now |}.

(** The effect of releasing [batch] on a state. *)
Definition swept (now : Z) (batch : list RefundableHold) st st' : Prop :=
  (forall id, find_hold id (sv_holds st') =
     if bool_decide (id ∈ map rf_id batch) then hold_with_status rh_expired now <$> find_hold id (sv_holds st) else find_hold id (sv_holds st)) /\
  (forall k, findSlot k (sc_slots (sv_sched st')) =
     if bool_decide (k ∈ map rf_slotId batch) then set_bookable true <$> findSlot k (sc_slots (sv_sched st)) else findSlot k (sc_slots (sv_sched st))) /\
  sc_pausedTenants (sv_sched st') = sc_pausedTenants (sv_sched st) /\
  sc_reservedBundles (sv_sched st') = sc_reservedBundles (sv_sched st) /\
  sv_events st' = sv_events st ++ map (released_event now) batch.

Lemma release_loop now batch st n :
  wf_holds (sv_holds st) -> NoDup (map rf_id batch) ->
  (forall h, h ∈ batch -> find_hold (rf_id h) (sv_holds st) = Some h /\ rf_status h = rh_active) ->
  exists st', fold_left (release_hold now) batch (st, n) = (st', (n + length batch)%nat) /\ swept now batch st st'.
Proof.
  revert st n. induction batch as [|h batch IH]; intros st n Hwf Hnd Hall.
  { exists st. cbn. rewrite Nat.add_0_r. split; [done|]. unfold swept. cbn. rewrite app_nil_r. split_and!; done. }
  cbn [map] in Hnd. apply NoDup_cons in Hnd as [Hfresh Hnd]. destruct (Hall h ltac:(left)) as [Hh Hact].
  cbn [fold_left]. unfold release_hold at 2. rewrite Hh, bool_decide_true by done.
  destruct (updated_hold (rf_id h) now h (sv_holds st) Hwf Hh) as (r' & -> & Hwf' & Hfind).
  destruct (released_slots (rf_slotId h) (sv_sched st)) as (Hp & Hb & Hs).
  set (st1 := {| sv_holds := r'; sv_sched := snd (release_call (rf_slotId h) (sv_sched st)); sv_events := _ |}).
  destruct (IH st1 (S n)) as (st' & -> & H1 & H2 & H3 & H4 & H5); [done|done| |].
  { intros x Hx. cbn. rewrite Hfind. destruct (Hall x ltac:(by right)) as [Hx1 Hx2]. rewrite bool_decide_false; [done|].
    intros E. apply Hfresh. rewrite <- E. by apply list_elem_of_fmap_2. }
  exists st'. split; [f_equal; cbn; lia|]. unfold swept. cbn [st1 sv_holds sv_sched sv_events] in *. split_and!.
  - intros id. rewrite H1, Hfind. cbn [map]. destruct (bool_decide_reflect (id = rf_id h)) as [->|Hne].
    + rewrite (bool_decide_false (rf_id h ∈ map rf_id batch)) by done. rewrite (bool_decide_true (rf_id h ∈ rf_id h :: map rf_id batch)) by left. by rewrite Hh.
    + destruct (bool_decide_reflect (id ∈ map rf_id batch)) as [Hin|Hin].
      * by rewrite bool_decide_true by by right.
      * rewrite bool_decide_false; [done|]. by intros [?|?]%elem_of_cons.
  - intros k. rewrite H2, Hs. cbn [map]. destruct (bool_decide_reflect (k = rf_slotId h)) as [->|Hne].
    + rewrite (bool_decide_true (rf_slotId h ∈ rf_slotId h :: map rf_slotId batch)) by left. destruct (bool_decide _); [|done].
      by destruct (findSlot (rf_slotId h) (sc_slots (sv_sched st))).
    + destruct (bool_decide_reflect (k ∈ map rf_slotId batch)) as [Hin|Hin].
      * by rewrite bool_decide_true by by right.
      * rewrite bool_decide_false; [done|]. by intros [?|?]%elem_of_cons.
  - by rewrite H3.
  - by rewrite H4.
  - rewrite H5. by rewrite <- app_assoc.
Qed.

Definition eligible_holds (now : Z) st : list RefundableHold :=
  List.filter (fun h => negb (tenant_paused (sv_sched st) h)) (List.filter (due now) (map_values (hr_holds (sv_holds st)))).

Lemma eligible_spec now st h :
  wf_holds (sv_holds st) -> h ∈ eligible_holds now st ->
  find_hold (rf_id h) (sv_holds st) = Some h /\ rf_status h = rh_active /\ rf_expiresAt h <= now /\ tenant_paused (sv_sched st) h = false.
Proof.
  intros [Hnd Hid] Hh. unfold eligible_holds in Hh. rewrite list_elem_of_In, !filter_In in Hh. destruct Hh as [[Hh Hd] Hp%negb_true_iff].
  apply andb_true_iff in Hd as [Hact%bool_decide_eq_true He%Z.leb_le]. split; [|done]. apply list_elem_of_In in Hh.
  unfold map_values in Hh. apply list_elem_of_fmap in Hh as ([id x] & -> & Hin). cbn. pose proof (elem_map_get _ _ _ Hnd Hin) as Hg.
  unfold find_hold. by rewrite (Hid id x Hg).
Qed.

Lemma eligible_distinct now st : wf_holds (sv_holds st) -> NoDup (map rf_id (eligible_holds now st)).
Proof.
  intros [Hnd Hid]. assert (map rf_id (map_values (hr_holds (sv_holds st))) = map_keys (hr_holds (sv_holds st))) as E.
  { unfold map_values, map_keys. rewrite map_map. apply map_ext_in. intros [id x] Hin%list_elem_of_In. cbn. by apply Hid, elem_map_get. }
  rewrite <- E in Hnd. unfold eligible_holds. clear -Hnd. induction (map_values _) as [|h l IH]; [constructor|].
  cbn in Hnd. apply NoDup_cons in Hnd as [Hh Hnd]. cbn [List.filter]. destruct (due now h); [|by apply IH]. cbn [List.filter].
  destruct (negb _); [|by apply IH]. cbn. apply NoDup_cons. split; [|by apply IH]. intros (x & Ex & Hx)%list_elem_of_fmap.
  rewrite list_elem_of_In, !filter_In in Hx. apply Hh, list_elem_of_fmap. exists x. split; [done|]. apply list_elem_of_In. tauto.
Qed.

(** (C34) A sweep gives up exactly a fair batch of the expired holds: it either
    trips the safety brake and changes nothing, or selects a fair batch of the
    active holds past their deadline whose tenant is not paused, marks exactly
    those as expired now, makes exactly their slots bookable, leaves every other
    hold, slot and bundle as it was, counts them and emits one event for each. *)
Theorem sweep_exact cfg now st :
  wf_holds (sv_holds st) ->
  exists r st', sweepRefundableHoldExpiryOnce cfg now st = Some (r, st') /\ sr_candidatesCount r = length (eligible_holds now st) /\
    (sr_skippedBecauseThreshold r = true <-> sw_safetyThreshold cfg < Z.of_nat (length (eligible_holds now st))) /\
    (sr_skippedBecauseThreshold r = true -> st' = st) /\
    (sr_skippedBecauseThreshold r = false ->
       exists batch, fair (eligible_holds now st) (sw_batchSize cfg) (sw_maxPerTenantPerBatch cfg) batch /\
         NoDup (map rf_id batch) /\ sr_releasedCount r = length batch /\
         (forall h, h ∈ batch -> find_hold (rf_id h) (sv_holds st) = Some h /\ rf_status h = rh_active /\ rf_expiresAt h <= now /\
            tenant_paused (sv_sched st) h = false) /\
         swept now batch st st').
Proof.
  intros Hwf. unfold sweepRefundableHoldExpiryOnce. cbv zeta. fold (eligible_holds now st).
  destruct (Z.ltb_spec (sw_safetyThreshold cfg) (Z.of_nat (length (eligible_holds now st)))) as [Hb|Hb].
  - eexists _, st. split; [done|]. cbn. split_and!; done.
  - destruct (selection_spec (eligible_holds now st) (sw_batchSize cfg) (sw_maxPerTenantPerBatch cfg)) as (batch & -> & Hf).
    assert (NoDup (map rf_id batch)) as Hnd by (eapply fair_distinct; [exact Hf|by apply eligible_distinct]).
    assert (forall h, h ∈ batch -> find_hold (rf_id h) (sv_holds st) = Some h /\ rf_status h = rh_active /\ rf_expiresAt h <= now /\
            tenant_paused (sv_sched st) h = false) as Hall.
    { intros h Hh. apply eligible_spec; [done|]. by eapply fair_members. }
    destruct (release_loop now batch st 0 Hwf Hnd) as (st' & E & Hs); [intros h Hh; split; by apply Hall|].
    cbn [mbind option_bind]. rewrite E. eexists _, st'. split; [done|]. cbn. split_and!; try done; [split; [done|lia]|].
    intros _. exists batch. done.
Qed.

End SweepFacts.

(** ** The auto-refund worker *)

Record AutoRefundConfig : Type := { ac_batchSize : nat; ac_safetyThreshold : Z }.

Record AutoRefundResult : Type := {
  ar_intentId : string;
  ar_success : bool;
  ar_refundedAmountCents : num;
  ar_error : option BookingErr
}.

Record HoldAutoRefundResult : Type := {
  ha_refundedCount : nat;
  ha_totalRefundedAmountCents : num;
  ha_failedCount : nat;
  ha_failures : list AutoRefundResult;
  ha_skippedBecauseThreshold : bool
}.

Section AutoRefund.
Context {R T : Type} `{BookingIntentRepository R} `{SlotRepository T}.
Context (o : Outside).

Definition auto_refund_turn (acc : list AutoRefundResult * St R T) (hold : BookingIntentRecord) : list AutoRefundResult * St R T :=
  let '(results, s) := acc in
  match run (handle o) (autoRefundHold (bi_id hold) false) s with
  | (Ok refunded, s') =>
      (results ++ [{| ar_intentId := bi_id refunded; ar_success := true;
                      ar_refundedAmountCents := match bi_refundMetadata refunded with Some m => rm_refundedAmountCents m | None => zero end;
                      ar_error := None |}], s')
  | (Err e, s') => (results ++ [{| ar_intentId := bi_id hold; ar_success := false; ar_refundedAmountCents := zero; ar_error := Some e |}], s')
  end.

Definition processHoldAutoRefundOnce (cfg : AutoRefundConfig) (now : Z) (s : St R T) : HoldAutoRefundResult * St R T :=
  let expiredHolds := findExpiredHolds now (st_intents s) in
  if ac_safetyThreshold cfg <? Z.of_nat (length expiredHolds) then
    ({| ha_refundedCount := 0; ha_totalRefundedAmountCents := zero; ha_failedCount := 0; ha_failures := [];
        ha_skippedBecauseThreshold := true |}, s)
  else
    let batch := take (ac_batchSize cfg) expiredHolds in
    let '(results, s') := fold_left auto_refund_turn batch ([], s) in
    let successes := List.filter ar_success results in
    let failures := List.filter (fun r => negb (ar_success r)) results in
    ({| ha_refundedCount := length successes;
        ha_totalRefundedAmountCents := fold_left (fun sum r => add sum (ar_refundedAmountCents r)) successes zero;
        ha_failedCount := length failures; ha_failures := failures; ha_skippedBecauseThreshold := false |}, s').
End AutoRefund.

Lemma filter_all_true {A} (p : A -> bool) l : (forall x, x ∈ l -> p x = true) -> List.filter p l = l.
Proof.
  induction l as [|x l IH]; intros H; [done|]. cbn [List.filter]. rewrite H by left. f_equal. apply IH. intros y Hy. apply H. by right.
Qed.

Lemma filter_all_false {A} (p : A -> bool) l : (forall x, x ∈ l -> p x = false) -> List.filter p l = [].
Proof.
  induction l as [|x l IH]; intros H; [done|]. cbn [List.filter]. rewrite H by left. apply IH. intros y Hy. apply H. by right.
Qed.

Section AutoRefundFacts.
Context {R T : Type} `{BookingIntentRepositoryLaws R} `{SlotRepositoryLaws T}.
Context (o : Outside).
Implicit Types s : St R T.

(** An intent after its automatic refund. *)
Definition auto_refunded (i : BookingIntentRecord) : BookingIntentRecord :=
  spread (refund_fields hold_refunded (o_nowIso o) (o_nowIso o) (resolveIntentPrice i) "hold_auto_refund") i.

Lemma expired_cases now i :
  hold_expired now i = true -> is_refundable_hold i = true /\ bi_status i = hold_placed /\ deadline_passed i now = true.
Proof. unfold hold_expired. intros [[? Hp%bool_decide_eq_true]%andb_true_iff ?]%andb_true_iff. done. Qed.

(** A deadline that has passed stays passed. *)
Lemma deadline_later i now later : now <= later -> deadline_passed i now = true -> deadline_passed i later = true.
Proof.
  unfold deadline_passed. intros Hle. destruct (bi_holdUntilMs i) as [h|]; [|done]. intros Hd.
  apply leb_trans with (of_Z now); [done|by apply of_Z_mono].
Qed.

Lemma auto_refund_runs now i s :
  now <= o_nowMs o -> findById (bi_id i) (st_intents s) = Some i -> hold_expired now i = true ->
  exists r', run (handle o) (autoRefundHold (bi_id i) false) s = (Ok (auto_refunded i), MkSt r' (released (bi_slotId i) (st_slots s))) /\
    listAll r' = update_first (has_id (bi_id i))
      (spread (refund_fields hold_refunded (o_nowIso o) (o_nowIso o) (resolveIntentPrice i) "hold_auto_refund")) (listAll (st_intents s)).
Proof.
  intros Hnow Hf (Hh & Hp & Hd%(deadline_later i now (o_nowMs o) Hnow))%expired_cases.
  destruct (run_update_intent o (bi_id i) (refund_fields hold_refunded (o_nowIso o) (o_nowIso o) (resolveIntentPrice i) "hold_auto_refund") s i Hf) as (r' & E & El).
  exists r'. split; [|done]. unfold autoRefundHold.
  rewrite run_bind, run_perform. cbn [handle fst snd]. rewrite Hf, run_bind, run_need. cbn [from_option_or].
  rewrite run_bind, run_throw_when, Hh, run_bind, run_throw_when, bool_decide_true by done. cbn [negb].
  rewrite run_bind, run_bind, run_perform. cbn [handle fst snd]. rewrite run_throw_when, Hd. cbn [negb].
  rewrite run_bind, run_perform. cbn [handle fst snd]. rewrite run_bind, run_perform. cbn [handle fst snd].
  by rewrite run_bind, E, run_bind, run_release.
Qed.

Lemma find_unique i s : ids_unique (listAll (st_intents s)) -> i ∈ listAll (st_intents s) -> findById (bi_id i) (st_intents s) = Some i.
Proof.
  rewrite law_findById. unfold ids_unique. induction (listAll (st_intents s)) as [|x l IH]; [intros _ Hi; by apply elem_of_nil in Hi|].
  rewrite fmap_cons. intros [Hx Hnd]%NoDup_cons Hi. cbn [find_first]. unfold has_id at 1. apply elem_of_cons in Hi as [->|Hi].
  - by rewrite bool_decide_true.
  - rewrite bool_decide_false; [by apply IH|]. intros E. apply Hx. rewrite E. by apply list_elem_of_fmap_2.
Qed.

(** The intents after the holds named in [ids] have been refunded. *)
Definition mark_refunded (ids : list string) (x : BookingIntentRecord) : BookingIntentRecord :=
  if bool_decide (bi_id x ∈ ids) then auto_refunded x else x.

Lemma mark_id ids x : bi_id (mark_refunded ids x) = bi_id x.
Proof. unfold mark_refunded. case_bool_decide; [apply spread_id|done]. Qed.

Lemma mark_unique ids l : ids_unique l -> ids_unique (map (mark_refunded ids) l).
Proof.
  unfold ids_unique. assert (bi_id <$> map (mark_refunded ids) l = bi_id <$> l) as ->; [|done].
  induction l as [|x l IH]; [done|]. cbn. by rewrite mark_id, IH.
Qed.

Definition refund_report (i : BookingIntentRecord) : AutoRefundResult :=
  {| ar_intentId := bi_id i; ar_success := true; ar_refundedAmountCents := resolveIntentPrice i; ar_error := None |}.

Lemma refunded_report i :
  {| ar_intentId := bi_id (auto_refunded i); ar_success := true;
     ar_refundedAmountCents := match bi_refundMetadata (auto_refunded i) with Some m => rm_refundedAmountCents m | None => zero end;
     ar_error := None |} = refund_report i.
Proof.
  unfold refund_report, auto_refunded. by destruct i.
Qed.

Lemma auto_refund_loop now batch acc s :
  now <= o_nowMs o -> ids_unique (listAll (st_intents s)) -> NoDup (map bi_id batch) ->
  (forall i, i ∈ batch -> i ∈ listAll (st_intents s) /\ hold_expired now i = true) ->
  exists s', fold_left (auto_refund_turn o) batch (acc, s) = (acc ++ map refund_report batch, s') /\
    listAll (st_intents s') = map (mark_refunded (map bi_id batch)) (listAll (st_intents s)) /\
    st_slots s' = fold_left (fun t i => released (bi_slotId i) t) batch (st_slots s).
Proof.
  intros Hnow. revert acc s. induction batch as [|i batch IH]; intros acc s Hu Hnd Hall.
  { exists s. cbn. rewrite app_nil_r. split_and!; [done| |done]. symmetry. rewrite <- map_id. apply map_ext. intros x. unfold mark_refunded.
    rewrite bool_decide_false; [done|]. apply not_elem_of_nil. }
  cbn [map] in Hnd. apply NoDup_cons in Hnd as [Hi Hnd]. destruct (Hall i ltac:(left)) as [Hin He].
  destruct (auto_refund_runs now i s Hnow (find_unique i s Hu Hin) He) as (r' & E & El). cbn [fold_left]. unfold auto_refund_turn at 2. rewrite E.
  assert (listAll r' = map (mark_refunded [bi_id i]) (listAll (st_intents s))) as El'.
  { rewrite El, update_first_map by done. apply map_ext_in. intros x Hx%list_elem_of_In. unfold mark_refunded, has_id.
    destruct (bool_decide_reflect (bi_id x = bi_id i)) as [Ex|Ex].
    - rewrite bool_decide_true by (rewrite Ex; left). pose proof (find_unique x s Hu Hx) as G1. pose proof (find_unique i s Hu Hin) as G2.
      rewrite Ex, G2 in G1. by injection G1 as ->.
    - rewrite bool_decide_false; [done|]. by intros ?%list_elem_of_singleton. }
  destruct (IH (acc ++ [refund_report i]) (MkSt r' (released (bi_slotId i) (st_slots s)))) as (s' & E' & Hl & Hs); cbn [st_intents st_slots] in *.
  - rewrite El'. by apply mark_unique.
  - done.
  - intros x Hx. destruct (Hall x ltac:(by right)) as [Hx1 Hx2]. split; [|done]. rewrite El'. apply list_elem_of_fmap. exists x. split; [|done].
    unfold mark_refunded. rewrite bool_decide_false; [done|]. intros Ex%list_elem_of_singleton. apply Hi. rewrite <- Ex. by apply list_elem_of_fmap_2.
  - exists s'. split; [|split].
    + cbn [map]. change (acc ++ refund_report i :: map refund_report batch) with (acc ++ [refund_report i] ++ map refund_report batch).
      rewrite app_assoc, <- E'. do 3 f_equal. by rewrite refunded_report.
    + rewrite Hl, El', map_map. apply map_ext. intros x. unfold mark_refunded at 1 3. rewrite mark_id. cbn [map].
      unfold mark_refunded. destruct (bool_decide_reflect (bi_id x ∈ [bi_id i])) as [Hx|Hx].
      * apply list_elem_of_singleton in Hx. rewrite Hx. rewrite (bool_decide_false (bi_id i ∈ map bi_id batch)) by done. by rewrite bool_decide_true by left.
      * assert (bool_decide (bi_id x ∈ bi_id i :: map bi_id batch) = bool_decide (bi_id x ∈ map bi_id batch)) as ->; [|done].
        apply bool_decide_ext. rewrite elem_of_cons. split; [|by right]. intros [Ex|?]; [|done]. exfalso. apply Hx. rewrite Ex. left.
    + by rewrite Hs.
Qed.

Lemma all_successful batch :
  List.filter ar_success (map refund_report batch) = map refund_report batch /\
  List.filter (fun r => negb (ar_success r)) (map refund_report batch) = [].
Proof. induction batch as [|i l [IH1 IH2]]; [done|]. cbn. by rewrite IH1. Qed.

Lemma reported_total batch z :
  fold_left (fun sum r => add sum (ar_refundedAmountCents r)) (map refund_report batch) z = fold_left add (map resolveIntentPrice batch) z.
Proof. revert z. induction batch as [|i l IH]; intros z; [done|]. cbn [map fold_left]. apply IH. Qed.

Lemma mark_expired now ids x : hold_expired now (mark_refunded ids x) = negb (bool_decide (bi_id x ∈ ids)) && hold_expired now x.
Proof.
  unfold mark_refunded. destruct (bool_decide (bi_id x ∈ ids)); [|done]. unfold auto_refunded. destruct x.
  unfold hold_expired, spread. cbn [fold_left refund_fields set_field]. rewrite (bool_decide_false (hold_refunded = hold_placed)) by done.
  by rewrite andb_false_r.
Qed.

Lemma expired_distinct now l : NoDup (map bi_id l) -> NoDup (map bi_id (List.filter (hold_expired now) l)).
Proof.
  induction l as [|x l IH]; intros Hnd; [constructor|]. cbn in Hnd. apply NoDup_cons in Hnd as [Hx Hnd]. cbn [List.filter].
  destruct (hold_expired now x); [|by apply IH]. cbn. apply NoDup_cons. split; [|by apply IH]. intros (y & Ey & Hy)%list_elem_of_fmap.
  apply Hx, list_elem_of_fmap. exists y. split; [done|]. rewrite list_elem_of_In, filter_In in Hy. apply list_elem_of_In. tauto.
Qed.

(** What is left for the next turn: the expired holds after the first [n]. *)
Lemma remaining_expired now l n :
  NoDup (map bi_id l) ->
  List.filter (hold_expired now) (map (mark_refunded (map bi_id (take n (List.filter (hold_expired now) l)))) l) = drop n (List.filter (hold_expired now) l).
Proof.
  intros Hnd. set (ids := map bi_id _).
  assert (forall l', List.filter (hold_expired now) (map (mark_refunded ids) l') = List.filter (fun x => negb (bool_decide (bi_id x ∈ ids))) (List.filter (hold_expired now) l')) as ->.
  { induction l' as [|x l' IH]; [done|]. cbn [map List.filter]. rewrite mark_expired. destruct (hold_expired now x) eqn:Ex; cbn [List.filter].
    - destruct (bool_decide_reflect (bi_id x ∈ ids)) as [Hx|Hx]; cbn [negb andb]; [apply IH|]. rewrite IH. f_equal. unfold mark_refunded. by rewrite bool_decide_false.
    - rewrite andb_false_r. apply IH. }
  subst ids. pose proof (expired_distinct now l Hnd) as Hf.
  generalize (List.filter (hold_expired now) l), Hf. clear. intros l Hnd.
  set (keep := fun x => _). assert (List.filter keep l = List.filter keep (take n l) ++ List.filter keep (drop n l)) as -> by by rewrite <- List.filter_app, take_drop.
  subst keep.
  rewrite <- (take_drop n l), map_app in Hnd. apply NoDup_app in Hnd as (_ & Hdis & _).
  assert (List.filter (fun x => negb (bool_decide (bi_id x ∈ map bi_id (take n l)))) (take n l) = []) as ->.
  { apply filter_all_false. intros x Hx. rewrite bool_decide_true; [done|]. by apply list_elem_of_fmap_2. }
  apply filter_all_true. intros x Hx. rewrite bool_decide_false; [done|]. intros Hy. apply (Hdis _ Hy). by apply list_elem_of_fmap_2.
Qed.

(** (C35) A turn of the refund worker that runs alone, with the service's clock,
    read as one instant for the turn, not behind the instant [now] at which the
    expired holds are listed: unless the safety brake stops it, with nothing
    changed, it refunds the first batch of the expired holds, each at its own
    price, reports them all as successes, releases their slots, leaves every other
    intent as it was, and the holds then expired at [now] are those after the
    batch, so that no hold is refunded twice. *)
Theorem auto_refund_turn_exact cfg now s :
  ids_unique (listAll (st_intents s)) -> now <= o_nowMs o ->
  let expired := findExpiredHolds now (st_intents s) in
  let batch := take (ac_batchSize cfg) expired in
  let '(r, s') := processHoldAutoRefundOnce o cfg now s in
  (ac_safetyThreshold cfg < Z.of_nat (length expired) -> ha_skippedBecauseThreshold r = true /\ s' = s) /\
  (Z.of_nat (length expired) <= ac_safetyThreshold cfg ->
     ha_skippedBecauseThreshold r = false /\ ha_refundedCount r = length batch /\ ha_failedCount r = 0%nat /\ ha_failures r = [] /\
     ha_totalRefundedAmountCents r = fold_left add (map resolveIntentPrice batch) zero /\
     listAll (st_intents s') = map (mark_refunded (map bi_id batch)) (listAll (st_intents s)) /\
     st_slots s' = fold_left (fun t i => released (bi_slotId i) t) batch (st_slots s) /\
     findExpiredHolds now (st_intents s') = drop (ac_batchSize cfg) expired).
Proof.
  intros Hu Hnow. cbv zeta. unfold processHoldAutoRefundOnce. destruct (Z.ltb_spec (ac_safetyThreshold cfg) (Z.of_nat (length (findExpiredHolds now (st_intents s))))) as [Hb|Hb].
  { split; [done|lia]. }
  rewrite !law_findExpired in *. set (expired := List.filter (hold_expired now) (listAll (st_intents s))) in *.
  destruct (auto_refund_loop now (take (ac_batchSize cfg) expired) [] s Hnow Hu) as (s' & E & Hl & Hs).
  - pose proof (expired_distinct now _ Hu) as Hd. fold expired in Hd. rewrite <- (take_drop (ac_batchSize cfg) expired), map_app in Hd.
    by apply NoDup_app in Hd as [? _].
  - intros i Hi. rewrite list_elem_of_In. apply (filter_In (hold_expired now)), list_elem_of_In. fold expired. rewrite <- (take_drop (ac_batchSize cfg) expired). apply elem_of_app. by left.
  - cbn [app] in E. rewrite E. destruct (all_successful (take (ac_batchSize cfg) expired)) as [-> ->]. split; [lia|]. intros _.
    cbn [ha_skippedBecauseThreshold ha_refundedCount ha_failedCount ha_failures ha_totalRefundedAmountCents].
    rewrite length_map, reported_total, law_findExpired, Hl. split_and!; try done. by apply remaining_expired.
Qed.
End AutoRefundFacts.

(** ** Witnesses *)

Definition w_hold (id slotId : string) (tenant : option string) (expiresAt : Z) : RefundableHold :=
  {| rf_id := id; rf_slotId := slotId; rf_tenantId := tenant; rf_customerId := "alice"; rf_status := rh_active;
     rf_createdAt := 0; rf_expiresAt := expiresAt; rf_confirmedAt := None; rf_releasedAt := None |}.

(** Three holds of a busy tenant, one of another, one without a tenant, one of a paused one. *)
Definition w_holds : HoldRepo :=
  fold_left (fun r h => snd (create_hold h r))
    [w_hold "" "slot-00000000-0000-4000-8000-000000000001" (Some "busy") 10; w_hold "" "b" (Some "busy") 10; w_hold "" "c" (Some "busy") 10;
     w_hold "" "d" (Some "small") 10; w_hold "" "e" None 99; w_hold "" "f" (Some "paused") 10]
    {| hr_holds := []; hr_sequence := 1 |}.

Definition w_sweep : SweepState InMemorySlots.t :=
  {| sv_holds := w_holds;
     sv_sched := {| sc_slots := {| InMemorySlots.slots := [set_bookable false w_slot1] |}; sc_pausedTenants := {["paused"]}; sc_reservedBundles := ∅ |};
     sv_events := [] |}.

Definition w_sweeper : SweeperConfig := {| sw_batchSize := 3; sw_safetyThreshold := 10000; sw_maxPerTenantPerBatch := None |}.

Example sweep_runs :
  (fun rs : SweepResult * SweepState InMemorySlots.t =>
     (sr_releasedCount rs.1, sr_skippedBecausePaused rs.1, sr_candidatesCount rs.1, map hv_holdId (sv_events rs.2))) <$>
    sweepRefundableHoldExpiryOnce w_sweeper 50 w_sweep = Some (3%nat, 1%nat, 4%nat, ["hold-1"; "hold-4"; "hold-2"]).
Proof. vm_compute. reflexivity. Qed.

Lemma sweep_exact_witness :
  exists r st', sweepRefundableHoldExpiryOnce w_sweeper 50 w_sweep = Some (r, st') /\
    exists batch, fair (eligible_holds 50 w_sweep) 3 None batch /\ sr_releasedCount r = length batch /\ swept 50 batch w_sweep st'.
Proof.
  destruct (sweep_exact w_sweeper 50 w_sweep) as (r & st' & E & _ & Hb & _ & Hs).
  - split; [apply (bool_decide_unpack _); vm_compute; exact I|]. intros id h Hid%map_get_elem. unfold w_sweep in Hid. vm_compute in Hid.
    repeat (apply elem_of_cons in Hid as [[= -> ->]|Hid]; [reflexivity|]). by apply elem_of_nil in Hid.
  - exists r, st'. split; [exact E|]. destruct (sr_skippedBecauseThreshold r).
    + exfalso. destruct Hb as [Hb _]. specialize (Hb eq_refl). revert Hb. vm_compute. discriminate.
    + destruct (Hs eq_refl) as (batch & Hf & _ & Hc & _ & Hsw). exists batch. split; [exact Hf|]. split; [exact Hc|exact Hsw].
Defined.

Definition w_refundable : MemSt :=
  after (w_outside 0) (createIntent w_env
    {| ci_slotId := "slot-00000000-0000-4000-8000-000000000001"; ci_note := None; ci_bookingType := Some refundable_hold;
       ci_holdDeadlineMs := Some (of_Z HOUR); ci_buyerCurrency := None |} alice) w_s0.

Definition w_worker : AutoRefundConfig := {| ac_batchSize := 100; ac_safetyThreshold := 1000 |}.

(** The hold is due after an hour, it is listed at two hours, and the service
    reads three hours. *)
Lemma auto_refund_turn_exact_witness :
  let s' := snd (processHoldAutoRefundOnce (w_outside (3 * HOUR)) w_worker (2 * HOUR) w_refundable) in
  length (findExpiredHolds (2 * HOUR) (st_intents w_refundable)) = 1%nat /\ findExpiredHolds (2 * HOUR) (st_intents s') = [].
Proof.
  assert (length (findExpiredHolds (2 * HOUR) (st_intents w_refundable)) = 1%nat) as Hlen by (vm_compute; reflexivity).
  split; [exact Hlen|]. pose proof (auto_refund_turn_exact (w_outside (3 * HOUR)) w_worker (2 * HOUR) w_refundable) as H.
  cbv zeta in H. rewrite Hlen in H.
  destruct (processHoldAutoRefundOnce (w_outside (3 * HOUR)) w_worker (2 * HOUR) w_refundable) as [r s'].
  destruct H as [_ H]; [apply (bool_decide_unpack _); vm_compute; exact I|vm_compute; discriminate|].
  destruct H as (_ & _ & _ & _ & _ & _ & _ & E); [vm_compute; discriminate|]. cbn [snd]. rewrite E. vm_compute. reflexivity.
Defined.

(** A listing instant ahead of the service's clock: the hold is listed, its
    refund is refused, and the turn reports a failure. *)
Example listing_ahead_of_clock_fails :
  let '(r, s') := processHoldAutoRefundOnce (w_outside 0) w_worker (2 * HOUR) w_refundable in
  ha_refundedCount r = 0%nat /\ ha_failedCount r = 1%nat.
Proof. vm_compute. split; reflexivity. Qed.
