(* ===== verification/EscrowDrift.v ===== *)
(** * EscrowDrift: reading the escrow contract by quorum and reporting drift

    [services/escrowReader.ts], [services/escrowReaderPool.ts] and
    [services/escrowDriftReconciler.ts].  A reader's answer, or its failure, and
    the local view of a slot are what they return when they are asked; the awaits
    in between are the order of the arguments.  Reader ids are not array indices, so
    that objects keep them in the order of insertion. *)
From stdpp Require Import base list strings sets pretty.
From Stdlib Require Import ZArith Lia.
From S2P Require Import Prelude JsNumber JsMap Domain EscrowEvents EscrowProjector.
Local Open Scope Z_scope.

(** ** Readers *)

Record SlotEscrowState : Type := {
  es_slotId : string;
  es_latestEventKind : option EscrowEventKind;
  es_latestTxHash : option string;
  es_latestLedgerSeq : Z;
  es_bookingIntentId : option string;
  es_eventCount : nat
}.

Record EscrowLedgerInfo : Type := { li_latestLedgerSeq : Z; li_latestCloseTime : string; li_protocolVersion : option Z }.

Record EscrowStateSnapshot : Type := {
  sn_slots : list SlotEscrowState;
  sn_ledgerInfo : EscrowLedgerInfo;
  sn_readAt : string;
  sn_readerId : string
}.

Definition no_events (slotId : string) : SlotEscrowState :=
  {| es_slotId := slotId; es_latestEventKind := None; es_latestTxHash := None; es_latestLedgerSeq := -1;
     es_bookingIntentId := None; es_eventCount := 0 |}.

(** [bySlot.get(slotId) ?? []]. *)
Definition bySlot (allEvents : list EscrowEvent) (slotId : string) : list EscrowEvent :=
  List.filter (fun e => bool_decide (ee_slotId e = slotId)) allEvents.

Definition slot_state (allEvents : list EscrowEvent) (slotId : string) : SlotEscrowState :=
  let events := bySlot allEvents slotId in
  match last events with
  | None => no_events slotId
  | Some latest =>
      {| es_slotId := slotId; es_latestEventKind := Some (ee_kind latest); es_latestTxHash := Some (ee_txHash latest);
         es_latestLedgerSeq := ee_ledgerSeq latest; es_bookingIntentId := ee_bookingIntentId latest; es_eventCount := length events |}
  end.

(** [HorizonEscrowReader.snapshot], given what its two requests answer. *)
Definition reader_snapshot (id readAt : string) (ledgerInfo : EscrowLedgerInfo) (allEvents : list EscrowEvent) (slotIds : list string)
    : EscrowStateSnapshot :=
  {| sn_slots := map (slot_state allEvents) slotIds; sn_ledgerInfo := ledgerInfo; sn_readAt := readAt; sn_readerId := id |}.

(** [HorizonEscrowReader.fetchEvents]. *)
Definition fetchEvents (startLedger : Z) : list EscrowEvent := [].

(** ** The pool *)

Record SlotStateComparison : Type := {
  cs_slotId : string;
  cs_consensus : bool;
  cs_majorityState : option SlotEscrowState;
  cs_readerStates : jsmap (option SlotEscrowState);
  cs_readerCount : nat;
  cs_agreeingReaders : nat;
  cs_disagreementExceededThreshold : bool
}.

Inductive PoolAlert : Type :=
| ReaderDisagreement (slotId : string) (readerIds : list string) (majorityState : SlotEscrowState) (disagreeingCount totalReaders : nat)
| HungJury (slotId : string) (readerStates : jsmap (option SlotEscrowState)).

Record QuorumVoteResult : Type := {
  qv_snapshots : list EscrowStateSnapshot;
  qv_slotComparisons : list SlotStateComparison;
  qv_failedReaderIds : list string;
  qv_healthyReaderCount : nat;
  qv_totalSlots : nat
}.

Record PoolOptions : Type := { po_quorumThreshold : num; po_disagreementThreshold : num }.

Definition DEFAULT_POOL : PoolOptions := {| po_quorumThreshold := lit 1 2; po_disagreementThreshold := lit 1 4 |}.

Inductive PoolError : Type := TooFewReaders (count : nat) | SplitVotePossible (count : nat).

(** The constructor's checks. *)
Definition check_pool (options : PoolOptions) (readers : nat) : result PoolError unit :=
  _ ← throw_if (Nat.ltb readers 3) (TooFewReaders readers);
  throw_if (leb (po_quorumThreshold options) (lit 1 2) && Nat.eqb (readers mod 2) 0) (SplitVotePossible readers).

Definition vote_key (state : SlotEscrowState) : string :=
  match es_latestEventKind state with Some k => kind_name k | None => "none" end +:+ ":" +:+ default "none" (es_latestTxHash state).

Record VoteEntry : Type := { vo_state : SlotEscrowState; vo_count : nat }.

Definition add_vote (voteTally : jsmap VoteEntry) (st : option SlotEscrowState) : jsmap VoteEntry :=
  match st with
  | None => voteTally
  | Some state =>
      match map_get (vote_key state) voteTally with
      | Some entry => map_set (vote_key state) {| vo_state := vo_state entry; vo_count := S (vo_count entry) |} voteTally
      | None => map_set (vote_key state) {| vo_state := state; vo_count := 1 |} voteTally
      end
  end.

Definition state_in (slotId : string) (snapshot : EscrowStateSnapshot) : option SlotEscrowState :=
  find_first (fun s => bool_decide (es_slotId s = slotId)) (sn_slots snapshot).

Definition reader_states (slotId : string) (snapshots : list EscrowStateSnapshot) : jsmap (option SlotEscrowState) :=
  fold_left (fun m sn => map_set (sn_readerId sn) (state_in slotId sn) m) snapshots [].

(** The first of the most voted for. *)
Definition top_vote (states : list (option SlotEscrowState)) : option VoteEntry :=
  head (js_sort (fun a b => Nat.ltb (vo_count a) (vo_count b)) (map_values (fold_left add_vote states []))).

(** [Math.ceil]. *)
Definition math_ceil (a : num) : num := neg (math_floor (neg a)).

Definition majorityRequired (options : PoolOptions) (healthyCount : nat) : num :=
  math_ceil (mul (of_Z (Z.of_nat healthyCount)) (po_quorumThreshold options)).

Definition differs_from (majority : SlotEscrowState) (st : option SlotEscrowState) : bool :=
  match st with
  | None => false
  | Some s => negb (bool_decide (es_latestEventKind s = es_latestEventKind majority)) || negb (bool_decide (es_latestTxHash s = es_latestTxHash majority))
  end.

(** One turn of [buildSlotComparisons]. *)
Definition compare_slot (options : PoolOptions) (snapshots : list EscrowStateSnapshot) (slotId : string) : SlotStateComparison * list PoolAlert :=
  let healthyCount := length snapshots in
  let readerStates := reader_states slotId snapshots in
  let topVote := top_vote (map_values readerStates) in
  let majority :=
    match topVote with
    | Some v => if geb (of_Z (Z.of_nat (vo_count v))) (majorityRequired options healthyCount) then Some v else None
    | None => None
    end in
  let agreeingReaders := match majority with Some v => vo_count v | None => 0%nat end in
  let disagreeingCount := (healthyCount - agreeingReaders)%nat in
  let disagreement :=
    Nat.ltb 0 healthyCount &&
    gtb (div (of_Z (Z.of_nat disagreeingCount)) (of_Z (Z.of_nat healthyCount))) (po_disagreementThreshold options) in
  ({| cs_slotId := slotId;
      cs_consensus := match majority with Some v => Nat.eqb (vo_count v) healthyCount | None => false end;
      cs_majorityState := vo_state <$> majority; cs_readerStates := readerStates; cs_readerCount := healthyCount;
      cs_agreeingReaders := agreeingReaders;
      cs_disagreementExceededThreshold := match majority with Some _ => disagreement | None => Nat.ltb 0 healthyCount end |},
   match majority with
   | Some v =>
       if disagreement then
         [ReaderDisagreement slotId (map fst (List.filter (fun kv => differs_from (vo_state v) kv.2) readerStates)) (vo_state v) disagreeingCount healthyCount]
       else []
   | None => if Nat.ltb 0 healthyCount then [HungJury slotId readerStates] else []
   end).

(** A reader with its answer; [None] when it rejects or times out. *)
Definition Answers : Type := list (string * option EscrowStateSnapshot).

Definition healthy (answers : Answers) : list EscrowStateSnapshot := omap snd answers.

Definition vote (options : PoolOptions) (answers : Answers) (slotIds : list string) : QuorumVoteResult * list PoolAlert :=
  let snapshots := healthy answers in
  let turns := map (compare_slot options snapshots) slotIds in
  ({| qv_snapshots := snapshots; qv_slotComparisons := map fst turns;
      qv_failedReaderIds := map fst (List.filter (fun a => negb (bool_decide (is_Some (snd a)))) answers);
      qv_healthyReaderCount := length snapshots; qv_totalSlots := length slotIds |},
   flat_map snd turns).

(** ** The reconciler *)

Inductive LocalIntentStatus : Type := lo_pending | lo_confirmed | lo_cancelled | lo_expired.

#[export] Instance local_intent_status_eq_dec : EqDecision LocalIntentStatus.
Proof. solve_decision. Defined.

Record LocalSlotState : Type := {
  lo_slotId : string;
  lo_intentStatus : option LocalIntentStatus;
  lo_lastKnownTxHash : option string;
  lo_lastKnownEventKind : option string
}.

Definition mapChainEventToIntentStatus (eventKind : option EscrowEventKind) : option LocalIntentStatus :=
  match eventKind with
  | Some Held => Some lo_confirmed
  | Some Released | Some Refunded => Some lo_cancelled
  | Some Slashed => Some lo_expired
  | _ => None
  end.

Inductive DriftReason : Type :=
| ChainAhead (txHash : string)
| LocalAhead (txHash : string)
| TxMismatch (chain local : string)
| StatusMismatch (expected found : LocalIntentStatus)
| NoQuorum.

Record DriftedSlot : Type := { dr_slotId : string; dr_chainState : SlotEscrowState; dr_localState : LocalSlotState; dr_reason : DriftReason }.

Definition compareStates (slotId : string) (chainState : SlotEscrowState) (localState : LocalSlotState) : option DriftedSlot :=
  let expectedStatus := mapChainEventToIntentStatus (es_latestEventKind chainState) in
  let drift reason := Some {| dr_slotId := slotId; dr_chainState := chainState; dr_localState := localState; dr_reason := reason |} in
  let check_status :=
    match expectedStatus, lo_intentStatus localState with
    | Some e, Some f => if bool_decide (e = f) then None else drift (StatusMismatch e f)
    | _, _ => None
    end in
  match es_latestTxHash chainState, lo_lastKnownTxHash localState with
  | Some c, None => drift (ChainAhead c)
  | None, Some l => drift (LocalAhead l)
  | Some c, Some l => if bool_decide (c = l) then check_status else drift (TxMismatch c l)
  | None, None => check_status
  end.

Record ReconcilerTickResult : Type := {
  tr_slotsEvaluated : nat;
  tr_slotsInSync : nat;
  tr_driftedSlots : list DriftedSlot;
  tr_readerFailures : nat
}.

Section Reconciler.
Context {E : Type}.

(** One turn of the comparison, with the answer of [getSlotState]. *)
Definition reconcile_slot (comparison : SlotStateComparison) (answer : result E (option LocalSlotState)) : result E (option DriftedSlot) :=
  localState ← answer;
  mret match localState with
       | None => None
       | Some local =>
           match cs_majorityState comparison with
           | None => Some {| dr_slotId := cs_slotId comparison; dr_chainState := no_events (cs_slotId comparison);
                             dr_localState := local; dr_reason := NoQuorum |}
           | Some chain => compareStates (cs_slotId comparison) chain local
           end
       end.

Fixpoint reconcile_slots (comparisons : list SlotStateComparison) (answer : nat -> string -> result E (option LocalSlotState)) (i : nat)
    : result E (list (option DriftedSlot)) :=
  match comparisons with
  | [] => mret []
  | c :: cs => d ← reconcile_slot c (answer i (cs_slotId c)); ds ← reconcile_slots cs answer (S i); mret (d :: ds)
  end.

Definition empty_tick : ReconcilerTickResult := {| tr_slotsEvaluated := 0; tr_slotsInSync := 0; tr_driftedSlots := []; tr_readerFailures := 0 |}.

(** [reconcile]: the repository's slot ids, or its refusal; what the readers
    answer; and what the repository answers when asked for the [i]th slot. *)
Definition reconcile (options : PoolOptions) (slotIds : result E (list string)) (answers : list string -> Answers)
    (local : nat -> string -> result E (option LocalSlotState)) : result E ReconcilerTickResult :=
  match slotIds with
  | Err _ => mret empty_tick
  | Ok [] => mret empty_tick
  | Ok ids =>
      let voteResult := fst (vote options (answers ids) ids) in
      turns ← reconcile_slots (qv_slotComparisons voteResult) local 0;
      mret {| tr_slotsEvaluated := length turns;
              tr_slotsInSync := length (List.filter (fun d => negb (bool_decide (is_Some d))) turns);
              tr_driftedSlots := omap id turns;
              tr_readerFailures := length (qv_failedReaderIds voteResult) |}
  end.

(** [manualOverride] over a repository with an override operation. *)
Definition manualOverride {L : Type} (getSlotState : string -> L -> result E (option LocalSlotState))
    (applyOverride : string -> LocalIntentStatus -> string -> L -> result E (LocalSlotState * L))
    (slotId : string) (targetStatus : LocalIntentStatus) (reason : string) (l : L) : result E (option LocalSlotState * LocalSlotState * L) :=
  previousState ← getSlotState slotId l;
  '(newState, l') ← applyOverride slotId targetStatus reason l;
  mret (previousState, newState, l').

End Reconciler.

(** ** Counting votes *)

Definition votes_for (k : string) (st : option SlotEscrowState) : bool :=
  match st with Some s => bool_decide (vote_key s = k) | None => false end.

(** How many of the states vote for [k]. *)
Definition votes (k : string) (states : list (option SlotEscrowState)) : nat := length (List.filter (votes_for k) states).

Lemma votes_app k l1 l2 : votes k (l1 ++ l2) = (votes k l1 + votes k l2)%nat.
Proof. unfold votes. by rewrite List.filter_app, length_app. Qed.

Lemma votes_disjoint k k' states : k <> k' -> (votes k states + votes k' states <= length states)%nat.
Proof.
  intros Hne. induction states as [|st l IH]; [done|]. unfold votes in *. cbn [List.filter length].
  destruct st as [s|]; cbn [votes_for]; [|lia].
  destruct (bool_decide_reflect (vote_key s = k)), (bool_decide_reflect (vote_key s = k')); cbn [length]; try lia. congruence.
Qed.

Lemma votes_le k states : (votes k states <= length states)%nat.
Proof. unfold votes. apply filter_length_le. Qed.

Lemma votes_pos k s states : Some s ∈ states -> vote_key s = k -> (0 < votes k states)%nat.
Proof.
  intros Hs Hk. unfold votes. assert (Some s ∈ List.filter (votes_for k) states) as H.
  { apply list_elem_of_In, filter_In. split; [by apply list_elem_of_In|]. cbn. by apply bool_decide_eq_true. }
  destruct (List.filter (votes_for k) states); [by apply elem_of_nil in H|cbn; lia].
Qed.

(** The tally holds one entry for each key voted for, with its number of votes. *)
Definition tallies (states : list (option SlotEscrowState)) (m : jsmap VoteEntry) : Prop :=
  NoDup (map_keys m) /\
  (forall k, map_get k m = None -> votes k states = 0%nat) /\
  (forall k v, map_get k m = Some v ->
     vo_count v = votes k states /\ (0 < vo_count v)%nat /\ vote_key (vo_state v) = k /\ Some (vo_state v) ∈ states).

Lemma tally_spec states : tallies states (fold_left add_vote states []).
Proof.
  induction states as [|st l IH] using rev_ind; [split; [constructor|]; split; [done|]; by intros|].
  rewrite fold_left_app. cbn [fold_left]. set (m := fold_left add_vote l []) in *. destruct IH as (Hnd & Hnone & Hsome).
  assert (forall k, votes k (l ++ [st]) = (votes k l + if votes_for k st then 1 else 0)%nat) as Hsnoc.
  { intros k. rewrite votes_app. unfold votes at 2. cbn. by destruct (votes_for k st). }
  destruct st as [s|]; cbn [add_vote].
  2: { split; [done|]. split; intros k; rewrite Hsnoc; cbn [votes_for]; rewrite Nat.add_0_r; [apply Hnone|].
       intros v Hv. destruct (Hsome k v Hv) as (? & ? & ? & ?). split_and!; try done. apply elem_of_app. by left. }
  set (e := match map_get (vote_key s) m with Some entry => {| vo_state := vo_state entry; vo_count := S (vo_count entry) |} | None => {| vo_state := s; vo_count := 1 |} end).
  assert (match map_get (vote_key s) m with
          | Some entry => map_set (vote_key s) {| vo_state := vo_state entry; vo_count := S (vo_count entry) |} m
          | None => map_set (vote_key s) {| vo_state := s; vo_count := 1 |} m end = map_set (vote_key s) e m) as ->
    by (unfold e; by destruct (map_get (vote_key s) m)).
  split; [by apply map_set_nodup|]. split.
  - intros k. rewrite map_get_set, Hsnoc. case_bool_decide as Ek; [done|]. intros Hk. cbn [votes_for].
    rewrite bool_decide_false by congruence. by rewrite Hnone.
  - intros k v. rewrite map_get_set, Hsnoc. cbn [votes_for]. case_bool_decide as Ek.
    + intros [= <-]. subst k. rewrite bool_decide_true by done. unfold e. destruct (map_get (vote_key s) m) as [v|] eqn:Ev; cbn [vo_count vo_state].
      * destruct (Hsome _ v Ev) as (-> & ? & ? & ?). split_and!; [lia|lia|done|]. apply elem_of_app. by left.
      * rewrite (Hnone _ Ev). split_and!; [lia|lia|done|]. apply elem_of_app. right. left.
    + intros Hv. rewrite bool_decide_false by congruence. destruct (Hsome k v Hv) as (? & ? & ? & ?). rewrite Nat.add_0_r. split_and!; try done. apply elem_of_app. by left.
Qed.

(** The top vote is cast, and no other key has more votes. *)
Lemma top_vote_spec states :
  match top_vote states with
  | None => forall k, votes k states = 0%nat
  | Some v => vo_count v = votes (vote_key (vo_state v)) states /\ (0 < vo_count v)%nat /\ Some (vo_state v) ∈ states /\
      forall k, (votes k states <= vo_count v)%nat
  end.
Proof.
  destruct (tally_spec states) as (Hnd & Hnone & Hsome). unfold top_vote. set (m := fold_left add_vote states []) in *.
  set (gt := fun a b : VoteEntry => Nat.ltb (vo_count a) (vo_count b)).
  assert (ordered gt (js_sort gt (map_values m))) as Hord.
  { apply (js_sort_ordered gt (fun _ => True)); [| |done]; unfold gt; intros *; rewrite ?Nat.ltb_lt, ?Nat.ltb_ge; lia. }
  assert (forall k v, map_get k m = Some v -> v ∈ js_sort gt (map_values m)) as Hin.
  { intros k v Hv%map_get_elem. apply js_sort_elem. unfold map_values. apply list_elem_of_fmap. by exists (k, v). }
  destruct (js_sort gt (map_values m)) as [|v l] eqn:El; cbn [head].
  - intros k. destruct (map_get k m) as [v|] eqn:Ev; [|by apply Hnone]. apply Hin in Ev. by apply elem_of_nil in Ev.
  - assert (v ∈ map_values m) as Hv by (apply (js_sort_elem gt); rewrite El; left). unfold map_values in Hv.
    apply list_elem_of_fmap in Hv as ([k v'] & -> & Hkv). apply elem_map_get in Hkv; [|done]. cbn [snd] in *.
    destruct (Hsome k v' Hkv) as (Hc & Hpos & Hk & Hs). rewrite Hk. split_and!; [done|done|done|]. intros k'.
    destruct (map_get k' m) as [w|] eqn:Ew; [|rewrite Hnone by done; lia]. destruct (Hsome k' w Ew) as (<- & _).
    specialize (Hin _ _ Ew). apply elem_of_cons in Hin as [->|Hw]; [done|]. destruct Hord as [Hhd _]. specialize (Hhd w Hw).
    unfold gt in Hhd. apply Nat.ltb_ge in Hhd. lia.
Qed.

(** ** The quorum *)

Lemma enough_votes healthyCount c :
  Z.of_nat healthyCount <= 2 ^ 53 -> (c <= healthyCount)%nat ->
  geb (of_Z (Z.of_nat c)) (majorityRequired DEFAULT_POOL healthyCount) = true <-> (healthyCount <= 2 * c)%nat.
Proof.
  intros Hh Hc. destruct half_unit as (u & HU & Hu & Hlit). unfold majorityRequired, DEFAULT_POOL. cbn [po_quorumThreshold].
  rewrite Hlit, !of_Z_exact by lia. unfold mul. set (n := Z.of_nat healthyCount).
  destruct (dbl_halves u n HU ltac:(lia)) as [Hrep Hb].
  replace (n * U * u) with (n * u * U) by ring. rewrite rnd_exact by (done || lia). rewrite norm_fin by done.
  unfold math_ceil, neg, math_floor, geb. rewrite zdiv_eq, leb_fin, Z.leb_le.
  assert (- (n * u) / U = - n / 2) as -> by (replace (- (n * u)) with (- n * u) by ring; rewrite HU; apply Z.div_mul_cancel_r; lia).
  rewrite <- Z.mul_opp_l, <- Z.mul_le_mono_pos_r by lia. pose proof (Z.div_mod (- n) 2 ltac:(lia)). pose proof (Z.mod_pos_bound (- n) 2 ltac:(lia)). lia.
Qed.

Lemma reader_states_set slotId snapshots :
  NoDup (map sn_readerId snapshots) ->
  map_keys (reader_states slotId snapshots) = map sn_readerId snapshots /\
  map_values (reader_states slotId snapshots) = map (state_in slotId) snapshots.
Proof.
  unfold reader_states. induction snapshots as [|sn l IH] using rev_ind; [done|]. rewrite fold_left_app, !map_app. cbn [fold_left map].
  intros (Hl & Hsn & _)%NoDup_app. destruct (IH Hl) as [Hk Hv]. rewrite map_set_fresh.
  - unfold map_keys, map_values in *. by rewrite !map_app, Hk, Hv.
  - rewrite Hk. intros Hin. apply (Hsn _ Hin). left.
Qed.

(** The states the healthy readers report for a slot. *)
Definition states_reported (answers : Answers) (slotId : string) : list (option SlotEscrowState) := map (state_in slotId) (healthy answers).

Definition majority_of (options : PoolOptions) (answers : Answers) (slotId : string) : option SlotEscrowState :=
  cs_majorityState (fst (compare_slot options (healthy answers) slotId)).

Section Quorum.
Context (answers : Answers).
Hypothesis distinct_readers : NoDup (map sn_readerId (healthy answers)).
Hypothesis few_readers : Z.of_nat (length (healthy answers)) <= 2 ^ 53.

(** The comparison of a slot, in terms of the votes. *)
Lemma compare_slot_spec slotId :
  let c := fst (compare_slot DEFAULT_POOL (healthy answers) slotId) in
  let states := states_reported answers slotId in
  match cs_majorityState c with
  | Some s => Some s ∈ states /\ cs_agreeingReaders c = votes (vote_key s) states /\ (0 < cs_agreeingReaders c)%nat /\
      (length states <= 2 * cs_agreeingReaders c)%nat /\ cs_consensus c = Nat.eqb (cs_agreeingReaders c) (length states) /\
      forall k, (votes k states <= cs_agreeingReaders c)%nat
  | None => cs_agreeingReaders c = 0%nat /\ cs_consensus c = false /\ forall k, votes k states = 0%nat \/ (2 * votes k states < length states)%nat
  end.
Proof.
  cbv zeta. unfold compare_slot. destruct (reader_states_set slotId _ distinct_readers) as [_ ->].
  change (map (state_in slotId) (healthy answers)) with (states_reported answers slotId).
  assert (length (states_reported answers slotId) = length (healthy answers)) as Hlen by apply length_map.
  pose proof (top_vote_spec (states_reported answers slotId)) as Htop. destruct (top_vote (states_reported answers slotId)) as [v|].
  - destruct Htop as (Hc & Hpos & Hs & Hmax).
    pose proof (votes_le (vote_key (vo_state v)) (states_reported answers slotId)) as Hle.
    pose proof (enough_votes (length (healthy answers)) (vo_count v) few_readers ltac:(lia)) as Hen.
    destruct (geb _ _) eqn:E; cbn [fst cs_majorityState cs_agreeingReaders cs_consensus fmap option_fmap option_map].
    + rewrite Hlen. split_and!; try done. by apply Hen.
    + split; [done|]. split; [done|]. intros k. right. rewrite Hlen. specialize (Hmax k).
      assert (~ (length (healthy answers) <= 2 * vo_count v)%nat) by (intros H; apply Hen in H; congruence). lia.
  - cbn. split; [done|]. split; [done|]. intros k. left. apply Htop.
Qed.
End Quorum.

(** (C22) The quorum of the readers is sound, with the default threshold of one
    half and when the healthy readers, at most 2^53, have distinct ids: a
    majority state is one that a healthy reader reported, no other has more
    votes, and at least half of the healthy readers voted for it; with an odd
    number of healthy readers a state is the majority exactly when more than half
    of them voted for it, so that it is the only one; there is consensus exactly
    when there is a healthy reader and all of them did.  Every slot asked for is
    compared, in order, and exactly the readers without an answer are listed as
    failed, each once per missing answer. *)
Theorem quorum_sound answers slotIds slotId :
  NoDup (map sn_readerId (healthy answers)) -> Z.of_nat (length (healthy answers)) <= 2 ^ 53 ->
  let r := fst (vote DEFAULT_POOL answers slotIds) in
  let states := states_reported answers slotId in
  let healthyCount := length (healthy answers) in
  map cs_slotId (qv_slotComparisons r) = slotIds /\ qv_healthyReaderCount r = healthyCount /\
  (healthyCount + length (qv_failedReaderIds r) = length answers)%nat /\
  (forall id, id ∈ qv_failedReaderIds r <-> (id, None) ∈ answers) /\
  forall c, c ∈ qv_slotComparisons r -> cs_slotId c = slotId ->
    (forall s, cs_majorityState c = Some s -> Some s ∈ states /\ (healthyCount <= 2 * votes (vote_key s) states)%nat /\
       cs_agreeingReaders c = votes (vote_key s) states /\ forall k, (votes k states <= votes (vote_key s) states)%nat) /\
    (Nat.Odd healthyCount -> forall k, (exists s, cs_majorityState c = Some s /\ vote_key s = k) <-> (healthyCount < 2 * votes k states)%nat) /\
    (cs_consensus c = true <-> (0 < healthyCount)%nat /\ exists k, votes k states = healthyCount).
Proof.
  intros Hd Hf. cbv zeta. unfold vote. cbn [fst qv_slotComparisons qv_healthyReaderCount qv_failedReaderIds].
  split; [|split; [done|split; [|split]]].
  - rewrite map_map, map_map. etrans; [|apply map_id]. by apply map_ext.
  - rewrite length_map. clear. unfold healthy. induction answers as [|[id [sn|]] l IH]; [done| |]; cbn in *; lia.
  - intros id. rewrite list_elem_of_fmap. split.
    + intros ([i o] & -> & Hin). apply list_elem_of_In, filter_In in Hin as [Hin Ho]. cbn in *. destruct o; [done|].
      by apply list_elem_of_In.
    + intros Hin. exists (id, None). split; [done|]. apply list_elem_of_In, filter_In. split; [by apply list_elem_of_In|done].
  - intros c Hc <-. rewrite map_map in Hc. apply list_elem_of_fmap in Hc as (id & -> & _).
    pose proof (compare_slot_spec answers Hd Hf id) as Hs. cbv zeta in Hs.
    change (cs_slotId (compare_slot DEFAULT_POOL (healthy answers) id).1) with id.
    assert (length (states_reported answers id) = length (healthy answers)) as Hlen by apply length_map. rewrite <- Hlen.
    destruct (cs_majorityState _) as [s|].
    + destruct Hs as (Hin & Ha & Hpos & Hhalf & Hcons & Hmax). rewrite Ha in *. split; [|split].
      * intros s' [= <-]. done.
      * intros [h Hodd] k. split; [intros (s' & [= <-] & <-); lia|]. intros Hk. exists s. split; [done|].
        destruct (decide (vote_key s = k)) as [|Hne]; [done|]. pose proof (votes_disjoint (vote_key s) k (states_reported answers id) Hne). lia.
      * rewrite Hcons, Nat.eqb_eq. split; [intros E; split; [lia|]; by exists (vote_key s)|]. intros (_ & k & Hk). specialize (Hmax k).
        pose proof (votes_le (vote_key s) (states_reported answers id)). lia.
    + destruct Hs as (Ha & Hcons & Hmax). split; [done|]. split.
      * intros Hodd k. split; [by intros (? & ? & _)|]. destruct (Hmax k); lia.
      * rewrite Hcons. split; [done|]. intros (Hpos & k & Hk). destruct (Hmax k); lia.
Qed.

(** A key stands for its state, but for a transaction hash that reads "none". *)
Lemma vote_key_inj s s' :
  es_latestTxHash s <> Some "none"%string -> es_latestTxHash s' <> Some "none"%string -> vote_key s = vote_key s' ->
  es_latestEventKind s = es_latestEventKind s' /\ es_latestTxHash s = es_latestTxHash s'.
Proof.
  intros Hn Hn' Hk. unfold vote_key in Hk.
  assert (es_latestEventKind s = es_latestEventKind s' /\ default "none"%string (es_latestTxHash s) = default "none"%string (es_latestTxHash s')) as [Hkind Htx].
  { destruct (es_latestEventKind s) as [[]|], (es_latestEventKind s') as [[]|]; simpl in Hk; try discriminate Hk; injection Hk as Hk; done. }
  split; [done|]. destruct (es_latestTxHash s), (es_latestTxHash s'); cbn in Htx; congruence.
Qed.

(** Two healthy readers of three that disagree: the pool admits three readers
    with the default threshold, one of them fails, and the state that the first of the
    other two reports passes for the majority, without a hung jury. *)
Lemma split_vote_passes :
  let chain kind tx := {| es_slotId := "s"; es_latestEventKind := Some kind; es_latestTxHash := Some tx; es_latestLedgerSeq := 1;
                          es_bookingIntentId := None; es_eventCount := 1 |} in
  let info := {| li_latestLedgerSeq := 1; li_latestCloseTime := ""; li_protocolVersion := None |} in
  let reader id st := (id, Some {| sn_slots := [st]; sn_ledgerInfo := info; sn_readAt := ""; sn_readerId := id |}) in
  let answers := [reader "a"%string (chain Held "t1"%string); reader "b"%string (chain Refunded "t2"%string); ("c"%string, None)] in
  check_pool DEFAULT_POOL 3 = Ok tt /\
  cs_majorityState <$> qv_slotComparisons (fst (vote DEFAULT_POOL answers ["s"%string])) = [Some (chain Held "t1"%string)] /\
  votes (vote_key (chain Refunded "t2"%string)) (states_reported answers "s") = votes (vote_key (chain Held "t1"%string)) (states_reported answers "s") /\
  ~ exists slotId states, HungJury slotId states ∈ snd (vote DEFAULT_POOL answers ["s"%string]).
Proof.
  cbv zeta. split_and!; [vm_compute; reflexivity..|]. intros (slotId & states & Hin). vm_compute in Hin.
  apply list_elem_of_singleton in Hin. discriminate Hin.
Qed.

(** ** What is reported as drift *)

(** The chain and the local view agree: the same transaction, or none on both
    sides, and no known status other than the one expected. *)
Definition in_sync (chain : SlotEscrowState) (local : LocalSlotState) : Prop :=
  es_latestTxHash chain = lo_lastKnownTxHash local /\
  forall e f, mapChainEventToIntentStatus (es_latestEventKind chain) = Some e -> lo_intentStatus local = Some f -> e = f.

Lemma compareStates_spec slotId chain local :
  match compareStates slotId chain local with
  | None => in_sync chain local
  | Some d => dr_slotId d = slotId /\ dr_chainState d = chain /\ dr_localState d = local /\ ~ in_sync chain local
  end.
Proof.
  unfold compareStates, in_sync.
  destruct (es_latestTxHash chain) as [c|], (lo_lastKnownTxHash local) as [l|]; cbn; try (split_and!; [done..|intros [? _]; done]).
  - case_bool_decide as Ec; [|cbn; split_and!; [done..|intros [[=] _]; done]]. subst l.
    destruct (mapChainEventToIntentStatus _) as [e|]; [|by split]. destruct (lo_intentStatus local) as [f|]; [|by split].
    case_bool_decide as Ef; [split; [done|]; congruence|]. cbn. split_and!; [done..|]. intros [_ H]. apply Ef. by apply H.
  - destruct (mapChainEventToIntentStatus _) as [e|]; [|by split]. destruct (lo_intentStatus local) as [f|]; [|by split].
    case_bool_decide as Ef; [split; [done|]; congruence|]. cbn. split_and!; [done..|]. intros [_ H]. apply Ef. by apply H.
Qed.

Section Reports.
Context {E : Type} (local : nat -> string -> result E (option LocalSlotState)).

(** What a report on a slot claims. *)
Definition reports (comparison : SlotStateComparison) (answer : option LocalSlotState) (d : DriftedSlot) : Prop :=
  dr_slotId d = cs_slotId comparison /\ answer = Some (dr_localState d) /\
  match cs_majorityState comparison with
  | None => dr_reason d = NoQuorum
  | Some chain => dr_chainState d = chain /\ ~ in_sync chain (dr_localState d)
  end.

Definition unreported (comparison : SlotStateComparison) (answer : option LocalSlotState) : Prop :=
  forall l, answer = Some l -> exists chain, cs_majorityState comparison = Some chain /\ in_sync chain l.

Lemma reconcile_slot_ok comparison answer :
  exists d, reconcile_slot (E := E) comparison (Ok answer) = Ok d /\
    match d with Some d => reports comparison answer d | None => unreported comparison answer end.
Proof.
  unfold reconcile_slot, reports, unreported. cbn. destruct answer as [l|]; [|eexists; split; [done|]; by intros].
  destruct (cs_majorityState comparison) as [chain|]; eexists; split; try done.
  pose proof (compareStates_spec (cs_slotId comparison) chain l) as Hc. destruct (compareStates _ _ _) as [d|].
  - destruct Hc as (? & ? & -> & ?). done.
  - intros l' [= <-]. by exists chain.
Qed.

Lemma reconcile_slots_ok comparisons i :
  (forall j c, comparisons !! j = Some c -> is_ok (local (i + j)%nat (cs_slotId c)) = true) ->
  exists ds, reconcile_slots comparisons local i = Ok ds /\ length ds = length comparisons /\
    forall j c, comparisons !! j = Some c -> exists a, local (i + j)%nat (cs_slotId c) = Ok a /\
      (exists d, ds !! j = Some d /\ match d with Some d => reports c a d | None => unreported c a end).
Proof.
  revert i. induction comparisons as [|c cs IH]; intros i Hok; [by exists []|].
  pose proof (Hok 0%nat c eq_refl) as H0. rewrite Nat.add_0_r in H0. destruct (local i (cs_slotId c)) as [a|] eqn:Ea; [|done].
  destruct (reconcile_slot_ok c a) as (d & Hd & Hspec). destruct (IH (S i)) as (ds & Hds & Hl & Hall).
  { intros j c' Hj. replace (S i + j)%nat with (i + S j)%nat by lia. by apply (Hok (S j)). }
  exists (d :: ds). cbn [reconcile_slots]. rewrite Ea, Hd. cbn [mbind result_bind]. rewrite Hds. cbn. split; [done|]. split; [by rewrite Hl|].
  intros [|j] c' Hj; cbn in Hj.
  - injection Hj as <-. exists a. rewrite Nat.add_0_r. split; [done|]. by exists d.
  - destruct (Hall j c' Hj) as (a' & Ha' & d' & Hd' & Hs'). exists a'. replace (i + S j)%nat with (S i + j)%nat by lia. split; [done|]. by exists d'.
Qed.
End Reports.

Lemma omap_counts {A} (l : list (option A)) :
  (length (List.filter (fun d => negb (bool_decide (is_Some d))) l) + length (omap id l))%nat = length l.
Proof.
  induction l as [|[x|] l IH]; [done| |]; cbn [List.filter omap list_omap id length].
  - rewrite bool_decide_true by by eexists. cbn [negb]. change (list_omap (option A) A id l) with (omap id l). cbn in *. lia.
  - rewrite bool_decide_false by by apply is_Some_None. cbn. lia.
Qed.

Section Ticks.
Context {E : Type} (options : PoolOptions) (answers : list string -> Answers) (local : nat -> string -> result E (option LocalSlotState)).

(** A tick, slot by slot. *)
Lemma tick_spec ids :
  ids <> [] -> (forall j id, ids !! j = Some id -> is_ok (local j id) = true) ->
  exists r ds, reconcile options (Ok ids) answers local = Ok r /\ length ds = length ids /\ tr_slotsEvaluated r = length ids /\
    (tr_slotsInSync r + length (tr_driftedSlots r))%nat = length ids /\ tr_driftedSlots r = omap id ds /\
    forall j id, ids !! j = Some id -> exists a o, local j id = Ok a /\ ds !! j = Some o /\
      let c := fst (compare_slot options (healthy (answers ids)) id) in
      match o with Some d => reports c a d | None => unreported c a end.
Proof.
  intros Hne Hok. set (cs := qv_slotComparisons (fst (vote options (answers ids) ids))).
  assert (forall j c, cs !! j = Some c <-> exists id, ids !! j = Some id /\ c = fst (compare_slot options (healthy (answers ids)) id)) as Hcs.
  { intros j c. unfold cs, vote. cbn [fst qv_slotComparisons]. rewrite map_map. rewrite list_lookup_fmap, fmap_Some. done. }
  destruct (reconcile_slots_ok local cs 0) as (ds & Hds & Hl & Hall).
  { intros j c (id & Hj & ->)%Hcs. cbn. by apply Hok. }
  assert (length cs = length ids) as Hlen by (unfold cs, vote; cbn [fst qv_slotComparisons]; by rewrite !length_map).
  destruct ids as [|id0 ids']; [done|]. set (ids := id0 :: ids') in *. eexists _, ds. split.
  { unfold reconcile. fold cs. rewrite Hds. reflexivity. }
  cbn [tr_slotsEvaluated tr_slotsInSync tr_driftedSlots]. rewrite omap_counts, Hl, Hlen. split_and!; [done..|].
  intros j id Hj. destruct (Hall j (fst (compare_slot options (healthy (answers ids)) id))) as (a & Ha & o & Ho & Hr).
  { apply Hcs. by exists id. }
  exists a, o. done.
Qed.

(** (C23) A tick reports exactly the drift: if the repository answers, every
    slot is evaluated and counted either as in sync or as drifted; each report is about
    a slot with a local view that disagrees with the state the quorum settled on, or
    about which no quorum was reached; and a slot with a local view is states_reported unless
    the quorum settled on a state that agrees with it. *)
Theorem drift_reported_exactly ids :
  ids <> [] -> (forall j id, ids !! j = Some id -> is_ok (local j id) = true) ->
  exists r, reconcile options (Ok ids) answers local = Ok r /\
    tr_slotsEvaluated r = length ids /\ (tr_slotsInSync r + length (tr_driftedSlots r))%nat = length ids /\
    (forall d, d ∈ tr_driftedSlots r -> exists j, ids !! j = Some (dr_slotId d) /\ local j (dr_slotId d) = Ok (Some (dr_localState d)) /\
       match majority_of options (answers ids) (dr_slotId d) with
       | None => dr_reason d = NoQuorum
       | Some chain => dr_chainState d = chain /\ ~ in_sync chain (dr_localState d)
       end) /\
    (forall j id l, ids !! j = Some id -> local j id = Ok (Some l) ->
       (exists d, d ∈ tr_driftedSlots r /\ dr_slotId d = id /\ dr_localState d = l) \/
       exists chain, majority_of options (answers ids) id = Some chain /\ in_sync chain l).
Proof.
  intros Hne Hok. destruct (tick_spec ids Hne Hok) as (r & ds & E1 & Hl & E2 & E3 & E4 & Hall). exists r. split_and!; [done..| |]; rewrite E4.
  - intros d (o & Ho & Hd)%list_elem_of_omap. cbn in Hd. subst o. apply list_elem_of_lookup_1 in Ho as [j Hj].
    destruct (lookup_lt_is_Some_2 ids j) as [id Hid]; [rewrite <- Hl; by eapply lookup_lt_Some|].
    destruct (Hall j id Hid) as (a & o & Ha & Ho & Hr). assert (o = Some d) as -> by congruence. destruct Hr as (Hd & -> & Hm).
    cbn in Hd. rewrite Hd. exists j. done.
  - intros j id l Hj Hloc. destruct (Hall j id Hj) as (a & o & Ha & Ho & Hr). rewrite Hloc in Ha. injection Ha as <-. destruct o as [d|].
    + left. exists d. destruct Hr as (Hid & [= <-] & _). split; [|done]. apply list_elem_of_omap. exists (Some d). split; [|done]. by eapply list_elem_of_lookup_2.
    + right. by apply Hr.
Qed.
End Ticks.

(** ** The readers as they are *)

(** [HorizonEscrowReader] after a successful request for the latest ledger. *)
Definition horizon_answers (readerIds : list string) (readAt : string) (info : EscrowLedgerInfo) (slotIds : list string) : Answers :=
  map (fun id => (id, Some (reader_snapshot id readAt info (fetchEvents 0) slotIds))) readerIds.

Lemma horizon_healthy readerIds readAt info slotIds :
  healthy (horizon_answers readerIds readAt info slotIds) = map (fun id => reader_snapshot id readAt info (fetchEvents 0) slotIds) readerIds.
Proof. unfold healthy, horizon_answers. induction readerIds as [|id l IH]; [done|]. cbn. f_equal. exact IH. Qed.

Lemma horizon_state id readAt info slotIds slotId :
  slotId ∈ slotIds -> state_in slotId (reader_snapshot id readAt info (fetchEvents 0) slotIds) = Some (no_events slotId).
Proof.
  unfold state_in, reader_snapshot. cbn [sn_slots fetchEvents]. induction slotIds as [|x l IH]; [by intros ?%elem_of_nil|].
  intros Hx. cbn. case_bool_decide as Ex; [by subst x|]. apply elem_of_cons in Hx as [->|Hx]; [done|]. by apply IH.
Qed.

Lemma horizon_majority readerIds readAt info slotIds slotId :
  NoDup readerIds -> readerIds <> [] -> Z.of_nat (length readerIds) <= 2 ^ 53 -> slotId ∈ slotIds ->
  majority_of DEFAULT_POOL (horizon_answers readerIds readAt info slotIds) slotId = Some (no_events slotId).
Proof.
  intros Hnd Hne Hfew Hin. set (answers := horizon_answers readerIds readAt info slotIds).
  assert (map sn_readerId (healthy answers) = readerIds) as Hids by (unfold answers; rewrite horizon_healthy, map_map; apply map_id).
  assert (states_reported answers slotId = map (fun _ => Some (no_events slotId)) readerIds) as Hrep.
  { unfold states_reported, answers. rewrite horizon_healthy, map_map. apply map_ext. intros id. by apply horizon_state. }
  assert (length (healthy answers) = length readerIds) as Hlen by (unfold answers; rewrite horizon_healthy; apply length_map).
  pose proof (compare_slot_spec answers ltac:(by rewrite Hids) ltac:(by rewrite Hlen) slotId) as Hs. cbv zeta in Hs. unfold majority_of.
  destruct (cs_majorityState _) as [s|].
  - destruct Hs as (Hs & _). rewrite Hrep in Hs. apply list_elem_of_fmap in Hs as (? & -> & _). done.
  - destruct Hs as (_ & _ & Hs). exfalso. specialize (Hs (vote_key (no_events slotId))).
    assert (votes (vote_key (no_events slotId)) (states_reported answers slotId) = length (states_reported answers slotId)) as Hv.
    { rewrite Hrep. clear. induction readerIds as [|id l IH]; [done|]. unfold votes in *. cbn [map List.filter votes_for].
      rewrite bool_decide_true by done. cbn [length]. by rewrite IH. }
    rewrite Hv in Hs. destruct readerIds; [done|]. rewrite Hrep in Hs. cbn in Hs. lia.
Qed.

(** As the readers are written, they never see an event: whatever the chain
    holds, a tick over healthy Horizon readers reports exactly the slots whose local view
    knows a transaction, as if the chain had no events for them. *)
Theorem stub_readers_report_reorgs {E : Type} readerIds readAt info ids (local : nat -> string -> result E (option LocalSlotState)) :
  NoDup readerIds -> readerIds <> [] -> Z.of_nat (length readerIds) <= 2 ^ 53 -> ids <> [] ->
  (forall j id, ids !! j = Some id -> is_ok (local j id) = true) ->
  exists r, reconcile DEFAULT_POOL (Ok ids) (horizon_answers readerIds readAt info) local = Ok r /\
    (forall d, d ∈ tr_driftedSlots r -> dr_chainState d = no_events (dr_slotId d) /\ is_Some (lo_lastKnownTxHash (dr_localState d))) /\
    (forall j id l, ids !! j = Some id -> local j id = Ok (Some l) -> is_Some (lo_lastKnownTxHash l) ->
       exists d, d ∈ tr_driftedSlots r /\ dr_slotId d = id /\ dr_localState d = l).
Proof.
  intros Hnd Hne Hfew Hids Hok.
  destruct (tick_spec DEFAULT_POOL (horizon_answers readerIds readAt info) local ids Hids Hok) as (r & ds & E1 & Hl & _ & _ & E4 & Hall).
  assert (forall j id, ids !! j = Some id ->
    cs_majorityState (fst (compare_slot DEFAULT_POOL (healthy (horizon_answers readerIds readAt info ids)) id)) = Some (no_events id)) as Hmaj.
  { intros j id Hj. apply horizon_majority; try done. by eapply list_elem_of_lookup_2. }
  exists r. split; [done|]. rewrite E4. split.
  - intros d (o & Ho & Hd)%list_elem_of_omap. cbn in Hd. subst o. apply list_elem_of_lookup_1 in Ho as [j Hj].
    destruct (lookup_lt_is_Some_2 ids j) as [id Hid]; [rewrite <- Hl; by eapply lookup_lt_Some|].
    destruct (Hall j id Hid) as (a & o & Ha & Ho & Hr). assert (o = Some d) as -> by congruence. destruct Hr as (Hd & -> & Hm).
    rewrite (Hmaj j id Hid) in Hm. destruct Hm as [Hc Hsync]. cbn in Hd. rewrite Hd. split; [done|].
    destruct (lo_lastKnownTxHash (dr_localState d)) as [tx|] eqn:Et; [by eexists|]. exfalso. apply Hsync. by split; [rewrite Et|].
  - intros j id l Hj Hloc [tx Htx]. destruct (Hall j id Hj) as (a & o & Ha & Ho & Hr). rewrite Hloc in Ha. injection Ha as <-. destruct o as [d|].
    + exists d. destruct Hr as (Hid & [= <-] & _). split; [|done]. apply list_elem_of_omap. exists (Some d). split; [|done]. by eapply list_elem_of_lookup_2.
    + destruct (Hr l eq_refl) as (chain & Hc & [Htx' _]). rewrite (Hmaj j id Hj) in Hc. injection Hc as <-. rewrite Htx in Htx'. done.
Qed.

(** The expected status follows the projector's target, except that a captured
    escrow, which the projector turns into a firm booking, is not checked at all. *)
Lemma expected_follows_projector k :
  match mapChainEventToIntentStatus (Some k), TARGET_BY_KIND k with
  | Some lo_confirmed, confirmed | Some lo_cancelled, cancelled | Some lo_expired, expired => True
  | None, firm => k = Captured
  | _, _ => False
  end.
Proof. by destruct k. Qed.

Lemma captured_unchecked slotId chain local :
  es_latestEventKind chain = Some Captured -> es_latestTxHash chain = lo_lastKnownTxHash local -> compareStates slotId chain local = None.
Proof.
  intros Hk Ht. pose proof (compareStates_spec slotId chain local) as Hc. destruct (compareStates _ _ _); [|done].
  destruct Hc as (_ & _ & _ & Hc). exfalso. apply Hc. split; [done|]. by rewrite Hk.
Qed.

(** ** Witnesses *)

Definition w_info : EscrowLedgerInfo := {| li_latestLedgerSeq := 7; li_latestCloseTime := "t"; li_protocolVersion := None |}.

Definition w_held : EscrowEvent :=
  {| ee_kind := Held; ee_txHash := "tx"; ee_eventIndex := 0; ee_ledgerSeq := 5; ee_closeTime := "t"; ee_contractAddress := "C";
     ee_slotId := "s"; ee_bookingIntentId := None; ee_amount := None |}.

Definition w_reader (events : list EscrowEvent) (id : string) : string * option EscrowStateSnapshot :=
  (id, Some (reader_snapshot id "now" w_info events ["s"; "u"]%string)).

(** Two readers see the event, one lags behind. *)
Definition w_answers : Answers := [w_reader [w_held] "a"; w_reader [] "b"; w_reader [w_held] "c"].

Definition w_local : LocalSlotState :=
  {| lo_slotId := "s"; lo_intentStatus := Some lo_pending; lo_lastKnownTxHash := Some "tx"%string; lo_lastKnownEventKind := Some "Held"%string |}.

Definition w_views (i : nat) (id : string) : result unit (option LocalSlotState) := Ok (if bool_decide (id = "s"%string) then Some w_local else None).

Lemma quorum_sound_witness :
  exists c s, c ∈ qv_slotComparisons (fst (vote DEFAULT_POOL w_answers ["s"%string])) /\ cs_majorityState c = Some s /\
    es_latestTxHash s = Some "tx"%string /\ cs_agreeingReaders c = 2%nat.
Proof.
  destruct (quorum_sound w_answers ["s"%string] "s") as (_ & _ & _ & _ & Hc);
    [apply (bool_decide_unpack _); vm_compute; exact I|vm_compute; discriminate|].
  exists (fst (compare_slot DEFAULT_POOL (healthy w_answers) "s")).
  destruct (Hc _ ltac:(left) eq_refl) as (Hm & Hodd & _).
  destruct (proj2 (Hodd ltac:(by exists 1%nat) "Held:tx"%string)) as (s & Hs & Hk); [apply (bool_decide_unpack _); vm_compute; exact I|].
  exists s. split; [left|]. split; [exact Hs|]. destruct (Hm s Hs) as (Hin & _ & Ha & _). split.
  - assert (states_reported w_answers "s" = [Some (slot_state [w_held] "s"); Some (no_events "s"); Some (slot_state [w_held] "s")]) as E by (vm_compute; reflexivity).
    rewrite E in Hin. repeat (apply elem_of_cons in Hin as [[= ->]|Hin]; [first [reflexivity|vm_compute in Hk; discriminate Hk]|]).
    destruct (proj1 (elem_of_nil _) Hin).
  - rewrite Ha, Hk. vm_compute. reflexivity.
Defined.

Lemma drift_reported_exactly_witness :
  exists r, reconcile DEFAULT_POOL (Ok ["s"; "u"]%string) (fun _ => w_answers) w_views = Ok r /\ (tr_slotsInSync r + length (tr_driftedSlots r))%nat = 2%nat /\
    exists d, d ∈ tr_driftedSlots r /\ dr_slotId d = "s"%string.
Proof.
  destruct (drift_reported_exactly DEFAULT_POOL (fun _ => w_answers) w_views ["s"; "u"]%string) as (r & E & _ & Hn & _ & Hall); [discriminate|by intros|].
  exists r. split; [exact E|]. split; [exact Hn|]. destruct (Hall 0%nat "s"%string w_local eq_refl eq_refl) as [(d & Hd & Hs & _)|(chain & Hm & Hsync)].
  - by exists d.
  - exfalso. vm_compute in Hm. injection Hm as <-. destruct Hsync as [_ Hst]. discriminate (Hst lo_confirmed lo_pending eq_refl eq_refl).
Defined.

Lemma stub_readers_report_reorgs_witness :
  exists r, reconcile DEFAULT_POOL (Ok ["s"; "u"]%string) (horizon_answers ["a"; "b"; "c"]%string "now" w_info) w_views = Ok r /\
    exists d, d ∈ tr_driftedSlots r /\ dr_slotId d = "s"%string /\ dr_localState d = w_local.
Proof.
  destruct (stub_readers_report_reorgs ["a"; "b"; "c"]%string "now" w_info ["s"; "u"]%string w_views) as (r & E & _ & Hall);
    [apply (bool_decide_unpack _); vm_compute; exact I|discriminate|vm_compute; discriminate|discriminate|by intros|].
  exists r. split; [exact E|]. apply (Hall 0%nat "s"%string w_local eq_refl eq_refl). by eexists.
Defined.
